(** * ClaraVerse execution core: a shallow embedding of the Go sources

    The development follows the repository's packages:
    - [Registry]  : [execution.ExecutorRegistry] (Get / Register);
    - [Limiter]   : [middleware.ExecutionLimiter] over a model of the Redis
                    client it talks to;
    - [ModelPool] : [services.MemoryModelPool] (round-robin selection with
                    health tracking);
    - [Transport] : [handlers.WorkflowWebSocketHandler.handleExecuteWorkflow].

    Go values are modelled as the code has them: [int64] as [Z] with the
    wrap-around written out, Go maps as [gmap], a nil pointer as [None], a
    function returning [(T, error)] as [Result T], a crash as an outcome of
    its own. *)

From Stdlib Require Import ZArith List Bool Lia Sorted.
From stdpp Require Import base option list gmap strings fin_maps.

Open Scope string_scope.
Open Scope list_scope.
Open Scope Z_scope.

(** ** Go-level conventions shared by all packages *)

(** A Go function returning [(T, error)]: either a value with a nil error or
    an error (whose text is what [err.Error()] yields). *)
Inductive Result (T : Type) : Type :=
| Ok (v : T)
| Err (msg : string).
Arguments Ok {T} v.
Arguments Err {T} msg.

Definition is_ok {T} (r : Result T) : bool :=
  match r with Ok _ => true | Err _ => false end.

Definition is_err {T} (r : Result T) : bool := negb (is_ok r).

(** [int64]: two's complement on 64 bits. *)
Definition min_int64 : Z := - 2 ^ 63.
Definition max_int64 : Z := 2 ^ 63 - 1.

Definition in_int64 (z : Z) : Prop := min_int64 <= z <= max_int64.

Definition in_int64b (z : Z) : bool := (min_int64 <=? z) && (z <=? max_int64).

(** Reduction of a mathematical integer to its [int64] representative. *)
Definition wrap64 (z : Z) : Z := (z + 2 ^ 63) mod 2 ^ 64 - 2 ^ 63.

(** Go's [a - b] on [int64]. *)
Definition sub64 (a b : Z) : Z := wrap64 (a - b).

(** ** package execution: the executor registry *)

Module Registry.

Section WithExecutors.

(** The [BlockExecutor] interface values.  The three concrete executors
    and the services they are built from live in other packages; the
    registry only stores them. *)
Context {BlockExecutor ChatService ProviderService ToolRegistry
         CredentialService : Type}.
Context (NewVariableExecutor : BlockExecutor).
Context (NewAgentBlockExecutor :
           ChatService -> ProviderService -> ToolRegistry ->
           CredentialService -> BlockExecutor).
Context (NewToolExecutor : ToolRegistry -> CredentialService -> BlockExecutor).

(** [type ExecutorRegistry struct { executors map[string]BlockExecutor }].
    A Go map is a reference that may be nil: [None] is the nil map, which
    the zero value [ExecutorRegistry{}] holds; [Some m] is an allocated
    map.  [NewExecutorRegistry] allocates the map; the zero value can be
    written wherever the type is visible. *)
Record ExecutorRegistry : Type := mkRegistry {
  executors : option (gmap string BlockExecutor)
}.

(** [ExecutorRegistry{}] *)
Definition zeroRegistry : ExecutorRegistry := {| executors := None |}.

Definition NewExecutorRegistry
    (chatService : ChatService) (providerService : ProviderService)
    (toolRegistry : ToolRegistry) (credentialService : CredentialService)
  : ExecutorRegistry :=
  {| executors :=
       Some
       (<["variable" := NewVariableExecutor]>
       (<["llm_inference" :=
            NewAgentBlockExecutor chatService providerService
                                  toolRegistry credentialService]>
       (<["code_block" := NewToolExecutor toolRegistry credentialService]>
        ∅))) |}.

(** [exec, ok := m[key]]: reading a nil map finds nothing. *)
Definition entry (m : option (gmap string BlockExecutor)) (key : string)
  : option BlockExecutor :=
  match m with
  | Some held => held !! key
  | None => None
  end.

(** The text built by
    [fmt.Errorf("no executor registered for block type: %s", blockType)]. *)
Definition unknown_block_type (blockType : string) : string :=
  "no executor registered for block type: " +:+ blockType.

Definition Get (r : ExecutorRegistry) (blockType : string)
  : Result BlockExecutor :=
  match entry (executors r) blockType with
  | Some exec => Ok exec
  | None => Err (unknown_block_type blockType)
  end.

(** What a call of [Register] does: it returns, the registry updated in
    place, or the run-time system stops the goroutine with
    "assignment to entry in nil map". *)
Inductive Registration : Type :=
| Registered (r : ExecutorRegistry)
| NilMapPanic.

(** [r.executors[blockType] = executor] *)
Definition Register (r : ExecutorRegistry) (blockType : string)
    (executor : BlockExecutor) : Registration :=
  match executors r with
  | Some held =>
      Registered {| executors := Some (<[blockType := executor]> held) |}
  | None => NilMapPanic
  end.

(** The map of the registry has been allocated. *)
Definition allocated (r : ExecutorRegistry) : Prop := is_Some (executors r).

(** A block type is registered when the map has an entry for it. *)
Definition registered (r : ExecutorRegistry) (blockType : string) : Prop :=
  is_Some (entry (executors r) blockType).

Definition builtin_block_type (blockType : string) : Prop :=
  blockType = "variable" \/ blockType = "llm_inference" \/
  blockType = "code_block".

End WithExecutors.

End Registry.

(** ** package middleware: the daily execution limiter *)

Module Limiter.

(** *** The Redis client the limiter talks to

    go-redis and the server are outside the repository; the model keeps what
    the limiter can observe: a command fails when the server cannot be
    reached, a key holds an integer or some other string, and EXPIRE records
    a time to live. *)

(** Go's [error] values seen by the limiter: the sentinel [redis.Nil] (key
    absent) and every other error, identified by its text. *)
Inductive error : Type :=
| RedisNil
| OtherError (msg : string).

Inductive RedisValue : Type :=
| RInt (n : Z)
| RStr (s : string).

Record RedisClient : Type := mkRedis {
  failure : option string;          (* Some e: every command fails with e *)
  strings : gmap string RedisValue;
  ttl : gmap string Z               (* time to live, in nanoseconds *)
}.

(** [redis.Get(ctx, key).Int64()]: the value and the error.  On an error the
    value is Go's zero. *)
Definition GetInt64 (rc : RedisClient) (key : string) : Z * option error :=
  match failure rc with
  | Some e => (0, Some (OtherError e))
  | None =>
      match strings rc !! key with
      | None => (0, Some RedisNil)
      | Some (RInt n) =>
          if in_int64b n then (n, None)
          else (0, Some (OtherError "strconv.ParseInt: value out of range"))
      | Some (RStr s) =>
          (0, Some (OtherError "strconv.ParseInt: invalid syntax"))
      end
  end.

(** INCR on the server: an absent key counts from 0; a value that is not an
    integer, or an increment past [max_int64], is refused. *)
Definition Incr (rc : RedisClient) (key : string)
  : RedisClient * option error :=
  match strings rc !! key with
  | None =>
      (mkRedis (failure rc) (<[key := RInt 1]> (strings rc)) (ttl rc), None)
  | Some (RInt n) =>
      if in_int64b (n + 1)
      then (mkRedis (failure rc) (<[key := RInt (n + 1)]> (strings rc))
                    (ttl rc), None)
      else (rc, Some (OtherError "ERR increment or decrement would overflow"))
  | Some (RStr _) =>
      (rc, Some (OtherError "ERR value is not an integer or out of range"))
  end.

(** EXPIRE on the server: sets the time to live of an existing key. *)
Definition Expire (rc : RedisClient) (key : string) (d : Z) : RedisClient :=
  match strings rc !! key with
  | None => rc
  | Some _ => mkRedis (failure rc) (strings rc) (<[key := d]> (ttl rc))
  end.

(** The pipeline of [IncrementCount]: INCR then EXPIRE, sent together;
    [Exec] reports the first error. *)
Definition ExecIncrExpire (rc : RedisClient) (key : string) (d : Z)
  : RedisClient * option error :=
  match failure rc with
  | Some e => (rc, Some (OtherError e))
  | None =>
      let '(rc1, err) := Incr rc key in
      (Expire rc1 key d, err)
  end.

(** *** The tier service and the clock *)

(** [models.TierLimits], the fields the sources read. *)
Record TierLimits : Type := mkLimits {
  MaxSchedules : Z;
  MaxAPIKeys : Z;
  MaxExecutionsPerDay : Z
}.

(** What one call reads from the wall clock:
    [time.Now().UTC().Format("2006-01-02")], the instant returned by
    [getNextMidnightUTC()] and [time.Until] of it (nanoseconds). *)
Record Clock : Type := mkClock {
  today : string;
  nextMidnightUTC : Z;
  untilMidnight : Z
}.

Definition hour : Z := 3600 * 1000000000.

(** *** The limiter *)

(** [type ExecutionLimiter struct { tierService; redis }].  [GetLimits] is
    the only method of the tier service the limiter calls; [redis] is a
    pointer and may be nil. *)
Record ExecutionLimiter : Type := mkLimiter {
  GetLimits : string -> TierLimits;
  redis : option RedisClient
}.

Definition NewExecutionLimiter (tierService : string -> TierLimits)
    (redisClient : option RedisClient) : ExecutionLimiter :=
  {| GetLimits := tierService; redis := redisClient |}.

(** [fmt.Sprintf("executions:%s:%s", userID, today)] *)
Definition execution_key (userID today : string) : string :=
  "executions:" +:+ userID +:+ ":" +:+ today.

(** Lines written with [log.Printf]. *)
Inductive LogEntry : Type :=
| LogGetCountFailed (err : error)
| LogIncrementFailed (err : error)
| LogIncremented (userID key : string).

(** [c.Locals("user_id")]: an [any]. *)
Inductive Local : Type :=
| LocalNil
| LocalString (s : string)
| LocalOther.

Inductive JSONField : Type :=
| FString (s : string)
| FInt (n : Z)
| FTime (t : Z).

(** What [CheckLimit] does with the request: hand it to the next handler
    (having stored [execution_count_key] or not), answer it with a status
    and a JSON body, or crash on the nil Redis client. *)
Inductive Outcome : Type :=
| Next (execution_count_key : option string)
| Respond (status : Z) (body : list (string * JSONField))
| Panic.

Definition StatusUnauthorized : Z := 401.
Definition StatusInternalServerError : Z := 500.
Definition StatusTooManyRequests : Z := 429.

Definition limit_exceeded (limit used reset_at : Z) : Outcome :=
  Respond StatusTooManyRequests
          [("error", FString "Daily execution limit exceeded");
           ("limit", FInt limit);
           ("used", FInt used);
           ("reset_at", FTime reset_at)].

(** The request was answered with 429. *)
Definition rate_limited (o : Outcome) : bool :=
  match o with
  | Respond status _ => status =? StatusTooManyRequests
  | _ => false
  end.

Definition CheckLimit (el : ExecutionLimiter) (clk : Clock) (user_id : Local)
  : Outcome * list LogEntry :=
  match user_id with
  | LocalNil =>
      (Respond StatusUnauthorized [("error", FString "Unauthorized")], [])
  | LocalOther =>
      (Respond StatusInternalServerError
               [("error", FString "Invalid user ID")], [])
  | LocalString userIDStr =>
      let limits := GetLimits el userIDStr in
      if MaxExecutionsPerDay limits =? -1 then (Next None, [])
      else
        let key := execution_key userIDStr (today clk) in
        match redis el with
        | None => (Panic, [])
        | Some rc =>
            let '(count, err) := GetInt64 rc key in
            match err with
            | Some (OtherError e) =>
                (Next None, [LogGetCountFailed (OtherError e)])
            | _ =>
                if MaxExecutionsPerDay limits <=? count
                then (limit_exceeded (MaxExecutionsPerDay limits) count
                                     (nextMidnightUTC clk), [])
                else (Next (Some key), [])
            end
        end
  end.

(** [IncrementCount]: the error returned, the limiter afterwards and the
    lines logged. *)
Definition IncrementCount (el : ExecutionLimiter) (clk : Clock)
    (userID : string) : option error * ExecutionLimiter * list LogEntry :=
  match redis el with
  | None => (None, el, [])
  | Some rc =>
      let key := execution_key userID (today clk) in
      let expiryDuration := untilMidnight clk + 24 * hour in
      let '(rc', err) := ExecIncrExpire rc key expiryDuration in
      let el' := mkLimiter (GetLimits el) (Some rc') in
      match err with
      | Some e => (Some e, el', [LogIncrementFailed e])
      | None => (None, el', [LogIncremented userID key])
      end
  end.

Definition GetRemainingExecutions (el : ExecutionLimiter) (clk : Clock)
    (userID : string) : Z * option error :=
  match redis el with
  | None => (-1, None)
  | Some rc =>
      let limits := GetLimits el userID in
      if MaxExecutionsPerDay limits =? -1 then (-1, None)
      else
        let key := execution_key userID (today clk) in
        let '(count, err) := GetInt64 rc key in
        match err with
        | Some RedisNil => (MaxExecutionsPerDay limits, None)
        | Some e => (-1, Some e)
        | None =>
            let remaining := sub64 (MaxExecutionsPerDay limits) count in
            if remaining <? 0 then (0, None) else (remaining, None)
        end
  end.

(** *** The counter over a day *)

(** The counter of the day as Redis holds it: [n] executions counted, the
    key being absent while there is none. *)
Definition counts (rc : RedisClient) (key : string) (n : Z) : Prop :=
  failure rc = None /\
  (strings rc !! key = Some (RInt n) \/ (n = 0 /\ strings rc !! key = None)).

(** [count] calls of [IncrementCount] in a row for the same user, the clock
    reading the same day: the limiter afterwards. *)
Fixpoint incrementTimes (count : nat) (el : ExecutionLimiter) (clk : Clock)
    (userID : string) : ExecutionLimiter :=
  match count with
  | O => el
  | S count' =>
      incrementTimes count' (snd (fst (IncrementCount el clk userID))) clk
                     userID
  end.

End Limiter.

(** ** package services: the memory model pool *)

Module ModelPool.

(** [time.Time] as nanoseconds since Go's zero time, [time.Duration] as an
    [int64] count of nanoseconds.  [t.Sub(u)] saturates at the largest and
    smallest duration. *)
Definition Time : Type := Z.

Definition Sub (t u : Time) : Z :=
  Z.max min_int64 (Z.min max_int64 (t - u)).

(** [time.Since(t)] when the clock reads [now]. *)
Definition Since (now t : Time) : Z := Sub now t.

Definition Minute : Z := 60 * 1000000000.

Definition MaxConsecutiveFailures : Z := 3.
Definition HealthCheckCooldown : Z := 5 * Minute.
Definition MinSuccessesToRecover : Z := 2.

(** Go's [int] (64 bits on the platforms the server is built for): [x++]. *)
Definition incr (x : Z) : Z := wrap64 (x + 1).

Record ModelCandidate : Type := mkCandidate {
  ModelID : string;
  ProviderName : string;
  SpeedMs : Z;
  DisplayName : string
}.

Record ModelHealth : Type := mkHealth {
  FailureCount : Z;
  SuccessCount : Z;
  LastFailure : Time;
  LastSuccess : Time;
  IsHealthy : bool;
  ConsecutiveFails : Z
}.

(** [type MemoryModelPool struct].  The mutex, the chat service and the
    database handle play no part in selection and are left out; every
    method below runs with the mutex held, that is, atomically.  Each entry
    of [healthTracker] points to a record of its own (they are allocated one
    per key), so the map holds the records by value. *)
Record MemoryModelPool : Type := mkPool {
  extractorModels : list ModelCandidate;
  selectorModels : list ModelCandidate;
  extractorIndex : Z;
  selectorIndex : Z;
  healthTracker : gmap string ModelHealth
}.

(** What a call does: return a model id, return an error, or crash (index
    out of range, nil health record). *)
Inductive Selection : Type :=
| Selected (modelID : string)
| Failed (err : string)
| Panic.

(** [models[i]] on a slice: out of range crashes. *)
Definition index {A} (l : list A) (i : Z) : option A :=
  if (0 <=? i) && (i <? Z.of_nat (length l)) then l !! Z.to_nat i else None.

Definition len {A} (l : list A) : Z := Z.of_nat (length l).

Definition set_extractorIndex (p : MemoryModelPool) (i : Z) : MemoryModelPool :=
  mkPool (extractorModels p) (selectorModels p) i (selectorIndex p)
         (healthTracker p).

Definition set_selectorIndex (p : MemoryModelPool) (i : Z) : MemoryModelPool :=
  mkPool (extractorModels p) (selectorModels p) (extractorIndex p) i
         (healthTracker p).

Definition set_health (p : MemoryModelPool) (id : string) (h : ModelHealth)
  : MemoryModelPool :=
  mkPool (extractorModels p) (selectorModels p) (extractorIndex p)
         (selectorIndex p) (<[id := h]> (healthTracker p)).

(** [health.IsHealthy = true; health.ConsecutiveFails = 0] *)
Definition retry_after_cooldown (h : ModelHealth) : ModelHealth :=
  mkHealth (FailureCount h) (SuccessCount h) (LastFailure h) (LastSuccess h)
           true 0.

(** The loop of [GetNextExtractor]: [remaining] iterations are left and
    [attempts] have been made; [clock k] is what [time.Now()] reads during
    attempt [k]. *)
Fixpoint tryExtractors (clock : nat -> Time) (remaining attempts : nat)
    (p : MemoryModelPool) : Selection * MemoryModelPool :=
  match remaining with
  | O =>
      (* all models unhealthy: the fastest anyway *)
      match index (extractorModels p) 0 with
      | Some first => (Selected (ModelID first), p)
      | None => (Panic, p)
      end
  | S remaining' =>
      match index (extractorModels p) (extractorIndex p) with
      | None => (Panic, p)
      | Some candidate =>
          let p1 :=
            set_extractorIndex p
              (Z.rem (extractorIndex p + 1) (len (extractorModels p))) in
          match healthTracker p1 !! ModelID candidate with
          | None => (Panic, p1)
          | Some health =>
              if IsHealthy health then (Selected (ModelID candidate), p1)
              else if HealthCheckCooldown <?
                        Since (clock attempts) (LastFailure health)
              then (Selected (ModelID candidate),
                    set_health p1 (ModelID candidate)
                               (retry_after_cooldown health))
              else tryExtractors clock remaining' (S attempts) p1
          end
      end
  end.

Definition GetNextExtractor (clock : nat -> Time) (p : MemoryModelPool)
  : Selection * MemoryModelPool :=
  if len (extractorModels p) =? 0
  then (Failed "no extractor models available", p)
  else tryExtractors clock (length (extractorModels p)) 0 p.

(** [GetNextSelector]: the same loop over the selector list. *)
Fixpoint trySelectors (clock : nat -> Time) (remaining attempts : nat)
    (p : MemoryModelPool) : Selection * MemoryModelPool :=
  match remaining with
  | O =>
      match index (selectorModels p) 0 with
      | Some first => (Selected (ModelID first), p)
      | None => (Panic, p)
      end
  | S remaining' =>
      match index (selectorModels p) (selectorIndex p) with
      | None => (Panic, p)
      | Some candidate =>
          let p1 :=
            set_selectorIndex p
              (Z.rem (selectorIndex p + 1) (len (selectorModels p))) in
          match healthTracker p1 !! ModelID candidate with
          | None => (Panic, p1)
          | Some health =>
              if IsHealthy health then (Selected (ModelID candidate), p1)
              else if HealthCheckCooldown <?
                        Since (clock attempts) (LastFailure health)
              then (Selected (ModelID candidate),
                    set_health p1 (ModelID candidate)
                               (retry_after_cooldown health))
              else trySelectors clock remaining' (S attempts) p1
          end
      end
  end.

Definition GetNextSelector (clock : nat -> Time) (p : MemoryModelPool)
  : Selection * MemoryModelPool :=
  if len (selectorModels p) =? 0
  then (Failed "no selector models available", p)
  else trySelectors clock (length (selectorModels p)) 0 p.

Definition MarkSuccess (now : Time) (modelID : string) (p : MemoryModelPool)
  : MemoryModelPool :=
  match healthTracker p !! modelID with
  | None => p
  | Some health =>
      let successes := incr (SuccessCount health) in
      let recovered :=
        negb (IsHealthy health) && (MinSuccessesToRecover <=? successes) in
      set_health p modelID
        (mkHealth (FailureCount health) successes (LastFailure health) now
                  (if recovered then true else IsHealthy health) 0)
  end.

Definition MarkFailure (now : Time) (modelID : string) (p : MemoryModelPool)
  : MemoryModelPool :=
  match healthTracker p !! modelID with
  | None => p
  | Some health =>
      let fails := incr (ConsecutiveFails health) in
      set_health p modelID
        (mkHealth (incr (FailureCount health)) (SuccessCount health) now
                  (LastSuccess health)
                  (if MaxConsecutiveFailures <=? fails then false
                   else IsHealthy health)
                  fails)
  end.

(** *** Discovery: how the pool is built *)

(** [&ModelHealth{IsHealthy: true}] *)
Definition newHealth : ModelHealth := mkHealth 0 0 0 0 true 0.

(** [models[j], models[j+1] = models[j+1], models[j]] when the pair is out
    of order.  The loop bounds keep both indices within the slice. *)
Definition compareSwap (j : nat) (models : list ModelCandidate)
  : list ModelCandidate :=
  match models !! j, models !! S j with
  | Some a, Some b =>
      if SpeedMs b <? SpeedMs a then <[j := b]> (<[S j := a]> models)
      else models
  | _, _ => models
  end.

(** [for j := ...; j < n-i-1; j++]: [count] iterations from [j] on. *)
Fixpoint innerLoop (count j : nat) (models : list ModelCandidate)
  : list ModelCandidate :=
  match count with
  | O => models
  | S count' => innerLoop count' (S j) (compareSwap j models)
  end.

(** [for i := ...; i < n-1; i++]: [count] iterations from [i] on. *)
Fixpoint outerLoop (count i n : nat) (models : list ModelCandidate)
  : list ModelCandidate :=
  match count with
  | O => models
  | S count' => outerLoop count' (S i) n (innerLoop (n - i - 1) 0 models)
  end.

(** [sortModelsBySpeed]: the bubble sort, in place. *)
Definition sortModelsBySpeed (models : list ModelCandidate)
  : list ModelCandidate :=
  outerLoop (length models - 1) 0 (length models) models.

(** A row of the [model_aliases] query, as scanned. *)
Record AliasRow : Type := mkRow {
  aliasName : string;
  providerName : string;
  displayName : string;
  speedMs : Z;
  isExtractor : Z;
  isSelector : Z
}.

Definition set_models (p : MemoryModelPool)
    (extractors selectors : list ModelCandidate) : MemoryModelPool :=
  mkPool extractors selectors (extractorIndex p) (selectorIndex p)
         (healthTracker p).

Definition rowCandidate (row : AliasRow) : ModelCandidate :=
  mkCandidate (aliasName row) (providerName row) (speedMs row)
              (displayName row).

(** The body of the loop over the rows of [discoverFromDatabase]. *)
Definition addRow (p : MemoryModelPool) (row : AliasRow) : MemoryModelPool :=
  let candidate := rowCandidate row in
  let p1 :=
    if isExtractor row =? 1
    then set_health (set_models p (extractorModels p ++ [candidate])
                                (selectorModels p))
                    (aliasName row) newHealth
    else p in
  if isSelector row =? 1
  then
    let p2 :=
      match healthTracker p1 !! aliasName row with
      | Some _ => p1
      | None => set_health p1 (aliasName row) newHealth
      end in
    set_models p2 (extractorModels p2) (selectorModels p2 ++ [candidate])
  else p1.

(** The database: no connection ([None]), a failing query, or the rows; a
    row that cannot be scanned ([None]) is skipped. *)
Definition Database : Type := option (Result (list (option AliasRow))).

Definition discoverFromDatabase (db : Database) (p : MemoryModelPool)
  : Result (list ModelCandidate) * MemoryModelPool :=
  match db with
  | None => (Err "database connection not available", p)
  | Some (Err e) => (Err ("failed to query model_aliases: " +:+ e), p)
  | Some (Ok rows) =>
      let scanned := omap id rows in
      let p1 := fold_left addRow scanned p in
      (Ok (map rowCandidate scanned),
       set_models p1 (sortModelsBySpeed (extractorModels p1))
                  (sortModelsBySpeed (selectorModels p1)))
  end.

(** [models.ModelAlias] and [models.ProviderConfig], the fields read here;
    the aliases come in the order the map is ranged over. *)
Record ModelAlias : Type := mkAlias {
  ma_DisplayName : string;
  ma_StructuredOutputSpeedMs : option Z;
  ma_MemoryExtractor : option bool;
  ma_MemorySelector : option bool
}.

Record ProviderConfig : Type := mkProvider {
  pc_Name : string;
  pc_Enabled : bool;
  pc_ModelAliases : list (string * ModelAlias)
}.

(** [getSpeedMs(modelAliasToMap(alias))] *)
Definition getSpeedMs (alias : ModelAlias) : Z :=
  default 999999 (ma_StructuredOutputSpeedMs alias).

(** The body of the loop over the aliases of an enabled provider. *)
Definition addAlias (provider : string) (p : MemoryModelPool)
    (entry : string * ModelAlias) : MemoryModelPool :=
  let '(alias, modelAlias) := entry in
  let candidate :=
    mkCandidate alias provider (getSpeedMs modelAlias)
                (ma_DisplayName modelAlias) in
  let p1 :=
    if default false (ma_MemoryExtractor modelAlias)
    then set_health (set_models p (extractorModels p ++ [candidate])
                                (selectorModels p))
                    alias newHealth
    else p in
  if default false (ma_MemorySelector modelAlias)
  then
    let p2 :=
      match healthTracker p1 !! alias with
      | Some _ => p1
      | None => set_health p1 alias newHealth
      end in
    set_models p2 (extractorModels p2) (selectorModels p2 ++ [candidate])
  else p1.

Definition addProvider (p : MemoryModelPool) (provider : ProviderConfig)
  : MemoryModelPool :=
  if pc_Enabled provider
  then fold_left (addAlias (pc_Name provider)) (pc_ModelAliases provider) p
  else p.

(** [discoverModels]: the database first, [providers.json] otherwise. *)
Definition discoverModels (db : Database)
    (providers : Result (list ProviderConfig)) (p : MemoryModelPool)
  : MemoryModelPool :=
  let '(dbModels, p1) := discoverFromDatabase db p in
  let fallback :=
    match providers with
    | Err _ => p1
    | Ok configs =>
        let p2 := fold_left addProvider configs p1 in
        set_models p2 (sortModelsBySpeed (extractorModels p2))
                   (sortModelsBySpeed (selectorModels p2))
    end in
  match dbModels with
  | Ok (_ :: _) => p1
  | _ => fallback
  end.

(** [NewMemoryModelPool]: an empty pool, then discovery. *)
Definition NewMemoryModelPool (db : Database)
    (providers : Result (list ProviderConfig)) : MemoryModelPool :=
  discoverModels db providers (mkPool [] [] 0 0 ∅).

(** Every listed model, extractor or selector, has a health record. *)
Definition all_tracked (p : MemoryModelPool) : Prop :=
  forall c,
    c ∈ extractorModels p \/ c ∈ selectorModels p ->
    is_Some (healthTracker p !! ModelID c).

(** What discovery keeps at every step. *)
Definition discovering (p : MemoryModelPool) : Prop :=
  extractorIndex p = 0 /\ selectorIndex p = 0 /\ all_tracked p.

(** Fastest first. *)
Definition faster (a b : ModelCandidate) : Prop := SpeedMs a <= SpeedMs b.

(** Both lists of a discovered pool are sorted. *)
Definition both_sorted (p : MemoryModelPool) : Prop :=
  StronglySorted faster (extractorModels p) /\
  StronglySorted faster (selectorModels p).

(** One pass of the inner loop over [x :: rest], [count] comparisons long:
    the larger of each pair moves on. *)
Fixpoint bubble (count : nat) (x : ModelCandidate)
    (rest : list ModelCandidate) : list ModelCandidate :=
  match count, rest with
  | S count', y :: rest' =>
      if SpeedMs y <? SpeedMs x then y :: bubble count' x rest'
      else x :: bubble count' y rest'
  | _, _ => x :: rest
  end.

(** A candidate can be handed out at attempt [k]: its record is healthy or
    its cooldown has elapsed. *)
Definition available (clock : nat -> Time) (k : nat) (h : ModelHealth) : bool :=
  IsHealthy h || (HealthCheckCooldown <? Since (clock k) (LastFailure h)).

(** The candidate the round robin reaches at attempt [k], counted from the
    index the call starts with, and its health record. *)
Definition candidate_at (p : MemoryModelPool) (k : nat)
  : option (ModelCandidate * ModelHealth) :=
  match index (extractorModels p)
              ((extractorIndex p + Z.of_nat k) mod len (extractorModels p)) with
  | None => None
  | Some c =>
      match healthTracker p !! ModelID c with
      | None => None
      | Some h => Some (c, h)
      end
  end.

(** Attempt [j] passes over its candidate: unhealthy and still cooling. *)
Definition skipped (clock : nat -> Time) (p : MemoryModelPool) (j : nat)
  : Prop :=
  exists c h, candidate_at p j = Some (c, h) /\ available clock j h = false.

(** The invariant the constructor establishes and every method keeps: the
    round-robin index points into the extractor list and every extractor
    has a health record. *)
Definition extractors_ok (p : MemoryModelPool) : Prop :=
  0 <= extractorIndex p < len (extractorModels p) /\
  forall c, c ∈ extractorModels p -> is_Some (healthTracker p !! ModelID c).

(** The pools the program can be in: the one the constructor returns, and
    what the methods make of a pool. *)
Inductive reachable (db : Database) (providers : Result (list ProviderConfig))
  : MemoryModelPool -> Prop :=
| reach_new : reachable db providers (NewMemoryModelPool db providers)
| reach_extractor clock p :
    reachable db providers p ->
    reachable db providers (snd (GetNextExtractor clock p))
| reach_selector clock p :
    reachable db providers p ->
    reachable db providers (snd (GetNextSelector clock p))
| reach_success now modelID p :
    reachable db providers p ->
    reachable db providers (MarkSuccess now modelID p)
| reach_failure now modelID p :
    reachable db providers p ->
    reachable db providers (MarkFailure now modelID p).

Definition tracked (p : MemoryModelPool) (c : ModelCandidate) : bool :=
  match healthTracker p !! ModelID c with
  | Some _ => true
  | None => false
  end.

(** [extractors_ok], computed. *)
Definition extractors_okb (p : MemoryModelPool) : bool :=
  (0 <=? extractorIndex p) && (extractorIndex p <? len (extractorModels p)) &&
  forallb (tracked p) (extractorModels p).

(** *** The selector side, the statistics and repeated selection *)

(** The pool with its extractor and selector sides exchanged:
    [GetNextSelector] is [GetNextExtractor] read on the other side. *)
Definition swap (p : MemoryModelPool) : MemoryModelPool :=
  mkPool (selectorModels p) (extractorModels p) (selectorIndex p)
         (extractorIndex p) (healthTracker p).

(** The invariant on the selector side. *)
Definition selectors_ok (p : MemoryModelPool) : Prop :=
  0 <= selectorIndex p < len (selectorModels p) /\
  forall c, c ∈ selectorModels p -> is_Some (healthTracker p !! ModelID c).

(** The selector the round robin reaches at attempt [k], and the attempts
    that pass over their selector. *)
Definition selector_at (p : MemoryModelPool) (k : nat)
  : option (ModelCandidate * ModelHealth) :=
  match index (selectorModels p)
              ((selectorIndex p + Z.of_nat k) mod len (selectorModels p)) with
  | None => None
  | Some c =>
      match healthTracker p !! ModelID c with
      | None => None
      | Some h => Some (c, h)
      end
  end.

Definition selector_skipped (clock : nat -> Time) (p : MemoryModelPool)
    (j : nat) : Prop :=
  exists c h, selector_at p j = Some (c, h) /\ available clock j h = false.

(** The loops of [GetStats]: the number of models of the list whose record
    is healthy; [None] when a model has no record (nil dereference). *)
Fixpoint countHealthy (p : MemoryModelPool) (models : list ModelCandidate)
  : option Z :=
  match models with
  | [] => Some 0
  | model :: rest =>
      match healthTracker p !! ModelID model with
      | None => None
      | Some health =>
          match countHealthy p rest with
          | None => None
          | Some n => Some (if IsHealthy health then n + 1 else n)
          end
      end
  end.

(** The map [GetStats] returns, by its four entries. *)
Record Stats : Type := mkStats {
  total_extractors : Z;
  healthy_extractors : Z;
  total_selectors : Z;
  healthy_selectors : Z
}.

Definition GetStats (p : MemoryModelPool) : option Stats :=
  match countHealthy p (extractorModels p) with
  | None => None
  | Some healthyExtractors =>
      match countHealthy p (selectorModels p) with
      | None => None
      | Some healthySelectors =>
          Some (mkStats (len (extractorModels p)) healthyExtractors
                        (len (selectorModels p)) healthySelectors)
      end
  end.

(** [count] calls of [GetNextExtractor] in a row: what each returns, and
    the pool after the last. *)
Fixpoint drawExtractors (clock : nat -> Time) (count : nat)
    (p : MemoryModelPool) : list Selection * MemoryModelPool :=
  match count with
  | O => ([], p)
  | S count' =>
      let '(selection, p1) := GetNextExtractor clock p in
      let '(rest, p2) := drawExtractors clock count' p1 in
      (selection :: rest, p2)
  end.

(** Every extractor has a record and it is healthy. *)
Definition all_healthy (p : MemoryModelPool) : Prop :=
  forall c, c ∈ extractorModels p ->
            exists h, healthTracker p !! ModelID c = Some h /\
                      IsHealthy h = true.

(** The model's record says healthy. *)
Definition healthyb (p : MemoryModelPool) (c : ModelCandidate) : bool :=
  match healthTracker p !! ModelID c with
  | Some h => IsHealthy h
  | None => false
  end.

(** What discovery leaves in the tracker: only initial records, and only
    for listed models. *)
Definition fresh (p : MemoryModelPool) : Prop :=
  forall id h,
    healthTracker p !! id = Some h ->
    h = newHealth /\
    exists c, (c ∈ extractorModels p \/ c ∈ selectorModels p) /\
              ModelID c = id.

(** *** Discovery, read as a whole *)

(** What both discovery loops do with a candidate and its two flags: the
    extractor is appended and its record (re)made, the selector gets a
    record unless the id has one, and is appended. *)
Definition addCandidate (p : MemoryModelPool) (candidate : ModelCandidate)
    (extractor selector : bool) : MemoryModelPool :=
  let p1 :=
    if extractor
    then set_health (set_models p (extractorModels p ++ [candidate])
                                (selectorModels p))
                    (ModelID candidate) newHealth
    else p in
  if selector
  then
    let p2 :=
      match healthTracker p1 !! ModelID candidate with
      | Some _ => p1
      | None => set_health p1 (ModelID candidate) newHealth
      end in
    set_models p2 (extractorModels p2) (selectorModels p2 ++ [candidate])
  else p1.

(** The rows flagged as extractors, as selectors, in the order of the
    result set. *)
Definition extractorRows (rows : list AliasRow) : list ModelCandidate :=
  map rowCandidate (List.filter (fun row => isExtractor row =? 1) rows).

Definition selectorRows (rows : list AliasRow) : list ModelCandidate :=
  map rowCandidate (List.filter (fun row => isSelector row =? 1) rows).

Definition aliasCandidate (provider : string) (entry : string * ModelAlias)
  : ModelCandidate :=
  mkCandidate (fst entry) provider (getSpeedMs (snd entry))
              (ma_DisplayName (snd entry)).

(** The aliases of the enabled providers flagged as extractors, as
    selectors, in the order they are ranged over. *)
Definition providerExtractors (configs : list ProviderConfig)
  : list ModelCandidate :=
  flat_map
    (fun provider =>
       if pc_Enabled provider
       then map (aliasCandidate (pc_Name provider))
                (List.filter
                   (fun entry => default false (ma_MemoryExtractor (snd entry)))
                   (pc_ModelAliases provider))
       else [])
    configs.

Definition providerSelectors (configs : list ProviderConfig)
  : list ModelCandidate :=
  flat_map
    (fun provider =>
       if pc_Enabled provider
       then map (aliasCandidate (pc_Name provider))
                (List.filter
                   (fun entry => default false (ma_MemorySelector (snd entry)))
                   (pc_ModelAliases provider))
       else [])
    configs.

(** The database yields no model: no connection, a failed query, or no row
    that scans. *)
Definition no_database_models (db : Database) : Prop :=
  match db with
  | Some (Ok rows) => omap id rows = []
  | _ => True
  end.

(** The extractor whose turn it is at the [k]-th call from now, when no
    model is passed over. *)
Definition rotation (p : MemoryModelPool) (k : nat) : option ModelCandidate :=
  index (extractorModels p)
        ((extractorIndex p + Z.of_nat k) mod len (extractorModels p)).

End ModelPool.

(** ** package handlers: the workflow execution transport *)

Module Transport.

(** Go's [any] as it comes out of [encoding/json]. *)
Inductive Any : Type :=
| ANil
| ABool (b : bool)
| ANumber (literal : string)
| AString (s : string)
| AComposite (json : string).          (* an array or an object, by its text *)

(** [primitive.ObjectID], by its [Hex()] form. *)
Definition ObjectID : Type := string.

Section WithCollaborators.

(** Types declared in packages [models], [execution] and [context], which
    the handler only passes along. *)
Context {Ctx Workflow BlockStates Artifacts Files Metadata : Type}.
Context (Version : Workflow -> Z).
Context (set_AgentID : Metadata -> string -> Metadata).

(** [models.Agent]: the fields the handler reads; [Workflow] is a pointer. *)
Record Agent : Type := mkAgent {
  ag_Description : string;
  ag_Workflow : option Workflow
}.

(** [type WorkflowClientMessage struct] *)
Record WorkflowClientMessage : Type := mkClientMessage {
  cm_Type : string;
  cm_AgentID : string;
  cm_Input : option (gmap string Any);     (* nil when the client sent none *)
  cm_EnableBlockChecker : bool;
  cm_CheckerModelID : string
}.

(** [models.ExecutionUpdate]: the fields the handler reads and sets. *)
Record ExecutionUpdate : Type := mkUpdate {
  up_ExecutionID : string;
  up_BlockID : string;
  up_Status : string;
  up_Inputs : option (gmap string Any);
  up_Output : option (gmap string Any);
  up_Error : string
}.

(** [execution.ExecutionResult]: the fields the handler reads. *)
Record ExecutionResult : Type := mkResult {
  res_Status : string;
  res_Output : option (gmap string Any);
  res_BlockStates : BlockStates;
  res_Error : string
}.

(** Modelled from the spec: [models.ExecutionAPIResponse], whose declaration
    is in another package: overall status, result string, artifacts, files,
    per-block map and metadata.  The handler reads [Result], [Artifacts]
    and [Files] and sets [Metadata.AgentID]. *)
Record ExecutionAPIResponse : Type := mkAPIResponse {
  api_Status : string;
  api_Result : string;
  api_Artifacts : Artifacts;
  api_Files : Files;
  api_Blocks : BlockStates;
  api_Metadata : Metadata
}.

(** [execution.ExecutionOptions]: the three fields the handler sets. *)
Record ExecutionOptions : Type := mkOptions {
  opt_WorkflowGoal : string;
  opt_EnableBlockChecker : bool;
  opt_CheckerModelID : string
}.

(** [type WorkflowServerMessage struct] *)
Record WorkflowServerMessage : Type := mkServerMessage {
  sm_Type : string;
  sm_ExecutionID : string;
  sm_BlockID : string;
  sm_Status : string;
  sm_Inputs : option (gmap string Any);
  sm_Output : option (gmap string Any);
  sm_FinalOutput : option (gmap string Any);
  sm_Duration : Z;
  sm_Error : string;
  sm_APIResponse : option ExecutionAPIResponse
}.

(** [services.CreateExecutionRequest] and
    [services.ExecutionCompleteRequest]: the fields the handler sets; the
    others are Go's zero. *)
Record CreateExecutionRequest : Type := mkCreateRequest {
  cr_AgentID : string;
  cr_UserID : string;
  cr_WorkflowVersion : Z;
  cr_TriggerType : string;
  cr_Input : option (gmap string Any)
}.

Record ExecutionCompleteRequest : Type := mkCompleteRequest {
  cc_Status : string;
  cc_Output : option (gmap string Any);
  cc_BlockStates : option BlockStates;
  cc_Error : string;
  cc_Result : string;
  cc_Artifacts : option Artifacts;
  cc_Files : option Files
}.

(** The collaborators, by the methods the handler calls.  The engine's
    [ExecuteWithOptions] is given the status channel: what it pushes onto it
    before returning is the first component of its result.  The engine
    returns, and leaves the closing of the channel to its caller. *)
Record AgentService : Type := mkAgentService {
  GetAgent : string -> string -> Result Agent
}.

Record ExecutionService : Type := mkExecutionService {
  Create : Ctx -> CreateExecutionRequest -> Result ObjectID
}.

Record WorkflowEngine : Type := mkEngine {
  ExecuteWithOptions :
    Ctx -> Workflow -> gmap string Any -> ExecutionOptions ->
    list ExecutionUpdate * Result ExecutionResult;
  BuildAPIResponse :
    ExecutionResult -> Workflow -> string -> Z -> ExecutionAPIResponse
}.

Record WorkflowWebSocketHandler : Type := mkHandler {
  agentService : AgentService;
  executionService : option ExecutionService;
  workflowEngine : WorkflowEngine;
  executionLimiter : option Limiter.ExecutionLimiter
}.

(** What one run reads from its surroundings: the clock at the limit check
    and at the increment, a fresh UUID, and the elapsed milliseconds. *)
Record Run : Type := mkRun {
  clkCheck : Limiter.Clock;
  clkIncrement : Limiter.Clock;
  newUUID : string;
  duration : Z
}.

Inductive LogLine : Type :=
| LogReceived (agentID : string) (input : option (gmap string Any))
| LogLimitCheckFailed (err : Limiter.error)
| LogLimitExceeded (userID : string)
| LogRemaining (userID : string) (remaining : Z)
| LogAgentNotFound (agentID : string)
| LogNoWorkflow (agentID : string)
| LogCreateFailed (err : string)
| LogNoExecutionService (execID : string)
| LogStarting (execID agentID : string)
| LogLimiter (line : Limiter.LogEntry)
| LogIncrementFailed (err : Limiter.error)
| LogBlockChecker (enabled : bool) (model : string)
| LogExecuting (input : gmap string Any)
| LogExecutionFailed (err : string)
| LogCompleted (execID status : string) (durationMs : Z) (resultLen : nat).

(** What the handler's own goroutine does, in order, when it runs to its
    end.  [EvWrite] is the call of [c.WriteJSON]: what becomes of the
    message is decided on the connection, which the forwarding goroutines
    write to as well (see [conn_step]). *)
Inductive Event : Type :=
| EvLog (line : LogLine)
| EvWrite (m : WorkflowServerMessage)             (* c.WriteJSON is called *)
| EvCreate (req : CreateExecutionRequest)         (* executionService.Create *)
| EvIncrement (userID : string)                   (* limiter.IncrementCount *)
| EvMakeChan (capacity : nat)                     (* make(chan ..., 100) *)
| EvGo (execID : string)                          (* go func() { range } *)
| EvExecute (ctx : Ctx) (wf : Workflow) (input : gmap string Any)
            (opts : ExecutionOptions)             (* ExecuteWithOptions *)
| EvSend (u : ExecutionUpdate)                    (* the engine: ch <- u *)
| EvReturn                                        (* the engine returns *)
| EvClose                                         (* close(statusChan) *)
| EvComplete (id : ObjectID) (req : ExecutionCompleteRequest).

Definition errorMessage (text : string) : WorkflowServerMessage :=
  mkServerMessage "error" "" "" "" None None None 0 text None.

Definition limitExceededText : string :=
  "Daily execution limit exceeded. Please upgrade your plan or wait until tomorrow.".

Definition startedMessage (execID : string) : WorkflowServerMessage :=
  mkServerMessage "execution_started" execID "" "" None None None 0 "" None.

Definition updateMessage (execID : string) (update : ExecutionUpdate)
  : WorkflowServerMessage :=
  mkServerMessage "execution_update" execID (up_BlockID update)
                  (up_Status update) (up_Inputs update) (up_Output update)
                  None 0 (up_Error update) None.

Definition failedMessage (execID : string) (durationMs : Z) (err : string)
  : WorkflowServerMessage :=
  mkServerMessage "execution_complete" execID "" "failed" None None None
                  durationMs err None.

Definition completeMessage (execID : string) (result : ExecutionResult)
    (durationMs : Z) (apiResponse : ExecutionAPIResponse)
  : WorkflowServerMessage :=
  mkServerMessage "execution_complete" execID "" (res_Status result) None None
                  (res_Output result) durationMs (res_Error result)
                  (Some apiResponse).

(** Lines 285-301: the daily limit check.  The events, and whether the
    handler goes on. *)
Definition checkDailyLimit (h : WorkflowWebSocketHandler) (run : Run)
    (userID : string) : list Event * bool :=
  match executionLimiter h with
  | None => ([], true)
  | Some limiter =>
      let '(remaining, err) :=
        Limiter.GetRemainingExecutions limiter (clkCheck run) userID in
      match err with
      | Some e => ([EvLog (LogLimitCheckFailed e)], true)
      | None =>
          if remaining =? 0
          then ([EvLog (LogLimitExceeded userID);
                 EvWrite (errorMessage limitExceededText)], false)
          else if 0 <? remaining
          then ([EvLog (LogRemaining userID remaining)], true)
          else ([], true)
      end
  end.

(** Lines 323-349: the execution record.  Either the events of the failure,
    or the execution id, the object id and the events. *)
Definition createExecution (h : WorkflowWebSocketHandler) (run : Run)
    (ctx : Ctx) (userID : string) (msg : WorkflowClientMessage)
    (wf : Workflow) : list Event + (string * ObjectID * list Event) :=
  match executionService h with
  | Some svc =>
      let req :=
        mkCreateRequest (cm_AgentID msg) userID (Version wf) "manual"
                        (cm_Input msg) in
      match Create svc ctx req with
      | Err e =>
          inl [EvCreate req; EvLog (LogCreateFailed e);
               EvWrite (errorMessage ("Failed to create execution: " +:+ e))]
      | Ok id => inr (id, id, [EvCreate req])
      end
  | None =>
      inr (newUUID run, "000000000000000000000000",
           [EvLog (LogNoExecutionService (newUUID run))])
  end.

(** Lines 359-365: the counter of the day. *)
Definition incrementCounter (h : WorkflowWebSocketHandler) (run : Run)
    (userID : string) : list Event * option Limiter.ExecutionLimiter :=
  match executionLimiter h with
  | None => ([], None)
  | Some limiter =>
      let '(err, limiter', lines) :=
        Limiter.IncrementCount limiter (clkIncrement run) userID in
      (EvIncrement userID :: map (fun l => EvLog (LogLimiter l)) lines ++
       match err with
       | Some e => [EvLog (LogIncrementFailed e)]
       | None => []
       end,
       Some limiter')
  end.

(** Lines 386-390: the user id goes into the trigger input. *)
Definition injectUserID (input : option (gmap string Any)) (userID : string)
  : gmap string Any :=
  <["__user_id__" := AString userID]> (default ∅ input).

(** Lines 410-463: after the engine has returned and the channel is closed. *)
Definition reportResult (h : WorkflowWebSocketHandler) (run : Run)
    (msg : WorkflowClientMessage) (wf : Workflow)
    (execID : string) (execObjectID : ObjectID)
    (outcome : Result ExecutionResult) : list Event :=
  match outcome with
  | Err e =>
      EvLog (LogExecutionFailed e) ::
      match executionService h with
      | Some _ =>
          [EvComplete execObjectID
             (mkCompleteRequest "failed" None None e "" None None)]
      | None => []
      end ++
      [EvWrite (failedMessage execID (duration run) e)]
  | Ok result =>
      let built :=
        BuildAPIResponse (workflowEngine h) result wf execID (duration run) in
      let apiResponse :=
        mkAPIResponse (api_Status built) (api_Result built)
                      (api_Artifacts built) (api_Files built)
                      (api_Blocks built)
                      (set_AgentID (api_Metadata built) (cm_AgentID msg)) in
      match executionService h with
      | Some _ =>
          [EvComplete execObjectID
             (mkCompleteRequest (res_Status result) (res_Output result)
                (Some (res_BlockStates result)) (res_Error result)
                (api_Result apiResponse) (Some (api_Artifacts apiResponse))
                (Some (api_Files apiResponse)))]
      | None => []
      end ++
      [EvLog (LogCompleted execID (res_Status result) (duration run)
                (String.length (api_Result apiResponse)));
       EvWrite (completeMessage execID result (duration run) apiResponse)]
  end.

(** Lines 351-463: from "Starting execution" to the closing message. *)
Definition runExecution (h : WorkflowWebSocketHandler) (run : Run)
    (ctx : Ctx) (userID : string) (msg : WorkflowClientMessage)
    (agent : Agent) (wf : Workflow) (execID : string)
    (execObjectID : ObjectID)
  : list Event * option Limiter.ExecutionLimiter :=
  let '(counted, limiter') := incrementCounter h run userID in
  let input := injectUserID (cm_Input msg) userID in
  let execOptions :=
    mkOptions (ag_Description agent) (cm_EnableBlockChecker msg)
              (cm_CheckerModelID msg) in
  let '(updates, outcome) :=
    ExecuteWithOptions (workflowEngine h) ctx wf input execOptions in
  ([EvLog (LogStarting execID (cm_AgentID msg));
    EvWrite (startedMessage execID)] ++
   counted ++
   [EvMakeChan 100; EvGo execID;
    EvLog (LogBlockChecker (cm_EnableBlockChecker msg)
                           (opt_CheckerModelID execOptions));
    EvLog (LogExecuting input);
    EvExecute ctx wf input execOptions] ++
   map EvSend updates ++
   [EvReturn; EvClose] ++
   reportResult h run msg wf execID execObjectID outcome,
   limiter').

(** [handleExecuteWorkflow]: the events of the handling goroutine and the
    limiter afterwards. *)
Definition handleExecuteWorkflow (h : WorkflowWebSocketHandler) (run : Run)
    (ctx : Ctx) (userID : string) (msg : WorkflowClientMessage)
  : list Event * option Limiter.ExecutionLimiter :=
  let received := EvLog (LogReceived (cm_AgentID msg) (cm_Input msg)) in
  match checkDailyLimit h run userID with
  | (checked, false) => (received :: checked, executionLimiter h)
  | (checked, true) =>
      match GetAgent (agentService h) (cm_AgentID msg) userID with
      | Err e =>
          (received :: checked ++
           [EvLog (LogAgentNotFound (cm_AgentID msg));
            EvWrite (errorMessage ("Agent not found: " +:+ e))],
           executionLimiter h)
      | Ok agent =>
          match ag_Workflow agent with
          | None =>
              (received :: checked ++
               [EvLog (LogNoWorkflow (cm_AgentID msg));
                EvWrite (errorMessage "Agent has no workflow defined")],
               executionLimiter h)
          | Some wf =>
              match createExecution h run ctx userID msg wf with
              | inl failed => (received :: checked ++ failed,
                               executionLimiter h)
              | inr (execID, execObjectID, created) =>
                  let '(events, limiter') :=
                    runExecution h run ctx userID msg agent wf execID
                                 execObjectID in
                  (received :: checked ++ created ++ events, limiter')
              end
          end
      end
  end.

(** Why a request is turned away before the run starts. *)
Definition rejection (h : WorkflowWebSocketHandler) (run : Run) (ctx : Ctx) (userID : string)
    (msg : WorkflowClientMessage) (text : string) : Prop :=
  (snd (checkDailyLimit h run userID) = false /\ text = limitExceededText) \/
  (snd (checkDailyLimit h run userID) = true /\
   ((exists e,
        GetAgent (agentService h) (cm_AgentID msg) userID = Err e /\
        text = "Agent not found: " +:+ e) \/
    (exists agent,
        GetAgent (agentService h) (cm_AgentID msg) userID = Ok agent /\
        ag_Workflow agent = None /\
        text = "Agent has no workflow defined") \/
    (exists agent wf svc e,
        GetAgent (agentService h) (cm_AgentID msg) userID = Ok agent /\
        ag_Workflow agent = Some wf /\
        executionService h = Some svc /\
        Create svc ctx (mkCreateRequest (cm_AgentID msg) userID (Version wf)
                                        "manual" (cm_Input msg)) = Err e /\
        text = "Failed to create execution: " +:+ e))).

(** The same handler with no limiter configured. *)
Definition without_limiter (h : WorkflowWebSocketHandler)
  : WorkflowWebSocketHandler :=
  mkHandler (agentService h) (executionService h) (workflowEngine h) None.

(** The forwarding goroutine: one [execution_update] per update read from
    the channel, until the channel is closed and drained. *)
Definition forwardUpdates (execID : string) (updates : list ExecutionUpdate)
  : list WorkflowServerMessage :=
  map (updateMessage execID) updates.

(** The messages the handling goroutine calls [c.WriteJSON] with, in
    order. *)
Definition writes (events : list Event) : list WorkflowServerMessage :=
  omap (fun e => match e with EvWrite m => Some m | _ => None end) events.

(** The updates the engine pushed onto the status channel. *)
Definition pushed (events : list Event) : list ExecutionUpdate :=
  omap (fun e => match e with EvSend u => Some u | _ => None end) events.

Definition is_close (e : Event) : bool :=
  match e with EvClose => true | _ => false end.

Definition is_execute (e : Event) : bool :=
  match e with EvExecute _ _ _ _ => true | _ => false end.

(** The number of [close(statusChan)] in a run. *)
Definition closes (events : list Event) : nat :=
  length (List.filter is_close events).

(** An event that neither writes to the client nor touches the channel,
    the engine or the forwarding goroutine. *)
Definition quiet (e : Event) : bool :=
  match e with
  | EvLog _ | EvCreate _ | EvIncrement _ | EvComplete _ _ => true
  | _ => false
  end.

(** The run reached the engine. *)
Definition reaches_engine (events : list Event) : bool :=
  existsb is_execute events.

(** A message that ends a run for the client. *)
Definition closing (m : WorkflowServerMessage) : bool :=
  String.eqb (sm_Type m) "error" || String.eqb (sm_Type m) "execution_complete".

(** The number of closing messages in a sequence. *)
Definition closings (stream : list WorkflowServerMessage) : nat :=
  length (List.filter closing stream).

(** *** The status channel and the forwarding goroutine *)

(** What happens to the status channel, in the order of the handler's
    events: the engine's sends and the handler's close. *)
Inductive ChanOp : Type :=
| Send (u : ExecutionUpdate)
| Close.

Definition chanOps (events : list Event) : list ChanOp :=
  omap (fun e => match e with
                 | EvSend u => Some (Send u)
                 | EvClose => Some Close
                 | _ => None
                 end) events.

(** A buffered channel: the queue and the closed flag. *)
Record Chan : Type := mkChan {
  buffer : list ExecutionUpdate;
  closed : bool
}.

Definition capacity : nat := 100.

(** The sending side (what is left of its operations), the channel, and the
    receiving [for update := range statusChan] loop (what it has read so
    far and whether it has ended). *)
Record Pipeline : Type := mkPipeline {
  todo : list ChanOp;
  chan : Chan;
  received : list ExecutionUpdate;
  ended : bool
}.

Definition start (ops : list ChanOp) : Pipeline :=
  mkPipeline ops (mkChan [] false) [] false.

(** One step of either side.  A send needs room in the buffer; a receive
    needs an element; the loop ends on a closed, drained channel. *)
Inductive step : Pipeline -> Pipeline -> Prop :=
| step_send u ops buf rcv fin :
    (length buf < capacity)%nat ->
    step (mkPipeline (Send u :: ops) (mkChan buf false) rcv fin)
         (mkPipeline ops (mkChan (buf ++ [u]) false) rcv fin)
| step_close ops buf rcv fin :
    step (mkPipeline (Close :: ops) (mkChan buf false) rcv fin)
         (mkPipeline ops (mkChan buf true) rcv fin)
| step_receive ops u buf cl rcv :
    step (mkPipeline ops (mkChan (u :: buf) cl) rcv false)
         (mkPipeline ops (mkChan buf cl) (rcv ++ [u]) false)
| step_end ops rcv :
    step (mkPipeline ops (mkChan [] true) rcv false)
         (mkPipeline ops (mkChan [] true) rcv true).

Inductive steps : Pipeline -> Pipeline -> Prop :=
| steps_refl s : steps s s
| steps_step s1 s2 s3 : steps s1 s2 -> step s2 s3 -> steps s1 s3.

(** Go crashes on a send to, or a close of, a closed channel. *)
Inductive crashes : Pipeline -> Prop :=
| crash_send u ops buf rcv fin :
    crashes (mkPipeline (Send u :: ops) (mkChan buf true) rcv fin)
| crash_close ops buf rcv fin :
    crashes (mkPipeline (Close :: ops) (mkChan buf true) rcv fin).

(** Both sides are done. *)
Definition finished (s : Pipeline) : Prop :=
  todo s = [] /\ ended s = true.

(** Steps left at most: two per pending send (in, out), one per buffered
    element, one for the close and one for the end of the loop. *)
Definition fuel (s : Pipeline) : nat :=
  (2 * length (todo s) + length (buffer (chan s)) +
   (if ended s then 0 else 1))%nat.

(** The updates still to be sent. *)
Definition sends (ops : list ChanOp) : list ExecutionUpdate :=
  omap (fun op => match op with Send u => Some u | Close => None end) ops.

(** What holds of every state of a pipeline whose sending side pushes
    [updates] and then closes: nothing is lost or reordered, the close comes
    last and once, and the loop ends only on a closed, drained channel. *)
Definition pipeline_inv (updates : list ExecutionUpdate) (s : Pipeline)
  : Prop :=
  received s ++ buffer (chan s) ++ sends (todo s) = updates /\
  (if closed (chan s) then todo s = []
   else exists rest, todo s = map Send rest ++ [Close]) /\
  (ended s = true -> closed (chan s) = true /\ buffer (chan s) = []).

(** *** What the client is sent *)

(** The events before the forwarding goroutine is started, and from then
    on together with the execution id it captured. *)
Fixpoint before_go (events : list Event) : list Event :=
  match events with
  | [] => []
  | EvGo _ :: _ => []
  | e :: rest => e :: before_go rest
  end.

Fixpoint after_go (events : list Event) : option (string * list Event) :=
  match events with
  | [] => None
  | EvGo execID :: rest => Some (execID, rest)
  | _ :: rest => after_go rest
  end.

(** A message of the forwarding goroutine. *)
Definition is_update (m : WorkflowServerMessage) : bool :=
  String.eqb (sm_Type m) "execution_update".

(** A message of the connection's own goroutine. *)
Definition own (m : WorkflowServerMessage) : bool := negb (is_update m).

(** **** The connection and the goroutines that write to it

    [c.WriteJSON] is called by the goroutine of the connection and by
    every forwarding goroutine, and nothing orders these calls: the source
    takes no lock.  The websocket library lets one goroutine write at a
    time; a call made while another is in progress is a concurrent write,
    which the library answers with a panic.  A write on a connection that
    has failed returns an error, which the handler drops.  So a write is
    two steps here, its beginning and its end; the steps below never
    overlap two writes, and a state in which a goroutine can begin a write
    while another goroutine is inside one is a [concurrent_write]. *)

(** A forwarding goroutine: the [execID] its closure captured, its
    [statusChan], and the message it is writing, if any. *)
Record Forwarder : Type := mkForwarder {
  fw_execID : string;
  fw_chan : Chan;
  fw_writing : option WorkflowServerMessage
}.

(** The connection: what its own goroutine has still to do, the message
    that goroutine is writing, the forwarding goroutines (the newest
    first), what has been written to the client, and whether the
    connection has failed. *)
Record Conn : Type := mkConn {
  program : list Event;
  writing : option WorkflowServerMessage;
  forwarders : list Forwarder;
  wire : list WorkflowServerMessage;
  broken : bool
}.

Definition is_writing (f : Forwarder) : bool :=
  match fw_writing f with
  | Some _ => true
  | None => false
  end.

(** An event that neither writes to the connection, nor starts a
    goroutine, nor touches the status channel. *)
Definition local (e : Event) : bool :=
  match e with
  | EvWrite _ | EvGo _ | EvSend _ | EvClose => false
  | _ => true
  end.

(** The end of a write: the message is on the wire unless the connection
    has failed. *)
Definition written (sent : list WorkflowServerMessage) (failed : bool)
    (m : WorkflowServerMessage) : list WorkflowServerMessage :=
  if failed then sent else sent ++ [m].

(** One step of one goroutine.  The engine's sends and the close go to
    the channel of the run, that of the newest forwarding goroutine; a
    send needs room in the buffer.  A write begins only when no goroutine
    is inside one. *)
Inductive conn_step : Conn -> Conn -> Prop :=
| conn_local e rest fs sent failed :
    local e = true ->
    conn_step (mkConn (e :: rest) None fs sent failed)
              (mkConn rest None fs sent failed)
| conn_go execID rest fs sent failed :
    conn_step (mkConn (EvGo execID :: rest) None fs sent failed)
              (mkConn rest None
                      (mkForwarder execID (mkChan [] false) None :: fs)
                      sent failed)
| conn_send u rest execID buf inside fs sent failed :
    (length buf < capacity)%nat ->
    conn_step (mkConn (EvSend u :: rest) None
                      (mkForwarder execID (mkChan buf false) inside :: fs)
                      sent failed)
              (mkConn rest None
                      (mkForwarder execID (mkChan (buf ++ [u]) false) inside
                       :: fs)
                      sent failed)
| conn_close rest execID buf inside fs sent failed :
    conn_step (mkConn (EvClose :: rest) None
                      (mkForwarder execID (mkChan buf false) inside :: fs)
                      sent failed)
              (mkConn rest None
                      (mkForwarder execID (mkChan buf true) inside :: fs)
                      sent failed)
| conn_write_begin m rest fs sent failed :
    existsb is_writing fs = false ->
    conn_step (mkConn (EvWrite m :: rest) None fs sent failed)
              (mkConn rest (Some m) fs sent failed)
| conn_write_end m todo fs sent failed :
    conn_step (mkConn todo (Some m) fs sent failed)
              (mkConn todo None fs (written sent failed m) failed)
| conn_forward_begin todo fs1 execID u buf cl fs2 sent failed :
    existsb is_writing (fs1 ++ fs2) = false ->
    conn_step (mkConn todo None
                      (fs1 ++ mkForwarder execID (mkChan (u :: buf) cl) None
                           :: fs2)
                      sent failed)
              (mkConn todo None
                      (fs1 ++ mkForwarder execID (mkChan buf cl)
                                          (Some (updateMessage execID u))
                           :: fs2)
                      sent failed)
| conn_forward_end todo inside fs1 execID ch m fs2 sent failed :
    conn_step (mkConn todo inside
                      (fs1 ++ mkForwarder execID ch (Some m) :: fs2)
                      sent failed)
              (mkConn todo inside
                      (fs1 ++ mkForwarder execID ch None :: fs2)
                      (written sent failed m) failed)
| conn_break todo inside fs sent :
    conn_step (mkConn todo inside fs sent false)
              (mkConn todo inside fs sent true).

(** The executions of a connection in which no two writes overlap. *)
Definition conn_steps : Conn -> Conn -> Prop := rtc conn_step.

(** A goroutine can begin a write while another is inside one: the
    connection's goroutine while a forwarding goroutine writes, or a
    forwarding goroutine while the connection's goroutine or another
    forwarding goroutine writes. *)
Inductive concurrent_write : Conn -> Prop :=
| overlap_connection m rest fs sent failed :
    existsb is_writing fs = true ->
    concurrent_write (mkConn (EvWrite m :: rest) None fs sent failed)
| overlap_forwarder todo inside fs1 execID u buf cl fs2 sent failed :
    is_Some inside \/ existsb is_writing (fs1 ++ fs2) = true ->
    concurrent_write
      (mkConn todo inside
              (fs1 ++ mkForwarder execID (mkChan (u :: buf) cl) None :: fs2)
              sent failed).

(** A forwarding goroutine with nothing to write: it is not inside a
    write and its channel holds no update. *)
Definition drained (f : Forwarder) : Prop :=
  fw_writing f = None /\ buffer (fw_chan f) = [].

(** What a forwarding goroutine is writing is an update. *)
Definition forwards_updates (f : Forwarder) : Prop :=
  forall m, fw_writing f = Some m -> is_update m = true.

(** The connection's goroutine has done all it had to do. *)
Definition returned (s : Conn) : Prop :=
  program s = [] /\ writing s = None.

(** Every goroutine has done all it had to do. *)
Definition settled (s : Conn) : Prop :=
  returned s /\ Forall drained (forwarders s).

(** A request that arrives on a connection where [fs] are the forwarding
    goroutines of earlier runs and [sent] has been written. *)
Definition arrives (events : list Event) (fs : list Forwarder)
    (sent : list WorkflowServerMessage) : Conn :=
  mkConn events None fs sent false.

Definition is_go (e : Event) : bool :=
  match e with EvGo _ => true | _ => false end.

Definition is_write (e : Event) : bool :=
  match e with EvWrite _ => true | _ => false end.

(** What holds of every state of a run that goes by [execID], pushes
    [updates] and does [tail] after starting its forwarding goroutine, on a
    connection that has not failed, where [sent] had been written and the
    forwarding goroutines [old] of earlier runs were drained.  Before the
    forwarding goroutine is started, the wire has [sent] and what the
    connection's goroutine has written of [execution_started].  From then
    on [execution_started] is on the wire, and the updates on the wire
    after it, the update being written, those in the channel and those
    still to be sent are, in this order, the updates of the run. *)
Definition run_inv (execID : string) (updates : list ExecutionUpdate)
    (tail : list Event) (old : list Forwarder)
    (sent : list WorkflowServerMessage) (s : Conn) : Prop :=
  Forall (fun m => own m = true)
         (option_list (writing s) ++ writes (program s)) /\
  ((forwarders s = old /\
    exists pre,
      program s = pre ++ EvGo execID :: tail /\
      forallb (fun e => local e || is_write e) pre = true /\
      wire s ++ option_list (writing s) ++ writes pre
      = sent ++ [startedMessage execID]) \/
   (exists f more,
       forwarders s = f :: old /\
       fw_execID f = execID /\
       forwards_updates f /\
       forallb (fun e => negb (is_go e)) (program s) = true /\
       wire s = sent ++ startedMessage execID :: more /\
       List.filter is_update more ++ option_list (fw_writing f) ++
       forwardUpdates execID (buffer (fw_chan f) ++ pushed (program s))
       = forwardUpdates execID updates)).

(** *** What a run does to its collaborators *)

(** The calls of [executionService.Create], of [executionService.Complete],
    of [IncrementCount] and of the engine, in order. *)
Definition creates (events : list Event) : list CreateExecutionRequest :=
  omap (fun e => match e with EvCreate req => Some req | _ => None end) events.

Definition completes (events : list Event)
  : list (ObjectID * ExecutionCompleteRequest) :=
  omap (fun e => match e with
                 | EvComplete id req => Some (id, req)
                 | _ => None
                 end) events.

Definition increments (events : list Event) : list string :=
  omap (fun e => match e with EvIncrement u => Some u | _ => None end) events.

Definition executes (events : list Event)
  : list (Ctx * Workflow * gmap string Any * ExecutionOptions) :=
  omap (fun e => match e with
                 | EvExecute ctx wf input opts => Some (ctx, wf, input, opts)
                 | _ => None
                 end) events.

(** Events that touch none of the collaborators. *)
Definition idle (l : list Event) : Prop :=
  creates l = [] /\ completes l = [] /\ increments l = [] /\ executes l = [] /\
  reaches_engine l = false.

(** Events that, an execution record apart, touch no collaborator. *)
Definition idle_but_create (l : list Event) : Prop :=
  completes l = [] /\ increments l = [] /\ executes l = [] /\
  reaches_engine l = false.

(** The limiter after [IncrementCount] has been called on it. *)
Definition counted (limiter : option Limiter.ExecutionLimiter) (run : Run)
    (userID : string) : option Limiter.ExecutionLimiter :=
  match limiter with
  | None => None
  | Some l =>
      Some (snd (fst (Limiter.IncrementCount l (clkIncrement run) userID)))
  end.

(** What [Complete] is told for an outcome of the engine. *)
Definition reports (outcome : Result ExecutionResult)
    (req : ExecutionCompleteRequest) : Prop :=
  match outcome with
  | Err e => cc_Status req = "failed" /\ cc_Error req = e
  | Ok result =>
      cc_Status req = res_Status result /\
      cc_Error req = res_Error result /\
      cc_Output req = res_Output result /\
      cc_BlockStates req = Some (res_BlockStates result)
  end.

(** *** The connection: [Handle] *)

(** [newContext g] is the context returned by the [g]-th call of
    [context.WithCancel(context.Background())] on the connection. *)
Context (newContext : nat -> Ctx).

(** What [ReadMessage] yields until it fails: bytes that do not unmarshal,
    or a message. *)
Inductive Frame : Type :=
| FrameInvalid
| FrameMessage (msg : WorkflowClientMessage).

(** What [Handle] does, in order, when it runs to its end.  A call of
    [handleExecuteWorkflow] is one event: the read loop waits for it to
    return.  [ConnWrite] is a call of [c.WriteJSON] whose error, if any, is
    dropped; what is written to the client is decided on the connection
    (see [conn_step]). *)
Inductive ConnEvent : Type :=
| ConnWrite (m : WorkflowServerMessage)           (* c.WriteJSON is called *)
| ConnWriteFailed (m : WorkflowServerMessage)     (* it returned an error *)
| ConnContext (generation : nat)                  (* context.WithCancel *)
| ConnCancel (generation : nat)                   (* cancel() *)
| ConnHandle (generation : nat) (events : list Event)
| ConnUnknown (type : string)                     (* the default case *)
| ConnReadError                                   (* ReadMessage failed *)
| ConnPanic.                                      (* user_id is no string *)

Definition connectedMessage : WorkflowServerMessage :=
  mkServerMessage "connected" "" "" "" None None None 0 "" None.

(** The handler with its limiter in the state a run has left it in. *)
Definition with_limiter (h : WorkflowWebSocketHandler)
    (limiter : option Limiter.ExecutionLimiter) : WorkflowWebSocketHandler :=
  mkHandler (agentService h) (executionService h) (workflowEngine h) limiter.

(** The read loop, as the goroutine of the connection goes through it when
    nothing stops it: [generation] is the context in [ctx], [k] counts the
    frames read, [runs k] is what a run started by frame [k] reads from its
    surroundings.  Its writes are calls of [c.WriteJSON]; whether a call
    finds a forwarding goroutine inside a write of its own, and what the
    client is sent, is told by [conn_step] on [conn_program]. *)
Fixpoint readLoop (h : WorkflowWebSocketHandler) (userID : string)
    (runs : nat -> Run) (generation k : nat) (frames : list Frame)
  : list ConnEvent :=
  match frames with
  | [] => [ConnReadError]
  | FrameInvalid :: rest =>
      ConnWrite (errorMessage "Invalid message format") ::
      readLoop h userID runs generation (S k) rest
  | FrameMessage msg :: rest =>
      if String.eqb (cm_Type msg) "execute_workflow"
      then
        let '(events, limiter') :=
          handleExecuteWorkflow h (runs k) (newContext generation) userID
                                msg in
        ConnHandle generation events ::
        readLoop (with_limiter h limiter') userID runs generation (S k) rest
      else if String.eqb (cm_Type msg) "cancel_execution"
      then
        ConnCancel generation :: ConnContext (S generation) ::
        readLoop h userID runs (S generation) (S k) rest
      else
        ConnUnknown (cm_Type msg) ::
        readLoop h userID runs generation (S k) rest
  end.

(** [Handle]: [connected] tells whether the first write succeeds.  The
    deferred [cancel()] is the function [cancel] held when the [defer]
    statement ran: that of the first context. *)
Definition Handle (h : WorkflowWebSocketHandler) (user_id : Limiter.Local)
    (connected : bool) (runs : nat -> Run) (frames : list Frame)
  : list ConnEvent :=
  match user_id with
  | Limiter.LocalString userID =>
      if connected
      then ConnWrite connectedMessage :: ConnContext 0 ::
           readLoop h userID runs 0 0 frames ++ [ConnCancel 0]
      else [ConnWriteFailed connectedMessage]
  | _ => [ConnPanic]
  end.

(** The messages the connection's goroutine calls [c.WriteJSON] with, in
    order. *)
Definition conn_writes (trace : list ConnEvent)
  : list WorkflowServerMessage :=
  flat_map (fun e => match e with
                     | ConnWrite m => [m]
                     | ConnHandle _ events => writes events
                     | _ => []
                     end) trace.

(** What the connection's goroutine does to the connection and to the
    status channels, in order: its own writes and the events of the runs
    it makes. *)
Definition conn_program (trace : list ConnEvent) : list Event :=
  flat_map (fun e => match e with
                     | ConnWrite m => [EvWrite m]
                     | ConnHandle _ events => events
                     | _ => []
                     end) trace.

(** The frames that are answered: those that do not unmarshal and the
    execute requests. *)
Definition answered (frame : Frame) : bool :=
  match frame with
  | FrameInvalid => true
  | FrameMessage msg => String.eqb (cm_Type msg) "execute_workflow"
  end.

End WithCollaborators.

End Transport.

(** ** package middleware: the admin gate *)

Module Admin.

(** [config.Config], the field read here. *)
Record Config : Type := mkConfig {
  SuperadminUserIDs : list string
}.

Inductive LogLine : Type :=
| LogGranted (userID role : string)
| LogDenied (userID role : string).

(** What the handler does with the request: store [is_superadmin] and go
    on, answer with a status and an error text, or crash on a nil
    configuration. *)
Inductive Outcome : Type :=
| Next (is_superadmin : bool)
| Respond (status : Z) (error : string)
| Panic.

Definition StatusUnauthorized : Z := 401.
Definition StatusForbidden : Z := 403.

(** [for _, adminID := range ids { if adminID == userID { ... } }], the loop
    of both functions: whether it finds the id. *)
Fixpoint listed (userID : string) (ids : list string) : bool :=
  match ids with
  | [] => false
  | adminID :: rest =>
      if String.eqb adminID userID then true else listed userID rest
  end.

(** [x, ok := c.Locals(key).(string)]: the zero value when the assertion
    fails. *)
Definition asString (l : Limiter.Local) : string * bool :=
  match l with
  | Limiter.LocalString s => (s, true)
  | _ => ("", false)
  end.

(** The handler [AdminMiddleware(cfg)] returns, on a request whose locals
    hold [user_id] and [user_role]. *)
Definition AdminMiddleware (cfg : option Config)
    (user_id user_role : Limiter.Local) : Outcome * list LogLine :=
  let '(userID, ok) := asString user_id in
  if negb ok || String.eqb userID ""
  then (Respond StatusUnauthorized "Authentication required", [])
  else
    let '(role, hasRole) := asString user_role in
    if hasRole && String.eqb role "admin"
    then (Next true, [LogGranted userID role])
    else
      match cfg with
      | None => (Panic, [])
      | Some c =>
          if listed userID (SuperadminUserIDs c)
          then (Next true, [])
          else (Respond StatusForbidden "Admin access required",
                [LogDenied userID role])
      end.

(** [IsSuperadmin(userID, cfg)]; [None] is the crash on a nil
    configuration. *)
Definition IsSuperadmin (userID : string) (cfg : option Config)
  : option bool :=
  match cfg with
  | None => None
  | Some c => Some (listed userID (SuperadminUserIDs c))
  end.

End Admin.

(** ** package services: the MCP bridge *)

Module Bridge.

(** [models.MCPTool] and [models.MCPToolRegistration]; the JSON schema of the
    parameters by its text. *)
Record MCPTool : Type := mkTool {
  tool_Name : string;
  tool_Description : string;
  tool_Parameters : string;
  tool_Source : string;
  tool_UserID : string
}.

Record MCPToolRegistration : Type := mkRegistration {
  reg_ClientID : string;
  reg_ClientVersion : string;
  reg_Platform : string;
  reg_Tools : list MCPTool
}.

(** [models.MCPConnection].  Of the two channels the model keeps whether
    they have been closed; the pending results are used by the tool calls
    only and are left out. *)
Record MCPConnection : Type := mkConnection {
  ID : string;
  UserID : string;
  ClientID : string;
  ClientVersion : string;
  Platform : string;
  ConnectedAt : Z;
  LastHeartbeat : Z;
  IsActive : bool;
  Tools : list MCPTool;
  stopClosed : bool;
  writeClosed : bool
}.

(** A [*models.MCPConnection]: the connections are shared by address, with
    the handler that registered them and with the write loop. *)
Definition Pointer : Type := nat.

(** [type MCPBridgeService struct]: the two maps, and the connections
    allocated so far, by address.  Every method below runs with the mutex
    held. *)
Record MCPBridgeService : Type := mkService {
  connections : gmap string Pointer;
  userConns : gmap string string;
  heap : list MCPConnection
}.

Definition NewMCPBridgeService : MCPBridgeService := mkService ∅ ∅ [].

(** What a method does to the database, the tool registry and the
    channels, in order. *)
Inductive Effect : Type :=
| DbMarkInactive (clientID : string)
| UnregisterAllUserTools (userID : string)
| CloseStopChan (conn : Pointer)
| CloseWriteChan (conn : Pointer)
| DbInsertConnection (userID clientID : string)
| DbSelectConnectionID (clientID : string)
| RegisterUserTool (userID toolName : string)
| DbStoreTool (userID : string) (connectionID : Z) (toolName : string)
| SendAck (conn : Pointer) (tools : nat)
| DbUpdateHeartbeat (clientID : string) (t : Z).

(** A method returns, leaving the service in a state, or crashes (close of
    a closed channel). *)
Inductive Outcome (T : Type) : Type :=
| Returns (result : T) (s : MCPBridgeService) (effects : list Effect)
| Panics.
Arguments Returns {T} result s effects.
Arguments Panics {T}.

Definition close (conn : MCPConnection) : MCPConnection :=
  mkConnection (ID conn) (UserID conn) (ClientID conn) (ClientVersion conn)
               (Platform conn) (ConnectedAt conn) (LastHeartbeat conn)
               (IsActive conn) (Tools conn) true true.

(** [disconnectClientLocked]: [None] is the crash. *)
Definition disconnectClientLocked (s : MCPBridgeService) (clientID : string)
    (conn : Pointer) : option (MCPBridgeService * list Effect) :=
  match heap s !! conn with
  | None => None
  | Some c =>
      if stopClosed c || writeClosed c then None
      else
        Some (mkService (delete clientID (connections s))
                        (delete (UserID c) (userConns s))
                        (<[conn := close c]> (heap s)),
              [DbMarkInactive clientID; UnregisterAllUserTools (UserID c);
               CloseStopChan conn; CloseWriteChan conn])
  end.

(** What [RegisterClient] reads from its surroundings: the UUID, the clock
    (twice), the outcome of the INSERT, the id the SELECT yields (0 when it
    fails) and whether the registry accepts a tool. *)
Record Surroundings : Type := mkSurroundings {
  newID : string;
  connectedAt : Z;
  lastHeartbeat : Z;
  insertError : option string;
  connectionID : Z;
  toolAccepted : string -> bool
}.

(** The loop over the tools: a tool the registry refuses is not stored. *)
Definition registerTools (userID : string) (env : Surroundings)
    (tools : list MCPTool) : list Effect :=
  flat_map
    (fun tool =>
       RegisterUserTool userID (tool_Name tool) ::
       if toolAccepted env (tool_Name tool)
       then [DbStoreTool userID (connectionID env) (tool_Name tool)]
       else [])
    tools.

(** Lines 41-47: the connection filed under the user's client id, if there
    is one, is disconnected. *)
Definition disconnectExisting (s : MCPBridgeService) (userID : string)
  : option (MCPBridgeService * list Effect) :=
  match userConns s !! userID with
  | Some existingClientID =>
      match connections s !! existingClientID with
      | Some existingConn =>
          disconnectClientLocked s existingClientID existingConn
      | None => Some (s, [])
      end
  | None => Some (s, [])
  end.

Definition RegisterClient (s : MCPBridgeService) (userID : string)
    (registration : MCPToolRegistration) (env : Surroundings)
  : Outcome (Result Pointer) :=
  match disconnectExisting s userID with
  | None => Panics
  | Some (s1, effects) =>
      let conn := length (heap s1) in
      let c :=
        mkConnection (newID env) userID (reg_ClientID registration)
                     (reg_ClientVersion registration)
                     (reg_Platform registration) (connectedAt env)
                     (lastHeartbeat env) true (reg_Tools registration)
                     false false in
      let s2 :=
        mkService (<[reg_ClientID registration := conn]> (connections s1))
                  (<[userID := reg_ClientID registration]> (userConns s1))
                  (heap s1 ++ [c]) in
      let inserted :=
        effects ++ [DbInsertConnection userID (reg_ClientID registration)] in
      match insertError env with
      | Some e =>
          Returns (Err ("failed to store connection in database: " +:+ e))
                  (mkService
                     (delete (reg_ClientID registration) (connections s2))
                     (delete userID (userConns s2)) (heap s2))
                  inserted
      | None =>
          Returns (Ok conn) s2
                  (inserted ++
                   [DbSelectConnectionID (reg_ClientID registration)] ++
                   registerTools userID env (reg_Tools registration) ++
                   [SendAck conn (length (reg_Tools registration))])
      end
  end.

Definition not_found (clientID : string) : string :=
  "client " +:+ clientID +:+ " not found".

Definition DisconnectClient (s : MCPBridgeService) (clientID : string)
  : Outcome (option string) :=
  match connections s !! clientID with
  | None => Returns (Some (not_found clientID)) s []
  | Some conn =>
      match disconnectClientLocked s clientID conn with
      | None => Panics
      | Some (s', effects) => Returns None s' effects
      end
  end.

Definition set_LastHeartbeat (conn : MCPConnection) (t : Z) : MCPConnection :=
  mkConnection (ID conn) (UserID conn) (ClientID conn) (ClientVersion conn)
               (Platform conn) (ConnectedAt conn) t (IsActive conn)
               (Tools conn) (stopClosed conn) (writeClosed conn).

(** [UpdateHeartbeat]: [now] is the clock, [updateError] the outcome of the
    UPDATE. *)
Definition UpdateHeartbeat (s : MCPBridgeService) (clientID : string)
    (now : Z) (updateError : option string) : Outcome (option string) :=
  match connections s !! clientID with
  | None => Returns (Some (not_found clientID)) s []
  | Some conn =>
      match heap s !! conn with
      | None => Panics
      | Some c =>
          Returns updateError
                  (mkService (connections s) (userConns s)
                             (<[conn := set_LastHeartbeat c now]> (heap s)))
                  [DbUpdateHeartbeat clientID now]
      end
  end.

(** The getters: the pointer, or nil with [false]. *)
Definition GetConnection (s : MCPBridgeService) (clientID : string)
  : option Pointer :=
  connections s !! clientID.

Definition GetUserConnection (s : MCPBridgeService) (userID : string)
  : option Pointer :=
  match userConns s !! userID with
  | None => None
  | Some clientID => connections s !! clientID
  end.

Definition IsUserConnected (s : MCPBridgeService) (userID : string) : bool :=
  match userConns s !! userID with
  | None => false
  | Some _ => true
  end.

Definition GetConnectionCount (s : MCPBridgeService) : Z :=
  Z.of_nat (size (connections s)).

(** Every connection in the map is filed under its own client id and its
    channels are open. *)
Definition open_connections (s : MCPBridgeService) : Prop :=
  forall clientID conn,
    connections s !! clientID = Some conn ->
    exists c,
      heap s !! conn = Some c /\
      ClientID c = clientID /\
      stopClosed c = false /\
      writeClosed c = false.

(** The states the service can be in. *)
Inductive served : MCPBridgeService -> Prop :=
| served_new : served NewMCPBridgeService
| served_register s userID registration env result s' effects :
    served s ->
    RegisterClient s userID registration env = Returns result s' effects ->
    served s'
| served_disconnect s clientID result s' effects :
    served s ->
    DisconnectClient s clientID = Returns result s' effects ->
    served s'
| served_heartbeat s clientID now updateError result s' effects :
    served s ->
    UpdateHeartbeat s clientID now updateError = Returns result s' effects ->
    served s'.

(** Each user is filed under the client id of a connection of its own, and
    each connection's user is filed under the connection's client id. *)
Definition owned (s : MCPBridgeService) : Prop :=
  (forall userID clientID,
      userConns s !! userID = Some clientID ->
      exists conn c,
        connections s !! clientID = Some conn /\
        heap s !! conn = Some c /\
        UserID c = userID) /\
  (forall clientID conn c,
      connections s !! clientID = Some conn ->
      heap s !! conn = Some c ->
      userConns s !! UserID c = Some clientID).

(** The client id of a registration is not in use by another user. *)
Definition own_client_id (s : MCPBridgeService) (userID : string)
    (registration : MCPToolRegistration) : Prop :=
  forall conn c,
    connections s !! reg_ClientID registration = Some conn ->
    heap s !! conn = Some c ->
    UserID c = userID.

(** The states the service can be in when no client registers under a
    client id that another user's connection holds. *)
Inductive served_apart : MCPBridgeService -> Prop :=
| apart_new : served_apart NewMCPBridgeService
| apart_register s userID registration env result s' effects :
    served_apart s ->
    own_client_id s userID registration ->
    RegisterClient s userID registration env = Returns result s' effects ->
    served_apart s'
| apart_disconnect s clientID result s' effects :
    served_apart s ->
    DisconnectClient s clientID = Returns result s' effects ->
    served_apart s'
| apart_heartbeat s clientID now updateError result s' effects :
    served_apart s ->
    UpdateHeartbeat s clientID now updateError = Returns result s' effects ->
    served_apart s'.

End Bridge.

(** ** Concrete inputs *)

Module Samples.

(** A limiter over a Redis that holds three executions for [user-1] today;
    every tier allows five a day. *)
Definition clock : Limiter.Clock :=
  Limiter.mkClock "2026-01-15" 1768521600 3600000000000.

Definition key : string := "executions:user-1:2026-01-15".

Definition five_a_day (userID : string) : Limiter.TierLimits :=
  Limiter.mkLimits 50 50 5.

Definition redisClient : Limiter.RedisClient :=
  Limiter.mkRedis None {[key := Limiter.RInt 3]} ∅.

Definition limiter : Limiter.ExecutionLimiter :=
  Limiter.NewExecutionLimiter five_a_day (Some redisClient).

(** The same Redis, unreachable. *)
Definition brokenRedis : Limiter.RedisClient :=
  Limiter.mkRedis (Some "dial tcp: connection refused")
                  {[key := Limiter.RInt 3]} ∅.

Definition brokenLimiter : Limiter.ExecutionLimiter :=
  Limiter.NewExecutionLimiter five_a_day (Some brokenRedis).

(** The rows of the database: a slow extractor, a row that does not scan,
    a fast extractor that is also a selector. *)
Definition rows : list (option ModelPool.AliasRow) :=
  [Some (ModelPool.mkRow "slow-model" "provider-b" "Slow" 900 1 0);
   None;
   Some (ModelPool.mkRow "fast-model" "provider-a" "Fast" 200 1 1)].

Definition fast : ModelPool.ModelCandidate :=
  ModelPool.mkCandidate "fast-model" "provider-a" 200 "Fast".

Definition slow : ModelPool.ModelCandidate :=
  ModelPool.mkCandidate "slow-model" "provider-b" 900 "Slow".

Definition database : ModelPool.Database := Some (Ok rows).

Definition noProviders : Result (list ModelPool.ProviderConfig) :=
  Err "open providers.json: no such file or directory".

Definition discovered : ModelPool.MemoryModelPool :=
  ModelPool.NewMemoryModelPool database noProviders.

Definition now : ModelPool.Time := 1000 * ModelPool.Minute.

(** The fast model has failed three times, the last time a minute ago. *)
Definition pool : ModelPool.MemoryModelPool :=
  ModelPool.MarkFailure (now - ModelPool.Minute) "fast-model"
    (ModelPool.MarkFailure (now - 2 * ModelPool.Minute) "fast-model"
       (ModelPool.MarkFailure (now - 3 * ModelPool.Minute) "fast-model"
          discovered)).

(** A handler whose collaborators are fixed: the workflow is its version
    number, the metadata is the agent id. *)
Definition handlerOf
    (agents : string -> string -> Result (@Transport.Agent Z))
    (engine : list Transport.ExecutionUpdate *
              Result (@Transport.ExecutionResult unit))
    (limiter : option Limiter.ExecutionLimiter)
  : @Transport.WorkflowWebSocketHandler unit Z unit unit unit string :=
  Transport.mkHandler
    (Transport.mkAgentService agents)
    None
    (Transport.mkEngine
       (fun _ _ _ _ => engine)
       (fun result _ _ _ =>
          Transport.mkAPIResponse (Transport.res_Status result) "done" tt tt
                                  tt ""))
    limiter.

Definition noAgent (agentID userID : string)
  : Result (@Transport.Agent Z) := Err "mongo: no documents in result".

Definition oneAgent (agentID userID : string)
  : Result (@Transport.Agent Z) :=
  Ok (Transport.mkAgent "summarise the news" (Some 7)).

Definition updates : list Transport.ExecutionUpdate :=
  [Transport.mkUpdate "" "start" "running" None None "";
   Transport.mkUpdate "" "start" "completed" None None ""].

Definition completed : Result (@Transport.ExecutionResult unit) :=
  Ok (Transport.mkResult "completed" None tt "").

Definition run : Transport.Run :=
  Transport.mkRun clock clock "0b1c2d3e" 1250.

Definition request : Transport.WorkflowClientMessage :=
  Transport.mkClientMessage "execute_workflow" "agent-1" None false "".

Definition version (wf : Z) : Z := wf.

Definition setAgentID (metadata agentID : string) : string := agentID.

(** A registry as the server makes it, the executors told apart by name. *)
Definition agentExecutor (chat providers tools credentials : unit) : string :=
  "agent-executor".

Definition toolExecutor (tools credentials : unit) : string :=
  "tool-executor".

Definition registry : @Registry.ExecutorRegistry string :=
  Registry.NewExecutorRegistry "variable-executor" agentExecutor toolExecutor
                               tt tt tt tt.

(** [providers.json] with an enabled provider, whose first alias is an
    extractor and whose second is a selector with no speed given, and a
    disabled provider. *)
Definition providersFile : list ModelPool.ProviderConfig :=
  [ModelPool.mkProvider "provider-a" true
     [("fast-model",
       ModelPool.mkAlias "Fast" (Some 200) (Some true) None);
      ("plain-model",
       ModelPool.mkAlias "Plain" None None (Some true))];
   ModelPool.mkProvider "provider-c" false
     [("cold-model",
       ModelPool.mkAlias "Cold" (Some 100) (Some true) (Some true))]].

(** A Redis that holds the counters of two users and of two days, and the
    limiter over it. *)
Definition busyRedis : Limiter.RedisClient :=
  Limiter.mkRedis None
    {["executions:user-1:2026-01-15" := Limiter.RInt 3;
      "executions:user-1:2026-01-14" := Limiter.RInt 4;
      "executions:user-2:2026-01-15" := Limiter.RInt 5]} ∅.

Definition busyLimiter : Limiter.ExecutionLimiter :=
  Limiter.NewExecutionLimiter five_a_day (Some busyRedis).

(** A tier service that gives every user a daily allowance of -2. *)
Definition two_below (userID : string) : Limiter.TierLimits :=
  Limiter.mkLimits 50 50 (-2).

(** A Redis with no counter yet, and the limiter over it. *)
Definition emptyRedis : Limiter.RedisClient := Limiter.mkRedis None ∅ ∅.

Definition freshLimiter : Limiter.ExecutionLimiter :=
  Limiter.NewExecutionLimiter five_a_day (Some emptyRedis).

(** A handler with an execution service that makes a record. *)
Definition recordID : Transport.ObjectID := "65a1b2c3d4e5f60718293a4b".

Definition recordingHandler
    (engine : list Transport.ExecutionUpdate *
              Result (@Transport.ExecutionResult unit))
  : @Transport.WorkflowWebSocketHandler unit Z unit unit unit string :=
  Transport.mkHandler
    (Transport.mkAgentService oneAgent)
    (Some (Transport.mkExecutionService (fun _ _ => Ok recordID)))
    (Transport.mkEngine
       (fun _ _ _ _ => engine)
       (fun result _ _ _ =>
          Transport.mkAPIResponse (Transport.res_Status result) "done" tt tt
                                  tt ""))
    (Some limiter).

(** A connection on which a run is requested, cancelled too late, and
    requested again. *)
Definition frames : list Transport.Frame :=
  [Transport.FrameMessage request;
   Transport.FrameMessage
     (Transport.mkClientMessage "cancel_execution" "" None false "");
   Transport.FrameInvalid;
   Transport.FrameMessage request].

Definition contexts (generation : nat) : unit := tt.

Definition trace
  : list (@Transport.ConnEvent unit Z unit unit unit string) :=
  Transport.Handle version setAgentID contexts
    (handlerOf oneAgent (updates, completed) None)
    (Limiter.LocalString "user-1") true (fun _ => run) frames.

(** An MCP client of [user-1] with one tool, and what its registration
    reads from its surroundings. *)
Definition registration : Bridge.MCPToolRegistration :=
  Bridge.mkRegistration "client-1" "1.0.0" "linux"
    [Bridge.mkTool "read_file" "Read a file" "{}" "mcp_local" "user-1"].

Definition surroundings : Bridge.Surroundings :=
  Bridge.mkSurroundings "c0ffee00" 1768500000 1768500000 None 1
                        (fun _ => true).

Definition bridge : Bridge.MCPBridgeService :=
  match Bridge.RegisterClient Bridge.NewMCPBridgeService "user-1" registration
                              surroundings with
  | Bridge.Returns _ s _ => s
  | Bridge.Panics => Bridge.NewMCPBridgeService
  end.

End Samples.

(** * Properties *)

(** ** int64 arithmetic *)

Lemma in_int64b_spec z : in_int64b z = true <-> in_int64 z.
Proof.
  unfold in_int64b, in_int64. rewrite andb_true_iff, !Z.leb_le. tauto.
Qed.

Lemma wrap64_range z : in_int64 (wrap64 z).
Proof.
  unfold in_int64, wrap64, min_int64, max_int64.
  pose proof (Z.mod_pos_bound (z + 2 ^ 63) (2 ^ 64) ltac:(lia)). lia.
Qed.

Lemma wrap64_id z : in_int64 z -> wrap64 z = z.
Proof.
  unfold in_int64, wrap64, min_int64, max_int64. intros Hz.
  rewrite Z.mod_small; lia.
Qed.

Lemma sub64_exact a b :
  0 <= a -> 0 <= b -> in_int64 a -> in_int64 b -> sub64 a b = a - b.
Proof.
  unfold sub64, in_int64, min_int64, max_int64. intros Ha Hb Ha' Hb'.
  apply wrap64_id. unfold in_int64, min_int64, max_int64. lia.
Qed.

(** ** The executor registry *)

Module RegistryFacts.

Import Registry.

Section WithExecutors.

Context {BlockExecutor ChatService ProviderService ToolRegistry
         CredentialService : Type}.
Context (NewVariableExecutor : BlockExecutor).
Context (NewAgentBlockExecutor :
           ChatService -> ProviderService -> ToolRegistry ->
           CredentialService -> BlockExecutor).
Context (NewToolExecutor : ToolRegistry -> CredentialService -> BlockExecutor).

Abbreviation New :=
  (NewExecutorRegistry NewVariableExecutor NewAgentBlockExecutor
                       NewToolExecutor).

Abbreviation registry := (@ExecutorRegistry BlockExecutor).

Lemma Get_Ok_iff (r : registry) t x :
  Get r t = Ok x <-> entry (executors r) t = Some x.
Proof.
  unfold Get. destruct (entry (executors r) t) as [y|]; split; intros H;
    try discriminate; congruence.
Qed.

Lemma Get_Err_iff (r : registry) t :
  Get r t = Err (unknown_block_type t) <-> entry (executors r) t = None.
Proof.
  unfold Get. destruct (entry (executors r) t); split; intros H;
    try discriminate; reflexivity.
Qed.

Lemma NewExecutorRegistry_registered cs ps tr cr t :
  registered (New cs ps tr cr) t <-> builtin_block_type t.
Proof.
  unfold registered, NewExecutorRegistry, builtin_block_type. simpl.
  rewrite !lookup_insert. repeat case_decide; subst.
  - split; [auto | eauto].
  - split; [auto | eauto].
  - split; [auto | eauto].
  - rewrite lookup_empty. split.
    + intros [x Hx]. discriminate.
    + intros [H' | [H' | H']]; congruence.
Qed.

(** The zero value answers no block type. *)
Lemma Get_zeroRegistry t :
  Get (@zeroRegistry BlockExecutor) t = Err (unknown_block_type t).
Proof. reflexivity. Qed.

(** C5. [Get] fails exactly when no executor is registered for the block
    type, and then with the "no executor registered" error; a registry
    made by [NewExecutorRegistry] answers exactly the three built-in block
    types [variable], [llm_inference] and [code_block]. *)
Theorem Get_error_iff_unregistered :
  (forall (r : registry) t,
      (is_err (Get r t) = true <-> ~ registered r t) /\
      (Get r t = Err (unknown_block_type t) <-> ~ registered r t)) /\
  (forall cs ps tr cr t,
      is_ok (Get (New cs ps tr cr) t) = true <->
      builtin_block_type t) /\
  (forall cs ps tr cr,
      let r := New cs ps tr cr in
      Get r "variable" = Ok NewVariableExecutor /\
      Get r "llm_inference" = Ok (NewAgentBlockExecutor cs ps tr cr) /\
      Get r "code_block" = Ok (NewToolExecutor tr cr)).
Proof.
  split; [| split].
  - intros r t. unfold registered, Get, is_err.
    destruct (entry (executors r) t) as [x|] eqn:E; simpl.
    + split; (split; [discriminate | intros H; exfalso; eauto]).
    + split; (split; [intros _ [y Hy]; discriminate | reflexivity]).
  - intros cs ps tr cr t.
    rewrite <- (NewExecutorRegistry_registered cs ps tr cr t).
    unfold registered, Get.
    destruct (entry (executors (New cs ps tr cr)) t) as [x|].
    + split; [intros _; by eexists | done].
    + split; [discriminate | intros [y Hy]; discriminate].
  - intros cs ps tr cr. repeat split.
Qed.

(** [Register] on an allocated map stores the executor; on the nil map it
    panics. *)
Lemma Register_allocated (r : registry) t x :
  allocated r ->
  exists m,
    executors r = Some m /\
    Register r t x = Registered (mkRegistry (Some (<[t := x]> m))).
Proof.
  intros [m Hm]. exists m. split; [done |]. unfold Register. by rewrite Hm.
Qed.

Lemma Register_nil_map (r : registry) t x :
  Register r t x = NilMapPanic <-> ~ allocated r.
Proof.
  unfold Register, allocated. destruct (executors r) as [m |]; split.
  - discriminate.
  - intros H. exfalso. apply H. by eexists.
  - intros _ [m Hm]. discriminate.
  - done.
Qed.

(** C8. On a registry whose map is allocated, [Register t x] returns, and
    [Get t] on the registry it leaves returns exactly [x] with a nil
    error, whatever was registered for [t] before; every other block type
    answers as it did before, and the map stays allocated, so that the
    same holds after any number of registrations.  A registry made by
    [NewExecutorRegistry] has its map allocated.  On a registry whose map
    is nil, as in the zero value [ExecutorRegistry{}], [Register] panics
    and nothing is registered. *)
Theorem Register_then_Get :
  forall (r : registry) (t : string) (x : BlockExecutor),
    (allocated r ->
     exists r',
       Register r t x = Registered r' /\
       allocated r' /\
       Get r' t = Ok x /\
       (forall t', t' <> t -> Get r' t' = Get r t') /\
       (forall y, exists r1 r2,
           Register r t y = Registered r1 /\
           Register r1 t x = Registered r2 /\
           Get r2 t = Ok x)) /\
    (Register r t x = NilMapPanic <-> ~ allocated r) /\
    Register zeroRegistry t x = NilMapPanic /\
    (forall cs ps tr cr, allocated (New cs ps tr cr)).
Proof.
  intros r t x. split_and!.
  - intros Hr.
    destruct (Register_allocated r t x Hr) as (m & Hm & Hreg).
    eexists. split; [exact Hreg |]. split_and!.
    + by eexists.
    + unfold Get. cbn. by rewrite lookup_insert_eq.
    + intros t' Hne. unfold Get. rewrite Hm. cbn.
      by rewrite lookup_insert_ne.
    + intros y.
      destruct (Register_allocated r t y Hr) as (m' & Hm' & Hreg').
      eexists _, _. split; [exact Hreg' |]. split; [reflexivity |].
      unfold Get. cbn. by rewrite lookup_insert_eq.
  - apply Register_nil_map.
  - reflexivity.
  - intros cs ps tr cr. by eexists.
Qed.

End WithExecutors.

End RegistryFacts.

(** ** The execution limiter *)

Module LimiterFacts.

Import Limiter.

Lemma GetInt64_range rc key count :
  GetInt64 rc key = (count, None) -> in_int64 count.
Proof.
  unfold GetInt64. destruct (failure rc); [discriminate |].
  destruct (strings rc !! key) as [[n | s] |]; try discriminate.
  destruct (in_int64b n) eqn:E; [| discriminate].
  intros [= <-]. by apply in_int64b_spec.
Qed.

Lemma GetInt64_absent rc key :
  failure rc = None -> strings rc !! key = None ->
  GetInt64 rc key = (0, Some RedisNil).
Proof. intros Hf Hk. unfold GetInt64. by rewrite Hf, Hk. Qed.

Lemma GetInt64_unreachable rc key e :
  failure rc = Some e -> GetInt64 rc key = (0, Some (OtherError e)).
Proof. intros Hf. unfold GetInt64. by rewrite Hf. Qed.

(** The value read is Go's zero whenever an error comes with it. *)
Lemma GetInt64_error_zero rc key count e :
  GetInt64 rc key = (count, Some e) -> count = 0.
Proof.
  unfold GetInt64. destruct (failure rc); [by intros [= <- _] |].
  destruct (strings rc !! key) as [[n | s] |]; try by intros [= <- _].
  destruct (in_int64b n); [discriminate | by intros [= <- _]].
Qed.

Lemma clamp_nonneg r : 0 <= (if r <? 0 then 0 else r).
Proof. destruct (Z.ltb_spec r 0); lia. Qed.

Lemma clamp_max r : (if r <? 0 then 0 else r) = Z.max 0 r.
Proof. destruct (Z.ltb_spec r 0); lia. Qed.

(** The four ways [GetRemainingExecutions] returns. *)
Lemma GetRemainingExecutions_cases el clk userID :
  let limit := MaxExecutionsPerDay (GetLimits el userID) in
  let r := GetRemainingExecutions el clk userID in
  r = (-1, None) \/
  (limit <> -1 /\ r = (limit, None)) \/
  (exists e, r = (-1, Some e)) \/
  (exists n, 0 <= n /\ r = (n, None)).
Proof.
  cbv zeta. unfold GetRemainingExecutions.
  destruct (redis el) as [rc |]; [| by left].
  destruct (Z.eqb_spec (MaxExecutionsPerDay (GetLimits el userID)) (-1));
    [by left |].
  destruct (GetInt64 rc _) as [count [[| msg] |]].
  - right; left. by split.
  - right; right; left. by eexists.
  - right; right; right.
    exists (Z.max 0 (sub64 (MaxExecutionsPerDay (GetLimits el userID)) count)).
    split; [lia |]. rewrite <- clamp_max. by destruct (_ <? 0).
Qed.

Lemma GetRemainingExecutions_count el clk userID rc count :
  redis el = Some rc ->
  MaxExecutionsPerDay (GetLimits el userID) <> -1 ->
  GetInt64 rc (execution_key userID (today clk)) = (count, None) ->
  GetRemainingExecutions el clk userID
  = (Z.max 0 (sub64 (MaxExecutionsPerDay (GetLimits el userID)) count), None).
Proof.
  intros Hr Hne Hg. unfold GetRemainingExecutions. rewrite Hr.
  destruct (Z.eqb_spec (MaxExecutionsPerDay (GetLimits el userID)) (-1));
    [done |].
  rewrite Hg. rewrite <- clamp_max. by destruct (_ <? 0).
Qed.

(** The key is made of the user and the day: keys of days written with the
    same number of characters are equal only for the same user and day. *)
Lemma length_append (s1 s2 : string) :
  String.length (s1 +:+ s2) = (String.length s1 + String.length s2)%nat.
Proof.
  induction s1 as [| a s1 IH]; [done |].
  change (S (String.length (s1 +:+ s2))
          = S (String.length s1 + String.length s2)).
  by rewrite IH.
Qed.

Lemma append_inj_length (s1 s2 t1 t2 : string) :
  String.length s1 = String.length s2 ->
  s1 +:+ t1 = s2 +:+ t2 -> s1 = s2 /\ t1 = t2.
Proof.
  revert s2. induction s1 as [| a s1 IH]; intros [| b s2] Hlen Happ;
    try discriminate.
  - done.
  - change (String a (s1 +:+ t1) = String b (s2 +:+ t2)) in Happ.
    injection Hlen as Hlen. injection Happ as <- Happ.
    destruct (IH s2 Hlen Happ) as [<- <-]. done.
Qed.

Lemma execution_key_literal userID day :
  execution_key userID day = "executions:" +:+ userID +:+ ":" +:+ day.
Proof. reflexivity. Qed.

Lemma execution_key_inj userID userID' day day' :
  String.length day = String.length day' ->
  execution_key userID day = execution_key userID' day' ->
  userID = userID' /\ day = day'.
Proof.
  intros Hlen Hkey. unfold execution_key in Hkey.
  apply (inj (String.app "executions:")) in Hkey.
  assert (Hu : String.length userID = String.length userID').
  { apply (f_equal String.length) in Hkey.
    rewrite !length_append in Hkey. cbn in Hkey. lia. }
  destruct (append_inj_length _ _ _ _ Hu Hkey) as [<- Hday].
  split; [done |]. by injection Hday.
Qed.

(** The result depends on Redis through that one key only. *)
Lemma GetRemainingExecutions_reads_one_key el clk userID rc rc' :
  redis el = Some rc ->
  failure rc' = failure rc ->
  strings rc' !! execution_key userID (today clk)
  = strings rc !! execution_key userID (today clk) ->
  GetRemainingExecutions (mkLimiter (GetLimits el) (Some rc')) clk userID
  = GetRemainingExecutions el clk userID.
Proof.
  intros Hr Hf Hk. unfold GetRemainingExecutions, GetInt64.
  cbn [redis GetLimits]. by rewrite Hr, Hf, Hk.
Qed.

Lemma GetRemainingExecutions_error el clk userID rc count e :
  redis el = Some rc ->
  MaxExecutionsPerDay (GetLimits el userID) <> -1 ->
  GetInt64 rc (execution_key userID (today clk))
  = (count, Some (OtherError e)) ->
  GetRemainingExecutions el clk userID = (-1, Some (OtherError e)).
Proof.
  intros Hr Hne Hg. unfold GetRemainingExecutions. rewrite Hr.
  destruct (Z.eqb_spec (MaxExecutionsPerDay (GetLimits el userID)) (-1));
    [done |].
  by rewrite Hg.
Qed.

(** C6. [GetRemainingExecutions] returns -1 when no Redis client is
    configured or the tier's daily allowance is unlimited (-1).  Otherwise
    it reads one key, [executions:<userID>:<today>], which belongs to that
    user and that day and to no other.  When Redis holds nothing under the
    key, it returns the full daily limit, whatever the limit is: a negative
    limit other than -1 is returned as it is.  When a count is read, it
    returns the limit minus the count (Go's [int64] subtraction, the exact
    difference for a non-negative limit and count), clamped below at 0,
    which is never negative.  When the read fails, it returns -1 with the
    error.  Whatever Redis holds under other keys makes no difference.
    For a tier limit that is -1 or not negative, the number returned is
    never a negative number other than -1. *)
Theorem GetRemainingExecutions_spec
    (el : ExecutionLimiter) (clk : Clock) (userID : string) :
  let limit := MaxExecutionsPerDay (GetLimits el userID) in
  let key := "executions:" +:+ userID +:+ ":" +:+ today clk in
  let r := GetRemainingExecutions el clk userID in
  (redis el = None -> r = (-1, None)) /\
  (limit = -1 -> r = (-1, None)) /\
  (forall rc, redis el = Some rc -> limit <> -1 ->
     (failure rc = None -> strings rc !! key = None -> r = (limit, None)) /\
     (forall count, GetInt64 rc key = (count, None) ->
        r = (Z.max 0 (sub64 limit count), None) /\
        0 <= fst r /\
        (in_int64 limit -> 0 <= limit -> 0 <= count ->
         r = (Z.max 0 (limit - count), None))) /\
     (forall count,
        failure rc = None -> strings rc !! key = Some (RInt count) ->
        in_int64 count ->
        r = (Z.max 0 (sub64 limit count), None)) /\
     (forall count e, GetInt64 rc key = (count, Some (OtherError e)) ->
        r = (-1, Some (OtherError e))) /\
     (forall rc',
        failure rc' = failure rc ->
        strings rc' !! key = strings rc !! key ->
        GetRemainingExecutions (mkLimiter (GetLimits el) (Some rc')) clk
                               userID = r)) /\
  (forall userID' day',
      String.length day' = String.length (today clk) ->
      "executions:" +:+ userID' +:+ ":" +:+ day' = key ->
      userID' = userID /\ day' = today clk) /\
  (-1 <= limit -> fst r = -1 \/ 0 <= fst r).
Proof.
  cbv zeta. rewrite <- !execution_key_literal. split_and!.
  - intros Hr. unfold GetRemainingExecutions. by rewrite Hr.
  - intros Hl. unfold GetRemainingExecutions.
    destruct (redis el); [| done]. by rewrite Hl.
  - intros rc Hr Hne. split_and!.
    + intros Hf Hk. unfold GetRemainingExecutions. rewrite Hr.
      destruct (Z.eqb_spec (MaxExecutionsPerDay (GetLimits el userID)) (-1));
        [done |].
      by rewrite (GetInt64_absent _ _ Hf Hk).
    + intros count Hg.
      rewrite (GetRemainingExecutions_count _ _ _ _ _ Hr Hne Hg).
      split; [done |]. split; [cbn [fst]; lia |].
      intros Hin Hl Hc. rewrite sub64_exact; eauto using GetInt64_range.
    + intros count Hf Hk Hin.
      apply (GetRemainingExecutions_count _ _ _ rc); [done | done |].
      unfold GetInt64. rewrite Hf, Hk.
      apply in_int64b_spec in Hin. by rewrite Hin.
    + intros count e Hg.
      by apply (GetRemainingExecutions_error _ _ _ rc count).
    + intros rc' Hf Hk. by apply (GetRemainingExecutions_reads_one_key _ _ _ rc).
  - intros userID' day' Hlen Hkey.
    by apply execution_key_inj in Hkey.
  - intros Hl.
    destruct (GetRemainingExecutions_cases el clk userID)
      as [-> | [[Hne ->] | [[e ->] | (n & Hn & ->)]]]; cbn [fst]; lia.
Qed.

(** C9. A limiter constructed with a nil Redis client does not count:
    [IncrementCount] returns nil, issues no command and leaves the limiter as
    it was, and [GetRemainingExecutions] returns (-1, nil). *)
Theorem nil_redis_disables_limiting
    (tierService : string -> TierLimits) (clk : Clock) (userID : string) :
  let el := NewExecutionLimiter tierService None in
  IncrementCount el clk userID = (None, el, []) /\
  GetRemainingExecutions el clk userID = (-1, None).
Proof. split; reflexivity. Qed.

(** With a Redis client, a successful [IncrementCount] adds one to the
    counter of the day. *)
Lemma IncrementCount_counts el rc clk userID n :
  redis el = Some rc -> failure rc = None ->
  strings rc !! execution_key userID (today clk) = Some (RInt n) ->
  in_int64 (n + 1) ->
  exists rc',
    IncrementCount el clk userID
    = (None, mkLimiter (GetLimits el) (Some rc'),
       [LogIncremented userID (execution_key userID (today clk))]) /\
    strings rc' !! execution_key userID (today clk) = Some (RInt (n + 1)).
Proof.
  intros Hr Hf Hk Hn. unfold IncrementCount, ExecIncrExpire, Incr.
  rewrite Hr, Hf, Hk.
  apply in_int64b_spec in Hn. rewrite Hn.
  eexists. split; [reflexivity |].
  unfold Expire. cbn [strings]. rewrite lookup_insert_eq. cbn [strings].
  by rewrite lookup_insert_eq.
Qed.

(** *** [CheckLimit] *)

(** A Redis read error lets the request through, with a line in the log. *)
Lemma CheckLimit_fails_open el clk userID rc count e :
  MaxExecutionsPerDay (GetLimits el userID) <> -1 ->
  redis el = Some rc ->
  GetInt64 rc (execution_key userID (today clk))
  = (count, Some (OtherError e)) ->
  CheckLimit el clk (LocalString userID)
  = (Next None, [LogGetCountFailed (OtherError e)]).
Proof.
  intros Hl Hr Hg. unfold CheckLimit.
  destruct (Z.eqb_spec (MaxExecutionsPerDay (GetLimits el userID)) (-1));
    [done |].
  by rewrite Hr, Hg.
Qed.

(** The 429 answer is given exactly when a count was read (zero for an
    absent key) and it has reached the limit. *)
Lemma CheckLimit_blocks_iff el clk user :
  rate_limited (fst (CheckLimit el clk user)) = true <->
  exists userID rc count err,
    user = LocalString userID /\
    MaxExecutionsPerDay (GetLimits el userID) <> -1 /\
    redis el = Some rc /\
    GetInt64 rc (execution_key userID (today clk)) = (count, err) /\
    (err = None \/ err = Some RedisNil) /\
    MaxExecutionsPerDay (GetLimits el userID) <= count.
Proof.
  unfold CheckLimit. destruct user as [| userID |]; cbn.
  - split; [discriminate | intros (? & ? & ? & ? & ? & _); discriminate].
  - destruct (Z.eqb_spec (MaxExecutionsPerDay (GetLimits el userID)) (-1))
      as [Heq | Hne]; cbn.
    + split; [discriminate |].
      intros (u & rc & c & err & [= <-] & Hl & _). contradiction.
    + destruct (redis el) as [rc |] eqn:Hr; cbn.
      * destruct (GetInt64 rc _) as [count err] eqn:Hg.
        destruct err as [[| msg] |];
          try destruct (Z.leb_spec (MaxExecutionsPerDay (GetLimits el userID))
                                   count); cbn.
        all: split;
          [ try discriminate; intros _;
            exists userID, rc, count; eexists; repeat split; eauto
          | intros (u & rc' & c & err & [= <-] & _ & [= <-] & Hg' & Herr & Hle);
            rewrite Hg in Hg'; injection Hg' as <- <-;
            try reflexivity; try lia;
            destruct Herr; discriminate ].
      * split; [discriminate |].
        intros (u & rc & c & err & [= <-] & _ & ? & _). discriminate.
  - split; [discriminate | intros (? & ? & ? & ? & ? & _); discriminate].
Qed.

End LimiterFacts.

(** ** The execution limiter: the middleware, the counter and the quota *)

Module LimiterMore.

Import Limiter LimiterFacts.

Lemma difference_in_range limit n :
  -1 <= limit <= max_int64 -> 0 <= n <= max_int64 -> in_int64 (limit - n).
Proof. unfold in_int64, min_int64, max_int64. lia. Qed.

(** X11. The middleware and the handler's check apply the same policy.  For
    a user with a string id, a Redis client configured, a tier limit that is
    -1 or a count and a stored counter that is not negative, [CheckLimit]
    answers 429 exactly when [GetRemainingExecutions] returns 0 with no
    error; it stores the counter key and goes on exactly when a positive
    number is left; it goes on without the key exactly when
    [GetRemainingExecutions] returns -1 (unlimited tier, or a Redis
    error). *)
Theorem CheckLimit_agrees_with_remaining
    (el : ExecutionLimiter) (clk : Clock) (userID : string)
    (rc : RedisClient) :
  let limit := MaxExecutionsPerDay (GetLimits el userID) in
  let key := execution_key userID (today clk) in
  redis el = Some rc ->
  -1 <= limit <= max_int64 ->
  (forall n, strings rc !! key = Some (RInt n) -> 0 <= n) ->
  (rate_limited (fst (CheckLimit el clk (LocalString userID))) = true <->
   GetRemainingExecutions el clk userID = (0, None)) /\
  (fst (CheckLimit el clk (LocalString userID)) = Next (Some key) <->
   exists remaining,
     0 < remaining /\
     GetRemainingExecutions el clk userID = (remaining, None)) /\
  (fst (CheckLimit el clk (LocalString userID)) = Next None <->
   fst (GetRemainingExecutions el clk userID) = -1).
Proof.
  cbv zeta. intros Hr Hlimit Hcount.
  unfold CheckLimit, GetRemainingExecutions. rewrite Hr.
  set (limit := MaxExecutionsPerDay (GetLimits el userID)) in *.
  set (key := execution_key userID (today clk)) in *.
  destruct (Z.eqb_spec limit (-1)) as [Heq | Hne].
  { cbn. split_and!; split; try done.
    intros (remaining & Hpos & [= <-]). lia. }
  unfold GetInt64. destruct (failure rc) as [e |].
  { cbn. split_and!; split; try done.
    intros (remaining & Hpos & [=]). }
  destruct (strings rc !! key) as [[n | s] |] eqn:Hk.
  - specialize (Hcount n eq_refl).
    destruct (in_int64b n) eqn:Hn.
    + apply in_int64b_spec in Hn.
      unfold sub64.
      rewrite (wrap64_id (limit - n))
        by (apply difference_in_range; unfold in_int64 in Hn; lia).
      destruct (Z.leb_spec limit n), (Z.ltb_spec (limit - n) 0); cbn;
        try lia.
      * split_and!; split; try done.
        intros (remaining & Hpos & [= <-]). lia.
      * assert (limit - n = 0) as -> by lia.
        split_and!; split; try done.
        intros (remaining & Hpos & [= <-]). lia.
      * split_and!; split; try done.
        -- intros [= Heq]. lia.
        -- intros _. exists (limit - n). split; [lia | done].
        -- cbn. lia.
    + cbn. split_and!; split; try done.
      intros (remaining & Hpos & [=]).
  - cbn. split_and!; split; try done.
    intros (remaining & Hpos & [=]).
  - destruct (Z.leb_spec limit 0); cbn.
    + assert (limit = 0) as -> by lia.
      split_and!; split; try done.
      intros (remaining & Hpos & [= <-]). lia.
    + split_and!; split; try done.
      * intros [= Heq]. lia.
      * intros _. exists limit. split; [lia | done].
Qed.

(** What a successful [IncrementCount] does to the counter. *)
Lemma IncrementCount_step el rc clk userID n :
  let key := execution_key userID (today clk) in
  redis el = Some rc ->
  counts rc key n ->
  in_int64 (n + 1) ->
  exists rc',
    IncrementCount el clk userID
    = (None, mkLimiter (GetLimits el) (Some rc'), [LogIncremented userID key]) /\
    counts rc' key (n + 1) /\
    strings rc' !! key = Some (RInt (n + 1)) /\
    ttl rc' !! key = Some (untilMidnight clk + 24 * hour) /\
    (forall other, other <> key ->
                   strings rc' !! other = strings rc !! other /\
                   ttl rc' !! other = ttl rc !! other).
Proof.
  cbv zeta. intros Hr [Hf Hk] Hn.
  unfold IncrementCount, ExecIncrExpire, Incr. rewrite Hr, Hf.
  apply in_int64b_spec in Hn.
  destruct Hk as [Hk | [-> Hk]]; rewrite Hk, ?Hn.
  - eexists. split; [reflexivity |]. unfold Expire. cbn [strings].
    rewrite lookup_insert_eq. cbn [strings failure ttl].
    split_and!.
    + split; [done |]. left. apply lookup_insert_eq.
    + apply lookup_insert_eq.
    + apply lookup_insert_eq.
    + intros other Hne. by rewrite !lookup_insert_ne.
  - eexists. split; [reflexivity |]. unfold Expire. cbn [strings].
    rewrite lookup_insert_eq. cbn [strings failure ttl].
    split_and!.
    + split; [done |]. left. apply lookup_insert_eq.
    + apply lookup_insert_eq.
    + apply lookup_insert_eq.
    + intros other Hne. by rewrite !lookup_insert_ne.
Qed.

Lemma GetRemainingExecutions_counts el rc clk userID n :
  let limit := MaxExecutionsPerDay (GetLimits el userID) in
  redis el = Some rc ->
  counts rc (execution_key userID (today clk)) n ->
  0 <= limit <= max_int64 ->
  0 <= n <= max_int64 ->
  GetRemainingExecutions el clk userID = (Z.max 0 (limit - n), None).
Proof.
  cbv zeta. intros Hr [Hf Hk] Hlimit Hn.
  unfold GetRemainingExecutions. rewrite Hr.
  destruct (Z.eqb_spec (MaxExecutionsPerDay (GetLimits el userID)) (-1));
    [lia |].
  unfold GetInt64. rewrite Hf.
  destruct Hk as [Hk | [-> Hk]]; rewrite Hk.
  - assert (in_int64b n = true) as ->
        by (apply in_int64b_spec; unfold in_int64, min_int64 in *; lia).
    unfold sub64. rewrite wrap64_id by (apply difference_in_range; lia).
    rewrite <- clamp_max. by destruct (_ <? 0).
  - f_equal. lia.
Qed.

(** X12. Starting a run uses up one execution.  With Redis reachable and a
    counter that is absent or holds a count, [IncrementCount] returns nil,
    leaves the counter one higher (1 for an absent key), sets its time to
    live to the time until the next midnight plus 24 hours and touches no
    other key; for a limited tier [GetRemainingExecutions] then answers one
    less than before, and never less than 0. *)
Theorem IncrementCount_uses_one_execution
    (el : ExecutionLimiter) (clk : Clock) (userID : string)
    (rc : RedisClient) (n : Z) :
  let limit := MaxExecutionsPerDay (GetLimits el userID) in
  let key := execution_key userID (today clk) in
  redis el = Some rc ->
  counts rc key n ->
  0 <= n < max_int64 ->
  0 <= limit <= max_int64 ->
  exists rc',
    IncrementCount el clk userID
    = (None, mkLimiter (GetLimits el) (Some rc'), [LogIncremented userID key]) /\
    strings rc' !! key = Some (RInt (n + 1)) /\
    ttl rc' !! key = Some (untilMidnight clk + 24 * hour) /\
    (forall other, other <> key ->
                   strings rc' !! other = strings rc !! other /\
                   ttl rc' !! other = ttl rc !! other) /\
    GetRemainingExecutions el clk userID = (Z.max 0 (limit - n), None) /\
    GetRemainingExecutions (mkLimiter (GetLimits el) (Some rc')) clk userID
    = (Z.max 0 (limit - n - 1), None).
Proof.
  cbv zeta. intros Hr Hk Hn Hlimit.
  destruct (IncrementCount_step el rc clk userID n Hr Hk)
    as (rc' & Heq & Hk' & Hs & Ht & Hframe).
  { unfold in_int64, min_int64 in *. lia. }
  exists rc'. split_and!; try done.
  - apply (GetRemainingExecutions_counts el rc); [done | done | lia | lia].
  - rewrite (GetRemainingExecutions_counts _ rc' clk userID (n + 1));
      [cbn [GetLimits]; f_equal; lia | done | done | done | lia].
Qed.

Lemma incrementTimes_counts count :
  forall el rc clk userID n,
    redis el = Some rc ->
    counts rc (execution_key userID (today clk)) n ->
    0 <= n ->
    n + Z.of_nat count <= max_int64 ->
    exists rc',
      incrementTimes count el clk userID
      = mkLimiter (GetLimits el) (Some rc') /\
      counts rc' (execution_key userID (today clk)) (n + Z.of_nat count).
Proof.
  induction count as [| count IH]; intros el rc clk userID n Hr Hk H0 Hmax.
  - exists rc. cbn [incrementTimes]. rewrite Z.add_0_r. split; [| done].
    destruct el. cbn in Hr. by subst.
  - destruct (IncrementCount_step el rc clk userID n Hr Hk)
      as (rc1 & Heq & Hk1 & _).
    { unfold in_int64, min_int64 in *. lia. }
    cbn [incrementTimes]. rewrite Heq. cbn [fst snd].
    destruct (IH (mkLimiter (GetLimits el) (Some rc1)) rc1 clk userID (n + 1))
      as (rc' & Heq' & Hk'); [done | done | lia | lia |].
    exists rc'. rewrite Heq'. split; [done |].
    by replace (n + Z.of_nat (S count)) with (n + 1 + Z.of_nat count) by lia.
Qed.

(** X13. The daily quota is enforced.  From a day with no execution
    counted, after [k] runs have been counted a user of a tier with a daily
    limit has [limit - k] executions left, never less than 0;
    [CheckLimit] lets the request through, storing the counter key, while
    [k] is below the limit, and answers 429, reporting the limit and [k] as
    used, from then on. *)
Theorem daily_quota_is_enforced
    (el : ExecutionLimiter) (clk : Clock) (userID : string)
    (rc : RedisClient) (k : nat) :
  let limit := MaxExecutionsPerDay (GetLimits el userID) in
  let key := execution_key userID (today clk) in
  let el' := incrementTimes k el clk userID in
  redis el = Some rc ->
  failure rc = None ->
  strings rc !! key = None ->
  0 <= limit <= max_int64 ->
  Z.of_nat k <= max_int64 ->
  GetRemainingExecutions el' clk userID
  = (Z.max 0 (limit - Z.of_nat k), None) /\
  (Z.of_nat k < limit ->
   CheckLimit el' clk (LocalString userID) = (Next (Some key), [])) /\
  (limit <= Z.of_nat k ->
   CheckLimit el' clk (LocalString userID)
   = (limit_exceeded limit (Z.of_nat k) (nextMidnightUTC clk), [])).
Proof.
  cbv zeta. intros Hr Hf Hk Hlimit Hmax.
  destruct (incrementTimes_counts k el rc clk userID 0 Hr)
    as (rc' & -> & Hk'); [by split; [| right] | lia | lia |].
  rewrite Z.add_0_l in Hk'.
  split_and!.
  - rewrite (GetRemainingExecutions_counts _ rc' clk userID (Z.of_nat k));
      [done | done | done | done | lia].
  - intros Hbelow. unfold CheckLimit. cbn [GetLimits redis].
    destruct (Z.eqb_spec (MaxExecutionsPerDay (GetLimits el userID)) (-1));
      [lia |].
    destruct Hk' as [Hf' Hk']. unfold GetInt64. rewrite Hf'.
    destruct Hk' as [Hk' | [H0 Hk']]; rewrite Hk'.
    + assert (in_int64b (Z.of_nat k) = true) as ->
          by (apply in_int64b_spec; unfold in_int64, min_int64 in *; lia).
      by destruct (Z.leb_spec (MaxExecutionsPerDay (GetLimits el userID))
                              (Z.of_nat k)); [lia |].
    + by destruct (Z.leb_spec (MaxExecutionsPerDay (GetLimits el userID)) 0);
        [lia |].
  - intros Hreached. unfold CheckLimit. cbn [GetLimits redis].
    destruct (Z.eqb_spec (MaxExecutionsPerDay (GetLimits el userID)) (-1));
      [lia |].
    destruct Hk' as [Hf' Hk']. unfold GetInt64. rewrite Hf'.
    destruct Hk' as [Hk' | [H0 Hk']]; rewrite Hk'.
    + assert (in_int64b (Z.of_nat k) = true) as ->
          by (apply in_int64b_spec; unfold in_int64, min_int64 in *; lia).
      by destruct (Z.leb_spec (MaxExecutionsPerDay (GetLimits el userID))
                              (Z.of_nat k)); [| lia].
    + rewrite H0.
      by destruct (Z.leb_spec (MaxExecutionsPerDay (GetLimits el userID)) 0);
        [| lia].
Qed.

End LimiterMore.

(** ** The admin gate *)

Module AdminFacts.

Import Admin.

Lemma listed_spec userID ids : listed userID ids = true <-> userID ∈ ids.
Proof.
  induction ids as [| adminID rest IH]; cbn.
  - split; [done | by intros ?%elem_of_nil].
  - destruct (String.eqb_spec adminID userID) as [-> | Hne].
    + split; [intros _; by apply list_elem_of_here | done].
    + rewrite IH, elem_of_cons. split; [by right | by intros [-> | ?]].
Qed.

Lemma AdminMiddleware_unauthenticated cfg user_id user_role :
  ~ (exists userID, user_id = Limiter.LocalString userID /\ userID <> "") ->
  AdminMiddleware cfg user_id user_role
  = (Respond StatusUnauthorized "Authentication required", []).
Proof.
  intros Hnot. unfold AdminMiddleware.
  destruct user_id as [| userID |]; cbn [asString negb orb]; try done.
  destruct (String.eqb_spec userID "") as [-> | Hne]; [done |].
  destruct Hnot. eauto.
Qed.

Lemma AdminMiddleware_role cfg userID :
  userID <> "" ->
  AdminMiddleware cfg (Limiter.LocalString userID)
                  (Limiter.LocalString "admin")
  = (Next true, [LogGranted userID "admin"]).
Proof.
  intros Hne. unfold AdminMiddleware. cbn [asString negb orb].
  by destruct (String.eqb_spec userID "").
Qed.

Lemma AdminMiddleware_list c userID user_role :
  userID <> "" ->
  user_role <> Limiter.LocalString "admin" ->
  fst (AdminMiddleware (Some c) (Limiter.LocalString userID) user_role)
  = if listed userID (SuperadminUserIDs c) then Next true
    else Respond StatusForbidden "Admin access required".
Proof.
  intros Hne Hrole. unfold AdminMiddleware. cbn [asString negb orb].
  destruct (String.eqb_spec userID ""); [done |].
  destruct user_role as [| role |]; cbn [asString andb].
  2: destruct (String.eqb_spec role "admin") as [-> | _]; [done |].
  all: by destruct (listed userID (SuperadminUserIDs c)).
Qed.

Lemma Local_is_admin (user_role : Limiter.Local) :
  user_role = Limiter.LocalString "admin" \/
  user_role <> Limiter.LocalString "admin".
Proof.
  destruct user_role as [| role |]; [by right | | by right].
  destruct (String.eqb_spec role "admin") as [-> | Hne]; [by left |].
  right. by intros [= ->].
Qed.

(** X14. The admin gate lets a request through exactly when [user_id] is a
    non-empty string and either [user_role] is the string [admin] or the id
    is in the configured superadmin list; it then stores
    [is_superadmin = true].  A missing, non-string or empty [user_id] is
    answered 401 whatever the role and the list hold; every other request
    is answered 403. *)
Theorem AdminMiddleware_decides
    (c : Config) (user_id user_role : Limiter.Local) :
  let outcome := fst (AdminMiddleware (Some c) user_id user_role) in
  let authenticated :=
    exists userID, user_id = Limiter.LocalString userID /\ userID <> "" in
  let admin :=
    exists userID,
      user_id = Limiter.LocalString userID /\ userID <> "" /\
      (user_role = Limiter.LocalString "admin" \/
       userID ∈ SuperadminUserIDs c) in
  (outcome = Next true <-> admin) /\
  (outcome = Respond StatusUnauthorized "Authentication required" <->
   ~ authenticated) /\
  (outcome = Respond StatusForbidden "Admin access required" <->
   authenticated /\ ~ admin) /\
  outcome <> Next false /\
  outcome <> Panic.
Proof.
  intros outcome authenticated admin.
  assert (Hadmin : admin -> authenticated).
  { intros (u & Hu & Hne & _). exists u. done. }
  assert (Hcases :
    (~ authenticated /\
     outcome = Respond StatusUnauthorized "Authentication required") \/
    (admin /\ outcome = Next true) \/
    (authenticated /\ ~ admin /\
     outcome = Respond StatusForbidden "Admin access required")).
  { destruct user_id as [| userID |].
    1, 3: left; split; [by intros (u & ? & _) |];
          unfold outcome; by rewrite AdminMiddleware_unauthenticated
            by (by intros (u & ? & _)).
    destruct (String.eqb_spec userID "") as [-> | Hne].
    { left. split; [by intros (u & [= <-] & ?) |].
      unfold outcome. by rewrite AdminMiddleware_unauthenticated
        by (by intros (u & [= <-] & ?)). }
    right. destruct (Local_is_admin user_role) as [-> | Hrole].
    { left. split; [exists userID; eauto |].
      unfold outcome. by rewrite AdminMiddleware_role. }
    unfold outcome. rewrite (AdminMiddleware_list c userID user_role Hne Hrole).
    destruct (listed userID (SuperadminUserIDs c)) eqn:Hlisted.
    - left. split; [| done]. exists userID. split_and!; [done | done |].
      right. by apply listed_spec.
    - right. split_and!; [exists userID; eauto | | done].
      intros (u & [= <-] & _ & [Hr | Hin]); [done |].
      apply listed_spec in Hin. congruence. }
  destruct Hcases as [[Hna ->] | [[Ha ->] | (Hauth & Hna & ->)]];
    split_and!; try discriminate;
    split; intros; first [done | tauto | discriminate].
Qed.

(** X15. [IsSuperadmin] answers true exactly for the ids of the configured
    list, and the gate's fallback is the same test: a request with a
    non-empty string id and no [admin] role passes the gate exactly when
    [IsSuperadmin] says so.  The empty id is never let through, even when the
    list contains the empty string. *)
Theorem IsSuperadmin_is_the_fallback (c : Config) (userID : string) :
  (IsSuperadmin userID (Some c) = Some true <->
   userID ∈ SuperadminUserIDs c) /\
  (forall user_role,
      userID <> "" ->
      user_role <> Limiter.LocalString "admin" ->
      (fst (AdminMiddleware (Some c) (Limiter.LocalString userID) user_role)
       = Next true <->
       IsSuperadmin userID (Some c) = Some true)) /\
  (forall user_role,
      AdminMiddleware (Some c) (Limiter.LocalString "") user_role
      = (Respond StatusUnauthorized "Authentication required", []) /\
      (IsSuperadmin "" (Some c) = Some true <-> "" ∈ SuperadminUserIDs c)).
Proof.
  assert (Hspec : forall u, IsSuperadmin u (Some c) = Some true <->
                            u ∈ SuperadminUserIDs c).
  { intros u. unfold IsSuperadmin. rewrite <- listed_spec.
    split; [by intros [= ->] | by intros ->]. }
  split_and!.
  - apply Hspec.
  - intros user_role Hne Hrole. unfold AdminMiddleware, IsSuperadmin.
    cbn [asString negb orb].
    destruct (String.eqb_spec userID ""); [done |].
    destruct user_role as [| role |]; cbn [asString andb].
    2: destruct (String.eqb_spec role "admin") as [-> | _]; [done |].
    all: destruct (listed userID (SuperadminUserIDs c)); cbn; split; done.
  - intros user_role. split; [done | apply Hspec].
Qed.

End AdminFacts.

(** ** The memory model pool *)

Module ModelPoolFacts.

Import ModelPool.

Lemma index_Some {A} (l : list A) i x :
  index l i = Some x <-> 0 <= i < len l /\ l !! Z.to_nat i = Some x.
Proof.
  unfold index, len.
  destruct (Z.leb_spec 0 i), (Z.ltb_spec i (Z.of_nat (length l))); cbn;
    split; try discriminate; try tauto; try (intros [? _]; lia).
Qed.

Lemma index_in_range {A} (l : list A) i :
  0 <= i < len l -> is_Some (index l i).
Proof.
  intros Hi. destruct (lookup_lt_is_Some_2 l (Z.to_nat i)) as [x Hx].
  - unfold len in Hi. lia.
  - exists x. by apply index_Some.
Qed.

Lemma index_elem_of {A} (l : list A) i x : index l i = Some x -> x ∈ l.
Proof.
  intros [_ Hx]%index_Some. apply list_elem_of_lookup. eauto.
Qed.

Lemma next_index i a n :
  0 < n -> Z.rem ((i + a) mod n + 1) n = (i + (a + 1)) mod n.
Proof.
  intros Hn. pose proof (Z.mod_pos_bound (i + a) n Hn).
  rewrite Z.rem_mod_nonneg by lia.
  rewrite Z.add_mod_idemp_l by lia. f_equal. lia.
Qed.

Lemma set_extractorIndex_same p : set_extractorIndex p (extractorIndex p) = p.
Proof. by destruct p. Qed.

Lemma set_extractorIndex_twice p i j :
  set_extractorIndex (set_extractorIndex p i) j = set_extractorIndex p j.
Proof. reflexivity. Qed.

(** The loop never returns the error: that is decided before it. *)
Lemma tryExtractors_not_Failed clock remaining attempts p e :
  fst (tryExtractors clock remaining attempts p) <> Failed e.
Proof.
  revert attempts p. induction remaining as [| r IH]; intros a p; cbn.
  - destruct (index _ 0); discriminate.
  - destruct (index _ _) as [c |]; [| discriminate].
    destruct (healthTracker p !! ModelID c) as [h |]; [| discriminate].
    destruct (IsHealthy h); [discriminate |].
    destruct (_ <? _); [discriminate | apply IH].
Qed.

Section RoundRobin.

Context (clock : nat -> Time) (p : MemoryModelPool).
Context (Hok : extractors_ok p).

Let n : Z := len (extractorModels p).

Lemma extractors_nonempty : 0 < n.
Proof. destruct Hok as [Hi _]. unfold n. lia. Qed.

Lemma candidate_at_is_Some k : is_Some (candidate_at p k).
Proof.
  pose proof extractors_nonempty as Hn. destruct Hok as [_ Htracked].
  unfold candidate_at. fold n.
  destruct (index_in_range (extractorModels p)
              ((extractorIndex p + Z.of_nat k) mod n)) as [c Hc].
  { apply Z.mod_pos_bound. exact Hn. }
  rewrite Hc. destruct (Htracked c (index_elem_of _ _ _ Hc)) as [h Hh].
  rewrite Hh. by eexists.
Qed.

(** The loop from attempt [a] on: it stops at the first attempt [k >= a]
    whose candidate is available, or passes over all of them and falls back
    on the first model. *)
Lemma tryExtractors_from remaining a :
  (a + remaining = length (extractorModels p))%nat ->
  (exists k c h,
      (a <= k < length (extractorModels p))%nat /\
      candidate_at p k = Some (c, h) /\
      available clock k h = true /\
      (forall j, (a <= j < k)%nat -> skipped clock p j) /\
      tryExtractors clock remaining a
        (set_extractorIndex p ((extractorIndex p + Z.of_nat a) mod n))
      = (Selected (ModelID c),
         mkPool (extractorModels p) (selectorModels p)
                ((extractorIndex p + Z.of_nat (S k)) mod n) (selectorIndex p)
                (if IsHealthy h then healthTracker p
                 else <[ModelID c := retry_after_cooldown h]>
                        (healthTracker p)))) \/
  ((forall j, (a <= j < length (extractorModels p))%nat -> skipped clock p j) /\
   exists first,
     extractorModels p !! 0%nat = Some first /\
     tryExtractors clock remaining a
       (set_extractorIndex p ((extractorIndex p + Z.of_nat a) mod n))
     = (Selected (ModelID first),
        set_extractorIndex p
          ((extractorIndex p + Z.of_nat (length (extractorModels p))) mod n))).
Proof.
  pose proof extractors_nonempty as Hn.
  revert a. induction remaining as [| r IH]; intros a Ha.
  - right. split; [intros j Hj; lia |].
    destruct (index_in_range (extractorModels p) 0) as [c0 Hc0];
      [fold n; lia |].
    exists c0. split; [by apply index_Some in Hc0 as [_ Hc0] |].
    cbn. rewrite Hc0. do 3 f_equal. lia.
  - destruct (candidate_at_is_Some a) as [[c h] Hch].
    pose proof Hch as Hch'. unfold candidate_at in Hch'. fold n in Hch'.
    destruct (index (extractorModels p) _) as [c' |] eqn:Hc; [| discriminate].
    destruct (healthTracker p !! ModelID c') as [h' |] eqn:Hh; [| discriminate].
    injection Hch' as -> ->.
    assert (Hunavailable :
              IsHealthy h = false ->
              (HealthCheckCooldown <? Since (clock a) (LastFailure h)) = false ->
              skipped clock p a).
    { intros H1 H2. exists c, h. split; [done |].
      unfold available. by rewrite H1, H2. }
    cbn [tryExtractors set_extractorIndex extractorModels extractorIndex
         healthTracker].
    fold n. rewrite Hc, Hh.
    rewrite (next_index _ _ _ Hn).
    replace (Z.of_nat a + 1) with (Z.of_nat (S a)) by lia.
    destruct (IsHealthy h) eqn:Hhealthy.
    + left. exists a, c, h. split_and!; try lia; try done.
      * unfold available. by rewrite Hhealthy.
      * by rewrite Hhealthy.
    + destruct (HealthCheckCooldown <? Since (clock a) (LastFailure h))
        eqn:Hcool.
      * left. exists a, c, h. split_and!; try lia; try done.
        -- unfold available. by rewrite Hhealthy, Hcool.
        -- by rewrite Hhealthy.
      * destruct (IH (S a) ltac:(lia))
          as [(k & c1 & h1 & Hk & Hc1 & Hav & Hskip & Heq)
             | (Hskip & c0 & Hc0 & Heq)].
        -- left. exists k, c1, h1. split_and!; try lia; try done.
           intros j Hj. destruct (decide (j = a)) as [-> | Hne];
             [by apply Hunavailable | apply Hskip; lia].
        -- right. split.
           ++ intros j Hj. destruct (decide (j = a)) as [-> | Hne];
                [by apply Hunavailable | apply Hskip; lia].
           ++ by exists c0.
Qed.

End RoundRobin.

(** *** The bubble sort *)

Lemma compareSwap_middle pre x y rest :
  compareSwap (length pre) (pre ++ x :: y :: rest)
  = pre ++ (if SpeedMs y <? SpeedMs x then y :: x :: rest
            else x :: y :: rest).
Proof.
  unfold compareSwap.
  assert (H1 : (pre ++ x :: y :: rest) !! length pre = Some x)
    by (by apply list_lookup_middle).
  assert (H2 : (pre ++ x :: y :: rest) !! S (length pre) = Some y).
  { rewrite lookup_app_r by lia.
    by replace (S (length pre) - length pre)%nat with 1%nat by lia. }
  rewrite H1, H2. destruct (SpeedMs y <? SpeedMs x); [| done].
  replace (S (length pre)) with (length pre + 1)%nat by lia.
  rewrite insert_app_r.
  rewrite <- (Nat.add_0_r (length pre)) at 1. by rewrite insert_app_r.
Qed.

(** With no element after index [j] there is nothing to compare. *)
Lemma compareSwap_beyond j (models : list ModelCandidate) :
  (length models <= S j)%nat -> compareSwap j models = models.
Proof.
  intros Hj. unfold compareSwap.
  rewrite (lookup_ge_None_2 models (S j)) by lia.
  by destruct (models !! j).
Qed.

Lemma innerLoop_beyond count j (models : list ModelCandidate) :
  (length models <= S j)%nat -> innerLoop count j models = models.
Proof.
  revert j. induction count as [| c IH]; intros j Hj; [done |].
  cbn. rewrite compareSwap_beyond by lia. apply IH. lia.
Qed.

(** The inner loop from index [length pre] on is a pass of [bubble]. *)
Lemma innerLoop_bubble count pre x rest :
  innerLoop count (length pre) (pre ++ x :: rest)
  = pre ++ bubble count x rest.
Proof.
  revert pre x rest. induction count as [| c IH]; intros pre x rest; [done |].
  destruct rest as [| y rest].
  - apply innerLoop_beyond. rewrite length_app. cbn. lia.
  - cbn [innerLoop bubble]. rewrite compareSwap_middle.
    destruct (SpeedMs y <? SpeedMs x).
    + specialize (IH (pre ++ [y]) x rest).
      rewrite length_app, <- app_assoc in IH. cbn in IH.
      replace (length pre + 1)%nat with (S (length pre)) in IH by lia.
      rewrite IH. by rewrite <- app_assoc.
    + specialize (IH (pre ++ [x]) y rest).
      rewrite length_app, <- app_assoc in IH. cbn in IH.
      replace (length pre + 1)%nat with (S (length pre)) in IH by lia.
      rewrite IH. by rewrite <- app_assoc.
Qed.

(** A pass of [count] comparisons leaves the largest of the first
    [count + 1] elements at index [count] and the rest where it was. *)
Lemma bubble_spec count x rest :
  (count <= length rest)%nat ->
  exists front largest,
    bubble count x rest = front ++ largest :: drop count rest /\
    front ++ [largest] ≡ₚ x :: take count rest /\
    length front = count /\
    Forall (fun a => faster a largest) front /\
    faster x largest.
Proof.
  revert x rest. induction count as [| c IH]; intros x rest Hc.
  - exists [], x. cbn. rewrite drop_0, take_0. split_and!; try done.
    unfold faster. lia.
  - destruct rest as [| y rest]; [cbn in Hc; lia |]. cbn in Hc.
    cbn [bubble drop take].
    destruct (Z.ltb_spec (SpeedMs y) (SpeedMs x)) as [Hlt | Hge].
    + destruct (IH x rest ltac:(lia))
        as (front & largest & -> & Hperm & Hlen & Hall & Hx).
      exists (y :: front), largest. split_and!.
      * done.
      * cbn. rewrite Hperm. apply perm_swap.
      * cbn. by rewrite Hlen.
      * constructor; [| done]. unfold faster in *. lia.
      * done.
    + destruct (IH y rest ltac:(lia))
        as (front & largest & -> & Hperm & Hlen & Hall & Hy).
      exists (x :: front), largest. split_and!.
      * done.
      * cbn. by rewrite Hperm.
      * cbn. by rewrite Hlen.
      * constructor; [| done]. unfold faster in *. lia.
      * unfold faster in *. lia.
Qed.

(** The outer loop: the sorted suffix grows by one element per pass. *)
Lemma outerLoop_sorted count i prefix suffix :
  length prefix = S count ->
  length suffix = i ->
  StronglySorted faster suffix ->
  (forall a b, a ∈ prefix -> b ∈ suffix -> faster a b) ->
  StronglySorted faster
    (outerLoop count i (length (prefix ++ suffix)) (prefix ++ suffix)) /\
  outerLoop count i (length (prefix ++ suffix)) (prefix ++ suffix)
  ≡ₚ prefix ++ suffix.
Proof.
  revert i prefix suffix.
  induction count as [| c IH]; intros i prefix suffix Hp Hs Hsorted Hle.
  - cbn. destruct prefix as [| x [| ? ?]]; try discriminate. split; [| done].
    cbn. constructor; [done |]. apply Forall_forall. intros b Hb.
    apply Hle; [| done]. by apply list_elem_of_here.
  - destruct prefix as [| x rest]; [discriminate |].
    cbn in Hp. injection Hp as Hrest.
    cbn [outerLoop].
    replace (length ((x :: rest) ++ suffix) - i - 1)%nat with (S c)
      by (rewrite length_app; cbn; lia).
    pose proof (innerLoop_bubble (S c) [] x (rest ++ suffix)) as Hinner.
    cbn [length app] in Hinner.
    change ((x :: rest) ++ suffix) with (x :: rest ++ suffix) at 2 4.
    rewrite Hinner.
    destruct (bubble_spec (S c) x (rest ++ suffix))
      as (front & largest & Hb & Hperm & Hlen & Hall & Hx).
    { rewrite length_app. lia. }
    rewrite drop_app_length' in Hb by done.
    rewrite take_app_length' in Hperm by done.
    rewrite Hb.
    assert (Hlargest : largest ∈ x :: rest).
    { rewrite <- Hperm. apply elem_of_app. right. by apply list_elem_of_here. }
    assert (Hfront : forall a, a ∈ front -> a ∈ x :: rest).
    { intros a Ha. rewrite <- Hperm. apply elem_of_app. by left. }
    assert (Hsame :
      length ((x :: rest) ++ suffix) = length (front ++ largest :: suffix)).
    { rewrite !length_app. cbn. lia. }
    rewrite Hsame.
    destruct (IH (S i) front (largest :: suffix)) as [Hs1 Hs2].
    + done.
    + cbn. by rewrite Hs.
    + constructor; [done |]. apply Forall_forall. intros b Hb'.
      by apply Hle.
    + intros a b Ha [-> | Hb']%elem_of_cons.
      * rewrite Forall_forall in Hall. by apply Hall.
      * apply Hle; [by apply Hfront | done].
    + split; [exact Hs1 |]. rewrite Hs2.
      change (front ++ largest :: suffix)
        with (front ++ [largest] ++ suffix).
      rewrite app_assoc, Hperm. done.
Qed.

(** [sortModelsBySpeed] sorts by speed, fastest first, and only reorders. *)
Lemma sortModelsBySpeed_sorted models :
  StronglySorted faster (sortModelsBySpeed models) /\
  sortModelsBySpeed models ≡ₚ models.
Proof.
  unfold sortModelsBySpeed. destruct models as [| x rest].
  - cbn. split; [constructor | done].
  - pose proof (outerLoop_sorted (length rest) 0 (x :: rest) []) as H.
    rewrite app_nil_r in H.
    replace (length (x :: rest) - 1)%nat with (length rest) by (cbn; lia).
    apply H; [done | done | constructor |].
    intros a b _ Hb. by apply elem_of_nil in Hb.
Qed.

(** After the sort the first model is the fastest. *)
Lemma sorted_first_fastest models first :
  StronglySorted faster models ->
  models !! 0%nat = Some first ->
  forall c, c ∈ models -> faster first c.
Proof.
  intros Hsorted Hfirst c Hc. destruct models as [| x rest]; [done |].
  injection Hfirst as ->.
  apply StronglySorted_inv in Hsorted as [_ Hall].
  apply elem_of_cons in Hc as [-> | Hc].
  - unfold faster. lia.
  - rewrite Forall_forall in Hall. by apply Hall.
Qed.

(** *** Discovery *)

Lemma discovering_grows p extractors selectors tracker :
  discovering p ->
  (forall id, is_Some (healthTracker p !! id) -> is_Some (tracker !! id)) ->
  (forall c, c ∈ extractors ->
             c ∈ extractorModels p \/ is_Some (tracker !! ModelID c)) ->
  (forall c, c ∈ selectors ->
             c ∈ selectorModels p \/ is_Some (tracker !! ModelID c)) ->
  discovering (mkPool extractors selectors (extractorIndex p)
                      (selectorIndex p) tracker).
Proof.
  intros (Hi & Hj & Hall) Hgrow He Hs. split_and!; [done | done |].
  intros c [Hc | Hc]; cbn in *.
  - destruct (He c Hc) as [Hold | Hnew]; [| done]. apply Hgrow, Hall. by left.
  - destruct (Hs c Hc) as [Hold | Hnew]; [| done]. apply Hgrow, Hall. by right.
Qed.

Lemma discovering_add p candidate (extractor selector : bool) :
  discovering p ->
  discovering
    (let p1 :=
       if extractor
       then set_health (set_models p (extractorModels p ++ [candidate])
                                   (selectorModels p))
                       (ModelID candidate) newHealth
       else p in
     if selector
     then
       let p2 :=
         match healthTracker p1 !! ModelID candidate with
         | Some _ => p1
         | None => set_health p1 (ModelID candidate) newHealth
         end in
       set_models p2 (extractorModels p2) (selectorModels p2 ++ [candidate])
     else p1).
Proof.
  intros Hp.
  assert (H1 : discovering
                 (if extractor
                  then set_health
                         (set_models p (extractorModels p ++ [candidate])
                                     (selectorModels p))
                         (ModelID candidate) newHealth
                  else p)).
  { destruct extractor; [| done].
    apply (discovering_grows p); [done | | |].
    - intros id Hid. apply lookup_insert_is_Some'. by right.
    - intros c [Hc | ->%list_elem_of_singleton]%elem_of_app; [by left |].
      right. apply lookup_insert_is_Some'. by left.
    - intros c Hc. by left. }
  cbv zeta. destruct selector; [| done].
  set (p1 := if extractor then _ else p) in *.
  destruct (healthTracker p1 !! ModelID candidate) as [h |] eqn:Hh.
  - apply (discovering_grows p1); [done | done | by left |].
    intros c [Hc | ->%list_elem_of_singleton]%elem_of_app; [by left |].
    right. by rewrite Hh.
  - apply (discovering_grows p1); [done | | |].
    + intros id Hid. apply lookup_insert_is_Some'. by right.
    + intros c Hc. by left.
    + intros c [Hc | ->%list_elem_of_singleton]%elem_of_app; [by left |].
      right. apply lookup_insert_is_Some'. by left.
Qed.

Lemma addRow_discovering p row : discovering p -> discovering (addRow p row).
Proof.
  intros Hp.
  exact (discovering_add p (rowCandidate row) (isExtractor row =? 1)
                         (isSelector row =? 1) Hp).
Qed.

Lemma addAlias_discovering provider p entry :
  discovering p -> discovering (addAlias provider p entry).
Proof.
  intros Hp. destruct entry as [alias modelAlias].
  exact (discovering_add p
           (mkCandidate alias provider (getSpeedMs modelAlias)
                        (ma_DisplayName modelAlias))
           (default false (ma_MemoryExtractor modelAlias))
           (default false (ma_MemorySelector modelAlias)) Hp).
Qed.

Lemma fold_left_discovering {A} (f : MemoryModelPool -> A -> MemoryModelPool)
    (items : list A) p :
  (forall q x, discovering q -> discovering (f q x)) ->
  discovering p -> discovering (fold_left f items p).
Proof.
  intros Hf. revert p. induction items as [| x l IH]; intros p Hp; [done |].
  cbn. apply IH. by apply Hf.
Qed.

Lemma addProvider_discovering p provider :
  discovering p -> discovering (addProvider p provider).
Proof.
  intros Hp. unfold addProvider. destruct (pc_Enabled provider); [| done].
  apply fold_left_discovering; [| done].
  intros q x. apply addAlias_discovering.
Qed.

Lemma sorted_discovering p :
  discovering p ->
  discovering (set_models p (sortModelsBySpeed (extractorModels p))
                          (sortModelsBySpeed (selectorModels p))).
Proof.
  intros Hp. apply (discovering_grows p); [done | done | |].
  - intros c Hc. left.
    by rewrite (proj2 (sortModelsBySpeed_sorted (extractorModels p))) in Hc.
  - intros c Hc. left.
    by rewrite (proj2 (sortModelsBySpeed_sorted (selectorModels p))) in Hc.
Qed.

Lemma discoverFromDatabase_ok db p :
  discovering p -> both_sorted p ->
  discovering (snd (discoverFromDatabase db p)) /\
  both_sorted (snd (discoverFromDatabase db p)).
Proof.
  intros Hp Hs. unfold discoverFromDatabase.
  destruct db as [[rows | e] |]; [| done | done]. cbn [snd]. split.
  - apply sorted_discovering, fold_left_discovering; [| done].
    intros q x. apply addRow_discovering.
  - split; cbn; apply sortModelsBySpeed_sorted.
Qed.

Lemma discoverModels_ok db providers p :
  discovering p -> both_sorted p ->
  discovering (discoverModels db providers p) /\
  both_sorted (discoverModels db providers p).
Proof.
  intros Hp Hs. unfold discoverModels.
  destruct (discoverFromDatabase_ok db p Hp Hs) as [Hd1 Hs1].
  destruct (discoverFromDatabase db p) as [dbModels p1]. cbn [snd] in *.
  assert (Hfallback :
    discovering
      match providers with
      | Ok configs =>
          set_models (fold_left addProvider configs p1)
            (sortModelsBySpeed
               (extractorModels (fold_left addProvider configs p1)))
            (sortModelsBySpeed
               (selectorModels (fold_left addProvider configs p1)))
      | Err _ => p1
      end /\
    both_sorted
      match providers with
      | Ok configs =>
          set_models (fold_left addProvider configs p1)
            (sortModelsBySpeed
               (extractorModels (fold_left addProvider configs p1)))
            (sortModelsBySpeed
               (selectorModels (fold_left addProvider configs p1)))
      | Err _ => p1
      end).
  { destruct providers as [configs | e]; [| done]. split.
    - apply sorted_discovering, fold_left_discovering; [| done].
      intros q x. apply addProvider_discovering.
    - split; cbn; apply sortModelsBySpeed_sorted. }
  destruct dbModels as [[| c l] | e]; done.
Qed.

(** The pool the constructor returns: both indices at 0, every model
    tracked, both lists sorted by speed; so a pool with extractors satisfies
    the invariant and its first extractor is the fastest. *)
Lemma NewMemoryModelPool_ok db providers :
  let p := NewMemoryModelPool db providers in
  discovering p /\
  both_sorted p /\
  (extractorModels p <> [] -> extractors_ok p) /\
  (forall first c,
      extractorModels p !! 0%nat = Some first ->
      c ∈ extractorModels p -> faster first c).
Proof.
  cbv zeta. unfold NewMemoryModelPool.
  destruct (discoverModels_ok db providers (mkPool [] [] 0 0 ∅))
    as [Hd Hs].
  { split_and!; [done | done |]. intros c [Hc | Hc]; by apply elem_of_nil in Hc. }
  { split; constructor. }
  split_and!; [done | done | |].
  - intros Hne. destruct Hd as (Hi & _ & Hall). split.
    + rewrite Hi. unfold len.
      destruct (extractorModels _); [done | cbn; lia].
    + intros c Hc. apply Hall. by left.
  - intros first c Hfirst Hc.
    by apply (sorted_first_fastest _ first (proj1 Hs)).
Qed.

Lemma extractors_okb_spec p : extractors_okb p = true <-> extractors_ok p.
Proof.
  unfold extractors_okb, extractors_ok.
  rewrite !andb_true_iff, Z.leb_le, Z.ltb_lt, forallb_forall.
  split; intros [Hi Hall]; (split; [lia |]); intros c Hc.
  - apply list_elem_of_In, Hall in Hc. unfold tracked in Hc.
    by destruct (healthTracker p !! ModelID c).
  - apply list_elem_of_In, Hall in Hc. unfold tracked.
    by destruct Hc as [h ->].
Qed.

(** After a full round the index is back where it started. *)
Lemma full_round p :
  extractors_ok p ->
  set_extractorIndex p
    ((extractorIndex p + Z.of_nat (length (extractorModels p)))
       mod len (extractorModels p)) = p.
Proof.
  intros [Hi _]. fold (len (extractorModels p)).
  rewrite <- (Z.mul_1_l (len (extractorModels p))) at 1.
  rewrite Z.mod_add by lia. rewrite Z.mod_small by lia.
  apply set_extractorIndex_same.
Qed.

(** The error is returned exactly when the extractor list is empty. *)
Lemma GetNextExtractor_Failed_iff clock p :
  (exists e, fst (GetNextExtractor clock p) = Failed e) <->
  extractorModels p = [].
Proof.
  unfold GetNextExtractor, len.
  destruct (extractorModels p) as [| c0 rest] eqn:HM.
  - split; [done | intros _; by eexists].
  - split; [| discriminate]. intros [e He]. exfalso.
    change (Z.of_nat (length (c0 :: rest)) =? 0) with false in He.
    by apply tryExtractors_not_Failed in He.
Qed.

(** The selection on a pool that satisfies the invariant. *)
Lemma GetNextExtractor_round_robin clock p :
  extractors_ok p ->
  (exists k c h,
      (k < length (extractorModels p))%nat /\
      candidate_at p k = Some (c, h) /\
      available clock k h = true /\
      (forall j, (j < k)%nat -> skipped clock p j) /\
      GetNextExtractor clock p
      = (Selected (ModelID c),
         mkPool (extractorModels p) (selectorModels p)
                ((extractorIndex p + Z.of_nat (S k))
                   mod len (extractorModels p))
                (selectorIndex p)
                (if IsHealthy h then healthTracker p
                 else <[ModelID c := retry_after_cooldown h]>
                        (healthTracker p)))) \/
  ((forall j, (j < length (extractorModels p))%nat -> skipped clock p j) /\
   exists first,
     extractorModels p !! 0%nat = Some first /\
     GetNextExtractor clock p = (Selected (ModelID first), p)).
Proof.
  intros Hok.
  pose proof (extractors_nonempty p Hok) as Hn.
  assert (GetNextExtractor clock p
          = tryExtractors clock (length (extractorModels p)) 0
              (set_extractorIndex p
                 ((extractorIndex p + Z.of_nat 0)
                    mod len (extractorModels p)))) as ->.
  { unfold GetNextExtractor.
    destruct (Z.eqb_spec (len (extractorModels p)) 0); [lia |].
    destruct Hok as [Hi _].
    rewrite Z.add_0_r, Z.mod_small by lia.
    by rewrite set_extractorIndex_same. }
  destruct (tryExtractors_from clock p Hok (length (extractorModels p)) 0
              ltac:(lia))
    as [(k & c & h & Hk & Hc & Hav & Hskip & Heq)
       | (Hskip & c0 & Hc0 & Heq)].
  - left. exists k, c, h. split_and!; try lia; try done.
    intros j Hj. apply Hskip. lia.
  - right. split; [intros j Hj; apply Hskip; lia |].
    exists c0. split; [done |]. rewrite Heq. f_equal. by apply full_round.
Qed.

(** The record of a model taken after its cooldown. *)
Lemma retry_after_cooldown_resets h :
  IsHealthy (retry_after_cooldown h) = true /\
  ConsecutiveFails (retry_after_cooldown h) = 0 /\
  FailureCount (retry_after_cooldown h) = FailureCount h /\
  SuccessCount (retry_after_cooldown h) = SuccessCount h /\
  LastFailure (retry_after_cooldown h) = LastFailure h /\
  LastSuccess (retry_after_cooldown h) = LastSuccess h.
Proof. by destruct h. Qed.

(** C10. [MarkSuccess] and [MarkFailure] on a model id that has no entry in
    the health tracker leave the pool exactly as it was: no record is
    created and none is touched. *)
Theorem untracked_model_is_ignored
    (now : Time) (modelID : string) (p : MemoryModelPool) :
  healthTracker p !! modelID = None ->
  MarkSuccess now modelID p = p /\ MarkFailure now modelID p = p.
Proof.
  intros Hnone. unfold MarkSuccess, MarkFailure. by rewrite Hnone.
Qed.

(** On a tracked id only that id's record changes. *)
Lemma MarkSuccess_frame now modelID p other :
  other <> modelID ->
  healthTracker (MarkSuccess now modelID p) !! other = healthTracker p !! other.
Proof.
  intros Hne. unfold MarkSuccess.
  destruct (healthTracker p !! modelID); [| done].
  cbn. by rewrite lookup_insert_ne.
Qed.

Lemma MarkFailure_frame now modelID p other :
  other <> modelID ->
  healthTracker (MarkFailure now modelID p) !! other = healthTracker p !! other.
Proof.
  intros Hne. unfold MarkFailure.
  destruct (healthTracker p !! modelID); [| done].
  cbn. by rewrite lookup_insert_ne.
Qed.

(** Neither creates a record: the tracked ids stay the same. *)
Lemma MarkSuccess_dom now modelID p :
  dom (healthTracker (MarkSuccess now modelID p)) = dom (healthTracker p).
Proof.
  unfold MarkSuccess. destruct (healthTracker p !! modelID) eqn:E; [| done].
  cbn. apply dom_insert_lookup_L. by eexists.
Qed.

Lemma MarkFailure_dom now modelID p :
  dom (healthTracker (MarkFailure now modelID p)) = dom (healthTracker p).
Proof.
  unfold MarkFailure. destruct (healthTracker p !! modelID) eqn:E; [| done].
  cbn. apply dom_insert_lookup_L. by eexists.
Qed.

(** The invariant is kept by the three methods. *)
Lemma extractors_ok_dom p q :
  extractorModels q = extractorModels p ->
  extractorIndex q = extractorIndex p ->
  dom (healthTracker q) = dom (healthTracker p) ->
  extractors_ok p -> extractors_ok q.
Proof.
  intros HM Hi Hd [Hr Ht]. split; [by rewrite HM, Hi |].
  intros c Hc. rewrite HM in Hc.
  apply (elem_of_dom (D := gset string)). rewrite Hd.
  apply (elem_of_dom (D := gset string)). by apply Ht.
Qed.

Lemma MarkSuccess_keeps_ok now modelID p :
  extractors_ok p -> extractors_ok (MarkSuccess now modelID p).
Proof.
  apply extractors_ok_dom; [| | apply MarkSuccess_dom];
    unfold MarkSuccess; by destruct (healthTracker p !! modelID).
Qed.

Lemma MarkFailure_keeps_ok now modelID p :
  extractors_ok p -> extractors_ok (MarkFailure now modelID p).
Proof.
  apply extractors_ok_dom; [| | apply MarkFailure_dom];
    unfold MarkFailure; by destruct (healthTracker p !! modelID).
Qed.

Lemma GetNextExtractor_keeps_ok clock p :
  extractors_ok p -> extractors_ok (snd (GetNextExtractor clock p)).
Proof.
  intros Hok. pose proof (extractors_nonempty p Hok) as Hn.
  destruct (GetNextExtractor_round_robin clock p Hok)
    as [(k & c & h & Hk & Hc & Hav & Hskip & ->) | (_ & c0 & _ & ->)];
    [| done].
  destruct Hok as [Hi Ht]. split; cbn.
  - by apply Z.mod_pos_bound.
  - intros c' Hc'. destruct (IsHealthy h); [by apply Ht |].
    destruct (decide (ModelID c = ModelID c')) as [-> | Hne].
    + rewrite lookup_insert_eq. by eexists.
    + rewrite lookup_insert_ne by done. by apply Ht.
Qed.

(** The selector loop leaves the extractor side alone and creates no
    record. *)
Lemma trySelectors_frame clock remaining attempts p :
  extractorModels (snd (trySelectors clock remaining attempts p))
  = extractorModels p /\
  extractorIndex (snd (trySelectors clock remaining attempts p))
  = extractorIndex p /\
  dom (healthTracker (snd (trySelectors clock remaining attempts p)))
  = dom (healthTracker p).
Proof.
  revert attempts p. induction remaining as [| r IH]; intros a p; cbn.
  - by destruct (index (selectorModels p) 0).
  - destruct (index (selectorModels p) (selectorIndex p)) as [c |]; [| done].
    destruct (healthTracker p !! ModelID c) as [h |] eqn:Hh; [| done].
    destruct (IsHealthy h); [done |].
    destruct (_ <? _).
    + cbn. split_and!; [done | done |].
      apply dom_insert_lookup_L. by eexists.
    + destruct (IH (S a) (set_selectorIndex p
                            (Z.rem (selectorIndex p + 1)
                                   (len (selectorModels p)))))
        as (H1 & H2 & H3).
      by rewrite H1, H2, H3.
Qed.

Lemma GetNextSelector_keeps_ok clock p :
  extractors_ok p -> extractors_ok (snd (GetNextSelector clock p)).
Proof.
  unfold GetNextSelector. destruct (len (selectorModels p) =? 0); [done |].
  destruct (trySelectors_frame clock (length (selectorModels p)) 0 p)
    as (H1 & H2 & H3).
  by apply extractors_ok_dom.
Qed.

(** No method touches the extractor list. *)
Lemma methods_keep_extractors :
  (forall clock p,
      extractorModels (snd (GetNextSelector clock p)) = extractorModels p) /\
  (forall now modelID p,
      extractorModels (MarkSuccess now modelID p) = extractorModels p) /\
  (forall now modelID p,
      extractorModels (MarkFailure now modelID p) = extractorModels p).
Proof.
  split_and!.
  - intros clock p. unfold GetNextSelector.
    destruct (len (selectorModels p) =? 0); [done |].
    apply trySelectors_frame.
  - intros now modelID p. unfold MarkSuccess.
    by destruct (healthTracker p !! modelID).
  - intros now modelID p. unfold MarkFailure.
    by destruct (healthTracker p !! modelID).
Qed.

Lemma tryExtractors_keeps_extractors clock remaining attempts p :
  extractorModels (snd (tryExtractors clock remaining attempts p))
  = extractorModels p.
Proof.
  revert attempts p. induction remaining as [| r IH]; intros a p; cbn.
  - by destruct (index (extractorModels p) 0).
  - destruct (index (extractorModels p) (extractorIndex p)) as [c |]; [| done].
    destruct (healthTracker p !! ModelID c) as [h |]; [| done].
    destruct (IsHealthy h); [done |].
    destruct (_ <? _); [done |]. by rewrite IH.
Qed.

Lemma GetNextExtractor_keeps_extractors clock p :
  extractorModels (snd (GetNextExtractor clock p)) = extractorModels p.
Proof.
  unfold GetNextExtractor. destruct (len (extractorModels p) =? 0); [done |].
  apply tryExtractors_keeps_extractors.
Qed.

(** Every pool the program can be in, if it has extractors, satisfies the
    invariant, and its first extractor is the fastest. *)
Lemma reachable_ok db providers p :
  reachable db providers p ->
  StronglySorted faster (extractorModels p) /\
  (extractorModels p <> [] -> extractors_ok p).
Proof.
  destruct methods_keep_extractors as (Hsel & Hsucc & Hfail).
  induction 1 as [| clock p _ [IHs IHok] | clock p _ [IHs IHok]
                  | now modelID p _ [IHs IHok] | now modelID p _ [IHs IHok]].
  - destruct (NewMemoryModelPool_ok db providers) as (_ & [Hs _] & Hok & _).
    by split.
  - rewrite GetNextExtractor_keeps_extractors. split; [done |].
    intros Hne. by apply GetNextExtractor_keeps_ok, IHok.
  - rewrite Hsel. split; [done |].
    intros Hne. by apply GetNextSelector_keeps_ok, IHok.
  - rewrite Hsucc. split; [done |].
    intros Hne. by apply MarkSuccess_keeps_ok, IHok.
  - rewrite Hfail. split; [done |].
    intros Hne. by apply MarkFailure_keeps_ok, IHok.
Qed.

Lemma candidate_at_tracked p k c h :
  candidate_at p k = Some (c, h) -> healthTracker p !! ModelID c = Some h.
Proof.
  unfold candidate_at.
  destruct (index _ _) as [c' |]; [| done].
  destruct (healthTracker p !! ModelID c') as [h' |] eqn:Hh; [| done].
  intros [= <- <-]. done.
Qed.

(** The selection with the record of the returned model written out. *)
Lemma GetNextExtractor_selection clock p :
  extractors_ok p ->
  (exists k c h,
      (k < length (extractorModels p))%nat /\
      candidate_at p k = Some (c, h) /\
      available clock k h = true /\
      (forall j, (j < k)%nat -> skipped clock p j) /\
      GetNextExtractor clock p
      = (Selected (ModelID c),
         mkPool (extractorModels p) (selectorModels p)
                ((extractorIndex p + Z.of_nat (S k))
                   mod len (extractorModels p))
                (selectorIndex p)
                (if IsHealthy h then healthTracker p
                 else <[ModelID c :=
                          mkHealth (FailureCount h) (SuccessCount h)
                                   (LastFailure h) (LastSuccess h) true 0]>
                        (healthTracker p))) /\
      (exists h',
          healthTracker (snd (GetNextExtractor clock p)) !! ModelID c
          = Some h' /\
          IsHealthy h' = true /\
          ConsecutiveFails h'
          = (if IsHealthy h then ConsecutiveFails h else 0) /\
          FailureCount h' = FailureCount h /\
          SuccessCount h' = SuccessCount h /\
          LastFailure h' = LastFailure h /\
          LastSuccess h' = LastSuccess h) /\
      (forall other,
          other <> ModelID c ->
          healthTracker (snd (GetNextExtractor clock p)) !! other
          = healthTracker p !! other)) \/
  ((forall j, (j < length (extractorModels p))%nat -> skipped clock p j) /\
   exists first,
     extractorModels p !! 0%nat = Some first /\
     GetNextExtractor clock p = (Selected (ModelID first), p)).
Proof.
  intros Hok.
  destruct (GetNextExtractor_round_robin clock p Hok)
    as [(k & c & h & Hk & Hc & Hav & Hskip & Heq) | Hall]; [left | by right].
  exists k, c, h. split_and!; try done.
  - exists (if IsHealthy h then h
            else mkHealth (FailureCount h) (SuccessCount h) (LastFailure h)
                          (LastSuccess h) true 0).
    rewrite Heq. cbn [snd healthTracker].
    destruct (IsHealthy h) eqn:Hh.
    + split; [by apply (candidate_at_tracked p k) |]. by rewrite Hh.
    + rewrite lookup_insert_eq. done.
  - intros other Hne. rewrite Heq. cbn [snd healthTracker].
    destruct (IsHealthy h); [done |]. by rewrite lookup_insert_ne.
Qed.

(** C7. On a pool whose extractor list is not empty [GetNextExtractor]
    returns a model and no error: the next candidate in round-robin order
    that is healthy or whose cooldown has elapsed, passing over the
    unhealthy ones still cooling.  A candidate taken after its cooldown has
    its record reset: after the call the tracker holds for it a record that
    is healthy and has zero consecutive failures, with the counters and the
    two times unchanged; a healthy candidate's record is as it was, and so
    is every other model's.  When every candidate is passed over, the first
    model of the list is returned and the pool is as before.  The error is
    returned exactly when the list is empty.  The selection is proved under
    the pool invariant (the index points into the list, every extractor has
    a health record); every pool the constructor and the methods can
    produce satisfies it when it has extractors, and its first model is the
    fastest. *)
Theorem GetNextExtractor_selects (clock : nat -> Time) (p : MemoryModelPool) :
  (extractorModels p = [] ->
   GetNextExtractor clock p = (Failed "no extractor models available", p)) /\
  ((exists e, fst (GetNextExtractor clock p) = Failed e) <->
   extractorModels p = []) /\
  (extractors_ok p ->
   (exists k c h,
       (k < length (extractorModels p))%nat /\
       candidate_at p k = Some (c, h) /\
       available clock k h = true /\
       (forall j, (j < k)%nat -> skipped clock p j) /\
       GetNextExtractor clock p
       = (Selected (ModelID c),
          mkPool (extractorModels p) (selectorModels p)
                 ((extractorIndex p + Z.of_nat (S k))
                    mod len (extractorModels p))
                 (selectorIndex p)
                 (if IsHealthy h then healthTracker p
                  else <[ModelID c :=
                           mkHealth (FailureCount h) (SuccessCount h)
                                    (LastFailure h) (LastSuccess h) true 0]>
                         (healthTracker p))) /\
       (exists h',
           healthTracker (snd (GetNextExtractor clock p)) !! ModelID c
           = Some h' /\
           IsHealthy h' = true /\
           ConsecutiveFails h'
           = (if IsHealthy h then ConsecutiveFails h else 0) /\
           FailureCount h' = FailureCount h /\
           SuccessCount h' = SuccessCount h /\
           LastFailure h' = LastFailure h /\
           LastSuccess h' = LastSuccess h) /\
       (forall other,
           other <> ModelID c ->
           healthTracker (snd (GetNextExtractor clock p)) !! other
           = healthTracker p !! other)) \/
   ((forall j, (j < length (extractorModels p))%nat -> skipped clock p j) /\
    exists first,
      extractorModels p !! 0%nat = Some first /\
      GetNextExtractor clock p = (Selected (ModelID first), p))) /\
  (forall db providers,
      reachable db providers p ->
      extractorModels p <> [] ->
      extractors_ok p /\
      forall first c,
        extractorModels p !! 0%nat = Some first ->
        c ∈ extractorModels p -> faster first c).
Proof.
  split_and!.
  - intros Hnil. unfold GetNextExtractor. by rewrite Hnil.
  - apply GetNextExtractor_Failed_iff.
  - apply GetNextExtractor_selection.
  - intros db providers Hreach Hne.
    destruct (reachable_ok db providers p Hreach) as [Hsorted Hok].
    split; [by apply Hok |].
    intros first c Hfirst Hc. by apply (sorted_first_fastest _ first Hsorted).
Qed.

End ModelPoolFacts.

(** ** The memory model pool: selectors, statistics, health *)

Module ModelPoolMore.

Import ModelPool ModelPoolFacts.

Lemma swap_swap p : swap (swap p) = p.
Proof. by destruct p. Qed.

(** The selector loop is the extractor loop on the exchanged pool. *)
Lemma trySelectors_swap clock remaining attempts p :
  trySelectors clock remaining attempts p
  = (fst (tryExtractors clock remaining attempts (swap p)),
     swap (snd (tryExtractors clock remaining attempts (swap p)))).
Proof.
  revert attempts p. induction remaining as [| r IH]; intros a p;
    cbn [trySelectors tryExtractors].
  - cbn [swap extractorModels].
    destruct (index (selectorModels p) 0); cbn; by rewrite ?swap_swap.
  - cbn [swap extractorModels extractorIndex].
    destruct (index (selectorModels p) (selectorIndex p)) as [c |];
      [| cbn; by rewrite swap_swap].
    cbn [set_selectorIndex set_extractorIndex healthTracker selectorModels
         extractorModels selectorIndex extractorIndex].
    change (healthTracker (swap p)) with (healthTracker p).
    destruct (healthTracker p !! ModelID c) as [h |]; [| reflexivity].
    destruct (IsHealthy h); [reflexivity |].
    destruct (_ <? _); [reflexivity |].
    rewrite IH. reflexivity.
Qed.

Lemma GetNextSelector_swap clock p :
  selectorModels p <> [] ->
  GetNextSelector clock p
  = (fst (GetNextExtractor clock (swap p)),
     swap (snd (GetNextExtractor clock (swap p)))).
Proof.
  intros Hne. unfold GetNextSelector, GetNextExtractor.
  cbn [swap extractorModels].
  destruct (Z.eqb_spec (len (selectorModels p)) 0) as [H0 | _].
  - unfold len in H0. destruct (selectorModels p); [done | cbn in H0; lia].
  - apply trySelectors_swap.
Qed.

Lemma GetNextSelector_Failed_iff clock p :
  (exists e, fst (GetNextSelector clock p) = Failed e) <->
  selectorModels p = [].
Proof.
  destruct (selectorModels p) as [| c rest] eqn:Hs.
  - unfold GetNextSelector. rewrite Hs. cbn. split; [done | eauto].
  - rewrite GetNextSelector_swap by (by rewrite Hs). cbn [fst].
    rewrite (GetNextExtractor_Failed_iff clock (swap p)).
    cbn [swap extractorModels]. by rewrite Hs.
Qed.

(** The selection on a pool whose selector side satisfies the invariant. *)
Lemma GetNextSelector_round_robin clock p :
  selectors_ok p ->
  (exists k c h,
      (k < length (selectorModels p))%nat /\
      selector_at p k = Some (c, h) /\
      available clock k h = true /\
      (forall j, (j < k)%nat -> selector_skipped clock p j) /\
      GetNextSelector clock p
      = (Selected (ModelID c),
         mkPool (extractorModels p) (selectorModels p) (extractorIndex p)
                ((selectorIndex p + Z.of_nat (S k))
                   mod len (selectorModels p))
                (if IsHealthy h then healthTracker p
                 else <[ModelID c := retry_after_cooldown h]>
                        (healthTracker p)))) \/
  ((forall j, (j < length (selectorModels p))%nat ->
              selector_skipped clock p j) /\
   exists first,
     selectorModels p !! 0%nat = Some first /\
     GetNextSelector clock p = (Selected (ModelID first), p)).
Proof.
  intros Hok.
  assert (Hne : selectorModels p <> []).
  { destruct Hok as [Hi _]. unfold len in Hi.
    destruct (selectorModels p); [cbn in Hi; lia | done]. }
  rewrite (GetNextSelector_swap clock p Hne).
  destruct (GetNextExtractor_round_robin clock (swap p) Hok)
    as [(k & c & h & Hk & Hc & Hav & Hskip & ->)
       | (Hskip & first & Hfirst & ->)].
  - left. exists k, c, h. split_and!; try done.
  - right. split; [done |]. exists first. split; [done |].
    cbn [fst snd]. by rewrite swap_swap.
Qed.

(** The methods and the selector side. *)
Lemma MarkSuccess_swap now modelID p :
  MarkSuccess now modelID (swap p) = swap (MarkSuccess now modelID p).
Proof.
  unfold MarkSuccess. cbn [swap healthTracker].
  by destruct (healthTracker p !! modelID).
Qed.

Lemma MarkFailure_swap now modelID p :
  MarkFailure now modelID (swap p) = swap (MarkFailure now modelID p).
Proof.
  unfold MarkFailure. cbn [swap healthTracker].
  by destruct (healthTracker p !! modelID).
Qed.

Lemma GetNextExtractor_swap clock p :
  extractorModels p <> [] ->
  GetNextExtractor clock p
  = (fst (GetNextSelector clock (swap p)),
     swap (snd (GetNextSelector clock (swap p)))).
Proof.
  intros Hne. rewrite (GetNextSelector_swap clock (swap p)) by done.
  cbn [fst snd]. rewrite !swap_swap. by destruct (GetNextExtractor clock p).
Qed.

Lemma GetNextExtractor_keeps_selectors clock p :
  selectors_ok p -> selectors_ok (snd (GetNextExtractor clock p)).
Proof.
  intros Hok. destruct (extractorModels p) as [| c rest] eqn:He.
  - unfold GetNextExtractor. by rewrite He.
  - rewrite GetNextExtractor_swap by (by rewrite He). cbn [snd].
    change (extractors_ok (swap (swap (snd (GetNextSelector clock (swap p)))))).
    rewrite swap_swap. by apply GetNextSelector_keeps_ok.
Qed.

Lemma GetNextSelector_keeps_selectors clock p :
  selectors_ok p -> selectors_ok (snd (GetNextSelector clock p)).
Proof.
  intros Hok.
  assert (Hne : selectorModels p <> []).
  { destruct Hok as [Hi _]. unfold len in Hi.
    destruct (selectorModels p); [cbn in Hi; lia | done]. }
  rewrite GetNextSelector_swap by done. cbn [snd].
  change (extractors_ok (swap (swap (snd (GetNextExtractor clock (swap p)))))).
  rewrite swap_swap. by apply GetNextExtractor_keeps_ok.
Qed.

Lemma selector_methods_keep_selectors :
  (forall clock p,
      selectorModels (snd (GetNextExtractor clock p)) = selectorModels p) /\
  (forall clock p,
      selectorModels (snd (GetNextSelector clock p)) = selectorModels p) /\
  (forall now modelID p,
      selectorModels (MarkSuccess now modelID p) = selectorModels p) /\
  (forall now modelID p,
      selectorModels (MarkFailure now modelID p) = selectorModels p).
Proof.
  destruct methods_keep_extractors as (Hsel & _ & _).
  split_and!.
  - intros clock p. destruct (extractorModels p) as [| c rest] eqn:He.
    + unfold GetNextExtractor. by rewrite He.
    + rewrite GetNextExtractor_swap by (by rewrite He). cbn [snd].
      exact (Hsel clock (swap p)).
  - intros clock p. destruct (selectorModels p) as [| c rest] eqn:Hs.
    + unfold GetNextSelector. by rewrite Hs.
    + rewrite GetNextSelector_swap by (by rewrite Hs). cbn [snd].
      rewrite <- Hs.
      exact (GetNextExtractor_keeps_extractors clock (swap p)).
  - intros now modelID p. unfold MarkSuccess.
    by destruct (healthTracker p !! modelID).
  - intros now modelID p. unfold MarkFailure.
    by destruct (healthTracker p !! modelID).
Qed.

(** Every pool the program can be in, if it has selectors, satisfies the
    invariant on the selector side, and its selectors are sorted. *)
Lemma reachable_selectors_ok db providers p :
  reachable db providers p ->
  StronglySorted faster (selectorModels p) /\
  (selectorModels p <> [] -> selectors_ok p).
Proof.
  destruct selector_methods_keep_selectors as (Hext & Hsel & Hsucc & Hfail).
  induction 1 as [| clock p _ [IHs IHok] | clock p _ [IHs IHok]
                  | now modelID p _ [IHs IHok] | now modelID p _ [IHs IHok]].
  - destruct (NewMemoryModelPool_ok db providers)
      as ((_ & Hj & Hall) & [_ Hs] & _). split; [done |].
    intros Hne. split.
    + rewrite Hj. unfold len.
      destruct (selectorModels _); [done | cbn; lia].
    + intros c Hc. apply Hall. by right.
  - rewrite Hext. split; [done |].
    intros Hne. by apply GetNextExtractor_keeps_selectors, IHok.
  - rewrite Hsel. split; [done |].
    intros Hne. by apply GetNextSelector_keeps_selectors, IHok.
  - rewrite Hsucc. split; [done |]. intros Hne.
    change (extractors_ok (swap (MarkSuccess now modelID p))).
    rewrite <- MarkSuccess_swap. by apply MarkSuccess_keeps_ok, IHok.
  - rewrite Hfail. split; [done |]. intros Hne.
    change (extractors_ok (swap (MarkFailure now modelID p))).
    rewrite <- MarkFailure_swap. by apply MarkFailure_keeps_ok, IHok.
Qed.

Lemma selector_at_tracked p k c h :
  selector_at p k = Some (c, h) -> healthTracker p !! ModelID c = Some h.
Proof.
  unfold selector_at.
  destruct (index _ _) as [c' |]; [| done].
  destruct (healthTracker p !! ModelID c') as [h' |] eqn:Hh; [| done].
  intros [= <- <-]. done.
Qed.

(** The selection with the record of the returned selector written out. *)
Lemma GetNextSelector_selection clock p :
  selectors_ok p ->
   (exists k c h,
       (k < length (selectorModels p))%nat /\
       selector_at p k = Some (c, h) /\
       available clock k h = true /\
       (forall j, (j < k)%nat -> selector_skipped clock p j) /\
       GetNextSelector clock p
       = (Selected (ModelID c),
          mkPool (extractorModels p) (selectorModels p) (extractorIndex p)
                 ((selectorIndex p + Z.of_nat (S k))
                    mod len (selectorModels p))
                 (if IsHealthy h then healthTracker p
                  else <[ModelID c :=
                           mkHealth (FailureCount h) (SuccessCount h)
                                    (LastFailure h) (LastSuccess h) true 0]>
                         (healthTracker p))) /\
       (exists h',
           healthTracker (snd (GetNextSelector clock p)) !! ModelID c
           = Some h' /\
           IsHealthy h' = true /\
           ConsecutiveFails h'
           = (if IsHealthy h then ConsecutiveFails h else 0) /\
           FailureCount h' = FailureCount h /\
           SuccessCount h' = SuccessCount h /\
           LastFailure h' = LastFailure h /\
           LastSuccess h' = LastSuccess h) /\
       (forall other,
           other <> ModelID c ->
           healthTracker (snd (GetNextSelector clock p)) !! other
           = healthTracker p !! other)) \/
   ((forall j, (j < length (selectorModels p))%nat ->
               selector_skipped clock p j) /\
    exists first,
      selectorModels p !! 0%nat = Some first /\
      GetNextSelector clock p = (Selected (ModelID first), p)).
Proof.
  intros Hok.
  destruct (GetNextSelector_round_robin clock p Hok)
    as [(k & c & h & Hk & Hc & Hav & Hskip & Heq) | Hall]; [left | by right].
  exists k, c, h. split_and!; try done.
  - exists (if IsHealthy h then h
            else mkHealth (FailureCount h) (SuccessCount h) (LastFailure h)
                          (LastSuccess h) true 0).
    rewrite Heq. cbn [snd healthTracker].
    destruct (IsHealthy h) eqn:Hh.
    + split; [by apply (selector_at_tracked p k) |]. by rewrite Hh.
    + rewrite lookup_insert_eq. done.
  - intros other Hne. rewrite Heq. cbn [snd healthTracker].
    destruct (IsHealthy h); [done |]. by rewrite lookup_insert_ne.
Qed.

(** X1. [GetNextSelector] on a pool with selectors returns a model and no
    error: the next selector in round-robin order that is healthy or whose
    cooldown has elapsed.  A selector taken after its cooldown has its
    record reset: after the call the tracker holds for it a record that is
    healthy and has zero consecutive failures, the counters and the two
    times unchanged; a healthy selector's record and every other model's
    are as they were.  When all are passed over, the first selector of the
    list is returned and the pool is unchanged.  The error is returned
    exactly when the selector list is empty, and the extractor side is
    never touched.  Every pool the constructor and the methods produce
    satisfies the invariant this needs, and its first selector is the
    fastest. *)
Theorem GetNextSelector_selects (clock : nat -> Time) (p : MemoryModelPool) :
  (selectorModels p = [] ->
   GetNextSelector clock p = (Failed "no selector models available", p)) /\
  ((exists e, fst (GetNextSelector clock p) = Failed e) <->
   selectorModels p = []) /\
  (selectors_ok p ->
   (exists k c h,
       (k < length (selectorModels p))%nat /\
       selector_at p k = Some (c, h) /\
       available clock k h = true /\
       (forall j, (j < k)%nat -> selector_skipped clock p j) /\
       GetNextSelector clock p
       = (Selected (ModelID c),
          mkPool (extractorModels p) (selectorModels p) (extractorIndex p)
                 ((selectorIndex p + Z.of_nat (S k))
                    mod len (selectorModels p))
                 (if IsHealthy h then healthTracker p
                  else <[ModelID c :=
                           mkHealth (FailureCount h) (SuccessCount h)
                                    (LastFailure h) (LastSuccess h) true 0]>
                         (healthTracker p))) /\
       (exists h',
           healthTracker (snd (GetNextSelector clock p)) !! ModelID c
           = Some h' /\
           IsHealthy h' = true /\
           ConsecutiveFails h'
           = (if IsHealthy h then ConsecutiveFails h else 0) /\
           FailureCount h' = FailureCount h /\
           SuccessCount h' = SuccessCount h /\
           LastFailure h' = LastFailure h /\
           LastSuccess h' = LastSuccess h) /\
       (forall other,
           other <> ModelID c ->
           healthTracker (snd (GetNextSelector clock p)) !! other
           = healthTracker p !! other)) \/
   ((forall j, (j < length (selectorModels p))%nat ->
               selector_skipped clock p j) /\
    exists first,
      selectorModels p !! 0%nat = Some first /\
      GetNextSelector clock p = (Selected (ModelID first), p))) /\
  (forall db providers,
      reachable db providers p ->
      selectorModels p <> [] ->
      selectors_ok p /\
      forall first c,
        selectorModels p !! 0%nat = Some first ->
        c ∈ selectorModels p -> faster first c).
Proof.
  split_and!.
  - intros Hnil. unfold GetNextSelector. by rewrite Hnil.
  - apply GetNextSelector_Failed_iff.
  - apply GetNextSelector_selection.
  - intros db providers Hreach Hne.
    destruct (reachable_selectors_ok db providers p Hreach) as [Hsorted Hok].
    split; [by apply Hok |].
    intros first c Hfirst Hc. by apply (sorted_first_fastest _ first Hsorted).
Qed.

Lemma sorted_lookup (l : list ModelCandidate) i j a b :
  StronglySorted faster l ->
  (i <= j)%nat -> l !! i = Some a -> l !! j = Some b ->
  SpeedMs a <= SpeedMs b.
Proof.
  intros Hsorted. revert i j.
  induction Hsorted as [| x l _ IH Hall]; intros i j Hij Ha Hb; [done |].
  destruct i as [| i], j as [| j]; try lia; cbn in Ha, Hb.
  - injection Ha as ->. injection Hb as ->. lia.
  - injection Ha as ->. rewrite Forall_forall in Hall.
    apply Hall. by eapply list_elem_of_lookup_2.
  - apply (IH i j); [lia | done | done].
Qed.

(** X2. [sortModelsBySpeed] returns the same models, reordered so that
    speeds never decrease (fastest first); nothing is lost, duplicated or
    added, whatever the input. *)
Theorem sortModelsBySpeed_sorts (models : list ModelCandidate) :
  StronglySorted faster (sortModelsBySpeed models) /\
  sortModelsBySpeed models ≡ₚ models /\
  length (sortModelsBySpeed models) = length models /\
  (forall i j a b,
      (i <= j)%nat ->
      sortModelsBySpeed models !! i = Some a ->
      sortModelsBySpeed models !! j = Some b ->
      SpeedMs a <= SpeedMs b).
Proof.
  destruct (sortModelsBySpeed_sorted models) as [Hsorted Hperm].
  split_and!; [done | done | by rewrite Hperm |].
  intros i j a b. by apply sorted_lookup.
Qed.

(** *** What discovery collects *)

Lemma addRow_addCandidate p row :
  addRow p row
  = addCandidate p (rowCandidate row) (isExtractor row =? 1)
                 (isSelector row =? 1).
Proof. reflexivity. Qed.

Lemma addAlias_addCandidate provider p entry :
  addAlias provider p entry
  = addCandidate p (aliasCandidate provider entry)
                 (default false (ma_MemoryExtractor (snd entry)))
                 (default false (ma_MemorySelector (snd entry))).
Proof. by destruct entry. Qed.

Lemma addCandidate_models p candidate extractor selector :
  extractorModels (addCandidate p candidate extractor selector)
  = extractorModels p ++ (if extractor then [candidate] else []) /\
  selectorModels (addCandidate p candidate extractor selector)
  = selectorModels p ++ (if selector then [candidate] else []) /\
  extractorIndex (addCandidate p candidate extractor selector)
  = extractorIndex p /\
  selectorIndex (addCandidate p candidate extractor selector)
  = selectorIndex p.
Proof.
  unfold addCandidate.
  destruct extractor, selector; cbn;
    try destruct (_ !! ModelID candidate); cbn; by rewrite ?app_nil_r.
Qed.

Lemma fold_addRow_models rows p :
  extractorModels (fold_left addRow rows p)
  = extractorModels p ++ extractorRows rows /\
  selectorModels (fold_left addRow rows p)
  = selectorModels p ++ selectorRows rows.
Proof.
  unfold extractorRows, selectorRows.
  revert p. induction rows as [| row rows IH]; intros p; cbn [fold_left].
  - cbn. by rewrite !app_nil_r.
  - destruct (IH (addRow p row)) as [-> ->].
    rewrite addRow_addCandidate.
    destruct (addCandidate_models p (rowCandidate row) (isExtractor row =? 1)
                (isSelector row =? 1)) as (-> & -> & _).
    cbn [List.filter].
    destruct (isExtractor row =? 1), (isSelector row =? 1); cbn [map];
      by rewrite <- !app_assoc.
Qed.

Lemma fold_addAlias_models provider entries p :
  extractorModels (fold_left (addAlias provider) entries p)
  = extractorModels p ++
    map (aliasCandidate provider)
        (List.filter
           (fun entry => default false (ma_MemoryExtractor (snd entry)))
           entries) /\
  selectorModels (fold_left (addAlias provider) entries p)
  = selectorModels p ++
    map (aliasCandidate provider)
        (List.filter
           (fun entry => default false (ma_MemorySelector (snd entry)))
           entries).
Proof.
  revert p. induction entries as [| entry entries IH]; intros p;
    cbn [fold_left].
  - cbn. by rewrite !app_nil_r.
  - destruct (IH (addAlias provider p entry)) as [-> ->].
    rewrite addAlias_addCandidate.
    destruct (addCandidate_models p (aliasCandidate provider entry)
                (default false (ma_MemoryExtractor (snd entry)))
                (default false (ma_MemorySelector (snd entry))))
      as (-> & -> & _).
    cbn [List.filter].
    destruct (default false (ma_MemoryExtractor (snd entry))),
             (default false (ma_MemorySelector (snd entry))); cbn [map];
      by rewrite <- !app_assoc.
Qed.

Lemma fold_addProvider_models configs p :
  extractorModels (fold_left addProvider configs p)
  = extractorModels p ++ providerExtractors configs /\
  selectorModels (fold_left addProvider configs p)
  = selectorModels p ++ providerSelectors configs.
Proof.
  unfold providerExtractors, providerSelectors.
  revert p. induction configs as [| provider configs IH]; intros p;
    cbn [fold_left flat_map].
  - by rewrite !app_nil_r.
  - destruct (IH (addProvider p provider)) as [-> ->].
    unfold addProvider. destruct (pc_Enabled provider); [| done].
    destruct (fold_addAlias_models (pc_Name provider)
                (pc_ModelAliases provider) p) as [-> ->].
    by rewrite <- !app_assoc.
Qed.

(** With no model from the database, [discoverFromDatabase] leaves an
    empty pool as it is. *)
Lemma discoverFromDatabase_nothing db :
  no_database_models db ->
  snd (discoverFromDatabase db (mkPool [] [] 0 0 ∅)) = mkPool [] [] 0 0 ∅ /\
  match fst (discoverFromDatabase db (mkPool [] [] 0 0 ∅)) with
  | Ok (_ :: _) => False
  | _ => True
  end.
Proof.
  destruct db as [[rows | e] |]; cbn; [| done | done].
  intros ->. done.
Qed.

(** X3. When the database yields at least one row that scans, the pool is
    built from the database alone, whatever [providers.json] holds: the
    extractors are the rows flagged [memory_extractor = 1], the selectors
    those flagged [memory_selector = 1], each list sorted by speed; rows
    that do not scan are skipped. *)
Theorem database_models_take_precedence
    (rows : list (option AliasRow))
    (providers : Result (list ProviderConfig)) :
  omap id rows <> [] ->
  let p := NewMemoryModelPool (Some (Ok rows)) providers in
  extractorModels p = sortModelsBySpeed (extractorRows (omap id rows)) /\
  selectorModels p = sortModelsBySpeed (selectorRows (omap id rows)) /\
  extractorModels p ≡ₚ extractorRows (omap id rows) /\
  selectorModels p ≡ₚ selectorRows (omap id rows) /\
  extractorIndex p = 0 /\ selectorIndex p = 0.
Proof.
  intros Hrows. cbv zeta.
  unfold NewMemoryModelPool, discoverModels, discoverFromDatabase.
  destruct (omap id rows) as [| row scanned] eqn:Hscanned; [done |].
  cbn [map].
  destruct (fold_addRow_models (row :: scanned) (mkPool [] [] 0 0 ∅))
    as [He Hs].
  cbn [extractorModels selectorModels app] in He, Hs.
  cbn [set_models extractorModels selectorModels extractorIndex
       selectorIndex].
  rewrite He, Hs. split_and!; try done.
  - apply sortModelsBySpeed_sorted.
  - apply sortModelsBySpeed_sorted.
  - clear. generalize (row :: scanned) as l.
    assert (forall l p, extractorIndex (fold_left addRow l p)
                        = extractorIndex p) as H.
    { induction l as [| r l IH]; intros p; [done |]. cbn. rewrite IH.
      rewrite addRow_addCandidate. apply addCandidate_models. }
    intros l. by rewrite H.
  - clear. generalize (row :: scanned) as l.
    assert (forall l p, selectorIndex (fold_left addRow l p)
                        = selectorIndex p) as H.
    { induction l as [| r l IH]; intros p; [done |]. cbn. rewrite IH.
      rewrite addRow_addCandidate. apply addCandidate_models. }
    intros l. by rewrite H.
Qed.

(** X4. With no model from the database (no connection, a failed query, no
    row that scans) the pool is built from [providers.json]: the flagged
    aliases of the enabled providers, sorted by speed; a disabled provider
    contributes nothing.  When the file cannot be loaded either, the pool is
    empty and both selections answer with their error. *)
Theorem providers_are_the_fallback (db : Database) :
  no_database_models db ->
  (forall configs,
      let p := NewMemoryModelPool db (Ok configs) in
      extractorModels p = sortModelsBySpeed (providerExtractors configs) /\
      selectorModels p = sortModelsBySpeed (providerSelectors configs) /\
      extractorModels p ≡ₚ providerExtractors configs /\
      selectorModels p ≡ₚ providerSelectors configs) /\
  (forall configs provider,
      pc_Enabled provider = false ->
      providerExtractors (configs ++ [provider]) = providerExtractors configs /\
      providerSelectors (configs ++ [provider]) = providerSelectors configs) /\
  (forall e clock,
      let p := NewMemoryModelPool db (Err e) in
      p = mkPool [] [] 0 0 ∅ /\
      GetNextExtractor clock p = (Failed "no extractor models available", p) /\
      GetNextSelector clock p = (Failed "no selector models available", p)).
Proof.
  intros Hdb. destruct (discoverFromDatabase_nothing db Hdb) as [Hp Hmodels].
  split_and!.
  - intros configs. cbv zeta. unfold NewMemoryModelPool, discoverModels.
    destruct (discoverFromDatabase db (mkPool [] [] 0 0 ∅))
      as [dbModels p1]. cbn [fst snd] in Hp, Hmodels. subst p1.
    destruct (fold_addProvider_models configs (mkPool [] [] 0 0 ∅))
      as [He Hs].
    cbn [extractorModels selectorModels app] in He, Hs.
    assert (forall q : MemoryModelPool,
               match dbModels with
               | Ok (_ :: _) => q
               | _ =>
                   set_models
                     (fold_left addProvider configs (mkPool [] [] 0 0 ∅))
                     (sortModelsBySpeed (providerExtractors configs))
                     (sortModelsBySpeed (providerSelectors configs))
               end
               = set_models
                   (fold_left addProvider configs (mkPool [] [] 0 0 ∅))
                   (sortModelsBySpeed (providerExtractors configs))
                   (sortModelsBySpeed (providerSelectors configs))) as Hcase.
    { intros q. by destruct dbModels as [[| c l] | e]. }
    rewrite He, Hs, Hcase. cbn [set_models extractorModels selectorModels].
    split_and!; try done; apply sortModelsBySpeed_sorted.
  - intros configs provider Hoff.
    unfold providerExtractors, providerSelectors.
    rewrite !flat_map_app. cbn. rewrite Hoff. cbn. by rewrite !app_nil_r.
  - intros e clock. cbv zeta.
    assert (NewMemoryModelPool db (Err e) = mkPool [] [] 0 0 ∅) as ->.
    { unfold NewMemoryModelPool, discoverModels.
      destruct (discoverFromDatabase db (mkPool [] [] 0 0 ∅))
        as [dbModels p1]. cbn [fst snd] in Hp, Hmodels. subst p1.
      by destruct dbModels as [[| c l] | e']. }
    done.
Qed.

(** *** A new pool is healthy *)

Lemma fresh_grows p extractors selectors i j tracker :
  fresh p ->
  (forall id h,
      tracker !! id = Some h ->
      healthTracker p !! id = Some h \/
      (h = newHealth /\
       exists c, (c ∈ extractors \/ c ∈ selectors) /\ ModelID c = id)) ->
  (forall c, c ∈ extractorModels p -> c ∈ extractors) ->
  (forall c, c ∈ selectorModels p -> c ∈ selectors) ->
  fresh (mkPool extractors selectors i j tracker).
Proof.
  intros Hp Htracker He Hs id h Hh. cbn in *.
  destruct (Htracker id h Hh) as [Hold | Hnew]; [| done].
  destruct (Hp id h Hold) as (-> & c & [Hc | Hc] & <-).
  - split; [done |]. exists c. split; [left; by apply He | done].
  - split; [done |]. exists c. split; [right; by apply Hs | done].
Qed.

Lemma addCandidate_fresh p candidate extractor selector :
  fresh p -> fresh (addCandidate p candidate extractor selector).
Proof.
  intros Hp. unfold addCandidate.
  assert (H1 : fresh
                 (if extractor
                  then set_health
                         (set_models p (extractorModels p ++ [candidate])
                                     (selectorModels p))
                         (ModelID candidate) newHealth
                  else p)).
  { destruct extractor; [| done].
    apply (fresh_grows p); [done | | |].
    - intros id h [[<- <-] | [_ Hh]]%lookup_insert_Some; [| by left].
      right. split; [done |]. exists candidate. split; [left | done].
      apply elem_of_app. right. by apply list_elem_of_singleton.
    - intros c Hc. apply elem_of_app. by left.
    - done. }
  cbv zeta. destruct selector; [| done].
  set (p1 := if extractor then _ else p) in *.
  destruct (healthTracker p1 !! ModelID candidate) as [h |] eqn:Hh.
  - apply (fresh_grows p1); [done | by left | done |].
    intros c Hc. apply elem_of_app. by left.
  - apply (fresh_grows p1); [done | | done |].
    + intros id h Hh'. cbn in Hh'.
      apply lookup_insert_Some in Hh' as [[<- <-] | [_ Hh']]; [| by left].
      right. split; [done |]. exists candidate. split; [right | done].
      apply elem_of_app. right. by apply list_elem_of_singleton.
    + intros c Hc. apply elem_of_app. by left.
Qed.

Lemma fold_left_fresh {A} (f : MemoryModelPool -> A -> MemoryModelPool)
    (items : list A) p :
  (forall q x, fresh q -> fresh (f q x)) ->
  fresh p -> fresh (fold_left f items p).
Proof.
  intros Hf. revert p. induction items as [| x l IH]; intros p Hp; [done |].
  cbn. apply IH. by apply Hf.
Qed.

Lemma sorted_fresh p :
  fresh p ->
  fresh (set_models p (sortModelsBySpeed (extractorModels p))
                    (sortModelsBySpeed (selectorModels p))).
Proof.
  intros Hp. apply (fresh_grows p); [done | by left | |].
  - intros c Hc.
    by rewrite (proj2 (sortModelsBySpeed_sorted (extractorModels p))).
  - intros c Hc.
    by rewrite (proj2 (sortModelsBySpeed_sorted (selectorModels p))).
Qed.

Lemma addProvider_fresh p provider : fresh p -> fresh (addProvider p provider).
Proof.
  intros Hp. unfold addProvider. destruct (pc_Enabled provider); [| done].
  apply fold_left_fresh; [| done].
  intros q x Hq. rewrite addAlias_addCandidate. by apply addCandidate_fresh.
Qed.

Lemma discoverFromDatabase_fresh db p :
  fresh p -> fresh (snd (discoverFromDatabase db p)).
Proof.
  intros Hp. unfold discoverFromDatabase.
  destruct db as [[rows | e] |]; [| done | done]. cbn [snd].
  apply sorted_fresh, fold_left_fresh; [| done].
  intros q x Hq. rewrite addRow_addCandidate. by apply addCandidate_fresh.
Qed.

Lemma NewMemoryModelPool_fresh db providers :
  fresh (NewMemoryModelPool db providers).
Proof.
  unfold NewMemoryModelPool, discoverModels.
  assert (Hempty : fresh (mkPool [] [] 0 0 ∅)).
  { intros id h Hh. cbn in Hh. by rewrite lookup_empty in Hh. }
  pose proof (discoverFromDatabase_fresh db _ Hempty) as H1.
  destruct (discoverFromDatabase db (mkPool [] [] 0 0 ∅)) as [dbModels p1].
  cbn [snd] in H1.
  assert (Hfallback :
    fresh
      match providers with
      | Ok configs =>
          set_models (fold_left addProvider configs p1)
            (sortModelsBySpeed
               (extractorModels (fold_left addProvider configs p1)))
            (sortModelsBySpeed
               (selectorModels (fold_left addProvider configs p1)))
      | Err _ => p1
      end).
  { destruct providers as [configs | e]; [| done].
    apply sorted_fresh, fold_left_fresh; [| done].
    intros q x. apply addProvider_fresh. }
  destruct dbModels as [[| c l] | e]; done.
Qed.

(** *** The statistics *)

Lemma filter_length_bound {A} (f : A -> bool) (l : list A) :
  (length (List.filter f l) <= length l)%nat.
Proof.
  induction l as [| x l IH]; [done |]. cbn. destruct (f x); cbn; lia.
Qed.

(** On tracked models the loop of [GetStats] counts the healthy ones. *)
Lemma countHealthy_tracked p models :
  (forall c, c ∈ models -> is_Some (healthTracker p !! ModelID c)) ->
  countHealthy p models
  = Some (Z.of_nat (length (List.filter (healthyb p) models))).
Proof.
  induction models as [| c models IH]; intros Htracked; [done |].
  cbn [countHealthy List.filter]. unfold healthyb at 1.
  destruct (Htracked c) as [h Hh]; [by apply list_elem_of_here |].
  rewrite Hh, IH.
  - destruct (IsHealthy h); cbn [length]; f_equal; lia.
  - intros c' Hc'. apply Htracked. by apply elem_of_cons; right.
Qed.

(** A model without record stops the count. *)
Lemma countHealthy_untracked p models c :
  c ∈ models -> healthTracker p !! ModelID c = None ->
  countHealthy p models = None.
Proof.
  induction models as [| c' models IH]; intros Hc Hnone.
  - by apply elem_of_nil in Hc.
  - cbn. apply elem_of_cons in Hc as [<- | Hc]; [by rewrite Hnone |].
    destruct (healthTracker p !! ModelID c'); [| done].
    by rewrite IH.
Qed.

Lemma GetStats_tracked p :
  all_tracked p ->
  GetStats p
  = Some (mkStats
            (len (extractorModels p))
            (Z.of_nat (length (List.filter (healthyb p) (extractorModels p))))
            (len (selectorModels p))
            (Z.of_nat (length (List.filter (healthyb p) (selectorModels p))))).
Proof.
  intros Hall. unfold GetStats.
  rewrite !countHealthy_tracked; [done | |];
    intros c Hc; apply Hall; auto.
Qed.

(** Every pool the program can be in tracks all its models. *)
Lemma reachable_all_tracked db providers p :
  reachable db providers p -> all_tracked p.
Proof.
  intros Hreach c [Hc | Hc].
  - destruct (reachable_ok db providers p Hreach) as [_ Hok].
    apply Hok; [| done]. intros Hnil. rewrite Hnil in Hc.
    by apply elem_of_nil in Hc.
  - destruct (reachable_selectors_ok db providers p Hreach) as [_ Hok].
    apply Hok; [| done]. intros Hnil. rewrite Hnil in Hc.
    by apply elem_of_nil in Hc.
Qed.

Lemma fresh_all_healthy p models :
  fresh p ->
  (forall c, c ∈ models -> is_Some (healthTracker p !! ModelID c)) ->
  List.filter (healthyb p) models = models.
Proof.
  intros Hfresh. induction models as [| c models IH]; intros Htracked;
    [done |].
  cbn. unfold healthyb at 1.
  destruct (Htracked c) as [h Hh]; [by apply list_elem_of_here |].
  rewrite Hh. destruct (Hfresh _ _ Hh) as [-> _]. cbn. f_equal.
  apply IH. intros c' Hc'. apply Htracked. by apply elem_of_cons; right.
Qed.

(** X5. The pool [NewMemoryModelPool] returns is well formed: both
    round-robin indices are 0, both lists are sorted by speed, every listed
    model has a health record, every record is the initial healthy one and
    belongs to a listed model; so [GetStats] reports every model healthy. *)
Theorem new_pool_is_healthy
    (db : Database) (providers : Result (list ProviderConfig)) :
  let p := NewMemoryModelPool db providers in
  extractorIndex p = 0 /\ selectorIndex p = 0 /\
  StronglySorted faster (extractorModels p) /\
  StronglySorted faster (selectorModels p) /\
  all_tracked p /\
  (forall id h,
      healthTracker p !! id = Some h ->
      h = newHealth /\
      exists c, (c ∈ extractorModels p \/ c ∈ selectorModels p) /\
                ModelID c = id) /\
  GetStats p
  = Some (mkStats (len (extractorModels p)) (len (extractorModels p))
                  (len (selectorModels p)) (len (selectorModels p))).
Proof.
  cbv zeta.
  destruct (NewMemoryModelPool_ok db providers)
    as ((Hi & Hj & Hall) & [Hse Hss] & _).
  pose proof (NewMemoryModelPool_fresh db providers) as Hfresh.
  split_and!; try done.
  rewrite (GetStats_tracked _ Hall).
  rewrite !(fresh_all_healthy _ _ Hfresh); [done | |];
    intros c Hc; apply Hall; auto.
Qed.

(** X6. In every state the program can reach [GetStats] returns (no nil
    record is dereferenced): the totals are the lengths of the two lists,
    the healthy counts are the numbers of listed models whose record says
    healthy, and each lies between 0 and its total.  A listed model without
    record would crash it. *)
Theorem GetStats_counts
    (db : Database) (providers : Result (list ProviderConfig))
    (p : MemoryModelPool) :
  reachable db providers p ->
  (exists s,
      GetStats p = Some s /\
      total_extractors s = len (extractorModels p) /\
      total_selectors s = len (selectorModels p) /\
      healthy_extractors s
      = Z.of_nat (length (List.filter (healthyb p) (extractorModels p))) /\
      healthy_selectors s
      = Z.of_nat (length (List.filter (healthyb p) (selectorModels p))) /\
      0 <= healthy_extractors s <= total_extractors s /\
      0 <= healthy_selectors s <= total_selectors s) /\
  (forall q c,
      c ∈ extractorModels q \/ c ∈ selectorModels q ->
      healthTracker q !! ModelID c = None ->
      GetStats q = None).
Proof.
  intros Hreach. split.
  - rewrite (GetStats_tracked p (reachable_all_tracked _ _ _ Hreach)).
    eexists. split; [reflexivity |]. cbn.
    pose proof (filter_length_bound (healthyb p) (extractorModels p)).
    pose proof (filter_length_bound (healthyb p) (selectorModels p)).
    unfold len. split_and!; try done; lia.
  - intros q c [Hc | Hc] Hnone; unfold GetStats.
    + by rewrite (countHealthy_untracked q _ c Hc Hnone).
    + rewrite (countHealthy_untracked q (selectorModels q) c Hc Hnone).
      by destruct (countHealthy q (extractorModels q)).
Qed.

(** *** Failures and recovery *)

Lemma incr_exact x : in_int64 (x + 1) -> incr x = x + 1.
Proof. apply wrap64_id. Qed.

Lemma MarkFailure_tracked now id p h :
  healthTracker p !! id = Some h ->
  MarkFailure now id p
  = set_health p id
      (mkHealth (incr (FailureCount h)) (SuccessCount h) now (LastSuccess h)
                (if MaxConsecutiveFailures <=? incr (ConsecutiveFails h)
                 then false else IsHealthy h)
                (incr (ConsecutiveFails h))).
Proof. intros Hh. unfold MarkFailure. by rewrite Hh. Qed.

Lemma MarkSuccess_tracked now id p h :
  healthTracker p !! id = Some h ->
  MarkSuccess now id p
  = set_health p id
      (mkHealth (FailureCount h) (incr (SuccessCount h)) (LastFailure h) now
                (if negb (IsHealthy h) &&
                    (MinSuccessesToRecover <=? incr (SuccessCount h))
                 then true else IsHealthy h)
                0).
Proof. intros Hh. unfold MarkSuccess. by rewrite Hh. Qed.

Lemma set_health_lookup p id h :
  healthTracker (set_health p id h) !! id = Some h.
Proof. cbn. apply lookup_insert_eq. Qed.

(** X7. Three failures in a row make a model unhealthy, whatever its record
    said before: after three [MarkFailure] calls on a tracked model its
    record says unhealthy, counts three more consecutive failures and bears
    the time of the last one; its successes are untouched, and so are the
    records of the other models and both model lists. *)
Theorem three_failures_mark_unhealthy
    (t1 t2 t3 : Time) (id : string) (p : MemoryModelPool) (h : ModelHealth) :
  healthTracker p !! id = Some h ->
  0 <= ConsecutiveFails h ->
  ConsecutiveFails h + 3 <= max_int64 ->
  let p' := MarkFailure t3 id (MarkFailure t2 id (MarkFailure t1 id p)) in
  (exists h',
      healthTracker p' !! id = Some h' /\
      IsHealthy h' = false /\
      ConsecutiveFails h' = ConsecutiveFails h + 3 /\
      LastFailure h' = t3 /\
      SuccessCount h' = SuccessCount h /\
      LastSuccess h' = LastSuccess h) /\
  (forall other, other <> id ->
                 healthTracker p' !! other = healthTracker p !! other) /\
  extractorModels p' = extractorModels p /\
  selectorModels p' = selectorModels p.
Proof.
  intros Hh H0 Hmax. cbv zeta.
  assert (Hin : forall x, ConsecutiveFails h <= x < ConsecutiveFails h + 3 ->
                          in_int64 (x + 1)).
  { intros x Hx. unfold in_int64, min_int64, max_int64 in *. lia. }
  rewrite (MarkFailure_tracked t1 id p h Hh).
  rewrite (MarkFailure_tracked t2 id _ _ (set_health_lookup _ _ _)).
  rewrite (MarkFailure_tracked t3 id _ _ (set_health_lookup _ _ _)).
  cbn [ConsecutiveFails FailureCount SuccessCount LastSuccess IsHealthy].
  rewrite (incr_exact (ConsecutiveFails h)) by (apply Hin; lia).
  rewrite (incr_exact (ConsecutiveFails h + 1)) by (apply Hin; lia).
  rewrite (incr_exact (ConsecutiveFails h + 1 + 1)) by (apply Hin; lia).
  split_and!.
  - eexists. split; [apply set_health_lookup |]. cbn.
    unfold MaxConsecutiveFailures.
    destruct (Z.leb_spec 3 (ConsecutiveFails h + 1 + 1 + 1)); [| lia].
    split_and!; try done. lia.
  - intros other Hne. cbn. by rewrite !lookup_insert_ne.
  - done.
  - done.
Qed.

(** X8. The failures must be consecutive: a success in between starts the
    count again.  A healthy model that succeeds and then fails twice is
    still healthy, with two consecutive failures on record, however many
    failures came before the success. *)
Theorem success_resets_failure_streak
    (ts t1 t2 : Time) (id : string) (p : MemoryModelPool) (h : ModelHealth) :
  healthTracker p !! id = Some h ->
  IsHealthy h = true ->
  exists h',
    healthTracker
      (MarkFailure t2 id (MarkFailure t1 id (MarkSuccess ts id p))) !! id
    = Some h' /\
    IsHealthy h' = true /\
    ConsecutiveFails h' = 2 /\
    LastSuccess h' = ts /\
    LastFailure h' = t2.
Proof.
  intros Hh Hhealthy.
  rewrite (MarkSuccess_tracked ts id p h Hh).
  rewrite (MarkFailure_tracked t1 id _ _ (set_health_lookup _ _ _)).
  rewrite (MarkFailure_tracked t2 id _ _ (set_health_lookup _ _ _)).
  eexists. split; [apply set_health_lookup |].
  cbn. rewrite Hhealthy. done.
Qed.

(** X9. Recovery counts the successes of the model's whole life, not those
    since it became unhealthy ([SuccessCount] is never reset): a success on
    an unhealthy model makes it healthy exactly when the model had succeeded
    at least once before, and two successes always do.  Each success clears
    the consecutive failures and leaves the failure total alone. *)
Theorem success_restores_health
    (t1 t2 : Time) (id : string) (p : MemoryModelPool) (h : ModelHealth) :
  healthTracker p !! id = Some h ->
  IsHealthy h = false ->
  0 <= SuccessCount h ->
  SuccessCount h + 2 <= max_int64 ->
  (exists h1,
      healthTracker (MarkSuccess t1 id p) !! id = Some h1 /\
      IsHealthy h1 = (1 <=? SuccessCount h) /\
      SuccessCount h1 = SuccessCount h + 1 /\
      ConsecutiveFails h1 = 0 /\
      FailureCount h1 = FailureCount h /\
      LastSuccess h1 = t1 /\
      LastFailure h1 = LastFailure h) /\
  (exists h2,
      healthTracker (MarkSuccess t2 id (MarkSuccess t1 id p)) !! id = Some h2 /\
      IsHealthy h2 = true /\
      SuccessCount h2 = SuccessCount h + 2).
Proof.
  intros Hh Hsick H0 Hmax.
  assert (H1 : in_int64 (SuccessCount h + 1))
    by (unfold in_int64, min_int64, max_int64 in *; lia).
  assert (H2 : in_int64 (SuccessCount h + 1 + 1))
    by (unfold in_int64, min_int64, max_int64 in *; lia).
  rewrite (MarkSuccess_tracked t1 id p h Hh).
  rewrite (MarkSuccess_tracked t2 id _ _ (set_health_lookup _ _ _)).
  cbn [SuccessCount IsHealthy FailureCount LastFailure].
  rewrite Hsick. rewrite (incr_exact _ H1), (incr_exact _ H2).
  unfold MinSuccessesToRecover. split.
  - eexists. split; [apply set_health_lookup |]. cbn.
    split_and!; try done.
    destruct (Z.leb_spec 2 (SuccessCount h + 1)),
             (Z.leb_spec 1 (SuccessCount h)); try done; lia.
  - eexists. split; [apply set_health_lookup |]. cbn.
    destruct (Z.leb_spec 2 (SuccessCount h + 1)); cbn.
    + split; [done | lia].
    + destruct (Z.leb_spec 2 (SuccessCount h + 1 + 1)); [| lia].
      split; [done | lia].
Qed.

(** *** Taking turns *)

(** With every extractor healthy a call hands out the model under the
    index and moves the index on by one. *)
Lemma GetNextExtractor_healthy clock p :
  extractors_ok p -> all_healthy p ->
  exists c,
    index (extractorModels p) (extractorIndex p) = Some c /\
    GetNextExtractor clock p
    = (Selected (ModelID c),
       set_extractorIndex p
         ((extractorIndex p + 1) mod len (extractorModels p))).
Proof.
  intros [Hi Htracked] Hhealthy.
  destruct (index_in_range (extractorModels p) (extractorIndex p) Hi)
    as [c Hc].
  exists c. split; [done |].
  destruct (Hhealthy c (index_elem_of _ _ _ Hc)) as (h & Hh & Hok).
  unfold GetNextExtractor.
  destruct (Z.eqb_spec (len (extractorModels p)) 0); [lia |].
  destruct (length (extractorModels p)) as [| r] eqn:Hlen;
    [unfold len in Hi; lia |].
  cbn [tryExtractors]. rewrite Hc.
  cbn [set_extractorIndex healthTracker]. rewrite Hh, Hok.
  by rewrite Z.rem_mod_nonneg by lia.
Qed.

Lemma rotation_next p k :
  extractors_ok p ->
  rotation
    (set_extractorIndex p ((extractorIndex p + 1) mod len (extractorModels p)))
    k
  = rotation p (S k).
Proof.
  intros [Hi _]. unfold rotation. cbn [set_extractorIndex extractorModels
                                        extractorIndex].
  rewrite Z.add_mod_idemp_l by lia. do 2 f_equal. lia.
Qed.

Lemma drawExtractors_healthy clock count p :
  extractors_ok p -> all_healthy p ->
  length (fst (drawExtractors clock count p)) = count /\
  (forall k, (k < count)%nat ->
             exists c,
               rotation p k = Some c /\
               fst (drawExtractors clock count p) !! k
               = Some (Selected (ModelID c))) /\
  snd (drawExtractors clock count p)
  = set_extractorIndex p
      ((extractorIndex p + Z.of_nat count) mod len (extractorModels p)).
Proof.
  revert p. induction count as [| count IH]; intros p Hok Hhealthy.
  - cbn. split_and!; [done | intros k Hk; lia |].
    destruct Hok as [Hi _]. rewrite Z.add_0_r, Z.mod_small by lia.
    by rewrite set_extractorIndex_same.
  - destruct (GetNextExtractor_healthy clock p Hok Hhealthy) as (c & Hc & Heq).
    cbn [drawExtractors]. rewrite Heq.
    set (p1 := set_extractorIndex p _) in *.
    assert (Hok1 : extractors_ok p1).
    { destruct Hok as [Hi Ht]. split; [| done]. cbn.
      apply Z.mod_pos_bound. lia. }
    assert (Hhealthy1 : all_healthy p1) by done.
    destruct (IH p1 Hok1 Hhealthy1) as (Hlen & Hturn & Hend).
    destruct (drawExtractors clock count p1) as [rest p2].
    cbn [fst snd] in *. split_and!.
    + cbn. by rewrite Hlen.
    + intros [| k] Hk.
      * exists c. split; [| done]. unfold rotation.
        destruct Hok as [Hi _]. by rewrite Z.add_0_r, Z.mod_small by lia.
      * destruct (Hturn k ltac:(lia)) as (c' & Hc' & Hk').
        exists c'. split; [| done].
        unfold p1 in Hc'. by rewrite rotation_next in Hc'.
    + rewrite Hend. unfold p1. cbn [set_extractorIndex extractorModels
                                     selectorModels selectorIndex
                                     extractorIndex healthTracker].
      destruct Hok as [Hi _].
      rewrite Z.add_mod_idemp_l by lia. do 2 f_equal. lia.
Qed.

(** X10. With every extractor healthy, the extractors take turns: the
    [k]-th of any number of consecutive [GetNextExtractor] calls returns the
    model [k] places after the index, wrapping around; no record is touched.
    A full round of as many calls as there are extractors hands out each
    model once, in list order starting at the index, and leaves the pool
    exactly as it was. *)
Theorem healthy_extractors_take_turns
    (clock : nat -> Time) (count : nat) (p : MemoryModelPool) :
  extractors_ok p ->
  all_healthy p ->
  length (fst (drawExtractors clock count p)) = count /\
  (forall k, (k < count)%nat ->
             exists c,
               rotation p k = Some c /\
               fst (drawExtractors clock count p) !! k
               = Some (Selected (ModelID c))) /\
  healthTracker (snd (drawExtractors clock count p)) = healthTracker p /\
  (count = length (extractorModels p) ->
   fst (drawExtractors clock count p)
   = map (fun c => Selected (ModelID c))
         (rotate (Z.to_nat (extractorIndex p)) (extractorModels p)) /\
   snd (drawExtractors clock count p) = p).
Proof.
  intros Hok Hhealthy.
  destruct (drawExtractors_healthy clock count p Hok Hhealthy)
    as (Hlen & Hturn & Hend).
  split_and!; [done | done | by rewrite Hend |].
  intros ->. split.
  - apply list_eq. intros k.
    destruct (decide (k < length (extractorModels p))%nat) as [Hk | Hk].
    + destruct (Hturn k Hk) as (c & Hc & ->).
      rewrite list_lookup_fmap, lookup_rotate_r by done.
      unfold rotation in Hc. apply index_Some in Hc as [_ Hc].
      unfold rotate_nat_add. unfold len in Hc.
      destruct Hok as [Hi _].
      replace (Z.of_nat (Z.to_nat (extractorIndex p)))
        with (extractorIndex p) by lia.
      by rewrite Hc.
    + rewrite !lookup_ge_None_2; [done | |].
      * rewrite length_map, length_rotate. lia.
      * rewrite Hlen. lia.
  - rewrite Hend. by apply full_round.
Qed.

End ModelPoolMore.

(** ** The execution transport *)

Module TransportFacts.

Import Transport.

Section WithCollaborators.

Context {Ctx Workflow BlockStates Artifacts Files Metadata : Type}.
Context (Version : Workflow -> Z).
Context (set_AgentID : Metadata -> string -> Metadata).

Abbreviation event :=
  (@Event Ctx Workflow BlockStates Artifacts Files Metadata).
Abbreviation handler :=
  (@WorkflowWebSocketHandler Ctx Workflow BlockStates Artifacts Files Metadata).
Abbreviation message :=
  (@WorkflowServerMessage BlockStates Artifacts Files Metadata).
Abbreviation handle := (handleExecuteWorkflow Version set_AgentID).

(** Equal up to the bracketing of [++]. *)
Ltac same_list :=
  repeat (cbn [app]; rewrite <- app_assoc); cbn [app]; reflexivity.

(** *** Reading a list of events *)

Lemma writes_app (l1 l2 : list event) :
  writes (l1 ++ l2) = writes l1 ++ writes l2.
Proof. apply omap_app. Qed.

Lemma pushed_app (l1 l2 : list event) :
  pushed (l1 ++ l2) = pushed l1 ++ pushed l2.
Proof. apply omap_app. Qed.

Lemma chanOps_app (l1 l2 : list event) :
  chanOps (l1 ++ l2) = chanOps l1 ++ chanOps l2.
Proof. apply omap_app. Qed.

Lemma closes_app (l1 l2 : list event) :
  closes (l1 ++ l2) = (closes l1 + closes l2)%nat.
Proof. unfold closes. by rewrite List.filter_app, length_app. Qed.

Lemma reaches_engine_app (l1 l2 : list event) :
  reaches_engine (l1 ++ l2) = reaches_engine l1 || reaches_engine l2.
Proof. apply existsb_app. Qed.

Lemma closings_app (l1 l2 : list message) :
  closings (l1 ++ l2) = (closings l1 + closings l2)%nat.
Proof. unfold closings. by rewrite List.filter_app, length_app. Qed.

(** Quiet events are invisible to every reading. *)
Lemma quiet_silent (l : list event) :
  forallb quiet l = true ->
  writes l = [] /\ pushed l = [] /\ chanOps l = [] /\ closes l = 0%nat /\
  reaches_engine l = false /\ before_go l = l /\ after_go l = None.
Proof.
  induction l as [| e l IH]; [done |].
  cbn [forallb]. intros [He Hl]%andb_true_iff.
  destruct (IH Hl) as (Hw & Hp & Hc & Hn & Hr & Hb & Ha).
  destruct e; try discriminate; cbn; by rewrite ?Hw, ?Hp, ?Hc, ?Hr, ?Hb, ?Ha.
Qed.

Lemma go_app (l1 l2 : list event) :
  after_go l1 = None ->
  after_go (l1 ++ l2) = after_go l2 /\
  before_go (l1 ++ l2) = l1 ++ before_go l2.
Proof.
  induction l1 as [| e l IH]; [done |].
  destruct e; cbn; try discriminate; intros H; destruct (IH H) as [-> ->];
    done.
Qed.

Lemma sends_silent (updates : list ExecutionUpdate) :
  writes (map EvSend updates : list event) = [] /\
  pushed (map EvSend updates : list event) = updates /\
  chanOps (map EvSend updates : list event) = map Send updates /\
  closes (map EvSend updates : list event) = 0%nat /\
  reaches_engine (map EvSend updates : list event) = false /\
  after_go (map EvSend updates : list event) = None.
Proof.
  split_and!; induction updates as [| u l IH]; try done;
    first [exact IH | cbn; f_equal; exact IH].
Qed.

Lemma forwardUpdates_not_closing execID updates :
  closings (forwardUpdates execID updates : list message) = 0%nat.
Proof. induction updates as [| u l IH]; [done | exact IH]. Qed.

Lemma after_go_split (events : list event) execID rest :
  after_go events = Some (execID, rest) ->
  events = before_go events ++ EvGo execID :: rest.
Proof.
  induction events as [| e l IH]; [discriminate |].
  destruct e; cbn; try (intros H; f_equal; by apply IH).
  by intros [= -> ->].
Qed.

(** *** The pieces of the handler *)

(** The limit check stops the run exactly when a count was obtained and
    nothing is left; then it writes the limit message. *)
Lemma checkDailyLimit_stops (h : handler) run userID :
  snd (checkDailyLimit h run userID) = false <->
  exists limiter,
    executionLimiter h = Some limiter /\
    Limiter.GetRemainingExecutions limiter (clkCheck run) userID = (0, None).
Proof.
  unfold checkDailyLimit. destruct (executionLimiter h) as [el |].
  - destruct (Limiter.GetRemainingExecutions el _ _)
      as [remaining [e |]] eqn:Hg.
    + cbn. split; [discriminate |].
      intros (l & [= <-] & Hg'). rewrite Hg in Hg'. discriminate.
    + destruct (Z.eqb_spec remaining 0) as [-> | Hne]; cbn.
      * split; [eauto | done].
      * split.
        -- destruct (0 <? remaining); discriminate.
        -- intros (l & [= <-] & Hg'). rewrite Hg in Hg'.
           injection Hg' as ->. contradiction.
  - cbn. split; [discriminate | intros (? & [=] & _)].
Qed.

Lemma checkDailyLimit_stopped (h : handler) run userID :
  snd (checkDailyLimit h run userID) = false ->
  fst (checkDailyLimit h run userID)
  = [EvLog (LogLimitExceeded userID);
     EvWrite (errorMessage limitExceededText)].
Proof.
  unfold checkDailyLimit. destruct (executionLimiter h) as [el |];
    [| discriminate].
  destruct (Limiter.GetRemainingExecutions el _ _) as [remaining [e |]];
    [discriminate |].
  destruct (remaining =? 0); [done |].
  destruct (0 <? remaining); discriminate.
Qed.

Lemma checkDailyLimit_quiet (h : handler) run userID :
  snd (checkDailyLimit h run userID) = true ->
  forallb quiet (fst (checkDailyLimit h run userID)) = true.
Proof.
  unfold checkDailyLimit. destruct (executionLimiter h) as [el |]; [| done].
  destruct (Limiter.GetRemainingExecutions el _ _) as [remaining [e |]];
    [done |].
  destruct (remaining =? 0); [discriminate |].
  by destruct (0 <? remaining).
Qed.

Lemma incrementCounter_quiet (h : handler) run userID :
  forallb quiet (fst (incrementCounter h run userID)) = true.
Proof.
  unfold incrementCounter. destruct (executionLimiter h) as [el |]; [| done].
  destruct (Limiter.IncrementCount el _ _) as [[err el'] lines]. cbn.
  rewrite forallb_app. apply andb_true_iff. split.
  - induction lines; [done | by cbn].
  - by destruct err.
Qed.

Lemma createExecution_quiet (h : handler) run ctx userID msg wf
    execID execObjectID created :
  createExecution Version h run ctx userID msg wf
  = inr (execID, execObjectID, created) ->
  forallb quiet created = true.
Proof.
  unfold createExecution. destruct (executionService h) as [svc |].
  - destruct (Create svc ctx _); [| discriminate]. by intros [= _ _ <-].
  - by intros [= _ _ <-].
Qed.

Lemma createExecution_failed (h : handler) run ctx userID msg wf failed :
  createExecution Version h run ctx userID msg wf = inl failed ->
  exists req e,
    failed = [EvCreate req; EvLog (LogCreateFailed e);
              EvWrite (errorMessage ("Failed to create execution: " +:+ e))].
Proof.
  unfold createExecution. destruct (executionService h) as [svc |];
    [| discriminate].
  destruct (Create svc ctx _) as [| e]; [discriminate |].
  intros [= <-]. eauto.
Qed.

(** After the engine: quiet events, then exactly one [execution_complete]. *)
Lemma reportResult_shape (h : handler) run msg wf execID execObjectID outcome :
  exists before m,
    reportResult set_AgentID h run msg wf execID execObjectID outcome
    = before ++ [EvWrite m] /\
    forallb quiet before = true /\
    sm_Type m = "execution_complete" /\
    sm_ExecutionID m = execID /\
    match outcome with
    | Err e => m = failedMessage execID (duration run) e
    | Ok result => sm_Status m = res_Status result /\
                   sm_Error m = res_Error result
    end.
Proof.
  unfold reportResult. destruct outcome as [result | e].
  - destruct (executionService h); cbn;
      [eexists [_; _], _ | eexists [_], _]; cbn; by split_and!.
  - destruct (executionService h); cbn;
      [eexists [_; _], _ | eexists [_], _]; cbn; by split_and!.
Qed.

(** *** The two ways a request ends *)

(** Either the request is turned away with one [error] message, or the run
    starts, the engine is called and its outcome is reported. *)
Lemma handle_outcomes (h : handler) run ctx userID msg :
  (exists before text,
      fst (handle h run ctx userID msg)
      = before ++ [EvWrite (errorMessage text)] /\
      forallb quiet before = true /\
      rejection Version h run ctx userID msg text) \/
  (exists before agent wf execID counted updates outcome after,
      snd (checkDailyLimit h run userID) = true /\
      GetAgent (agentService h) (cm_AgentID msg) userID = Ok agent /\
      ag_Workflow agent = Some wf /\
      ExecuteWithOptions (workflowEngine h) ctx wf
        (injectUserID (cm_Input msg) userID)
        (mkOptions (ag_Description agent) (cm_EnableBlockChecker msg)
                   (cm_CheckerModelID msg))
      = (updates, outcome) /\
      forallb quiet before = true /\
      forallb quiet counted = true /\
      fst (handle h run ctx userID msg)
      = before ++ [EvWrite (startedMessage execID)] ++ counted ++
        [EvMakeChan 100; EvGo execID;
         EvLog (LogBlockChecker (cm_EnableBlockChecker msg)
                                (cm_CheckerModelID msg));
         EvLog (LogExecuting (injectUserID (cm_Input msg) userID));
         EvExecute ctx wf (injectUserID (cm_Input msg) userID)
           (mkOptions (ag_Description agent) (cm_EnableBlockChecker msg)
                      (cm_CheckerModelID msg))] ++
        map EvSend updates ++ [EvReturn; EvClose] ++
        reportResult set_AgentID h run msg wf execID after outcome).
Proof.
  unfold handleExecuteWorkflow, rejection.
  pose proof (checkDailyLimit_stopped h run userID) as Hstopped.
  pose proof (checkDailyLimit_quiet h run userID) as Hquiet.
  destruct (checkDailyLimit h run userID) as [checked [|]]; cbn [fst snd] in *.
  2: { left. rewrite (Hstopped eq_refl).
       eexists [_; _], _. cbn. split_and!; [done | done | by left]. }
  specialize (Hquiet eq_refl).
  destruct (GetAgent (agentService h) (cm_AgentID msg) userID)
    as [agent | e] eqn:Hagent.
  2: { left. exists (EvLog (LogReceived (cm_AgentID msg) (cm_Input msg))
                     :: checked ++ [EvLog (LogAgentNotFound (cm_AgentID msg))]).
       eexists. cbn [fst]. split_and!.
       - same_list.
       - cbn. rewrite forallb_app, Hquiet. done.
       - right. split; [done |]. left. eauto. }
  destruct (ag_Workflow agent) as [wf |] eqn:Hwf.
  2: { left. exists (EvLog (LogReceived (cm_AgentID msg) (cm_Input msg))
                     :: checked ++ [EvLog (LogNoWorkflow (cm_AgentID msg))]).
       eexists. cbn [fst]. split_and!.
       - same_list.
       - cbn. rewrite forallb_app, Hquiet. done.
       - right. split; [done |]. right; left. eauto. }
  destruct (createExecution Version h run ctx userID msg wf)
    as [failed | [[execID oid] created]] eqn:Hcreate.
  - left. unfold createExecution in Hcreate.
    destruct (executionService h) as [svc |] eqn:Hsvc; [| discriminate].
    destruct (Create svc ctx _) as [| e] eqn:Hc; [discriminate |].
    injection Hcreate as <-.
    eexists (EvLog (LogReceived (cm_AgentID msg) (cm_Input msg))
               :: checked ++ [EvCreate _; EvLog (LogCreateFailed e)]).
    eexists. cbn [fst]. split_and!.
    + same_list.
    + cbn. rewrite forallb_app, Hquiet. done.
    + right. split; [done |]. right; right. exists agent, wf, svc, e. done.
  - right. pose proof (createExecution_quiet _ _ _ _ _ _ _ _ _ Hcreate) as Hcq.
    unfold runExecution.
    pose proof (incrementCounter_quiet h run userID) as Hiq.
    destruct (incrementCounter h run userID) as [counted limiter'].
    destruct (ExecuteWithOptions (workflowEngine h) ctx wf _ _)
      as [updates outcome] eqn:Hrun.
    cbn [fst snd] in *.
    exists (EvLog (LogReceived (cm_AgentID msg) (cm_Input msg))
              :: checked ++ created ++
              [EvLog (LogStarting execID (cm_AgentID msg))]).
    exists agent, wf, execID, counted, updates, outcome, oid.
    split_and!; try done.
    + cbn. rewrite !forallb_app, Hquiet, Hcq. done.
    + same_list.
Qed.

(** What a started run reads as. *)
Lemma run_readings (before counted reported : list event) execID ctx wf input
    opts updates m line1 line2 :
  forallb quiet before = true ->
  forallb quiet counted = true ->
  forallb quiet reported = true ->
  let tail :=
    [EvLog line1; EvLog line2; EvExecute ctx wf input opts] ++
    map EvSend updates ++ [EvReturn; EvClose] ++ reported ++ [EvWrite m] in
  let events :=
    before ++ [EvWrite (startedMessage execID)] ++ counted ++
    [EvMakeChan 100; EvGo execID] ++ tail in
  writes events = [startedMessage execID; m] /\
  writes tail = [m] /\
  pushed events = updates /\
  chanOps events = map Send updates ++ [Close] /\
  closes events = 1%nat /\
  reaches_engine events = true /\
  after_go events = Some (execID, tail) /\
  writes (before_go events) = [startedMessage execID].
Proof.
  intros Hb Hc Hr tail events.
  destruct (quiet_silent _ Hb) as (Hb1 & Hb2 & Hb3 & Hb4 & Hb5 & Hb6 & Hb7).
  destruct (quiet_silent _ Hc) as (Hc1 & Hc2 & Hc3 & Hc4 & Hc5 & Hc6 & Hc7).
  destruct (quiet_silent _ Hr) as (Hr1 & Hr2 & Hr3 & Hr4 & Hr5 & Hr6 & Hr7).
  destruct (sends_silent updates) as (Hs1 & Hs2 & Hs3 & Hs4 & Hs5 & Hs6).
  assert (Htail : writes tail = [m]).
  { unfold tail. rewrite !writes_app, Hs1, Hr1. done. }
  split_and!; try exact Htail; unfold events, tail.
  - rewrite !writes_app, Hb1, Hc1, Hs1, Hr1. done.
  - rewrite !pushed_app, Hb2, Hc2, Hs2, Hr2. cbn. by rewrite app_nil_r.
  - rewrite !chanOps_app, Hb3, Hc3, Hs3, Hr3. done.
  - rewrite !closes_app, Hb4, Hc4, Hs4, Hr4. done.
  - rewrite !reaches_engine_app, Hb5, Hc5, Hs5, Hr5. done.
  - rewrite (proj1 (go_app _ _ Hb7)). cbn [app after_go].
    rewrite (proj1 (go_app _ _ Hc7)). done.
  - rewrite (proj2 (go_app _ _ Hb7)). cbn [app before_go].
    rewrite (proj2 (go_app _ _ Hc7)). cbn [app before_go].
    rewrite writes_app, Hb1.
    change (writes (EvWrite (startedMessage execID)
                      :: counted ++ [EvMakeChan 100]))
      with (startedMessage execID :: writes (counted ++ [EvMakeChan 100])).
    rewrite writes_app, Hc1. done.
Qed.

(** What a rejected request reads as. *)
Lemma rejected_readings (before : list event) text :
  forallb quiet before = true ->
  let events := before ++ [EvWrite (errorMessage text)] in
  writes events = [errorMessage text] /\
  pushed events = [] /\
  chanOps events = [] /\
  closes events = 0%nat /\
  reaches_engine events = false /\
  after_go events = None.
Proof.
  intros Hb events.
  destruct (quiet_silent _ Hb) as (Hb1 & Hb2 & Hb3 & Hb4 & Hb5 & Hb6 & Hb7).
  unfold events. split_and!.
  - rewrite writes_app, Hb1. done.
  - rewrite pushed_app, Hb2. done.
  - rewrite chanOps_app, Hb3. done.
  - rewrite closes_app, Hb4. done.
  - rewrite reaches_engine_app, Hb5. done.
  - rewrite (proj1 (go_app _ _ Hb7)). done.
Qed.

(** The readings of any request. *)
Lemma handle_readings (h : handler) run ctx userID msg :
  let events := fst (handle h run ctx userID msg) in
  (exists text,
      rejection Version h run ctx userID msg text /\
      writes events = [errorMessage text] /\
      pushed events = [] /\
      chanOps events = [] /\
      closes events = 0%nat /\
      reaches_engine events = false /\
      after_go events = None) \/
  (exists agent wf execID updates outcome m tail,
      snd (checkDailyLimit h run userID) = true /\
      GetAgent (agentService h) (cm_AgentID msg) userID = Ok agent /\
      ag_Workflow agent = Some wf /\
      ExecuteWithOptions (workflowEngine h) ctx wf
        (injectUserID (cm_Input msg) userID)
        (mkOptions (ag_Description agent) (cm_EnableBlockChecker msg)
                   (cm_CheckerModelID msg))
      = (updates, outcome) /\
      sm_Type m = "execution_complete" /\
      sm_ExecutionID m = execID /\
      match outcome with
      | Err e => m = failedMessage execID (duration run) e
      | Ok result => sm_Status m = res_Status result /\
                     sm_Error m = res_Error result
      end /\
      writes events = [startedMessage execID; m] /\
      writes tail = [m] /\
      pushed events = updates /\
      chanOps events = map Send updates ++ [Close] /\
      closes events = 1%nat /\
      reaches_engine events = true /\
      after_go events = Some (execID, tail) /\
      writes (before_go events) = [startedMessage execID]).
Proof.
  cbv zeta.
  destruct (handle_outcomes h run ctx userID msg)
    as [(before & text & -> & Hq & Hrej)
       | (before & agent & wf & execID & counted & updates & outcome & oid
          & Hcheck & Hagent & Hwf & Hrun & Hq & Hcq & ->)].
  - left. exists text. split; [done |]. by apply rejected_readings.
  - right.
    destruct (reportResult_shape h run msg wf execID oid outcome)
      as (reported & m & -> & Hrq & Htype & Hid & Hm).
    pose proof (run_readings before counted reported execID ctx wf
                  (injectUserID (cm_Input msg) userID)
                  (mkOptions (ag_Description agent)
                             (cm_EnableBlockChecker msg)
                             (cm_CheckerModelID msg))
                  updates m
                  (LogBlockChecker (cm_EnableBlockChecker msg)
                                   (cm_CheckerModelID msg))
                  (LogExecuting (injectUserID (cm_Input msg) userID))
                  Hq Hcq Hrq) as Hread.
    cbv zeta in Hread. cbn [app] in Hread |- *.
    destruct Hread as (H1 & H2 & H3 & H4 & H5 & H6 & H7 & H8).
    exists agent, wf, execID, updates, outcome, m. eexists.
    split_and!; try done; eassumption.
Qed.

(** *** The connection and its writers *)

Abbreviation conn := (@Conn Ctx Workflow BlockStates Artifacts Files Metadata).
Abbreviation forwarder := (@Forwarder BlockStates Artifacts Files Metadata).

Lemma quiet_local (l : list event) :
  forallb quiet l = true -> forallb local l = true.
Proof.
  induction l as [| e l IH]; [done |].
  cbn [forallb]. intros [He Hl]%andb_true_iff.
  rewrite (IH Hl), andb_true_r. by destruct e.
Qed.

Lemma local_silent (e : event) (l : list event) :
  local e = true -> writes (e :: l) = writes l /\ pushed (e :: l) = pushed l.
Proof. by destruct e. Qed.

(** The connection's goroutine goes through local events by itself. *)
Lemma local_steps (l rest : list event) (fs : list forwarder) sent failed :
  forallb local l = true ->
  conn_steps (mkConn (l ++ rest) None fs sent failed)
             (mkConn rest None fs sent failed).
Proof.
  induction l as [| e l IH]; [intros _; apply rtc_refl |].
  cbn [forallb app]. intros [He Hl]%andb_true_iff.
  eapply rtc_l; [by apply conn_local | by apply IH].
Qed.

(** It writes when no forwarding goroutine is inside a write. *)
Lemma write_steps m (rest : list event) (fs : list forwarder) sent failed :
  existsb is_writing fs = false ->
  conn_steps (mkConn (EvWrite m :: rest) None fs sent failed)
             (mkConn rest None fs (written sent failed m) failed).
Proof.
  intros Hfs. eapply rtc_l; [by apply conn_write_begin |].
  apply rtc_once. apply conn_write_end.
Qed.

(** The forwarding goroutine can take each update as soon as it is sent
    and write it before the next one comes. *)
Lemma forward_steps execID (us : list ExecutionUpdate) (rest : list event)
    (fs : list forwarder) sent :
  existsb is_writing fs = false ->
  conn_steps
    (mkConn (map EvSend us ++ rest) None
            (mkForwarder execID (mkChan [] false) None :: fs) sent false)
    (mkConn rest None (mkForwarder execID (mkChan [] false) None :: fs)
            (sent ++ forwardUpdates execID us) false).
Proof.
  intros Hfs. revert sent. induction us as [| u us IH]; intros sent.
  - cbn. rewrite app_nil_r. apply rtc_refl.
  - cbn [map app].
    eapply rtc_l. { apply (conn_send u). unfold capacity. cbn. lia. }
    eapply rtc_l. { apply (conn_forward_begin _ []). exact Hfs. }
    eapply rtc_l. { apply (conn_forward_end _ _ []). }
    cbn [written app].
    replace (sent ++ forwardUpdates execID (u :: us))
      with ((sent ++ [updateMessage execID u]) ++ forwardUpdates execID us)
      by (by rewrite <- app_assoc).
    apply IH.
Qed.

(** What is still to do after a run does not change the run. *)
Lemma conn_step_frame (rest : list event) (s s' : conn) :
  conn_step s s' ->
  conn_step (mkConn (program s ++ rest) (writing s) (forwarders s) (wire s)
                    (broken s))
            (mkConn (program s' ++ rest) (writing s') (forwarders s')
                    (wire s') (broken s')).
Proof. destruct 1; cbn; by constructor. Qed.

Lemma conn_steps_frame (rest : list event) (s s' : conn) :
  conn_steps s s' ->
  conn_steps (mkConn (program s ++ rest) (writing s) (forwarders s) (wire s)
                     (broken s))
             (mkConn (program s' ++ rest) (writing s') (forwarders s')
                     (wire s') (broken s')).
Proof.
  induction 1 as [s | s1 s2 s3 Hstep _ IH]; [apply rtc_refl |].
  eapply rtc_l; [by apply conn_step_frame | exact IH].
Qed.

(** A connection that has failed stays so. *)
Lemma conn_step_broken (s s' : conn) :
  conn_step s s' -> broken s' = false -> broken s = false.
Proof. by destruct 1. Qed.

Lemma conn_steps_broken (s s' : conn) :
  conn_steps s s' -> broken s' = false -> broken s = false.
Proof.
  induction 1 as [s | s1 s2 s3 Hstep _ IH]; [done |].
  intros H3. eapply conn_step_broken; [exact Hstep | by apply IH].
Qed.

(** **** The messages of the connection's own goroutine *)

(** The messages of the connection's goroutine that are on the wire, being
    written, or still to be written. *)
Lemma own_messages_step (s s' : conn) :
  conn_step s s' ->
  Forall forwards_updates (forwarders s) ->
  broken s' = false ->
  Forall forwards_updates (forwarders s') /\
  List.filter own (wire s') ++ List.filter own (option_list (writing s')) ++
  List.filter own (writes (program s'))
  = List.filter own (wire s) ++ List.filter own (option_list (writing s)) ++
    List.filter own (writes (program s)).
Proof.
  destruct 1 as [e rest fs sent failed He
                | execID rest fs sent failed
                | u rest execID buf inside fs sent failed Hroom
                | rest execID buf inside fs sent failed
                | m rest fs sent failed Hfs
                | m todo fs sent failed
                | todo fs1 execID u buf cl fs2 sent failed Hfs
                | todo inside fs1 execID ch m fs2 sent failed
                | todo inside fs sent]; cbn [forwarders wire writing program
                                              broken]; intros Hok Hb.
  - split; [done |]. by rewrite (proj1 (local_silent e rest He)).
  - split; [| done]. constructor; [| done]. by intros m [=].
  - split; [| done]. apply Forall_cons in Hok as [Hf Hok].
    constructor; [| done]. exact Hf.
  - split; [| done]. apply Forall_cons in Hok as [Hf Hok].
    constructor; [| done]. exact Hf.
  - split; [done |]. cbn. destruct (own m); cbn; by rewrite ?app_nil_r.
  - split; [done |]. subst failed. cbn [written option_list].
    rewrite List.filter_app. cbn. by rewrite <- app_assoc.
  - split; [| done].
    apply Forall_app in Hok as [H1 [_ H2]%Forall_cons].
    apply Forall_app. split; [done |]. constructor; [| done].
    by intros m [= <-].
  - apply Forall_app in Hok as [H1 [Hf H2]%Forall_cons].
    split.
    + apply Forall_app. split; [done |]. constructor; [| done].
      by intros m' [=].
    + subst failed. cbn [written]. rewrite List.filter_app. cbn.
      unfold own at 2. rewrite (Hf m eq_refl). cbn. by rewrite app_nil_r.
  - discriminate.
Qed.

Lemma own_messages_steps (s s' : conn) :
  conn_steps s s' ->
  Forall forwards_updates (forwarders s) ->
  broken s' = false ->
  Forall forwards_updates (forwarders s') /\
  List.filter own (wire s') ++ List.filter own (option_list (writing s')) ++
  List.filter own (writes (program s'))
  = List.filter own (wire s) ++ List.filter own (option_list (writing s)) ++
    List.filter own (writes (program s)).
Proof.
  induction 1 as [s | s1 s2 s3 Hstep Hsteps IH]; [done |].
  intros Hok Hb.
  pose proof (conn_steps_broken _ _ Hsteps Hb) as Hb2.
  destruct (own_messages_step _ _ Hstep Hok Hb2) as [Hok2 Heq].
  destruct (IH Hok2 Hb) as [Hok3 Heq3]. split; [done |].
  by rewrite Heq3.
Qed.

(** **** A connection on which no update is under way *)

(** With every forwarding goroutine drained and no update to come, no
    forwarding goroutine ever writes: no write can overlap another, and
    the wire carries what the connection's goroutine has written. *)
Lemma quiet_connection_step (s s' : conn) :
  conn_step s s' ->
  Forall drained (forwarders s) ->
  pushed (program s) = [] ->
  Forall drained (forwarders s') /\
  pushed (program s') = [] /\
  (broken s' = false ->
   wire s' ++ option_list (writing s') ++ writes (program s')
   = wire s ++ option_list (writing s) ++ writes (program s)).
Proof.
  destruct 1 as [e rest fs sent failed He
                | execID rest fs sent failed
                | u rest execID buf inside fs sent failed Hroom
                | rest execID buf inside fs sent failed
                | m rest fs sent failed Hfs
                | m todo fs sent failed
                | todo fs1 execID u buf cl fs2 sent failed Hfs
                | todo inside fs1 execID ch m fs2 sent failed
                | todo inside fs sent]; cbn [forwarders wire writing program
                                              broken]; intros Hd Hp.
  - destruct (local_silent e rest He) as [Hw Hpu]. rewrite Hpu in Hp.
    by rewrite Hw.
  - split_and!; [| done | done]. constructor; [done | done].
  - discriminate.
  - apply Forall_cons in Hd as [[Hw Hbuf] Hd]. cbn in Hw, Hbuf.
    split_and!; [| done | done]. constructor; [done | done].
  - split_and!; [done | done |]. intros _. cbn. done.
  - split_and!; [done | done |]. intros ->. cbn [written option_list].
    by rewrite <- app_assoc.
  - apply Forall_app in Hd as [_ [[_ Hbuf] _]%Forall_cons]. discriminate.
  - apply Forall_app in Hd as [_ [[Hw _] _]%Forall_cons]. discriminate.
  - split_and!; [done | done | discriminate].
Qed.

Lemma quiet_connection_steps (s s' : conn) :
  conn_steps s s' ->
  Forall drained (forwarders s) ->
  pushed (program s) = [] ->
  Forall drained (forwarders s') /\
  pushed (program s') = [] /\
  (broken s' = false ->
   wire s' ++ option_list (writing s') ++ writes (program s')
   = wire s ++ option_list (writing s) ++ writes (program s)).
Proof.
  induction 1 as [s | s1 s2 s3 Hstep Hsteps IH]; [done |].
  intros Hd Hp.
  destruct (quiet_connection_step _ _ Hstep Hd Hp) as (Hd2 & Hp2 & Heq2).
  destruct (IH Hd2 Hp2) as (Hd3 & Hp3 & Heq3).
  split_and!; [done | done |]. intros Hb.
  rewrite (Heq3 Hb). apply Heq2. by apply (conn_steps_broken s2 s3).
Qed.

Lemma drained_not_writing (fs : list forwarder) :
  Forall drained fs -> existsb is_writing fs = false.
Proof.
  induction 1 as [| f fs [Hw _] _ IH]; [done |].
  cbn. unfold is_writing at 1. by rewrite Hw.
Qed.

Lemma quiet_connection_safe (s : conn) :
  Forall drained (forwarders s) -> ~ concurrent_write s.
Proof.
  intros Hd Hcw.
  destruct Hcw as [m rest fs sent failed Hfs
                  | todo inside fs1 execID u buf cl fs2 sent failed _];
    cbn [forwarders] in Hd.
  - by rewrite (drained_not_writing _ Hd) in Hfs.
  - apply Forall_app in Hd as [_ [[_ Hbuf] _]%Forall_cons]. discriminate.
Qed.

(** **** Schedules of a request *)

Lemma forwardUpdates_app execID (l1 l2 : list ExecutionUpdate) :
  forwardUpdates execID (l1 ++ l2)
  = (forwardUpdates execID l1 ++ forwardUpdates execID l2 : list message).
Proof. apply map_app. Qed.

Lemma forwardUpdates_filter execID (updates : list ExecutionUpdate) :
  List.filter own (forwardUpdates execID updates : list message) = [] /\
  List.filter is_update (forwardUpdates execID updates : list message)
  = forwardUpdates execID updates.
Proof.
  induction updates as [| u l [IH1 IH2]]; [done |]. split.
  - exact IH1.
  - cbn. f_equal. exact IH2.
Qed.

Lemma closing_is_own (m : message) : closing m = true -> own m = true.
Proof.
  unfold closing, own, is_update.
  intros [H | H]%orb_true_iff; apply String.eqb_eq in H; by rewrite H.
Qed.

Lemma closings_own (l : list message) :
  closings (List.filter own l) = closings l.
Proof.
  unfold closings. induction l as [| m l IH]; [done |].
  cbn. destruct (own m) eqn:Hown; cbn.
  - destruct (closing m); cbn; by rewrite IH.
  - destruct (closing m) eqn:Hc; [| exact IH].
    apply closing_is_own in Hc. congruence.
Qed.

(** A request that is turned away: the connection's goroutine writes its
    [error] message when no forwarding goroutine is inside a write. *)
Lemma rejected_steps (before : list event) text (fs : list forwarder) sent :
  forallb quiet before = true ->
  existsb is_writing fs = false ->
  conn_steps (arrives (before ++ [EvWrite (errorMessage text)]) fs sent)
             (mkConn [] None fs (sent ++ [errorMessage text]) false).
Proof.
  intros Hq Hfs. unfold arrives.
  eapply rtc_trans; [by apply local_steps, quiet_local |].
  by apply write_steps.
Qed.

(** A run, up to the first update: [execution_started] is written and the
    forwarding goroutine is started. *)
Lemma run_starts (before counted : list event) execID ctx wf input opts
    line1 line2 (rest : list event) (fs : list forwarder) sent :
  forallb quiet before = true ->
  forallb quiet counted = true ->
  existsb is_writing fs = false ->
  conn_steps
    (arrives (before ++ [EvWrite (startedMessage execID)] ++ counted ++
              [EvMakeChan 100; EvGo execID] ++
              [EvLog line1; EvLog line2; EvExecute ctx wf input opts] ++
              rest) fs sent)
    (mkConn rest None (mkForwarder execID (mkChan [] false) None :: fs)
            (sent ++ [startedMessage execID]) false).
Proof.
  intros Hb Hc Hfs. unfold arrives.
  eapply rtc_trans; [by apply local_steps, quiet_local |].
  cbn [app].
  eapply rtc_trans; [by apply write_steps |]. cbn [written].
  eapply rtc_trans; [by apply local_steps, quiet_local |].
  cbn [app].
  eapply rtc_l; [by apply conn_local |].
  eapply rtc_l; [apply conn_go |].
  do 3 (eapply rtc_l; [by apply conn_local |]).
  apply rtc_refl.
Qed.

(** A run, from the engine's return: the channel is closed, the outcome
    reported, and [execution_complete] is there to be written. *)
Lemma run_returns (reported : list event) m execID inside
    (fs : list forwarder) sent :
  forallb quiet reported = true ->
  conn_steps
    (mkConn ([EvReturn; EvClose] ++ reported ++ [EvWrite m]) None
            (mkForwarder execID (mkChan [] false) inside :: fs) sent false)
    (mkConn [EvWrite m] None
            (mkForwarder execID (mkChan [] true) inside :: fs) sent false).
Proof.
  intros Hr. cbn [app].
  eapply rtc_l; [by apply conn_local |].
  eapply rtc_l; [apply conn_close |].
  by apply local_steps, quiet_local.
Qed.

(** The schedule in which every update is forwarded as soon as it is sent:
    all are on the wire before [execution_complete]. *)
Lemma run_steps (before counted reported : list event) execID ctx wf input
    opts updates m line1 line2 (fs : list forwarder) sent :
  forallb quiet before = true ->
  forallb quiet counted = true ->
  forallb quiet reported = true ->
  existsb is_writing fs = false ->
  conn_steps
    (arrives (before ++ [EvWrite (startedMessage execID)] ++ counted ++
              [EvMakeChan 100; EvGo execID] ++
              [EvLog line1; EvLog line2; EvExecute ctx wf input opts] ++
              map EvSend updates ++ [EvReturn; EvClose] ++ reported ++
              [EvWrite m]) fs sent)
    (mkConn [] None (mkForwarder execID (mkChan [] true) None :: fs)
            (sent ++ startedMessage execID ::
             forwardUpdates execID updates ++ [m]) false).
Proof.
  intros Hb Hc Hr Hfs.
  eapply rtc_trans; [by apply run_starts |].
  eapply rtc_trans; [by apply forward_steps |].
  eapply rtc_trans; [by apply run_returns |].
  eapply rtc_trans; [by apply write_steps |].
  cbn [written]. rewrite <- !app_assoc. cbn [app]. apply rtc_refl.
Qed.

(** The schedule in which the last update is still being written when the
    connection's goroutine comes to write [execution_complete]. *)
Lemma run_overlaps (before counted reported : list event) execID ctx wf input
    opts us u m line1 line2 (fs : list forwarder) sent :
  forallb quiet before = true ->
  forallb quiet counted = true ->
  forallb quiet reported = true ->
  existsb is_writing fs = false ->
  conn_steps
    (arrives (before ++ [EvWrite (startedMessage execID)] ++ counted ++
              [EvMakeChan 100; EvGo execID] ++
              [EvLog line1; EvLog line2; EvExecute ctx wf input opts] ++
              map EvSend (us ++ [u]) ++ [EvReturn; EvClose] ++ reported ++
              [EvWrite m]) fs sent)
    (mkConn [EvWrite m] None
            (mkForwarder execID (mkChan [] true)
                         (Some (updateMessage execID u)) :: fs)
            (sent ++ startedMessage execID :: forwardUpdates execID us)
            false) /\
  concurrent_write
    (mkConn ([EvWrite m] : list event) None
            (mkForwarder execID (mkChan [] true)
                         (Some (updateMessage execID u)) :: fs)
            (sent ++ startedMessage execID :: forwardUpdates execID us)
            false).
Proof.
  intros Hb Hc Hr Hfs. split; [| by constructor].
  eapply rtc_trans; [by apply run_starts |].
  rewrite map_app, <- app_assoc.
  eapply rtc_trans; [by apply forward_steps |].
  cbn [map app].
  eapply rtc_l. { apply (conn_send u). unfold capacity. cbn. lia. }
  eapply rtc_l. { apply (conn_forward_begin _ []). exact Hfs. }
  cbn [app].
  eapply rtc_trans; [by apply (run_returns reported m) |].
  rewrite <- !app_assoc. cbn [app]. apply rtc_refl.
Qed.

(** The messages a request has the connection's goroutine write are its
    own. *)
Lemma handle_writes_own (h : handler) run ctx userID msg :
  List.filter own (writes (fst (handle h run ctx userID msg)))
  = writes (fst (handle h run ctx userID msg)).
Proof.
  destruct (handle_readings h run ctx userID msg)
    as [(text & _ & Hw & _)
       | (agent & wf & execID & updates & outcome & m & tail & _ & _ & _
          & _ & Htype & _ & _ & Hw & _)]; cbv zeta in Hw; rewrite Hw.
  - done.
  - cbn. unfold own, is_update. rewrite Htype. done.
Qed.

(** Every request has a schedule in which the connection's goroutine
    comes to its end, the forwarding goroutine it started has written all
    its updates, and the wire has got the request's messages. *)
Lemma handle_schedules (h : handler) run ctx userID msg
    (fs : list forwarder) sent :
  existsb is_writing fs = false ->
  exists s stream fs',
    conn_steps (arrives (fst (handle h run ctx userID msg)) fs sent) s /\
    returned s /\ broken s = false /\
    forwarders s = fs' ++ fs /\ Forall drained fs' /\
    wire s = sent ++ stream /\
    List.filter own stream = writes (fst (handle h run ctx userID msg)) /\
    exists execID,
      List.filter is_update stream
      = forwardUpdates execID (pushed (fst (handle h run ctx userID msg))).
Proof.
  intros Hfs.
  destruct (handle_outcomes h run ctx userID msg)
    as [(before & text & Heq & Hq & _)
       | (before & agent & wf & execID & counted & updates & outcome & oid
          & _ & _ & _ & _ & Hq & Hcq & Heq)].
  - destruct (rejected_readings before text Hq) as (Hw & Hp & _).
    cbv zeta in Hw, Hp. rewrite Heq.
    eexists _, [errorMessage text], []. split_and!.
    + by apply rejected_steps.
    + done.
    + done.
    + done.
    + done.
    + done.
    + by rewrite Hw.
    + exists "". by rewrite Hp.
  - destruct (reportResult_shape h run msg wf execID oid outcome)
      as (reported & m & Hreport & Hrq & Htype & _).
    rewrite Hreport in Heq.
    pose proof (run_readings before counted reported execID ctx wf
                  (injectUserID (cm_Input msg) userID)
                  (mkOptions (ag_Description agent)
                             (cm_EnableBlockChecker msg)
                             (cm_CheckerModelID msg))
                  updates m
                  (LogBlockChecker (cm_EnableBlockChecker msg)
                                   (cm_CheckerModelID msg))
                  (LogExecuting (injectUserID (cm_Input msg) userID))
                  Hq Hcq Hrq) as Hread.
    cbv zeta in Hread. cbn [app] in Hread, Heq. rewrite <- Heq in Hread.
    destruct Hread as (Hw & _ & Hp & _).
    rewrite Hw, Hp.
    eexists _, (startedMessage execID :: forwardUpdates execID updates ++ [m]),
      [mkForwarder execID (mkChan [] true) None].
    destruct (forwardUpdates_filter execID updates) as [Hown Hupd].
    assert (Hm : is_update m = false) by (unfold is_update; by rewrite Htype).
    split_and!.
    + rewrite Heq.
      apply (run_steps before counted reported execID ctx wf _ _ updates m
                       _ _ fs sent Hq Hcq Hrq Hfs).
    + done.
    + done.
    + done.
    + by constructor.
    + done.
    + cbn. rewrite List.filter_app, Hown. cbn. unfold own. by rewrite Hm.
    + exists execID. cbn. rewrite List.filter_app, Hupd. cbn.
      rewrite Hm. by rewrite app_nil_r.
Qed.

(** C1, as the code has it.  Run to its end, the goroutine that handles an
    execute_workflow request calls [c.WriteJSON] with exactly one closing
    message, in its last call: an [execution_complete] after
    [execution_started] when the engine was called (with status [failed]
    and the error text when the engine returned an error, with the result's
    status otherwise), an [error] message, and nothing else, when the
    request was turned away before that (daily limit exhausted, agent
    lookup failure, agent without workflow, execution record not created).
    A forwarding goroutine never writes a closing message.
    On the connection, in every execution in which no two writes overlap,
    once the goroutine has returned and if the connection has not failed,
    the goroutine's messages are on the wire in the order of its calls,
    and the request has added exactly one closing message to it; such an
    execution exists whenever no forwarding goroutine is inside a write
    when the request arrives.  When no update is under way (the engine
    pushes none and the forwarding goroutines of earlier runs have written
    theirs), no write can overlap another, and the closing message is the
    last message on the wire. *)
Theorem closing_message_sent
    (h : handler) (run : Run) (ctx : Ctx) (userID : string)
    (msg : WorkflowClientMessage) :
  let events := fst (handle h run ctx userID msg) in
  (exists m,
      last (writes events) = Some m /\
      closings (writes events) = 1%nat /\
      ((reaches_engine events = true /\
        sm_Type m = "execution_complete" /\
        writes events = [startedMessage (sm_ExecutionID m); m] /\
        exists agent wf updates outcome,
          GetAgent (agentService h) (cm_AgentID msg) userID = Ok agent /\
          ag_Workflow agent = Some wf /\
          ExecuteWithOptions (workflowEngine h) ctx wf
            (injectUserID (cm_Input msg) userID)
            (mkOptions (ag_Description agent) (cm_EnableBlockChecker msg)
                       (cm_CheckerModelID msg))
          = (updates, outcome) /\
          match outcome with
          | Err e => m = failedMessage (sm_ExecutionID m) (duration run) e
          | Ok result => sm_Status m = res_Status result /\
                         sm_Error m = res_Error result
          end) \/
       (reaches_engine events = false /\
        writes events = [m] /\
        exists text,
          m = errorMessage text /\
          rejection Version h run ctx userID msg text))) /\
  (forall execID updates,
      closings (forwardUpdates execID updates : list message) = 0%nat) /\
  (forall (fs : list forwarder) sent s,
      Forall forwards_updates fs ->
      conn_steps (arrives events fs sent) s ->
      returned s -> broken s = false ->
      List.filter own (wire s) = List.filter own sent ++ writes events /\
      closings (wire s) = (closings sent + 1)%nat) /\
  (forall (fs : list forwarder) sent,
      existsb is_writing fs = false ->
      exists s,
        conn_steps (arrives events fs sent) s /\
        returned s /\ broken s = false /\
        closings (wire s) = (closings sent + 1)%nat) /\
  (forall (fs : list forwarder) sent s,
      Forall drained fs ->
      pushed events = [] ->
      conn_steps (arrives events fs sent) s ->
      ~ concurrent_write s /\
      (returned s -> broken s = false -> wire s = sent ++ writes events)).
Proof.
  cbv zeta.
  assert (Hone : closings (writes (fst (handle h run ctx userID msg)))
                 = 1%nat).
  { destruct (handle_readings h run ctx userID msg)
      as [(text & _ & Hw & _)
         | (agent & wf & execID & updates & outcome & m & tail & _ & _ & _
            & _ & Htype & _ & _ & Hw & _)]; cbv zeta in Hw; rewrite Hw.
    - done.
    - unfold closings. cbn. unfold closing at 1. rewrite Htype. done. }
  split_and!.
  - destruct (handle_readings h run ctx userID msg)
      as [(text & Hrej & Hw & _ & _ & _ & Hre & Hgo)
         | (agent & wf & execID & updates & outcome & m & tail & _ & Hagent
            & Hwf & Hrun & Htype & Hid & Hm & Hw & Htail & Hp & _ & _ & Hre
            & Hgo & Hbefore)]; cbv zeta in *.
    + exists (errorMessage text). rewrite Hw. split_and!; [done | done |].
      right. split_and!; [done | done |]. eauto.
    + exists m. split_and!; [by rewrite Hw | done |].
      left. subst execID. split_and!; [done | done | done |].
      exists agent, wf, updates, outcome. done.
  - intros execID updates. apply forwardUpdates_not_closing.
  - intros fs sent s Hok Hsteps [Hprogram Hwriting] Hb.
    destruct (own_messages_steps _ _ Hsteps Hok Hb) as [_ Heq].
    rewrite Hprogram, Hwriting in Heq.
    cbn [arrives program writing wire] in Heq.
    change (writes (@nil event)) with (@nil message) in Heq.
    change (option_list (@None message)) with (@nil message) in Heq.
    cbn [List.filter app] in Heq.
    rewrite !app_nil_r, handle_writes_own in Heq.
    split; [exact Heq |].
    rewrite <- (closings_own (wire s)), Heq, closings_app, closings_own.
    by rewrite Hone.
  - intros fs sent Hfs.
    destruct (handle_schedules h run ctx userID msg fs sent Hfs)
      as (s & stream & fs' & Hsteps & Hreturned & Hb & _ & _ & Hwire & Hown
          & _).
    exists s. split_and!; [done | done | done |].
    rewrite Hwire, closings_app. f_equal.
    by rewrite <- (closings_own stream), Hown.
  - intros fs sent s Hd Hp Hsteps.
    destruct (quiet_connection_steps _ _ Hsteps Hd Hp) as (Hd' & _ & Heq).
    split; [by apply quiet_connection_safe |].
    intros [Hprogram Hwriting] Hb. specialize (Heq Hb).
    rewrite Hprogram, Hwriting in Heq.
    cbn [arrives program writing wire] in Heq.
    change (writes (@nil event)) with (@nil message) in Heq.
    change (option_list (@None message)) with (@nil message) in Heq.
    cbn [app] in Heq.
    by rewrite !app_nil_r in Heq.
Qed.

(** *** The status channel *)

Lemma sends_map_Send rest : sends (map Send rest ++ [Close]) = rest.
Proof.
  unfold sends. rewrite omap_app. cbn. rewrite app_nil_r.
  induction rest as [| u l IH]; [done | cbn; by f_equal].
Qed.

Lemma pipeline_inv_start updates :
  pipeline_inv updates (start (map Send updates ++ [Close])).
Proof.
  unfold pipeline_inv, start. cbn. split_and!.
  - apply sends_map_Send.
  - by exists updates.
  - discriminate.
Qed.

Lemma pipeline_inv_step updates s s' :
  pipeline_inv updates s -> step s s' -> pipeline_inv updates s'.
Proof.
  intros (Hall & Htodo & Hend) Hstep. unfold pipeline_inv.
  destruct Hstep as [u ops buf rcv fin Hroom | ops buf rcv fin
                    | ops u buf cl rcv | ops rcv];
    cbn [received buffer chan todo closed ended] in *.
  - destruct Htodo as [[| u' rest] Hrest]; [discriminate |].
    injection Hrest as <- ->. split_and!.
    + rewrite <- Hall. rewrite sends_map_Send.
      change (sends (Send u :: map Send rest ++ [Close]))
        with (u :: sends (map Send rest ++ [Close])).
      rewrite sends_map_Send. by rewrite <- !app_assoc.
    + by exists rest.
    + intros Hfin. destruct (Hend Hfin) as [? _]. discriminate.
  - destruct Htodo as [[| u' rest] Hrest]; [| discriminate].
    injection Hrest as ->. split_and!; [done | done |].
    intros Hfin. destruct (Hend Hfin) as [? _]. discriminate.
  - split_and!; [| done | discriminate].
    rewrite <- Hall. by rewrite <- !app_assoc.
  - split_and!; done.
Qed.

Lemma pipeline_inv_steps updates s :
  steps (start (map Send updates ++ [Close])) s -> pipeline_inv updates s.
Proof.
  remember (start (map Send updates ++ [Close])) as s0 eqn:Hs0.
  induction 1 as [s | s1 s2 s3 _ IH Hstep]; subst.
  - apply pipeline_inv_start.
  - eapply pipeline_inv_step; [by apply IH | done].
Qed.

Lemma pipeline_inv_safe updates s : pipeline_inv updates s -> ~ crashes s.
Proof.
  intros (_ & Htodo & _) Hcrash. destruct Hcrash; cbn in *; discriminate.
Qed.

Lemma pipeline_inv_progress updates s :
  pipeline_inv updates s -> finished s \/ exists s', step s s'.
Proof.
  intros (_ & Htodo & Hend).
  destruct s as [ops [buf cl] rcv fin]; cbn in *.
  destruct fin.
  - destruct (Hend eq_refl) as [-> ->]. left. by split.
  - right. destruct buf as [| u buf].
    + destruct cl.
      * subst ops. eexists. apply step_end.
      * destruct Htodo as [[| u rest] ->]; cbn.
        -- eexists. apply step_close.
        -- eexists. apply step_send. unfold capacity. cbn. lia.
    + eexists. apply step_receive.
Qed.

Lemma step_uses_fuel s s' : step s s' -> (fuel s' < fuel s)%nat.
Proof.
  destruct 1; unfold fuel; cbn; rewrite ?length_app; cbn;
    try destruct fin; lia.
Qed.

Lemma pipeline_inv_finished updates s :
  pipeline_inv updates s -> finished s -> received s = updates.
Proof.
  intros (Hall & _ & Hend) [Htodo Hfin].
  destruct (Hend Hfin) as [_ Hbuf].
  rewrite Htodo, Hbuf in Hall. cbn in Hall. by rewrite app_nil_r in Hall.
Qed.

(** A read-until-closed loop over the status channel works: whatever the
    scheduling, neither side crashes, a step is always possible until both
    sides are done, every step uses up fuel (so the run ends), and at the
    end the loop has read exactly the updates the engine pushed, in order. *)
Lemma range_until_closed updates s :
  steps (start (map Send updates ++ [Close])) s ->
  ~ crashes s /\
  (finished s \/ exists s', step s s') /\
  (forall s', step s s' -> (fuel s' < fuel s)%nat) /\
  (finished s -> received s = updates).
Proof.
  intros Hinv%pipeline_inv_steps. split_and!.
  - by eapply pipeline_inv_safe.
  - by eapply pipeline_inv_progress.
  - apply step_uses_fuel.
  - by apply pipeline_inv_finished.
Qed.

(** *** The channel, the user id and the limiter *)

Lemma reportResult_closes (h : handler) run msg wf execID execObjectID outcome :
  closes (reportResult set_AgentID h run msg wf execID execObjectID outcome)
  = 0%nat /\
  chanOps (reportResult set_AgentID h run msg wf execID execObjectID outcome)
  = [] /\
  pushed (reportResult set_AgentID h run msg wf execID execObjectID outcome)
  = [].
Proof.
  destruct (reportResult_shape h run msg wf execID execObjectID outcome)
    as (reported & m & -> & Hq & _).
  destruct (quiet_silent _ Hq) as (_ & Hp & Hc & Hn & _).
  by rewrite closes_app, chanOps_app, pushed_app, Hp, Hc, Hn.
Qed.

(** C2. When a request reaches the engine, the status channel is closed
    exactly once, by the statement that follows the return of
    [ExecuteWithOptions], whether the engine returned a result or an error:
    the engine's sends come first, the close is the last operation on the
    channel, and a loop reading the channel until it is closed gets every
    update and then ends. *)
Theorem statusChan_closed_once
    (h : handler) (run : Run) (ctx : Ctx) (userID : string)
    (msg : WorkflowClientMessage) :
  let events := fst (handle h run ctx userID msg) in
  reaches_engine events = true ->
  exists before wf input opts updates outcome execID execObjectID,
    events
    = before ++ [EvExecute ctx wf input opts] ++ map EvSend updates ++
      [EvReturn; EvClose] ++
      reportResult set_AgentID h run msg wf execID execObjectID outcome /\
    ExecuteWithOptions (workflowEngine h) ctx wf input opts
    = (updates, outcome) /\
    closes before = 0%nat /\
    closes (reportResult set_AgentID h run msg wf execID execObjectID outcome)
    = 0%nat /\
    closes events = 1%nat /\
    chanOps events = map Send updates ++ [Close] /\
    (forall s, steps (start (chanOps events)) s ->
               ~ crashes s /\
               (finished s \/ exists s', step s s') /\
               (finished s -> received s = updates)).
Proof.
  cbv zeta.
  destruct (handle_outcomes h run ctx userID msg)
    as [(before & text & -> & Hq & Hrej)
       | (before & agent & wf & execID & counted & updates & outcome & oid
          & Hcheck & Hagent & Hwf & Hrun & Hq & Hcq & ->)].
  { destruct (rejected_readings before text Hq) as (_ & _ & _ & _ & Hre & _).
    cbv zeta in Hre. rewrite Hre. discriminate. }
  intros _.
  destruct (quiet_silent _ Hq) as (_ & Hb2 & Hb3 & Hb4 & _).
  destruct (quiet_silent _ Hcq) as (_ & Hc2 & Hc3 & Hc4 & _).
  destruct (sends_silent updates) as (_ & Hs2 & Hs3 & Hs4 & _).
  destruct (reportResult_closes h run msg wf execID oid outcome)
    as (Hr4 & Hr3 & Hr2).
  assert (Hops :
    chanOps
      (before ++ [EvWrite (startedMessage execID)] ++ counted ++
       [EvMakeChan 100; EvGo execID;
        EvLog (LogBlockChecker (cm_EnableBlockChecker msg)
                               (cm_CheckerModelID msg));
        EvLog (LogExecuting (injectUserID (cm_Input msg) userID));
        EvExecute ctx wf (injectUserID (cm_Input msg) userID)
          (mkOptions (ag_Description agent) (cm_EnableBlockChecker msg)
                     (cm_CheckerModelID msg))] ++
       map EvSend updates ++ [EvReturn; EvClose] ++
       reportResult set_AgentID h run msg wf execID oid outcome)
    = map Send updates ++ [Close]).
  { rewrite !chanOps_app, Hb3, Hc3, Hs3, Hr3. done. }
  exists (before ++ [EvWrite (startedMessage execID)] ++ counted ++
          [EvMakeChan 100; EvGo execID;
           EvLog (LogBlockChecker (cm_EnableBlockChecker msg)
                                  (cm_CheckerModelID msg));
           EvLog (LogExecuting (injectUserID (cm_Input msg) userID))]).
  exists wf, (injectUserID (cm_Input msg) userID).
  exists (mkOptions (ag_Description agent) (cm_EnableBlockChecker msg)
                    (cm_CheckerModelID msg)).
  exists updates, outcome, execID, oid.
  split_and!.
  - same_list.
  - exact Hrun.
  - rewrite !closes_app, Hb4, Hc4. done.
  - exact Hr4.
  - rewrite !closes_app, Hb4, Hc4, Hs4, Hr4. done.
  - exact Hops.
  - intros s Hs. rewrite Hops in Hs.
    destruct (range_until_closed updates s Hs) as (H1 & H2 & _ & H4).
    done.
Qed.

(** The engine is given the client's input with the authenticated user's
    id under [__user_id__], in a fresh map when the client sent none. *)
Lemma engine_input_carries_user_id (h : handler) run ctx userID msg :
  reaches_engine (fst (handle h run ctx userID msg)) = true ->
  exists before wf opts after,
    fst (handle h run ctx userID msg)
    = before ++ EvExecute ctx wf (injectUserID (cm_Input msg) userID) opts
             :: after /\
    reaches_engine before = false /\
    reaches_engine after = false /\
    injectUserID (cm_Input msg) userID !! "__user_id__"
    = Some (AString userID) /\
    (forall key, key <> "__user_id__" ->
       injectUserID (cm_Input msg) userID !! key
       = default ∅ (cm_Input msg) !! key) /\
    (cm_Input msg = None ->
     injectUserID (cm_Input msg) userID
     = {["__user_id__" := AString userID]}).
Proof.
  destruct (handle_outcomes h run ctx userID msg)
    as [(before & text & -> & Hq & Hrej)
       | (before & agent & wf & execID & counted & updates & outcome & oid
          & Hcheck & Hagent & Hwf & Hrun & Hq & Hcq & ->)].
  { destruct (rejected_readings before text Hq) as (_ & _ & _ & _ & Hre & _).
    cbv zeta in Hre. rewrite Hre. discriminate. }
  intros _.
  destruct (quiet_silent _ Hq) as (_ & _ & _ & _ & Hb5 & _).
  destruct (quiet_silent _ Hcq) as (_ & _ & _ & _ & Hc5 & _).
  destruct (sends_silent updates) as (_ & _ & _ & _ & Hs5 & _).
  destruct (reportResult_shape h run msg wf execID oid outcome)
    as (reported & m & -> & Hrq & _).
  destruct (quiet_silent _ Hrq) as (_ & _ & _ & _ & Hr5 & _).
  exists (before ++ [EvWrite (startedMessage execID)] ++ counted ++
          [EvMakeChan 100; EvGo execID;
           EvLog (LogBlockChecker (cm_EnableBlockChecker msg)
                                  (cm_CheckerModelID msg));
           EvLog (LogExecuting (injectUserID (cm_Input msg) userID))]).
  eexists wf, _, (map EvSend updates ++ [EvReturn; EvClose] ++
                  reported ++ [EvWrite m]).
  split_and!.
  - same_list.
  - rewrite !reaches_engine_app, Hb5, Hc5. done.
  - rewrite !reaches_engine_app, Hs5, Hr5. done.
  - unfold injectUserID. apply lookup_insert_eq.
  - intros key Hkey. unfold injectUserID. by rewrite lookup_insert_ne.
  - intros ->. unfold injectUserID. cbn. apply insert_empty.
Qed.

(** A failed limit check leaves one line in the log and lets the run go on. *)
Lemma checkDailyLimit_fails_open (h : handler) run userID limiter remaining e :
  executionLimiter h = Some limiter ->
  Limiter.GetRemainingExecutions limiter (clkCheck run) userID
  = (remaining, Some e) ->
  checkDailyLimit h run userID = ([EvLog (LogLimitCheckFailed e)], true).
Proof.
  intros Hl Hg. unfold checkDailyLimit. by rewrite Hl, Hg.
Qed.

(** Whenever the limit check lets the run go on, the client is written what
    it would be written with no limiter configured. *)
Lemma writes_without_limiter (h : handler) run ctx userID msg :
  snd (checkDailyLimit h run userID) = true ->
  writes (fst (handle h run ctx userID msg))
  = writes (fst (handle (without_limiter h) run ctx userID msg)).
Proof.
  intros Hgo. pose proof (checkDailyLimit_quiet h run userID Hgo) as Hq.
  unfold handleExecuteWorkflow.
  change (checkDailyLimit (without_limiter h) run userID) with
    (@nil event, true).
  change (agentService (without_limiter h)) with (agentService h).
  change (createExecution Version (without_limiter h) run ctx userID msg)
    with (createExecution Version h run ctx userID msg).
  destruct (checkDailyLimit h run userID) as [checked go].
  cbn [fst snd] in Hgo, Hq. subst go.
  destruct (quiet_silent _ Hq) as (Hw & _).
  destruct (GetAgent (agentService h) (cm_AgentID msg) userID)
    as [agent | e]; cbn [fst].
  2: { change (writes (?x :: ?l ++ ?r)) with (writes ([x] ++ l ++ r)).
       by rewrite !writes_app, Hw. }
  destruct (ag_Workflow agent) as [wf |]; cbn [fst].
  2: { change (writes (?x :: ?l ++ ?r)) with (writes ([x] ++ l ++ r)).
       by rewrite !writes_app, Hw. }
  destruct (createExecution Version h run ctx userID msg wf)
    as [failed | [[execID oid] created]]; cbn [fst].
  { change (writes (?x :: ?l ++ ?r)) with (writes ([x] ++ l ++ r)).
    by rewrite !writes_app, Hw. }
  unfold runExecution.
  change (incrementCounter (without_limiter h) run userID) with
    (@nil event, @None Limiter.ExecutionLimiter).
  change (workflowEngine (without_limiter h)) with (workflowEngine h).
  change (reportResult set_AgentID (without_limiter h)) with
    (reportResult set_AgentID h).
  pose proof (incrementCounter_quiet h run userID) as Hiq.
  destruct (incrementCounter h run userID) as [counted limiter'].
  destruct (quiet_silent _ Hiq) as (Hcw & _). cbn [fst] in Hcw.
  destruct (ExecuteWithOptions (workflowEngine h) ctx wf _ _)
    as [updates outcome].
  cbn [fst].
  change (writes (?x :: ?l ++ ?r)) with (writes ([x] ++ l ++ r)).
  change (writes (?x :: ?r)) with (writes ([x] ++ r)).
  by rewrite !writes_app, Hw, Hcw.
Qed.

(** The limit message is written exactly when the limit check stops the
    run. *)
Lemma limit_message_iff (h : handler) run ctx userID msg :
  In (errorMessage limitExceededText)
     (writes (fst (handle h run ctx userID msg))) <->
  snd (checkDailyLimit h run userID) = false.
Proof.
  destruct (handle_readings h run ctx userID msg)
    as [(text & Hrej & -> & _)
       | (agent & wf & execID & updates & outcome & m & tail & Hgo & _ & _ & _
          & Htype & _ & _ & -> & _)].
  - destruct Hrej as [[Hstop ->] | [Hgo Hwhy]].
    + split; [done | intros _; by left].
    + rewrite Hgo. split; [| discriminate].
      intros [Heq | []]. exfalso.
      destruct Hwhy as [(e & _ & ->) | [(agent & _ & _ & ->)
                                       | (agent & wf & svc & e & _ & _ & _ & _
                                          & ->)]];
        discriminate.
  - rewrite Hgo. split; [| discriminate].
    intros [Heq | [Heq | []]]; exfalso.
    + discriminate.
    + rewrite Heq in Htype. discriminate.
Qed.

(** So is whether the engine is reached. *)
Lemma reaches_engine_without_limiter (h : handler) run ctx userID msg :
  snd (checkDailyLimit h run userID) = true ->
  reaches_engine (fst (handle h run ctx userID msg))
  = reaches_engine (fst (handle (without_limiter h) run ctx userID msg)).
Proof.
  intros Hgo. pose proof (checkDailyLimit_quiet h run userID Hgo) as Hq.
  unfold handleExecuteWorkflow.
  change (checkDailyLimit (without_limiter h) run userID) with
    (@nil event, true).
  change (agentService (without_limiter h)) with (agentService h).
  change (createExecution Version (without_limiter h) run ctx userID msg)
    with (createExecution Version h run ctx userID msg).
  destruct (checkDailyLimit h run userID) as [checked go].
  cbn [fst snd] in Hgo, Hq. subst go.
  destruct (quiet_silent _ Hq) as (_ & _ & _ & _ & Hr & _).
  destruct (GetAgent (agentService h) (cm_AgentID msg) userID)
    as [agent | e]; cbn [fst].
  2: { change (reaches_engine (?x :: ?l ++ ?r))
         with (reaches_engine ([x] ++ l ++ r)).
       by rewrite !reaches_engine_app, Hr. }
  destruct (ag_Workflow agent) as [wf |]; cbn [fst].
  2: { change (reaches_engine (?x :: ?l ++ ?r))
         with (reaches_engine ([x] ++ l ++ r)).
       by rewrite !reaches_engine_app, Hr. }
  destruct (createExecution Version h run ctx userID msg wf)
    as [failed | [[execID oid] created]]; cbn [fst].
  { change (reaches_engine (?x :: ?l ++ ?r))
      with (reaches_engine ([x] ++ l ++ r)).
    by rewrite !reaches_engine_app, Hr. }
  unfold runExecution.
  change (incrementCounter (without_limiter h) run userID) with
    (@nil event, @None Limiter.ExecutionLimiter).
  change (workflowEngine (without_limiter h)) with (workflowEngine h).
  change (reportResult set_AgentID (without_limiter h)) with
    (reportResult set_AgentID h).
  pose proof (incrementCounter_quiet h run userID) as Hiq.
  destruct (incrementCounter h run userID) as [counted limiter'].
  destruct (quiet_silent _ Hiq) as (_ & _ & _ & _ & Hcr & _).
  cbn [fst] in Hcr.
  destruct (ExecuteWithOptions (workflowEngine h) ctx wf _ _)
    as [updates outcome].
  cbn [fst].
  change (reaches_engine (?x :: ?l ++ ?r))
    with (reaches_engine ([x] ++ l ++ r)).
  change (reaches_engine (?x :: ?r)) with (reaches_engine ([x] ++ r)).
  by rewrite !reaches_engine_app, Hr, Hcr.
Qed.

(** The events of a request begin with the line of its reception and the
    events of the limit check. *)
Lemma handle_begins_with_check (h : handler) run ctx userID msg :
  exists rest,
    fst (handle h run ctx userID msg)
    = EvLog (LogReceived (cm_AgentID msg) (cm_Input msg))
      :: fst (checkDailyLimit h run userID) ++ rest.
Proof.
  unfold handleExecuteWorkflow.
  destruct (checkDailyLimit h run userID) as [checked [|]]; cbn [fst].
  2: { exists []. by rewrite app_nil_r. }
  destruct (GetAgent (agentService h) (cm_AgentID msg) userID)
    as [agent | e]; cbn [fst]; [| by eexists].
  destruct (ag_Workflow agent) as [wf |]; cbn [fst]; [| by eexists].
  destruct (createExecution Version h run ctx userID msg wf)
    as [failed | [[execID oid] created]]; cbn [fst]; [by eexists |].
  destruct (runExecution _ _ _ _ _ _ _ _ _ _) as [events limiter'].
  cbn [fst]. by eexists.
Qed.

(** A request that passes the limit check, finds its agent with a workflow
    and gets its record (or has no execution service) starts its run,
    reaches the engine and ends with [execution_complete]. *)
Lemma checked_run_reaches_engine (h : handler) run ctx userID msg agent wf :
  snd (checkDailyLimit h run userID) = true ->
  GetAgent (agentService h) (cm_AgentID msg) userID = Ok agent ->
  ag_Workflow agent = Some wf ->
  (forall svc,
      executionService h = Some svc ->
      exists id,
        Create svc ctx (mkCreateRequest (cm_AgentID msg) userID (Version wf)
                                        "manual" (cm_Input msg)) = Ok id) ->
  let events := fst (handle h run ctx userID msg) in
  reaches_engine events = true /\
  (exists before after,
      events
      = before ++
        EvExecute ctx wf (injectUserID (cm_Input msg) userID)
          (mkOptions (ag_Description agent) (cm_EnableBlockChecker msg)
                     (cm_CheckerModelID msg)) :: after) /\
  exists execID final,
    writes events = [startedMessage execID; final] /\
    sm_Type final = "execution_complete".
Proof.
  intros Hcheck Hagent Hwf Hcreate. cbv zeta.
  destruct (handle_outcomes h run ctx userID msg)
    as [(before & text & _ & _ & Hrej)
       | (before & agent' & wf' & execID & counted & updates & outcome & oid
          & _ & Hagent' & Hwf' & Hrun & Hq & Hcq & Heq)].
  { exfalso. destruct Hrej as [[Hstop _] | [_ Hwhy]]; [congruence |].
    destruct Hwhy as [(e & He & _) | [(a & Ha & Hnone & _)
                                     | (a & w & svc & e & Ha & Hw & Hsvc & He
                                        & _)]].
    - congruence.
    - congruence.
    - assert (a = agent) as -> by congruence.
      assert (w = wf) as -> by congruence.
      destruct (Hcreate svc Hsvc) as [id Hid]. congruence. }
  assert (agent' = agent) as -> by congruence.
  assert (wf' = wf) as -> by congruence.
  destruct (reportResult_shape h run msg wf execID oid outcome)
    as (reported & m & Hreport & Hrq & Htype & _).
  rewrite Hreport in Heq.
  pose proof (run_readings before counted reported execID ctx wf
                (injectUserID (cm_Input msg) userID)
                (mkOptions (ag_Description agent)
                           (cm_EnableBlockChecker msg)
                           (cm_CheckerModelID msg))
                updates m
                (LogBlockChecker (cm_EnableBlockChecker msg)
                                 (cm_CheckerModelID msg))
                (LogExecuting (injectUserID (cm_Input msg) userID))
                Hq Hcq Hrq) as Hread.
  cbv zeta in Hread. cbn [app] in Hread, Heq. rewrite <- Heq in Hread.
  destruct Hread as (Hw & _ & _ & _ & _ & Hre & _).
  split_and!.
  - exact Hre.
  - rewrite Heq.
    exists (before ++ [EvWrite (startedMessage execID)] ++ counted ++
            [EvMakeChan 100; EvGo execID;
             EvLog (LogBlockChecker (cm_EnableBlockChecker msg)
                                    (cm_CheckerModelID msg));
             EvLog (LogExecuting (injectUserID (cm_Input msg) userID))]).
    eexists. same_list.
  - exists execID, m. by split.
Qed.

(** C4. A limiter error lets the run go on.  In [CheckLimit] a Redis read
    error on the key [executions:<userID>:<today>] hands the request to
    the next handler and writes a log line; the
    429 answer is given exactly when a count was read and it has reached
    the limit.  In the execution handler an error from
    [GetRemainingExecutions] is logged, its line coming right after that of
    the reception, and the run goes on: the engine is reached exactly when
    it is with no limiter at all, the client is written exactly what it
    would be written then, and never the limit message; when the agent is
    found with a workflow and the execution record is made (or there is no
    execution service), the engine is called with that workflow and the
    client is written [execution_started] and [execution_complete].  The
    run is stopped for its limit exactly when the limiter answers 0 with no
    error. *)
Theorem limiter_errors_fail_open :
  (forall el clk userID rc count e,
      Limiter.MaxExecutionsPerDay (Limiter.GetLimits el userID) <> -1 ->
      Limiter.redis el = Some rc ->
      Limiter.GetInt64 rc
        ("executions:" +:+ userID +:+ ":" +:+ Limiter.today clk)
      = (count, Some (Limiter.OtherError e)) ->
      Limiter.CheckLimit el clk (Limiter.LocalString userID)
      = (Limiter.Next None,
         [Limiter.LogGetCountFailed (Limiter.OtherError e)])) /\
  (forall el clk user,
      Limiter.rate_limited (fst (Limiter.CheckLimit el clk user)) = true <->
      exists userID rc count err,
        user = Limiter.LocalString userID /\
        Limiter.MaxExecutionsPerDay (Limiter.GetLimits el userID) <> -1 /\
        Limiter.redis el = Some rc /\
        Limiter.GetInt64 rc
          ("executions:" +:+ userID +:+ ":" +:+ Limiter.today clk)
        = (count, err) /\
        (err = None \/ err = Some Limiter.RedisNil) /\
        Limiter.MaxExecutionsPerDay (Limiter.GetLimits el userID) <= count) /\
  (forall (h : handler) run ctx userID msg limiter remaining e,
      executionLimiter h = Some limiter ->
      Limiter.GetRemainingExecutions limiter (clkCheck run) userID
      = (remaining, Some e) ->
      checkDailyLimit h run userID = ([EvLog (LogLimitCheckFailed e)], true) /\
      writes (fst (handle h run ctx userID msg))
      = writes (fst (handle (without_limiter h) run ctx userID msg)) /\
      ~ In (errorMessage limitExceededText)
           (writes (fst (handle h run ctx userID msg))) /\
      (exists rest,
          fst (handle h run ctx userID msg)
          = EvLog (LogReceived (cm_AgentID msg) (cm_Input msg))
            :: EvLog (LogLimitCheckFailed e) :: rest) /\
      reaches_engine (fst (handle h run ctx userID msg))
      = reaches_engine (fst (handle (without_limiter h) run ctx userID msg)) /\
      (forall agent wf,
          GetAgent (agentService h) (cm_AgentID msg) userID = Ok agent ->
          ag_Workflow agent = Some wf ->
          (forall svc,
              executionService h = Some svc ->
              exists id,
                Create svc ctx
                  (mkCreateRequest (cm_AgentID msg) userID (Version wf)
                                   "manual" (cm_Input msg)) = Ok id) ->
          reaches_engine (fst (handle h run ctx userID msg)) = true /\
          (exists before after,
              fst (handle h run ctx userID msg)
              = before ++
                EvExecute ctx wf (injectUserID (cm_Input msg) userID)
                  (mkOptions (ag_Description agent)
                             (cm_EnableBlockChecker msg)
                             (cm_CheckerModelID msg)) :: after) /\
          exists execID final,
            writes (fst (handle h run ctx userID msg))
            = [startedMessage execID; final] /\
            sm_Type final = "execution_complete")) /\
  (forall (h : handler) run ctx userID msg,
      (In (errorMessage limitExceededText)
          (writes (fst (handle h run ctx userID msg))) <->
       snd (checkDailyLimit h run userID) = false) /\
      (snd (checkDailyLimit h run userID) = false <->
       exists limiter,
         executionLimiter h = Some limiter /\
         Limiter.GetRemainingExecutions limiter (clkCheck run) userID
         = (0, None))).
Proof.
  split_and!.
  - apply LimiterFacts.CheckLimit_fails_open.
  - apply LimiterFacts.CheckLimit_blocks_iff.
  - intros h run ctx userID msg limiter remaining e Hl Hg.
    pose proof (checkDailyLimit_fails_open h run userID _ _ _ Hl Hg) as Hc.
    split_and!; [done | | | | |].
    + apply writes_without_limiter. by rewrite Hc.
    + rewrite limit_message_iff. by rewrite Hc.
    + destruct (handle_begins_with_check h run ctx userID msg)
        as [rest Hrest].
      rewrite Hc in Hrest. by exists rest.
    + apply reaches_engine_without_limiter. by rewrite Hc.
    + intros agent wf Hagent Hwf Hcreate.
      apply checked_run_reaches_engine; [by rewrite Hc | done | done | done].
  - intros h run ctx userID msg. split.
    + apply limit_message_iff.
    + apply checkDailyLimit_stops.
Qed.

End WithCollaborators.

End TransportFacts.

(** ** The execution transport: effects, the client's stream, the
    connection *)

Module TransportMore.

Import Transport TransportFacts.

Section WithCollaborators.

Context {Ctx Workflow BlockStates Artifacts Files Metadata : Type}.
Context (Version : Workflow -> Z).
Context (set_AgentID : Metadata -> string -> Metadata).
Context (newContext : nat -> Ctx).

Abbreviation event :=
  (@Event Ctx Workflow BlockStates Artifacts Files Metadata).
Abbreviation handler :=
  (@WorkflowWebSocketHandler Ctx Workflow BlockStates Artifacts Files Metadata).
Abbreviation message :=
  (@WorkflowServerMessage BlockStates Artifacts Files Metadata).
Abbreviation handle := (handleExecuteWorkflow Version set_AgentID).
Abbreviation request :=
  (fun userID msg (wf : Workflow) =>
     mkCreateRequest (cm_AgentID msg) userID (Version wf) "manual"
                     (cm_Input msg)).

(** *** Reading the effects off the events *)

Lemma creates_app (l1 l2 : list event) :
  creates (l1 ++ l2) = creates l1 ++ creates l2.
Proof. apply omap_app. Qed.

Lemma completes_app (l1 l2 : list event) :
  completes (l1 ++ l2) = completes l1 ++ completes l2.
Proof. apply omap_app. Qed.

Lemma increments_app (l1 l2 : list event) :
  increments (l1 ++ l2) = increments l1 ++ increments l2.
Proof. apply omap_app. Qed.

Lemma executes_app (l1 l2 : list event) :
  executes (l1 ++ l2) = executes l1 ++ executes l2.
Proof. apply omap_app. Qed.

Lemma idle_app (l1 l2 : list event) : idle l1 -> idle l2 -> idle (l1 ++ l2).
Proof.
  intros (H1 & H2 & H3 & H4 & H5) (K1 & K2 & K3 & K4 & K5). unfold idle.
  rewrite creates_app, completes_app, increments_app, executes_app,
    reaches_engine_app, H1, H2, H3, H4, H5, K1, K2, K3, K4, K5. done.
Qed.

Lemma idle_sends (updates : list ExecutionUpdate) :
  idle (map EvSend updates : list event).
Proof.
  unfold idle. split_and!; induction updates as [| u l IH]; done.
Qed.

Lemma idle_lines (lines : list Limiter.LogEntry) :
  idle (map (fun l => EvLog (LogLimiter l)) lines : list event).
Proof.
  unfold idle. split_and!; induction lines as [| u l IH]; done.
Qed.

Lemma checkDailyLimit_idle (h : handler) run userID :
  idle (fst (checkDailyLimit h run userID)).
Proof.
  unfold checkDailyLimit. destruct (executionLimiter h) as [el |]; [| done].
  destruct (Limiter.GetRemainingExecutions el _ _) as [remaining [e |]];
    [done |].
  destruct (remaining =? 0); [done |]. by destruct (0 <? remaining).
Qed.

Lemma incrementCounter_effects (h : handler) run userID :
  creates (fst (incrementCounter h run userID)) = [] /\
  completes (fst (incrementCounter h run userID)) = [] /\
  executes (fst (incrementCounter h run userID)) = [] /\
  reaches_engine (fst (incrementCounter h run userID)) = false /\
  increments (fst (incrementCounter h run userID))
  = match executionLimiter h with Some _ => [userID] | None => [] end /\
  snd (incrementCounter h run userID) = counted (executionLimiter h) run userID.
Proof.
  unfold incrementCounter, counted.
  destruct (executionLimiter h) as [el |]; [| done].
  destruct (Limiter.IncrementCount el _ _) as [[err el'] lines].
  cbn [fst snd].
  assert (Hrest :
    idle (map (fun l => EvLog (LogLimiter l)) lines ++
          match err with
          | Some e => [EvLog (LogIncrementFailed e) : event]
          | None => []
          end)).
  { apply idle_app; [apply idle_lines | by destruct err]. }
  destruct Hrest as (H1 & H2 & H3 & H4 & H5).
  split_and!; try done.
  change (increments (EvIncrement userID :: ?l)) with (userID :: increments l).
  by rewrite H3.
Qed.

Lemma reportResult_effects (h : handler) run msg wf execID oid outcome :
  let reported := reportResult set_AgentID h run msg wf execID oid outcome in
  creates reported = [] /\
  increments reported = [] /\
  executes reported = [] /\
  reaches_engine reported = false /\
  match executionService h with
  | Some _ => exists req, completes reported = [(oid, req)] /\
                          reports outcome req
  | None => completes reported = []
  end.
Proof.
  cbv zeta. unfold reportResult.
  destruct outcome as [result | e], (executionService h); cbn;
    split_and!; try done; eexists; split; try reflexivity; cbn; done.
Qed.

(** The events of a request, piece by piece. *)
Lemma handle_equation (h : handler) run ctx userID msg :
  let received : list event :=
    [EvLog (LogReceived (cm_AgentID msg) (cm_Input msg))] in
  let checked := fst (checkDailyLimit h run userID) in
  (exists tail,
      handle h run ctx userID msg
      = (received ++ checked ++ tail, executionLimiter h) /\
      (tail = [] \/
       (exists line m, tail = [EvLog line; EvWrite m]) \/
       (exists agent wf svc e line m,
           GetAgent (agentService h) (cm_AgentID msg) userID = Ok agent /\
           ag_Workflow agent = Some wf /\
           executionService h = Some svc /\
           Create svc ctx (request userID msg wf) = Err e /\
           tail = [EvCreate (request userID msg wf); EvLog line; EvWrite m])))
  \/
  (exists agent wf execID oid created updates outcome,
      snd (checkDailyLimit h run userID) = true /\
      GetAgent (agentService h) (cm_AgentID msg) userID = Ok agent /\
      ag_Workflow agent = Some wf /\
      createExecution Version h run ctx userID msg wf
      = inr (execID, oid, created) /\
      ExecuteWithOptions (workflowEngine h) ctx wf
        (injectUserID (cm_Input msg) userID)
        (mkOptions (ag_Description agent) (cm_EnableBlockChecker msg)
                   (cm_CheckerModelID msg))
      = (updates, outcome) /\
      handle h run ctx userID msg
      = (received ++ checked ++ created ++
         [EvLog (LogStarting execID (cm_AgentID msg));
          EvWrite (startedMessage execID)] ++
         fst (incrementCounter h run userID) ++
         [EvMakeChan 100; EvGo execID;
          EvLog (LogBlockChecker (cm_EnableBlockChecker msg)
                                 (cm_CheckerModelID msg));
          EvLog (LogExecuting (injectUserID (cm_Input msg) userID));
          EvExecute ctx wf (injectUserID (cm_Input msg) userID)
            (mkOptions (ag_Description agent) (cm_EnableBlockChecker msg)
                       (cm_CheckerModelID msg))] ++
         map EvSend updates ++ [EvReturn; EvClose] ++
         reportResult set_AgentID h run msg wf execID oid outcome,
         snd (incrementCounter h run userID))).
Proof.
  cbv zeta. unfold handleExecuteWorkflow.
  destruct (checkDailyLimit h run userID) as [checked [|]]; cbn [fst snd].
  2: { left. exists []. split; [by rewrite app_nil_r | by left]. }
  destruct (GetAgent (agentService h) (cm_AgentID msg) userID)
    as [agent | e] eqn:Hagent.
  2: { left. eexists. split; [reflexivity |]. right; left. eauto. }
  destruct (ag_Workflow agent) as [wf |] eqn:Hwf.
  2: { left. eexists. split; [reflexivity |]. right; left. eauto. }
  destruct (createExecution Version h run ctx userID msg wf)
    as [failed | [[execID oid] created]] eqn:Hcreate.
  - left. unfold createExecution in Hcreate.
    destruct (executionService h) as [svc |] eqn:Hsvc; [| discriminate].
    destruct (Create svc ctx _) as [| e] eqn:Hc; [discriminate |].
    injection Hcreate as <-.
    eexists. split; [reflexivity |]. right; right.
    exists agent, wf, svc, e. eauto 10.
  - right. unfold runExecution.
    destruct (incrementCounter h run userID) as [countedEv limiter'].
    destruct (ExecuteWithOptions (workflowEngine h) ctx wf _ _)
      as [updates outcome] eqn:Hrun.
    exists agent, wf, execID, oid, created, updates, outcome.
    split_and!; done.
Qed.

(** The execution record of a started run: made by the execution service,
    whose id the run goes by, or none, the run going by a fresh UUID. *)
Lemma createExecution_started (h : handler) run ctx userID msg wf execID oid
    created :
  createExecution Version h run ctx userID msg wf
  = inr (execID, oid, created) ->
  idle_but_create created /\
  writes created = [] /\
  match executionService h with
  | Some svc =>
      Create svc ctx (request userID msg wf) = Ok oid /\
      execID = oid /\
      creates created = [request userID msg wf]
  | None => execID = newUUID run /\ creates created = []
  end.
Proof.
  unfold createExecution, idle_but_create.
  destruct (executionService h) as [svc |].
  - destruct (Create svc ctx _) as [id | e] eqn:Hc; [| discriminate].
    by intros [= <- <- <-].
  - by intros [= <- <- <-].
Qed.

(** A request that reaches the engine is a started run. *)
Lemma handle_equation_run (h : handler) run ctx userID msg :
  reaches_engine (fst (handle h run ctx userID msg)) = true ->
  exists agent wf execID oid created updates outcome,
    snd (checkDailyLimit h run userID) = true /\
    GetAgent (agentService h) (cm_AgentID msg) userID = Ok agent /\
    ag_Workflow agent = Some wf /\
    createExecution Version h run ctx userID msg wf
    = inr (execID, oid, created) /\
    ExecuteWithOptions (workflowEngine h) ctx wf
      (injectUserID (cm_Input msg) userID)
      (mkOptions (ag_Description agent) (cm_EnableBlockChecker msg)
                 (cm_CheckerModelID msg))
    = (updates, outcome) /\
    handle h run ctx userID msg
    = ([EvLog (LogReceived (cm_AgentID msg) (cm_Input msg))] ++
       fst (checkDailyLimit h run userID) ++ created ++
       [EvLog (LogStarting execID (cm_AgentID msg));
        EvWrite (startedMessage execID)] ++
       fst (incrementCounter h run userID) ++
       [EvMakeChan 100; EvGo execID;
        EvLog (LogBlockChecker (cm_EnableBlockChecker msg)
                               (cm_CheckerModelID msg));
        EvLog (LogExecuting (injectUserID (cm_Input msg) userID));
        EvExecute ctx wf (injectUserID (cm_Input msg) userID)
          (mkOptions (ag_Description agent) (cm_EnableBlockChecker msg)
                     (cm_CheckerModelID msg))] ++
       map EvSend updates ++ [EvReturn; EvClose] ++
       reportResult set_AgentID h run msg wf execID oid outcome,
       snd (incrementCounter h run userID)).
Proof.
  intros Hre.
  destruct (handle_equation h run ctx userID msg)
    as [(tail & Heq & Htail) | Hrun]; [| exact Hrun].
  exfalso. rewrite Heq in Hre. cbn [fst] in Hre.
  destruct (checkDailyLimit_idle h run userID) as (_ & _ & _ & _ & Hr).
  rewrite !reaches_engine_app, Hr in Hre.
  destruct Htail as [-> | [(line & m & ->)
                          | (? & ? & ? & ? & line & m & _ & _ & _ & _ & ->)]];
    discriminate.
Qed.

(** What a request does to the collaborators, and the limiter it leaves. *)
Lemma handle_effects (h : handler) run ctx userID msg :
  let events := fst (handle h run ctx userID msg) in
  (reaches_engine events = false /\
   increments events = [] /\
   completes events = [] /\
   executes events = [] /\
   snd (handle h run ctx userID msg) = executionLimiter h /\
   (creates events = [] \/
    exists agent wf svc e,
      GetAgent (agentService h) (cm_AgentID msg) userID = Ok agent /\
      ag_Workflow agent = Some wf /\
      executionService h = Some svc /\
      Create svc ctx (request userID msg wf) = Err e /\
      creates events = [request userID msg wf]))
  \/
  (reaches_engine events = true /\
   exists agent wf updates outcome,
     GetAgent (agentService h) (cm_AgentID msg) userID = Ok agent /\
     ag_Workflow agent = Some wf /\
     ExecuteWithOptions (workflowEngine h) ctx wf
       (injectUserID (cm_Input msg) userID)
       (mkOptions (ag_Description agent) (cm_EnableBlockChecker msg)
                  (cm_CheckerModelID msg))
     = (updates, outcome) /\
     executes events
     = [(ctx, wf, injectUserID (cm_Input msg) userID,
         mkOptions (ag_Description agent) (cm_EnableBlockChecker msg)
                   (cm_CheckerModelID msg))] /\
     increments events
     = match executionLimiter h with Some _ => [userID] | None => [] end /\
     snd (handle h run ctx userID msg)
     = counted (executionLimiter h) run userID /\
     match executionService h with
     | Some svc =>
         exists id req,
           Create svc ctx (request userID msg wf) = Ok id /\
           creates events = [request userID msg wf] /\
           completes events = [(id, req)] /\
           reports outcome req /\
           exists final, writes events = [startedMessage id; final]
     | None =>
         creates events = [] /\
         completes events = [] /\
         exists final, writes events = [startedMessage (newUUID run); final]
     end).
Proof.
  cbv zeta.
  pose proof (checkDailyLimit_idle h run userID) as Hchecked.
  assert (Hreceived :
    idle ([EvLog (LogReceived (cm_AgentID msg) (cm_Input msg))]
          : list event)) by done.
  destruct (handle_equation h run ctx userID msg)
    as [(tail & -> & Htail)
       | (agent & wf & execID & oid & created & updates & outcome & Hgo
          & Hagent & Hwf & Hcreate & Hrun & ->)]; cbn [fst snd].
  - left.
    destruct Htail as [-> | [(line & m & ->)
                            | (agent & wf & svc & e & line & m & Hagent & Hwf
                               & Hsvc & Hcreate & ->)]].
    + destruct (idle_app _ _ Hreceived (idle_app _ [] Hchecked ltac:(done)))
        as (H1 & H2 & H3 & H4 & H5).
      split_and!; try done. by left.
    + destruct (idle_app _ _ Hreceived
                  (idle_app _ [EvLog line; EvWrite m] Hchecked ltac:(done)))
        as (H1 & H2 & H3 & H4 & H5).
      split_and!; try done. by left.
    + destruct (idle_app _ _ Hreceived Hchecked) as (H1 & H2 & H3 & H4 & H5).
      rewrite !app_assoc.
      rewrite reaches_engine_app, increments_app, completes_app, executes_app,
        creates_app, H1, H2, H3, H4, H5.
      split_and!; try done. right. exists agent, wf, svc, e. done.
  - right.
    destruct (incrementCounter_effects h run userID)
      as (I1 & I2 & I3 & I4 & I5 & I6).
    destruct Hchecked as (H1 & H2 & H3 & H4 & H5).
    destruct (idle_sends updates) as (S1 & S2 & S3 & S4 & S5).
    pose proof (reportResult_effects h run msg wf execID oid outcome) as Hrep.
    cbv zeta in Hrep. destruct Hrep as (R1 & R2 & R3 & R4 & Hcompletes).
    destruct (createExecution_started h run ctx userID msg wf execID oid
                created Hcreate) as ((C2 & C3 & C4 & C5) & Cw & Hcreated).
    destruct (reportResult_shape set_AgentID h run msg wf execID oid outcome)
      as (reported & final & Hshape & Hquiet & _).
    destruct (quiet_silent _ Hquiet) as (Hw & _).
    destruct (quiet_silent _ (incrementCounter_quiet h run userID))
      as (Hiw & _).
    destruct (quiet_silent _ (checkDailyLimit_quiet h run userID Hgo))
      as (Hcw & _).
    destruct (sends_silent (Ctx := Ctx) (Workflow := Workflow)
                (BlockStates := BlockStates) (Artifacts := Artifacts)
                (Files := Files) (Metadata := Metadata) updates)
      as (Hsw & _).
    assert (Hwrites :
      writes
        ([EvLog (LogReceived (cm_AgentID msg) (cm_Input msg))] ++
         fst (checkDailyLimit h run userID) ++ created ++
         [EvLog (LogStarting execID (cm_AgentID msg));
          EvWrite (startedMessage execID)] ++
         fst (incrementCounter h run userID) ++
         [EvMakeChan 100; EvGo execID;
          EvLog (LogBlockChecker (cm_EnableBlockChecker msg)
                                 (cm_CheckerModelID msg));
          EvLog (LogExecuting (injectUserID (cm_Input msg) userID));
          EvExecute ctx wf (injectUserID (cm_Input msg) userID)
            (mkOptions (ag_Description agent) (cm_EnableBlockChecker msg)
                       (cm_CheckerModelID msg))] ++
         map EvSend updates ++ [EvReturn; EvClose] ++
         reportResult set_AgentID h run msg wf execID oid outcome)
      = [startedMessage execID; final]).
    { rewrite Hshape, !writes_app, Hcw, Cw, Hiw, Hsw, Hw. done. }
    rewrite !reaches_engine_app, !increments_app, !completes_app,
      !executes_app, !creates_app.
    rewrite H1, H2, H3, H4, H5, I1, I2, I3, I4, I5, I6, S1, S2, S3, S4, S5,
      R1, R2, R3, R4, C2, C3, C4, C5.
    split; [done |].
    exists agent, wf, updates, outcome.
    split_and!; try done; try (by destruct (executionLimiter h)).
    destruct (executionService h) as [svc |].
    + destruct Hcreated as (Hc & -> & ->).
      destruct Hcompletes as (req & -> & Hreports).
      exists oid, req. split_and!; try done. by exists final.
    + destruct Hcreated as (-> & ->). rewrite Hcompletes.
      split_and!; try done. by exists final.
Qed.

(** X16. A run acts for the authenticated user and for no one else.  The
    counter that is incremented is the connection's user's; the execution
    record is made for that user, the requested agent and trigger [manual];
    the engine is called at most once, with the connection's context, with
    the workflow of the agent the agent service returned for that user, and
    with the client's input in which [__user_id__] is the authenticated
    user's id, whatever the client had put there; the other keys are the
    client's. *)
Theorem run_acts_for_the_authenticated_user
    (h : handler) (run : Run) (ctx : Ctx) (userID : string)
    (msg : WorkflowClientMessage) :
  let events := fst (handle h run ctx userID msg) in
  (forall u, u ∈ increments events -> u = userID) /\
  (forall req,
      req ∈ creates events ->
      cr_UserID req = userID /\
      cr_AgentID req = cm_AgentID msg /\
      cr_TriggerType req = "manual") /\
  (forall ctx' wf input opts,
      (ctx', wf, input, opts) ∈ executes events ->
      ctx' = ctx /\
      input !! "__user_id__" = Some (AString userID) /\
      (forall key, key <> "__user_id__" ->
                   input !! key = default ∅ (cm_Input msg) !! key) /\
      exists agent,
        GetAgent (agentService h) (cm_AgentID msg) userID = Ok agent /\
        ag_Workflow agent = Some wf /\
        opts = mkOptions (ag_Description agent) (cm_EnableBlockChecker msg)
                         (cm_CheckerModelID msg)) /\
  (length (executes events) <= 1)%nat.
Proof.
  cbv zeta.
  destruct (handle_effects h run ctx userID msg)
    as [(_ & -> & _ & -> & _ & Hcreates)
       | (_ & agent & wf & updates & outcome & Hagent & Hwf & _ & -> & ->
          & _ & Hservice)].
  - split_and!.
    + by intros u ?%elem_of_nil.
    + intros req Hreq.
      destruct Hcreates as [Hnone | (agent & wf & svc & e & _ & _ & _ & _
                                     & Hone)].
      * rewrite Hnone in Hreq. by apply elem_of_nil in Hreq.
      * rewrite Hone in Hreq. by apply list_elem_of_singleton in Hreq as ->.
    + by intros ctx' wf input opts ?%elem_of_nil.
    + cbn. lia.
  - split_and!.
    + intros u Hu. destruct (executionLimiter h).
      * by apply list_elem_of_singleton in Hu.
      * by apply elem_of_nil in Hu.
    + intros req Hreq. destruct (executionService h) as [svc |].
      * destruct Hservice as (id & creq & _ & Hone & _).
        rewrite Hone in Hreq. by apply list_elem_of_singleton in Hreq as ->.
      * destruct Hservice as (Hnone & _).
        rewrite Hnone in Hreq. by apply elem_of_nil in Hreq.
    + intros ctx' wf' input opts [= -> -> -> ->]%list_elem_of_singleton.
      split_and!.
      * done.
      * unfold injectUserID. apply lookup_insert_eq.
      * intros key Hkey. unfold injectUserID. by rewrite lookup_insert_ne.
      * by exists agent.
    + cbn. lia.
Qed.

Lemma split_at {A} (a b c d : list A) x r rest :
  a ++ b ++ c ++ d ++ (x :: r) ++ rest
  = (a ++ b ++ c ++ d) ++ x :: (r ++ rest).
Proof. by rewrite <- !app_assoc. Qed.

(** X17. A run is counted when it starts, once, whatever becomes of it.  A
    request that is turned away leaves the counter and the limiter as they
    were.  A request that reaches the engine has called [IncrementCount]
    exactly once when a limiter is configured (not at all otherwise), for
    the connection's user, after [execution_started] was written and before
    the engine was called, whether the engine then succeeds or fails; the
    limiter is left as [IncrementCount] leaves it. *)
Theorem started_runs_are_counted_once
    (h : handler) (run : Run) (ctx : Ctx) (userID : string)
    (msg : WorkflowClientMessage) :
  let events := fst (handle h run ctx userID msg) in
  (reaches_engine events = false ->
   increments events = [] /\
   snd (handle h run ctx userID msg) = executionLimiter h) /\
  (reaches_engine events = true ->
   increments events
   = match executionLimiter h with Some _ => [userID] | None => [] end /\
   snd (handle h run ctx userID msg) = counted (executionLimiter h) run userID /\
   (is_Some (executionLimiter h) ->
    exists before after execID,
      events = before ++ EvIncrement userID :: after /\
      writes before = [startedMessage execID] /\
      reaches_engine before = false /\
      reaches_engine after = true)).
Proof.
  cbv zeta.
  destruct (handle_effects h run ctx userID msg)
    as [(Hre & Hi & _ & _ & Hl & _)
       | (Hre & agent & wf & updates & outcome & _ & _ & _ & _ & Hi & Hl & _)];
    rewrite Hre.
  { split; [done | intros [=]]. }
  split; [intros [=] |].
  intros _. split_and!; [done | done |].
  intros [limiter Hlimiter].
  destruct (handle_equation_run h run ctx userID msg Hre)
    as (agent' & wf' & execID & oid & created & updates' & outcome' & Hgo
        & _ & _ & Hcreate & _ & Heq).
  rewrite Heq. cbn [fst].
  destruct (createExecution_started h run ctx userID msg wf' execID oid
              created Hcreate) as ((_ & _ & _ & Cr) & Cw & _).
  destruct (checkDailyLimit_idle h run userID) as (_ & _ & _ & _ & Hr).
  destruct (quiet_silent _ (checkDailyLimit_quiet h run userID Hgo))
    as (Hcw & _).
  unfold incrementCounter. rewrite Hlimiter.
  destruct (Limiter.IncrementCount limiter (clkIncrement run) userID)
    as [[err limiter'] lines]. cbn [fst].
  eexists _, _, execID. split_and!.
  - apply split_at.
  - rewrite !writes_app, Hcw, Cw. done.
  - rewrite !reaches_engine_app, Hr, Cr. done.
  - destruct (idle_lines lines) as (_ & _ & _ & _ & Hlr).
    rewrite !reaches_engine_app, Hlr. by destruct err.
Qed.

(** X18. The execution record follows the run.  With an execution service,
    a run that reaches the engine has made exactly one record, goes by the
    record's id (the id [execution_started] carries) and completes that
    record exactly once: with status [failed] and the error text when the
    engine returned an error, with the result's status, output, block
    states and error otherwise.  A request that is turned away completes no
    record, and makes none unless it is the making that failed.  Without an
    execution service no record is made or completed and the run goes by a
    fresh UUID. *)
Theorem execution_record_follows_the_run
    (h : handler) (run : Run) (ctx : Ctx) (userID : string)
    (msg : WorkflowClientMessage) :
  let events := fst (handle h run ctx userID msg) in
  (forall svc,
      executionService h = Some svc ->
      (reaches_engine events = true ->
       exists agent wf updates outcome id req final,
         GetAgent (agentService h) (cm_AgentID msg) userID = Ok agent /\
         ag_Workflow agent = Some wf /\
         ExecuteWithOptions (workflowEngine h) ctx wf
           (injectUserID (cm_Input msg) userID)
           (mkOptions (ag_Description agent) (cm_EnableBlockChecker msg)
                      (cm_CheckerModelID msg))
         = (updates, outcome) /\
         Create svc ctx (request userID msg wf) = Ok id /\
         creates events = [request userID msg wf] /\
         completes events = [(id, req)] /\
         reports outcome req /\
         writes events = [startedMessage id; final]) /\
      (reaches_engine events = false ->
       completes events = [] /\
       (creates events = [] \/
        exists wf e,
          Create svc ctx (request userID msg wf) = Err e /\
          creates events = [request userID msg wf]))) /\
  (executionService h = None ->
   creates events = [] /\
   completes events = [] /\
   (reaches_engine events = true ->
    exists final, writes events = [startedMessage (newUUID run); final])).
Proof.
  cbv zeta.
  destruct (handle_effects h run ctx userID msg)
    as [(Hre & _ & Hcompletes & _ & _ & Hcreates)
       | (Hre & agent & wf & updates & outcome & Hagent & Hwf & Hrun & _ & _
          & _ & Hservice)];
    rewrite Hre.
  - split.
    + intros svc Hsvc. split; [intros [=] |]. intros _. split; [done |].
      destruct Hcreates as [Hnone | (agent & wf & svc' & e & _ & _ & Hsvc'
                                     & Hcreate & Hone)]; [by left |].
      right. exists wf, e. split; [| done]. congruence.
    + intros Hnone. split_and!; [| done | intros [=]].
      destruct Hcreates as [Hnone' | (agent & wf & svc' & e & _ & _ & Hsvc'
                                      & _)]; [done | congruence].
  - split.
    + intros svc Hsvc. rewrite Hsvc in Hservice.
      destruct Hservice as (id & req & Hcreate & Hcreates & Hcompletes
                            & Hreports & final & Hwrites).
      split; [| intros [=]]. intros _.
      exists agent, wf, updates, outcome, id, req, final. done.
    + intros Hnone. rewrite Hnone in Hservice.
      destruct Hservice as (Hcreates & Hcompletes & Hwrites).
      split_and!; done.
Qed.

(** *** The client's stream *)

Abbreviation conn := (@Conn Ctx Workflow BlockStates Artifacts Files Metadata).
Abbreviation forwarder := (@Forwarder BlockStates Artifacts Files Metadata).

Lemma forwardUpdates_are_updates execID (updates : list ExecutionUpdate) :
  Forall (fun m : message => is_update m = true /\ sm_ExecutionID m = execID)
         (forwardUpdates execID updates).
Proof. induction updates as [| u l IH]; constructor; done. Qed.

Lemma filter_split_length {A} (f : A -> bool) (l : list A) :
  length l
  = (length (List.filter f l)
     + length (List.filter (fun x => negb (f x)) l))%nat.
Proof.
  induction l as [| x l IH]; [done |].
  cbn. destruct (f x); cbn; lia.
Qed.

Lemma filter_split_Forall {A} (P : A -> Prop) (f : A -> bool) (l : list A) :
  Forall P (List.filter f l) ->
  Forall P (List.filter (fun x => negb (f x)) l) ->
  Forall P l.
Proof.
  induction l as [| x l IH]; [done |].
  cbn. destruct (f x); cbn; intros H1 H2.
  - apply Forall_cons in H1 as [Hx H1]. constructor; [done | by apply IH].
  - apply Forall_cons in H2 as [Hx H2]. constructor; [done | by apply IH].
Qed.

(** The invariant of a run is kept by every step on a connection that has
    not failed. *)
Lemma run_inv_step execID updates (tail : list event) (old : list forwarder)
    sent (s s' : conn) :
  Forall drained old ->
  forallb (fun e => negb (is_go e)) tail = true ->
  pushed tail = updates ->
  conn_step s s' ->
  broken s' = false ->
  run_inv execID updates tail old sent s ->
  run_inv execID updates tail old sent s'.
Proof.
  intros Hold Htail Hpushed Hstep Hb [Hown Hphase]. unfold run_inv.
  destruct Hphase as [[Hfs (pre & Hprog & Hpre & Hledger)]
                     | (f & more & Hfs & Hid & Hfu & Hnogo & Hwire & Hupd)].
  - (* before the forwarding goroutine is started *)
    destruct Hstep as [e rest fs w failed He
                      | id rest fs w failed
                      | u rest id buf inside fs w failed Hroom
                      | rest id buf inside fs w failed
                      | m rest fs w failed Hidle
                      | m todo fs w failed
                      | todo fs1 id u buf cl fs2 w failed Hidle
                      | todo inside fs1 id ch m fs2 w failed
                      | todo inside fs w];
      cbn [forwarders wire writing program broken] in *;
      cbn [option_list option_rect app] in *.
    + destruct pre as [| e0 pre]; injection Hprog as -> ->; [done |].
      cbn [forallb] in Hpre. apply andb_true_iff in Hpre as [_ Hpre].
      rewrite (proj1 (local_silent _ _ He)) in Hown.
      rewrite (proj1 (local_silent e0 pre He)) in Hledger.
      split; [done |]. left. split; [done |]. exists pre. done.
    + destruct pre as [| e0 pre].
      2: { injection Hprog as <- ->. discriminate. }
      injection Hprog as -> ->. subst fs.
      split; [done |]. right.
      exists (mkForwarder execID (mkChan [] false) None), [].
      cbn [writes omap] in Hledger. rewrite app_nil_r in Hledger.
      split_and!; [done | done | by intros m [=] | done | done |].
      cbn [fw_writing fw_chan buffer option_list option_rect app
           List.filter].
      by rewrite Hpushed.
    + destruct pre as [| e0 pre]; [discriminate |].
      injection Hprog as <- ->. discriminate.
    + destruct pre as [| e0 pre]; [discriminate |].
      injection Hprog as <- ->. discriminate.
    + destruct pre as [| e0 pre]; [discriminate |].
      injection Hprog as <- ->. cbn [forallb] in Hpre.
      apply andb_true_iff in Hpre as [_ Hpre].
      split; [done |]. left. split; [done |]. exists pre. done.
    + subst failed. cbn [written].
      apply Forall_cons in Hown as [_ Hown].
      split; [done |]. left. split; [done |]. exists pre.
      split_and!; [done | done |]. by rewrite <- app_assoc.
    + subst old. apply Forall_app in Hold as [_ [[_ Hbuf] _]%Forall_cons].
      discriminate.
    + subst old. apply Forall_app in Hold as [_ [[Hw _] _]%Forall_cons].
      discriminate.
    + discriminate.
  - (* the forwarding goroutine is there *)
    destruct Hstep as [e rest fs w failed He
                      | id rest fs w failed
                      | u rest id buf inside fs w failed Hroom
                      | rest id buf inside fs w failed
                      | m rest fs w failed Hidle
                      | m todo fs w failed
                      | todo fs1 id u buf cl fs2 w failed Hidle
                      | todo inside fs1 id ch m fs2 w failed
                      | todo inside fs w];
      cbn [forwarders wire writing program broken] in *;
      cbn [option_list option_rect app] in *.
    + cbn [forallb] in Hnogo. apply andb_true_iff in Hnogo as [_ Hnogo].
      destruct (local_silent _ rest He) as [Hw Hp]. rewrite Hw in Hown.
      rewrite Hp in Hupd.
      split; [done |]. right. exists f, more. done.
    + discriminate.
    + injection Hfs as <- <-. cbn [fw_execID fw_chan fw_writing buffer] in *.
      cbn [forallb] in Hnogo. apply andb_true_iff in Hnogo as [_ Hnogo].
      split; [done |]. right.
      exists (mkForwarder id (mkChan (buf ++ [u]) false) inside), more.
      cbn [fw_execID fw_chan fw_writing buffer].
      split_and!; [done | done | done | done | done |].
      rewrite <- Hupd. by rewrite <- app_assoc.
    + injection Hfs as <- <-. cbn [fw_execID fw_chan fw_writing buffer] in *.
      cbn [forallb] in Hnogo. apply andb_true_iff in Hnogo as [_ Hnogo].
      split; [done |]. right.
      exists (mkForwarder id (mkChan buf true) inside), more.
      cbn [fw_execID fw_chan fw_writing buffer].
      split_and!; done.
    + cbn [forallb] in Hnogo. apply andb_true_iff in Hnogo as [_ Hnogo].
      split; [done |]. right. exists f, more. done.
    + subst failed. cbn [written].
      apply Forall_cons in Hown as [Hm Hown].
      split; [done |]. right. exists f, (more ++ [m]).
      split_and!; [done | done | done | done | |].
      * rewrite Hwire. by rewrite <- app_assoc.
      * rewrite List.filter_app. cbn. unfold own in Hm.
        apply negb_true_iff in Hm. rewrite Hm. by rewrite app_nil_r.
    + destruct fs1 as [| f0 fs1]; injection Hfs as <- <-.
      2: { apply Forall_app in Hold as [_ [[_ Hbuf] _]%Forall_cons].
           discriminate. }
      cbn [fw_execID fw_chan fw_writing buffer app] in *. subst id.
      split; [done |]. right.
      exists (mkForwarder execID (mkChan buf cl)
                          (Some (updateMessage execID u))), more.
      cbn [fw_execID fw_chan fw_writing buffer option_list option_rect].
      split_and!; [done | done | by intros m [= <-] | done | done |].
      exact Hupd.
    + destruct fs1 as [| f0 fs1]; injection Hfs as <- <-.
      2: { apply Forall_app in Hold as [_ [[Hw _] _]%Forall_cons].
           discriminate. }
      cbn [fw_execID fw_chan fw_writing buffer app] in *. subst failed.
      cbn [written]. pose proof (Hfu m eq_refl) as Hm.
      split; [done |]. right.
      exists (mkForwarder id ch None), (more ++ [m]).
      cbn [fw_execID fw_chan fw_writing buffer option_list option_rect app].
      split_and!; [done | done | by intros m' [=] | done | |].
      * rewrite Hwire. by rewrite <- app_assoc.
      * rewrite List.filter_app. cbn. rewrite Hm.
        rewrite <- Hupd. by rewrite <- app_assoc.
    + discriminate.
Qed.

Lemma run_inv_steps execID updates (tail : list event) (old : list forwarder)
    sent (s s' : conn) :
  Forall drained old ->
  forallb (fun e => negb (is_go e)) tail = true ->
  pushed tail = updates ->
  conn_steps s s' ->
  broken s' = false ->
  run_inv execID updates tail old sent s ->
  run_inv execID updates tail old sent s'.
Proof.
  intros Hold Htail Hpushed.
  induction 1 as [s | s1 s2 s3 Hstep Hsteps IH]; [done |].
  intros Hb Hinv. apply IH; [done |].
  eapply run_inv_step; try eassumption.
  by apply (TransportFacts.conn_steps_broken s2 s3).
Qed.

Lemma quiet_no_go (l : list event) :
  forallb quiet l = true ->
  forallb (fun e => negb (is_go e)) l = true /\
  forallb (fun e => local e || is_write e) l = true.
Proof.
  induction l as [| e l IH]; [done |].
  cbn [forallb]. intros [He Hl]%andb_true_iff.
  destruct (IH Hl) as [-> ->]. by destruct e.
Qed.

Lemma sends_no_go (updates : list ExecutionUpdate) :
  forallb (fun e : event => negb (is_go e)) (map EvSend updates) = true.
Proof. induction updates as [| u l IH]; [done | exact IH]. Qed.

Lemma drained_forwards_updates (fs : list forwarder) :
  Forall drained fs -> Forall forwards_updates fs.
Proof.
  intros Hd. eapply Forall_impl; [exact Hd |].
  intros f [Hw _] m Hm. congruence.
Qed.

(** The invariant holds when the request of a run arrives. *)
Lemma run_inv_start (before counted reported : list event) execID ctx wf
    input opts updates m line1 line2 (old : list forwarder) sent :
  forallb quiet before = true ->
  forallb quiet counted = true ->
  forallb quiet reported = true ->
  own m = true ->
  let tail :=
    [EvLog line1; EvLog line2; EvExecute ctx wf input opts] ++
    map EvSend updates ++ [EvReturn; EvClose] ++ reported ++ [EvWrite m] in
  let events :=
    before ++ [EvWrite (startedMessage execID)] ++ counted ++
    [EvMakeChan 100; EvGo execID] ++ tail in
  forallb (fun e => negb (is_go e)) tail = true /\
  pushed tail = updates /\
  run_inv execID updates tail old sent (arrives events old sent).
Proof.
  intros Hb Hc Hr Hm tail events.
  destruct (quiet_silent _ Hb) as (Hb1 & _).
  destruct (quiet_silent _ Hc) as (Hc1 & _).
  destruct (quiet_silent _ Hr) as (Hr1 & Hr2 & _).
  destruct (sends_silent (Ctx := Ctx) (Workflow := Workflow)
              (BlockStates := BlockStates) (Artifacts := Artifacts)
              (Files := Files) (Metadata := Metadata) updates)
    as (Hs1 & Hs2 & _).
  destruct (quiet_no_go _ Hb) as [_ Hb3].
  destruct (quiet_no_go _ Hc) as [_ Hc3].
  destruct (quiet_no_go _ Hr) as [Hr3 _].
  split_and!.
  - unfold tail. cbn [app forallb is_go negb andb].
    rewrite forallb_app, sends_no_go. cbn [forallb is_go negb andb].
    rewrite forallb_app, Hr3. done.
  - unfold tail. rewrite !pushed_app, Hs2, Hr2. cbn. by rewrite app_nil_r.
  - split.
    + cbn [arrives writing program option_list option_rect app].
      unfold events, tail. rewrite !writes_app, Hb1, Hc1, Hs1, Hr1. cbn.
      constructor; [done |]. constructor; [done | done].
    + left. split; [done |].
      exists (before ++ [EvWrite (startedMessage execID)] ++ counted ++
              [EvMakeChan 100]).
      cbn [arrives writing program wire].
      split_and!.
      * unfold events.
        repeat (cbn [app]; rewrite <- app_assoc); cbn [app]; reflexivity.
      * rewrite !forallb_app, Hb3, Hc3. done.
      * rewrite !writes_app, Hb1, Hc1. done.
Qed.

(** X19. What the client of a started run is sent.  [c.WriteJSON] is
    called by the connection's goroutine and by the forwarding goroutine
    with no lock between them.  In every execution in which no two writes
    overlap, once both goroutines have done their work on a connection
    that has not failed, the wire has got [execution_started] first, then
    one [execution_update] per update the engine pushed, in the engine's
    order, and one [execution_complete], updates and [execution_complete]
    in some order; every message carries the run's execution id, also the
    updates, whatever id the engine had put in them.  The execution in
    which all updates precede [execution_complete] is one of them.  But
    when the engine has pushed an update, there is an execution in which
    the connection's goroutine comes to write [execution_complete] while
    the forwarding goroutine is inside a write: a concurrent write.  When
    the engine pushes no update, no write can overlap another. *)
Theorem started_run_on_the_wire
    (h : handler) (run : Run) (ctx : Ctx) (userID : string)
    (msg : WorkflowClientMessage) :
  let events := fst (handle h run ctx userID msg) in
  reaches_engine events = true ->
  exists execID final,
    sm_Type final = "execution_complete" /\
    writes events = [startedMessage execID; final] /\
    (forall (old : list forwarder) sent,
        existsb is_writing old = false ->
        exists s,
          conn_steps (arrives events old sent) s /\
          returned s /\ broken s = false /\
          wire s
          = sent ++ startedMessage execID ::
            forwardUpdates execID (pushed events) ++ [final]) /\
    (forall (old : list forwarder) sent s,
        Forall drained old ->
        conn_steps (arrives events old sent) s ->
        settled s -> broken s = false ->
        exists more,
          wire s = sent ++ startedMessage execID :: more /\
          length more = S (length (pushed events)) /\
          Forall (fun m => sm_ExecutionID m = execID) more /\
          List.filter is_update more
          = forwardUpdates execID (pushed events) /\
          List.filter own more = [final]) /\
    (pushed events <> [] ->
     forall (old : list forwarder) sent,
       existsb is_writing old = false ->
       exists s,
         conn_steps (arrives events old sent) s /\
         concurrent_write s /\
         program s = [EvWrite final] /\
         Exists (fun f => is_writing f = true) (forwarders s)) /\
    (pushed events = [] ->
     forall (old : list forwarder) sent s,
       Forall drained old ->
       conn_steps (arrives events old sent) s ->
       ~ concurrent_write s).
Proof.
  cbv zeta.
  destruct (handle_outcomes Version set_AgentID h run ctx userID msg)
    as [(before & text & Heq & Hq & _)
       | (before & agent & wf & execID & counted & updates & outcome & oid
          & _ & _ & _ & _ & Hq & Hcq & Heq)].
  { destruct (rejected_readings before text Hq) as (_ & _ & _ & _ & Hre & _).
    cbv zeta in Hre. rewrite Heq, Hre. intros [=]. }
  intros _.
  destruct (reportResult_shape set_AgentID h run msg wf execID oid outcome)
    as (reported & final & Hreport & Hrq & Htype & Hid & _).
  rewrite Hreport in Heq.
  pose proof (run_readings before counted reported execID ctx wf
                (injectUserID (cm_Input msg) userID)
                (mkOptions (ag_Description agent)
                           (cm_EnableBlockChecker msg)
                           (cm_CheckerModelID msg))
                updates final
                (LogBlockChecker (cm_EnableBlockChecker msg)
                                 (cm_CheckerModelID msg))
                (LogExecuting (injectUserID (cm_Input msg) userID))
                Hq Hcq Hrq) as Hread.
  cbv zeta in Hread. cbn [app] in Hread, Heq. rewrite <- Heq in Hread.
  destruct Hread as (Hw & _ & Hp & _).
  assert (Hfinal : own final = true).
  { unfold own, is_update. by rewrite Htype. }
  exists execID, final. rewrite Hp.
  split_and!; [done | done | | | |].
  - intros old sent Hold. eexists. split.
    + rewrite Heq.
      apply (run_steps before counted reported execID ctx wf _ _ updates
                       final _ _ old sent Hq Hcq Hrq Hold).
    + split_and!; done.
  - intros old sent s Hold Hsteps [[Hprogram Hwriting] Hdrained] Hb.
    pose proof (run_inv_start before counted reported execID ctx wf
                  (injectUserID (cm_Input msg) userID)
                  (mkOptions (ag_Description agent)
                             (cm_EnableBlockChecker msg)
                             (cm_CheckerModelID msg))
                  updates final
                  (LogBlockChecker (cm_EnableBlockChecker msg)
                                   (cm_CheckerModelID msg))
                  (LogExecuting (injectUserID (cm_Input msg) userID))
                  old sent Hq Hcq Hrq Hfinal) as Hstart.
    cbv zeta in Hstart. cbn [app] in Hstart. rewrite <- Heq in Hstart.
    destruct Hstart as (Htail & Hpushed & Hinv).
    pose proof (run_inv_steps _ _ _ _ _ _ _ Hold Htail Hpushed Hsteps Hb Hinv)
      as [_ [[_ (pre & Hpre & _)]
            | (f & more & Hfs & _ & _ & _ & Hwire & Hupd)]].
    { rewrite Hprogram in Hpre. by destruct pre. }
    rewrite Hfs in Hdrained.
    apply Forall_cons in Hdrained as [[Hfw Hbuf] _].
    rewrite Hfw, Hbuf, Hprogram in Hupd.
    cbn [option_list option_rect app] in Hupd.
    change (pushed (@nil event)) with (@nil ExecutionUpdate) in Hupd.
    cbn in Hupd. rewrite app_nil_r in Hupd.
    destruct (own_messages_steps _ _ Hsteps
                (drained_forwards_updates _ Hold) Hb) as [_ Hown].
    rewrite Hprogram, Hwriting, Hwire in Hown.
    cbn [arrives program writing wire] in Hown.
    change (writes (@nil event)) with (@nil message) in Hown.
    change (option_list (@None message)) with (@nil message) in Hown.
    cbn [List.filter app] in Hown.
    rewrite !app_nil_r, List.filter_app in Hown.
    rewrite (handle_writes_own Version set_AgentID), Hw in Hown.
    apply app_inv_head in Hown. cbn in Hown. injection Hown as Hown.
    exists more. split_and!; [done | | | done | done].
    + rewrite (filter_split_length is_update more).
      change (List.filter (fun x => negb (is_update x)) more)
        with (List.filter own more).
      rewrite Hupd, Hown. unfold forwardUpdates. rewrite length_map.
      cbn. lia.
    + apply (filter_split_Forall _ is_update).
      * rewrite Hupd.
        eapply Forall_impl; [apply forwardUpdates_are_updates |].
        by intros m [_ ?].
      * change (List.filter (fun x => negb (is_update x)) more)
          with (List.filter own more).
        rewrite Hown. by constructor.
  - intros Hne old sent Hold.
    destruct (exists_last Hne) as (us & u & ->).
    destruct (run_overlaps before counted reported execID ctx wf
                (injectUserID (cm_Input msg) userID)
                (mkOptions (ag_Description agent)
                           (cm_EnableBlockChecker msg)
                           (cm_CheckerModelID msg))
                us u final
                (LogBlockChecker (cm_EnableBlockChecker msg)
                                 (cm_CheckerModelID msg))
                (LogExecuting (injectUserID (cm_Input msg) userID))
                old sent Hq Hcq Hrq Hold) as [Hsteps Hcw].
    eexists. rewrite Heq. split; [exact Hsteps |].
    split_and!; [exact Hcw | done |]. by constructor.
  - intros -> old sent s Hold Hsteps.
    assert (Hnone : pushed (program (arrives
                      (fst (handle h run ctx userID msg)) old sent)) = [])
      by exact Hp.
    destruct (quiet_connection_steps _ _ Hsteps Hold Hnone) as (Hd & _).
    by apply quiet_connection_safe.
Qed.

(** *** The connection *)

Abbreviation connEvent :=
  (@ConnEvent Ctx Workflow BlockStates Artifacts Files Metadata).
Abbreviation loop := (readLoop Version set_AgentID newContext).
Abbreviation connection := (Handle Version set_AgentID newContext).

(** A request gets one closing message. *)
Lemma handle_one_closing (h : handler) run ctx userID msg :
  closings (writes (fst (handle h run ctx userID msg))) = 1%nat.
Proof.
  destruct (handle_readings Version set_AgentID h run ctx userID msg)
    as [(text & _ & Hw & _)
       | (agent & wf & execID & updates & outcome & final & tail & _ & _ & _
          & _ & Htype & _ & _ & Hw & _)]; cbv zeta in Hw; rewrite Hw.
  - done.
  - unfold closings. cbn. unfold closing at 1. rewrite Htype. done.
Qed.

Lemma conn_writes_app (l1 l2 : list connEvent) :
  conn_writes (l1 ++ l2) = conn_writes l1 ++ conn_writes l2.
Proof. apply flat_map_app. Qed.

Lemma readLoop_closings userID runs frames :
  forall (h : handler) generation k,
    closings (conn_writes (loop h userID runs generation k frames))
    = length (List.filter answered frames).
Proof.
  induction frames as [| frame frames IH]; intros h generation k; [done |].
  destruct frame as [| msg]; cbn [readLoop List.filter answered].
  - change (conn_writes (ConnWrite ?m :: ?l)) with ([m] ++ conn_writes l).
    by rewrite closings_app, IH.
  - destruct (String.eqb (cm_Type msg) "execute_workflow").
    + pose proof (handle_one_closing h (runs k) (newContext generation)
                    userID msg) as Hone.
      destruct (handle h (runs k) (newContext generation) userID msg)
        as [events limiter'].
      change (conn_writes (ConnHandle ?g ?e :: ?l))
        with (writes e ++ conn_writes l).
      cbn [fst] in Hone. by rewrite closings_app, Hone, IH.
    + destruct (String.eqb (cm_Type msg) "cancel_execution"); apply IH.
Qed.

Lemma conn_program_app (l1 l2 : list connEvent) :
  conn_program (l1 ++ l2) = conn_program l1 ++ conn_program l2.
Proof. apply flat_map_app. Qed.

(** The writes of the connection's program are the connection's writes. *)
Lemma writes_conn_program (trace : list connEvent) :
  writes (conn_program trace) = conn_writes trace.
Proof.
  induction trace as [| e trace IH]; [done |].
  unfold conn_program, conn_writes in *. cbn [flat_map].
  rewrite writes_app, IH. f_equal. by destruct e.
Qed.

(** They are all the goroutine's own. *)
Lemma readLoop_writes_own userID runs frames :
  forall (h : handler) generation k,
    List.filter own (conn_writes (loop h userID runs generation k frames))
    = conn_writes (loop h userID runs generation k frames).
Proof.
  induction frames as [| frame frames IH]; intros h generation k; [done |].
  destruct frame as [| msg]; cbn [readLoop].
  - change (conn_writes (ConnWrite ?m :: ?l)) with ([m] ++ conn_writes l).
    by rewrite List.filter_app, IH.
  - destruct (String.eqb (cm_Type msg) "execute_workflow").
    + pose proof (handle_writes_own Version set_AgentID h (runs k)
                    (newContext generation) userID msg) as Hown.
      destruct (handle h (runs k) (newContext generation) userID msg)
        as [events limiter'].
      change (conn_writes (ConnHandle ?g ?e :: ?l))
        with (writes e ++ conn_writes l).
      cbn [fst] in Hown. by rewrite List.filter_app, Hown, IH.
    + destruct (String.eqb (cm_Type msg) "cancel_execution"); apply IH.
Qed.

(** From any state with no forwarding goroutine inside a write, the read
    loop has a schedule in which it comes to its end and every forwarding
    goroutine has written its updates. *)
Lemma readLoop_schedules userID runs frames (rest : list event) :
  forall (h : handler) generation k (fs : list forwarder) sent,
    Forall drained fs ->
    exists s,
      conn_steps
        (arrives (conn_program (loop h userID runs generation k frames)
                  ++ rest) fs sent) s /\
      program s = rest /\ writing s = None /\ broken s = false /\
      Forall drained (forwarders s).
Proof.
  induction frames as [| frame frames IH];
    intros h generation k fs sent Hfs.
  { eexists. split; [apply rtc_refl |]. done. }
  destruct frame as [| msg]; cbn [readLoop].
  - destruct (IH h generation (S k) fs
                (sent ++ [errorMessage "Invalid message format"]) Hfs)
      as (s & Hsteps & Hs).
    exists s. split; [| exact Hs].
    eapply rtc_trans; [| exact Hsteps].
    apply (write_steps _ _ fs sent false). by apply drained_not_writing.
  - destruct (String.eqb (cm_Type msg) "execute_workflow").
    + destruct (handle_schedules Version set_AgentID h (runs k)
                  (newContext generation) userID msg fs sent
                  (drained_not_writing _ Hfs))
        as (s1 & stream & fs' & Hsteps1 & [Hprogram Hwriting] & Hb & Hfs1
            & Hfs' & Hwire & _).
      destruct (handle h (runs k) (newContext generation) userID msg)
        as [events limiter'].
      cbn [fst] in Hsteps1.
      assert (Hd : Forall drained (fs' ++ fs)) by (by apply Forall_app).
      destruct (IH (with_limiter h limiter') generation (S k) (fs' ++ fs)
                  (sent ++ stream) Hd) as (s & Hsteps & Hs).
      exists s. split; [| exact Hs].
      eapply rtc_trans; [| exact Hsteps].
      pose proof (conn_steps_frame
                    (conn_program (loop (with_limiter h limiter') userID runs
                                        generation (S k) frames) ++ rest)
                    _ _ Hsteps1) as Hframe.
      rewrite Hprogram, Hwriting, Hb, Hfs1, Hwire in Hframe.
      cbn [arrives program writing forwarders wire broken app] in Hframe.
      change (conn_program (ConnHandle ?g ?e :: ?l))
        with (e ++ conn_program l).
      rewrite <- app_assoc. exact Hframe.
    + destruct (String.eqb (cm_Type msg) "cancel_execution");
        by apply IH.
Qed.

(** On a connection with no forwarding goroutine yet, the first message
    the connection's goroutine writes is the first on the wire. *)
Lemma first_write_step m (rest : list event) (s s' : conn) :
  conn_step s s' ->
  broken s' = false ->
  (wire s = [] /\ forwarders s = [] /\
   ((program s = EvWrite m :: rest /\ writing s = None) \/
    writing s = Some m)) \/
  head (wire s) = Some m ->
  (wire s' = [] /\ forwarders s' = [] /\
   ((program s' = EvWrite m :: rest /\ writing s' = None) \/
    writing s' = Some m)) \/
  head (wire s') = Some m.
Proof.
  intros Hstep Hb [(Hw & Hf & Hphase) | Hhead].
  - destruct Hstep as [e todo fs w failed He
                      | id todo fs w failed
                      | u todo id buf inside fs w failed Hroom
                      | todo id buf inside fs w failed
                      | m' todo fs w failed Hidle
                      | m' todo fs w failed
                      | todo fs1 id u buf cl fs2 w failed Hidle
                      | todo inside fs1 id ch m' fs2 w failed
                      | todo inside fs w];
      cbn [forwarders wire writing program broken] in *.
    + destruct Hphase as [[[= -> ->] _] | [=]]. discriminate.
    + destruct Hphase as [[[=] _] | [=]].
    + discriminate.
    + discriminate.
    + destruct Hphase as [[[= -> ->] _] | [=]]. left. by split_and!; auto.
    + destruct Hphase as [[_ [=]] | [= ->]]. subst w failed. by right.
    + by destruct fs1.
    + by destruct fs1.
    + discriminate.
  - right.
    destruct Hstep; cbn [forwarders wire writing program broken] in *;
      try done; subst; cbn [written]; by destruct sent.
Qed.

Lemma first_write_steps m (rest : list event) (s s' : conn) :
  conn_steps s s' ->
  broken s' = false ->
  (wire s = [] /\ forwarders s = [] /\
   ((program s = EvWrite m :: rest /\ writing s = None) \/
    writing s = Some m)) \/
  head (wire s) = Some m ->
  (wire s' = [] /\ forwarders s' = [] /\
   ((program s' = EvWrite m :: rest /\ writing s' = None) \/
    writing s' = Some m)) \/
  head (wire s') = Some m.
Proof.
  induction 1 as [s | s1 s2 s3 Hstep Hsteps IH]; [done |].
  intros Hb Hfirst. apply IH; [done |].
  eapply first_write_step; try eassumption.
  by apply (TransportFacts.conn_steps_broken s2 s3).
Qed.

(** X20. Requests on a connection.  Run to its end, the goroutine of the
    connection first calls [c.WriteJSON] with [connected]; from then on it
    calls it with one closing message ([error] or [execution_complete])
    for each frame that does not unmarshal and for each [execute_workflow]
    message, and with none for a [cancel_execution] or a message of unknown
    type.  When [user_id] is no string, or the [connected] message cannot
    be written, nothing is written at all.  On the wire, in every
    execution in which no two writes overlap, once the goroutine has come
    to its end on a connection that has not failed, its messages are there
    in the order of its calls, among the updates of the forwarding
    goroutines: every request is answered once.  Such an execution
    exists.  When no run pushes an update, no write can overlap another
    and the wire has the goroutine's messages and nothing else. *)
Theorem connection_answers_each_request
    (h : handler) (userID : string) (runs : nat -> Run)
    (frames : list Frame) :
  let trace := connection h (Limiter.LocalString userID) true runs frames in
  head (conn_writes trace) = Some connectedMessage /\
  closing (connectedMessage : message) = false /\
  closings (conn_writes trace) = length (List.filter answered frames) /\
  conn_writes (connection h (Limiter.LocalString userID) false runs frames)
  = [] /\
  conn_writes (connection h Limiter.LocalNil true runs frames) = [] /\
  conn_writes (connection h Limiter.LocalOther true runs frames) = [] /\
  (forall s,
      conn_steps (arrives (conn_program trace) [] []) s ->
      returned s -> broken s = false ->
      List.filter own (wire s) = conn_writes trace /\
      head (wire s) = Some connectedMessage /\
      closings (wire s) = length (List.filter answered frames)) /\
  (exists s,
      conn_steps (arrives (conn_program trace) [] []) s /\
      settled s /\ broken s = false) /\
  (pushed (conn_program trace) = [] ->
   forall s,
     conn_steps (arrives (conn_program trace) [] []) s ->
     ~ concurrent_write s /\
     (returned s -> broken s = false -> wire s = conn_writes trace)).
Proof.
  cbv zeta.
  assert (Hcalls :
    closings (conn_writes (connection h (Limiter.LocalString userID) true
                             runs frames))
    = length (List.filter answered frames)).
  { unfold Handle.
    change (conn_writes (ConnWrite ?m :: ConnContext 0 :: ?l))
      with ([m] ++ conn_writes l).
    rewrite closings_app, conn_writes_app, closings_app, readLoop_closings.
    cbn. lia. }
  assert (Hown :
    List.filter own
      (conn_writes (connection h (Limiter.LocalString userID) true runs
                      frames))
    = conn_writes (connection h (Limiter.LocalString userID) true runs
                     frames)).
  { unfold Handle.
    change (conn_writes (ConnWrite ?m :: ConnContext 0 :: ?l))
      with ([m] ++ conn_writes l).
    rewrite conn_writes_app, !List.filter_app, readLoop_writes_own. done. }
  split_and!; try done.
  - intros s Hsteps [Hprogram Hwriting] Hb.
    destruct (own_messages_steps _ _ Hsteps ltac:(by constructor) Hb)
      as [_ Heq].
    rewrite Hprogram, Hwriting in Heq.
    cbn [arrives program writing wire] in Heq.
    change (writes (@nil event)) with (@nil message) in Heq.
    change (option_list (@None message)) with (@nil message) in Heq.
    cbn [List.filter app] in Heq.
    rewrite !app_nil_r, writes_conn_program, Hown in Heq.
    split_and!; [exact Heq | |].
    + destruct (first_write_steps connectedMessage
                  (conn_program (loop h userID runs 0 0 frames
                                 ++ [ConnCancel 0]))
                  _ _ Hsteps Hb)
        as [(_ & _ & [[Hp _] | Hw]) | Hhead].
      * left. split_and!; [done | done |]. left. done.
      * rewrite Hprogram in Hp. discriminate.
      * rewrite Hwriting in Hw. discriminate.
      * exact Hhead.
    + by rewrite <- (closings_own (wire s)), Heq.
  - unfold Handle.
    change (conn_program (ConnWrite ?m :: ConnContext 0 :: ?l))
      with (EvWrite m :: conn_program l).
    rewrite conn_program_app.
    destruct (readLoop_schedules userID runs frames
                (conn_program [ConnCancel 0]) h 0%nat 0%nat []
                [connectedMessage] ltac:(by constructor))
      as (s & Hsteps & Hprogram & Hwriting & Hb & Hd).
    exists s. split_and!; [| done | done].
    eapply rtc_trans; [| exact Hsteps].
    by apply (write_steps _ _ [] [] false).
  - intros Hnone s Hsteps.
    destruct (quiet_connection_steps _ _ Hsteps ltac:(by constructor) Hnone)
      as (Hd & _ & Heq).
    split; [by apply quiet_connection_safe |].
    intros [Hprogram Hwriting] Hb. specialize (Heq Hb).
    rewrite Hprogram, Hwriting in Heq.
    cbn [arrives program writing wire] in Heq.
    change (writes (@nil event)) with (@nil message) in Heq.
    change (option_list (@None message)) with (@nil message) in Heq.
    cbn [app] in Heq.
    by rewrite !app_nil_r, writes_conn_program in Heq.
Qed.

(** In the read loop a run's context is the newest one, and every cancel
    before the run is of an older one. *)
Lemma readLoop_live userID runs frames :
  forall (h : handler) generation k pre g events post,
    loop h userID runs generation k frames
    = pre ++ ConnHandle g events :: post ->
    (generation <= g)%nat /\
    (forall c, ConnCancel c ∈ pre -> (generation <= c < g)%nat) /\
    ((generation < g)%nat -> ConnContext g ∈ pre).
Proof.
  induction frames as [| frame frames IH];
    intros h generation k pre g events post Heq.
  { destruct pre as [| ? [| ? ?]]; discriminate. }
  destruct frame as [| msg]; cbn [readLoop] in Heq.
  - destruct pre as [| e pre]; [discriminate |].
    injection Heq as <- Heq.
    destruct (IH _ _ _ _ _ _ _ Heq) as (Hle & Hcancel & Hctx).
    split_and!; [done | |].
    + intros c [[=] | Hc]%elem_of_cons. by apply Hcancel.
    + intros Hlt. apply elem_of_cons. right. by apply Hctx.
  - destruct (String.eqb (cm_Type msg) "execute_workflow").
    + destruct (handle h (runs k) (newContext generation) userID msg)
        as [ev limiter'].
      destruct pre as [| e pre].
      * injection Heq as <- <- _. split_and!; [done | | lia].
        by intros c ?%elem_of_nil.
      * injection Heq as <- Heq.
        destruct (IH _ _ _ _ _ _ _ Heq) as (Hle & Hcancel & Hctx).
        split_and!; [done | |].
        -- intros c [[=] | Hc]%elem_of_cons. by apply Hcancel.
        -- intros Hlt. apply elem_of_cons. right. by apply Hctx.
    + destruct (String.eqb (cm_Type msg) "cancel_execution").
      * destruct pre as [| e1 [| e2 pre]]; try discriminate.
        injection Heq as <- <- Heq.
        destruct (IH _ _ _ _ _ _ _ Heq) as (Hle & Hcancel & Hctx).
        split_and!; [lia | |].
        -- intros c [[= ->] | [[=] | Hc]%elem_of_cons]%elem_of_cons; [lia |].
           apply Hcancel in Hc. lia.
        -- intros Hlt. apply elem_of_cons. right.
           destruct (decide (g = S generation)) as [-> | Hne].
           ++ by apply list_elem_of_here.
           ++ apply elem_of_cons. right. apply Hctx. lia.
      * destruct pre as [| e pre]; [discriminate |].
        injection Heq as <- Heq.
        destruct (IH _ _ _ _ _ _ _ Heq) as (Hle & Hcancel & Hctx).
        split_and!; [done | |].
        -- intros c [[=] | Hc]%elem_of_cons. by apply Hcancel.
        -- intros Hlt. apply elem_of_cons. right. by apply Hctx.
Qed.

Lemma before_the_last {A} (l : list A) x pre y post :
  l ++ [x] = pre ++ y :: post -> x <> y ->
  exists post', l = pre ++ y :: post' /\ post = post' ++ [x].
Proof.
  intros Heq Hne. induction post as [| z post' _] using rev_ind.
  - apply app_inj_tail in Heq as [_ ->]. done.
  - rewrite app_comm_cons, app_assoc in Heq.
    apply app_inj_tail in Heq as [-> ->]. eauto.
Qed.

(** X21. A [cancel_execution] never interrupts a run.  The read loop calls
    [handleExecuteWorkflow] and waits for it, so whenever a run starts its
    context has been made and has not been cancelled: every cancel that
    came before is of an older context.  The cancel deferred to the end of
    [Handle] is the last thing the connection does, and it is that of the
    first context. *)
Theorem cancel_never_interrupts_a_run
    (h : handler) (userID : string) (runs : nat -> Run)
    (frames : list Frame) :
  let trace := connection h (Limiter.LocalString userID) true runs frames in
  (forall pre g events post,
      trace = pre ++ ConnHandle g events :: post ->
      ConnContext g ∈ pre /\
      (ConnCancel g ∉ pre) /\
      (forall c, ConnCancel c ∈ pre -> (c < g)%nat)) /\
  last trace = Some (ConnCancel 0).
Proof.
  cbv zeta. unfold Handle. split.
  - intros pre g events post Heq.
    destruct pre as [| e1 [| e2 pre]]; try discriminate.
    injection Heq as <- <- Heq.
    apply before_the_last in Heq as (post' & Heq & _); [| discriminate].
    destruct (readLoop_live _ _ _ _ _ _ _ _ _ _ Heq) as (_ & Hcancel & Hctx).
    assert (Hold : forall c, ConnCancel c ∈
                               ConnWrite connectedMessage :: ConnContext 0
                               :: pre -> (c < g)%nat).
    { intros c [[=] | [[=] | Hc]%elem_of_cons]%elem_of_cons.
      apply Hcancel in Hc. lia. }
    split_and!; [| | exact Hold].
    + apply elem_of_cons. right. destruct g as [| g].
      * by apply list_elem_of_here.
      * apply elem_of_cons. right. apply Hctx. lia.
    + intros Hc. apply Hold in Hc. lia.
  - rewrite !app_comm_cons. apply last_snoc.
Qed.

End WithCollaborators.

End TransportMore.

(** ** The MCP bridge *)

Module BridgeFacts.

Import Bridge.

(** Distinct client ids are filed with distinct connections. *)
Lemma open_connections_apart s k1 k2 conn1 conn2 :
  open_connections s ->
  connections s !! k1 = Some conn1 ->
  connections s !! k2 = Some conn2 ->
  k1 <> k2 -> conn1 <> conn2.
Proof.
  intros Hopen H1 H2 Hne <-.
  destruct (Hopen _ _ H1) as (c1 & Hc1 & Hid1 & _).
  destruct (Hopen _ _ H2) as (c2 & Hc2 & Hid2 & _).
  congruence.
Qed.

(** The invariant is kept when entries leave the map and the connections
    that stay are not touched. *)
Lemma open_connections_sub s s' :
  open_connections s ->
  (forall k conn, connections s' !! k = Some conn ->
                  connections s !! k = Some conn) ->
  (forall k conn c, connections s' !! k = Some conn ->
                    heap s !! conn = Some c -> heap s' !! conn = Some c) ->
  open_connections s'.
Proof.
  intros Hopen Hsub Hheap k conn Hk.
  destruct (Hopen _ _ (Hsub _ _ Hk)) as (c & Hc & Hrest).
  exists c. split; [by eapply Hheap | done].
Qed.

Lemma disconnect_open s clientID conn :
  open_connections s ->
  connections s !! clientID = Some conn ->
  exists c,
    heap s !! conn = Some c /\
    ClientID c = clientID /\
    stopClosed c = false /\
    writeClosed c = false /\
    disconnectClientLocked s clientID conn
    = Some (mkService (delete clientID (connections s))
                      (delete (UserID c) (userConns s))
                      (<[conn := close c]> (heap s)),
            [DbMarkInactive clientID; UnregisterAllUserTools (UserID c);
             CloseStopChan conn; CloseWriteChan conn]) /\
    open_connections
      (mkService (delete clientID (connections s))
                 (delete (UserID c) (userConns s))
                 (<[conn := close c]> (heap s))).
Proof.
  intros Hopen Hk. destruct (Hopen _ _ Hk) as (c & Hc & Hid & Hs & Hw).
  exists c. split_and!; try done.
  - unfold disconnectClientLocked. by rewrite Hc, Hs, Hw.
  - apply (open_connections_sub s); [done | |]; cbn.
    + by intros k conn' [_ ?]%lookup_delete_Some.
    + intros k conn' c' [Hne Hk']%lookup_delete_Some Hc'.
      rewrite list_lookup_insert_ne; [done |].
      by apply (open_connections_apart s clientID k).
Qed.

(** The first step of [RegisterClient]. *)
Lemma disconnectExisting_open s userID :
  open_connections s ->
  exists s1 effects,
    disconnectExisting s userID = Some (s1, effects) /\
    open_connections s1 /\
    length (heap s1) = length (heap s) /\
    (forall k conn, connections s1 !! k = Some conn ->
                    connections s !! k = Some conn) /\
    (forall k conn c, connections s1 !! k = Some conn ->
                      heap s1 !! conn = Some c -> heap s !! conn = Some c).
Proof.
  intros Hopen. unfold disconnectExisting.
  destruct (userConns s !! userID) as [k0 |];
    [| exists s, []; by split_and!].
  destruct (connections s !! k0) as [conn0 |] eqn:Hk0;
    [| exists s, []; by split_and!].
  destruct (disconnect_open s k0 conn0 Hopen Hk0)
    as (c0 & Hc0 & Hid & _ & _ & -> & Hopen').
  eexists _, _. split; [reflexivity |]. split_and!; cbn.
  - done.
  - apply length_insert.
  - by intros k conn [_ ?]%lookup_delete_Some.
  - intros k conn c [Hne Hk]%lookup_delete_Some.
    rewrite list_lookup_insert_ne; [done |].
    by apply (open_connections_apart s k0 k).
Qed.

(** What [RegisterClient] returns, by the state its first step leaves. *)
Lemma RegisterClient_returns s userID registration env :
  open_connections s ->
  exists s1 effects,
    disconnectExisting s userID = Some (s1, effects) /\
    open_connections s1 /\
    length (heap s1) = length (heap s) /\
    let conn := length (heap s1) in
    let c :=
      mkConnection (newID env) userID (reg_ClientID registration)
                   (reg_ClientVersion registration)
                   (reg_Platform registration) (connectedAt env)
                   (lastHeartbeat env) true (reg_Tools registration)
                   false false in
    let s2 :=
      mkService (<[reg_ClientID registration := conn]> (connections s1))
                (<[userID := reg_ClientID registration]> (userConns s1))
                (heap s1 ++ [c]) in
    heap s2 !! conn = Some c /\
    open_connections s2 /\
    open_connections
      (mkService (delete (reg_ClientID registration) (connections s2))
                 (delete userID (userConns s2)) (heap s2)) /\
    RegisterClient s userID registration env
    = match insertError env with
      | Some e =>
          Returns (Err ("failed to store connection in database: " +:+ e))
                  (mkService
                     (delete (reg_ClientID registration) (connections s2))
                     (delete userID (userConns s2)) (heap s2))
                  (effects ++
                   [DbInsertConnection userID (reg_ClientID registration)])
      | None =>
          Returns (Ok conn) s2
                  ((effects ++
                    [DbInsertConnection userID (reg_ClientID registration)]) ++
                   [DbSelectConnectionID (reg_ClientID registration)] ++
                   registerTools userID env (reg_Tools registration) ++
                   [SendAck conn (length (reg_Tools registration))])
      end.
Proof.
  intros Hopen.
  destruct (disconnectExisting_open s userID Hopen)
    as (s1 & effects & Heq & Hopen1 & Hlen & _).
  exists s1, effects. split_and!; try done. cbv zeta.
  assert (Hnew :
    (heap s1 ++
     [mkConnection (newID env) userID (reg_ClientID registration)
        (reg_ClientVersion registration) (reg_Platform registration)
        (connectedAt env) (lastHeartbeat env) true (reg_Tools registration)
        false false]) !! length (heap s1)
    = Some (mkConnection (newID env) userID (reg_ClientID registration)
              (reg_ClientVersion registration) (reg_Platform registration)
              (connectedAt env) (lastHeartbeat env) true
              (reg_Tools registration) false false))
    by (by apply list_lookup_middle).
  assert (Hopen2 :
    open_connections
      (mkService
         (<[reg_ClientID registration := length (heap s1)]> (connections s1))
         (<[userID := reg_ClientID registration]> (userConns s1))
         (heap s1 ++
          [mkConnection (newID env) userID (reg_ClientID registration)
             (reg_ClientVersion registration) (reg_Platform registration)
             (connectedAt env) (lastHeartbeat env) true
             (reg_Tools registration) false false]))).
  { intros k conn Hk. cbn in Hk |- *.
    apply lookup_insert_Some in Hk as [[<- <-] | [Hne Hk]].
    - eexists. split; [exact Hnew | done].
    - destruct (Hopen1 _ _ Hk) as (c & Hc & Hrest).
      exists c. split; [by apply lookup_app_l_Some | done]. }
  split_and!; [exact Hnew | exact Hopen2 | |].
  - eapply open_connections_sub; [exact Hopen2 | |]; cbn.
    + by intros k conn [_ ?]%lookup_delete_Some.
    + done.
  - unfold RegisterClient. rewrite Heq. by destruct (insertError env).
Qed.

Lemma RegisterClient_open s userID registration env result s' effects :
  open_connections s ->
  RegisterClient s userID registration env = Returns result s' effects ->
  open_connections s'.
Proof.
  intros Hopen.
  destruct (RegisterClient_returns s userID registration env Hopen)
    as (s1 & eff1 & _ & _ & _ & Hrest).
  cbv zeta in Hrest. destruct Hrest as (_ & Hopen2 & Hopen3 & ->).
  destruct (insertError env); by intros [= _ <- _].
Qed.

Lemma DisconnectClient_open s clientID result s' effects :
  open_connections s ->
  DisconnectClient s clientID = Returns result s' effects ->
  open_connections s'.
Proof.
  intros Hopen. unfold DisconnectClient.
  destruct (connections s !! clientID) as [conn |] eqn:Hk.
  - destruct (disconnect_open s clientID conn Hopen Hk)
      as (c & _ & _ & _ & _ & -> & Hopen').
    by intros [= _ <- _].
  - by intros [= _ <- _].
Qed.

Lemma UpdateHeartbeat_open s clientID now updateError result s' effects :
  open_connections s ->
  UpdateHeartbeat s clientID now updateError = Returns result s' effects ->
  open_connections s'.
Proof.
  intros Hopen. unfold UpdateHeartbeat.
  destruct (connections s !! clientID) as [conn |] eqn:Hk;
    [| by intros [= _ <- _]].
  destruct (heap s !! conn) as [c |] eqn:Hc; [| discriminate].
  intros [= _ <- _]. intros k conn' Hk'. cbn in Hk' |- *.
  destruct (Hopen _ _ Hk') as (c' & Hc' & Hid & Hs & Hw).
  destruct (decide (conn' = conn)) as [-> | Hne].
  - rewrite list_lookup_insert_eq by (by eapply lookup_lt_Some).
    eexists. split; [reflexivity |]. cbn.
    assert (c' = c) as -> by congruence. done.
  - rewrite list_lookup_insert_ne by done. by exists c'.
Qed.

Lemma served_open s : served s -> open_connections s.
Proof.
  induction 1 as [| s userID registration env result s' effects _ IH Heq
                  | s clientID result s' effects _ IH Heq
                  | s clientID now updateError result s' effects _ IH Heq].
  - intros k conn Hk. cbn in Hk. by rewrite lookup_empty in Hk.
  - by eapply RegisterClient_open.
  - by eapply DisconnectClient_open.
  - by eapply UpdateHeartbeat_open.
Qed.

(** X22. The bridge never closes a channel twice and never follows a
    dangling connection.  In every state the service can be in, each
    connection in the map is filed under its own client id with both
    channels open, and no call of [RegisterClient], [DisconnectClient] or
    [UpdateHeartbeat] crashes, whatever its arguments and whatever the
    database and the registry answer. *)
Theorem channels_are_closed_once (s : MCPBridgeService) :
  served s ->
  open_connections s /\
  (forall userID registration env,
      RegisterClient s userID registration env <> Panics) /\
  (forall clientID, DisconnectClient s clientID <> Panics) /\
  (forall clientID now updateError,
      UpdateHeartbeat s clientID now updateError <> Panics).
Proof.
  intros Hopen%served_open. split_and!; [done | | |].
  - intros userID registration env.
    destruct (RegisterClient_returns s userID registration env Hopen)
      as (s1 & eff1 & _ & _ & _ & Hrest).
    cbv zeta in Hrest. destruct Hrest as (_ & _ & _ & ->).
    by destruct (insertError env).
  - intros clientID. unfold DisconnectClient.
    destruct (connections s !! clientID) as [conn |] eqn:Hk; [| done].
    by destruct (disconnect_open s clientID conn Hopen Hk)
      as (c & _ & _ & _ & _ & -> & _).
  - intros clientID now updateError. unfold UpdateHeartbeat.
    destruct (connections s !! clientID) as [conn |] eqn:Hk; [| done].
    by destruct (Hopen _ _ Hk) as (c & -> & _).
Qed.

Lemma last_app_snoc {A} (l1 l2 : list A) x :
  last (l1 ++ l2 ++ [x]) = Some x.
Proof. rewrite app_assoc. apply last_snoc. Qed.

(** X23. A registered client is found, a failed registration leaves none.
    When the INSERT succeeds, [RegisterClient] returns a connection made
    for the call: it belongs to the user, bears the registration's client
    id and tools, is active with both channels open, and is what
    [GetConnection] answers for the client id and [GetUserConnection] for
    the user.  When the INSERT fails, the error is returned and neither the
    client id nor the user is in the maps any more, also when the user was
    connected before the call. *)
Theorem registered_client_is_found
    (s : MCPBridgeService) (userID : string)
    (registration : MCPToolRegistration) (env : Surroundings) :
  served s ->
  (insertError env = None ->
   exists conn s' effects c,
     RegisterClient s userID registration env = Returns (Ok conn) s' effects /\
     GetConnection s' (reg_ClientID registration) = Some conn /\
     GetUserConnection s' userID = Some conn /\
     IsUserConnected s' userID = true /\
     heap s !! conn = None /\
     heap s' !! conn = Some c /\
     UserID c = userID /\
     ClientID c = reg_ClientID registration /\
     Tools c = reg_Tools registration /\
     IsActive c = true /\
     stopClosed c = false /\
     writeClosed c = false /\
     last effects = Some (SendAck conn (length (reg_Tools registration)))) /\
  (forall e,
      insertError env = Some e ->
      exists s' effects,
        RegisterClient s userID registration env
        = Returns (Err ("failed to store connection in database: " +:+ e)) s'
                  effects /\
        GetConnection s' (reg_ClientID registration) = None /\
        GetUserConnection s' userID = None /\
        IsUserConnected s' userID = false).
Proof.
  intros Hopen%served_open.
  destruct (RegisterClient_returns s userID registration env Hopen)
    as (s1 & eff1 & _ & _ & Hlen & Hrest).
  cbv zeta in Hrest. destruct Hrest as (Hnew & _ & _ & ->).
  split.
  - intros ->. eexists _, _, _, _. split; [reflexivity |].
    unfold GetConnection, GetUserConnection, IsUserConnected. cbn.
    rewrite !lookup_insert_eq. split_and!; try done.
    + apply lookup_ge_None_2. lia.
    + apply (last_app_snoc _ (_ :: _)).
  - intros e ->. eexists _, _. split; [reflexivity |].
    unfold GetConnection, GetUserConnection, IsUserConnected. cbn.
    by rewrite !lookup_delete_eq.
Qed.

(** X24. A disconnected client is gone.  [DisconnectClient] on a client id
    that is not in the map returns the not-found error and changes
    nothing.  On a client id that is in the map it marks the connection
    inactive in the database, unregisters the tools of the connection's
    user, closes both channels of the connection and returns nil;
    afterwards the client id is not in the map, the connection's user is
    not connected, the other client ids answer as before, there is one
    connection less, and a second call returns the not-found error. *)
Theorem disconnected_client_is_gone
    (s : MCPBridgeService) (clientID : string) :
  served s ->
  (connections s !! clientID = None ->
   DisconnectClient s clientID = Returns (Some (not_found clientID)) s []) /\
  (forall conn,
      connections s !! clientID = Some conn ->
      exists c s',
        heap s !! conn = Some c /\
        DisconnectClient s clientID
        = Returns None s'
                  [DbMarkInactive clientID; UnregisterAllUserTools (UserID c);
                   CloseStopChan conn; CloseWriteChan conn] /\
        heap s' !! conn = Some (close c) /\
        GetConnection s' clientID = None /\
        IsUserConnected s' (UserID c) = false /\
        GetUserConnection s' (UserID c) = None /\
        (forall other, other <> clientID ->
                       GetConnection s' other = GetConnection s other) /\
        GetConnectionCount s' = GetConnectionCount s - 1 /\
        DisconnectClient s' clientID
        = Returns (Some (not_found clientID)) s' []).
Proof.
  intros Hopen%served_open. split.
  - intros Hnone. unfold DisconnectClient. by rewrite Hnone.
  - intros conn Hk.
    destruct (disconnect_open s clientID conn Hopen Hk)
      as (c & Hc & Hid & _ & _ & Heq & _).
    eexists c, _. split; [done |].
    unfold DisconnectClient at 1. rewrite Hk, Heq.
    split; [reflexivity |].
    unfold GetConnection, GetUserConnection, IsUserConnected,
      GetConnectionCount, DisconnectClient. cbn.
    rewrite !lookup_delete_eq. split_and!; try done.
    + apply list_lookup_insert_eq. by eapply lookup_lt_Some.
    + intros other Hne. by rewrite lookup_delete_ne.
    + rewrite map_size_delete_Some by (by eexists).
      assert (size (connections s) <> 0%nat).
      { intros Hz%map_size_empty_inv. rewrite Hz in Hk.
        by rewrite lookup_empty in Hk. }
      lia.
Qed.

(** *** Users and their clients *)

Lemma disconnect_owned s clientID conn c :
  open_connections s -> owned s ->
  connections s !! clientID = Some conn ->
  heap s !! conn = Some c ->
  owned (mkService (delete clientID (connections s))
                   (delete (UserID c) (userConns s))
                   (<[conn := close c]> (heap s))).
Proof.
  intros Hopen [Huser Hclient] Hk Hc. split; cbn.
  - intros u k [Hne Hu]%lookup_delete_Some.
    destruct (Huser _ _ Hu) as (conn' & c' & Hk' & Hc' & Hown).
    assert (k <> clientID) by (intros ->; congruence).
    exists conn', c'. split_and!; [| | done].
    + by rewrite lookup_delete_ne.
    + rewrite list_lookup_insert_ne; [done |].
      by apply (open_connections_apart s clientID k).
  - intros k conn' c' [Hne Hk']%lookup_delete_Some Hc'.
    rewrite list_lookup_insert_ne in Hc'
      by (by apply (open_connections_apart s clientID k)).
    pose proof (Hclient _ _ _ Hk' Hc') as Hu.
    rewrite lookup_delete_ne; [done |].
    intros Heq. rewrite <- Heq in Hu.
    pose proof (Hclient _ _ _ Hk Hc). congruence.
Qed.

Lemma disconnectExisting_owned s userID :
  open_connections s -> owned s ->
  exists s1 effects,
    disconnectExisting s userID = Some (s1, effects) /\
    owned s1 /\
    userConns s1 !! userID = None.
Proof.
  intros Hopen Howned. unfold disconnectExisting.
  destruct (userConns s !! userID) as [k0 |] eqn:Hu;
    [| exists s, []; by split_and!].
  destruct (proj1 Howned _ _ Hu) as (conn0 & c0 & Hk0 & Hc0 & Hown).
  rewrite Hk0.
  destruct (disconnect_open s k0 conn0 Hopen Hk0)
    as (c & Hc & _ & _ & _ & -> & _).
  assert (c = c0) as -> by congruence.
  eexists _, _. split; [reflexivity |]. split.
  - by apply disconnect_owned.
  - cbn. rewrite Hown. apply lookup_delete_eq.
Qed.

Lemma RegisterClient_owned s userID registration env result s' effects :
  open_connections s -> owned s ->
  own_client_id s userID registration ->
  RegisterClient s userID registration env = Returns result s' effects ->
  owned s'.
Proof.
  intros Hopen Howned Hown.
  destruct (disconnectExisting_owned s userID Hopen Howned)
    as (s1 & eff1 & Heq1 & [Huser1 Hclient1] & Hnone).
  destruct (disconnectExisting_open s userID Hopen)
    as (s1' & eff1' & Heq1' & Hopen1 & _ & Hsub & Hheap).
  rewrite Heq1 in Heq1'. injection Heq1' as <- <-.
  assert (Hfree : connections s1 !! reg_ClientID registration = None).
  { destruct (connections s1 !! reg_ClientID registration) as [conn |] eqn:Hk;
      [| done].
    destruct (Hopen1 _ _ Hk) as (c & Hc & _).
    pose proof (Hown conn c (Hsub _ _ Hk) (Hheap _ _ _ Hk Hc)) as Hu.
    pose proof (Hclient1 _ _ _ Hk Hc) as Hfiled. congruence. }
  set (c := mkConnection (newID env) userID (reg_ClientID registration)
              (reg_ClientVersion registration) (reg_Platform registration)
              (connectedAt env) (lastHeartbeat env) true
              (reg_Tools registration) false false).
  assert (Hold : forall k conn c',
             connections s1 !! k = Some conn ->
             (heap s1 ++ [c]) !! conn = Some c' ->
             heap s1 !! conn = Some c').
  { intros k conn c' Hk Hc'. destruct (Hopen1 _ _ Hk) as (c'' & Hc'' & _).
    by rewrite (lookup_app_l_Some _ _ _ _ Hc'') in Hc'; injection Hc' as <-. }
  assert (Hfailed :
    owned (mkService
             (delete (reg_ClientID registration)
                (<[reg_ClientID registration := length (heap s1)]>
                   (connections s1)))
             (delete userID
                (<[userID := reg_ClientID registration]> (userConns s1)))
             (heap s1 ++ [c]))).
  { split; cbn.
    - intros u k [Hne Hu]%lookup_delete_Some.
      rewrite lookup_insert_ne in Hu by done.
      destruct (Huser1 _ _ Hu) as (conn' & c' & Hk' & Hc' & Hu').
      exists conn', c'. split_and!; [| by apply lookup_app_l_Some | done].
      rewrite lookup_delete_ne, lookup_insert_ne; [done | |];
        intros Heq; congruence.
    - intros k conn' c' [Hne Hk']%lookup_delete_Some Hc'.
      rewrite lookup_insert_ne in Hk' by done.
      pose proof (Hclient1 _ _ _ Hk' (Hold _ _ _ Hk' Hc')) as Hfiled.
      rewrite lookup_delete_ne, lookup_insert_ne; [done | |];
        intros Heq; congruence. }
  assert (Hstored :
    owned (mkService
             (<[reg_ClientID registration := length (heap s1)]>
                (connections s1))
             (<[userID := reg_ClientID registration]> (userConns s1))
             (heap s1 ++ [c]))).
  { split; cbn.
    - intros u k [[<- <-] | [Hne Hu]]%lookup_insert_Some.
      + exists (length (heap s1)), c. rewrite lookup_insert_eq.
        split_and!; [done | by apply list_lookup_middle | done].
      + destruct (Huser1 _ _ Hu) as (conn' & c' & Hk' & Hc' & Hu').
        exists conn', c'. split_and!; [| by apply lookup_app_l_Some | done].
        rewrite lookup_insert_ne; [done |]. intros Heq. congruence.
    - intros k conn' c' [[<- <-] | [Hne Hk']]%lookup_insert_Some Hc'.
      + rewrite list_lookup_middle in Hc' by done. injection Hc' as <-.
        cbn. apply lookup_insert_eq.
      + pose proof (Hclient1 _ _ _ Hk' (Hold _ _ _ Hk' Hc')) as Hfiled.
        rewrite lookup_insert_ne; [done |]. intros Heq. congruence. }
  unfold RegisterClient. rewrite Heq1.
  destruct (insertError env); by intros [= _ <- _].
Qed.

Lemma DisconnectClient_owned s clientID result s' effects :
  open_connections s -> owned s ->
  DisconnectClient s clientID = Returns result s' effects ->
  owned s'.
Proof.
  intros Hopen Howned. unfold DisconnectClient.
  destruct (connections s !! clientID) as [conn |] eqn:Hk;
    [| by intros [= _ <- _]].
  destruct (disconnect_open s clientID conn Hopen Hk)
    as (c & Hc & _ & _ & _ & -> & _).
  intros [= _ <- _]. by apply disconnect_owned.
Qed.

Lemma UpdateHeartbeat_owned s clientID now updateError result s' effects :
  owned s ->
  UpdateHeartbeat s clientID now updateError = Returns result s' effects ->
  owned s'.
Proof.
  intros [Huser Hclient]. unfold UpdateHeartbeat.
  destruct (connections s !! clientID) as [conn |] eqn:Hk;
    [| by intros [= _ <- _]].
  destruct (heap s !! conn) as [c |] eqn:Hc; [| discriminate].
  intros [= _ <- _]. split; cbn.
  - intros u k Hu. destruct (Huser _ _ Hu) as (conn' & c' & Hk' & Hc' & Hu').
    destruct (decide (conn' = conn)) as [-> | Hne].
    + exists conn, (set_LastHeartbeat c now). split_and!; [done | |].
      * apply list_lookup_insert_eq. by eapply lookup_lt_Some.
      * cbn. congruence.
    + exists conn', c'. by rewrite list_lookup_insert_ne.
  - intros k conn' c' Hk' Hc'.
    destruct (decide (conn' = conn)) as [-> | Hne].
    + rewrite list_lookup_insert_eq in Hc' by (by eapply lookup_lt_Some).
      injection Hc' as <-. cbn. by apply (Hclient _ conn).
    + rewrite list_lookup_insert_ne in Hc' by done. by apply (Hclient _ conn').
Qed.

Lemma served_apart_served s : served_apart s -> served s.
Proof.
  induction 1; [apply served_new | by eapply served_register
               | by eapply served_disconnect | by eapply served_heartbeat].
Qed.

Lemma served_apart_owned s : served_apart s -> owned s.
Proof.
  induction 1 as [| s userID registration env result s' effects Hs IH Hown Heq
                  | s clientID result s' effects Hs IH Heq
                  | s clientID now updateError result s' effects Hs IH Heq].
  - split; intros ? ? ; cbn; by rewrite lookup_empty.
  - eapply RegisterClient_owned; try done.
    by apply served_open, served_apart_served.
  - eapply DisconnectClient_owned; try done.
    by apply served_open, served_apart_served.
  - by eapply UpdateHeartbeat_owned.
Qed.

(** X25. As long as no client registers under a client id that another
    user's connection holds, every user reaches its own client: what
    [GetUserConnection] answers for a user is a connection of that user,
    in the map under its own client id, with both channels open;
    [IsUserConnected] says true exactly when [GetUserConnection] finds a
    connection; and every connection in the map is the one its user is
    filed under. *)
Theorem users_reach_their_own_client (s : MCPBridgeService) :
  served_apart s ->
  (forall userID conn,
      GetUserConnection s userID = Some conn ->
      exists c,
        heap s !! conn = Some c /\
        UserID c = userID /\
        GetConnection s (ClientID c) = Some conn /\
        stopClosed c = false /\
        writeClosed c = false) /\
  (forall userID,
      IsUserConnected s userID = true <->
      is_Some (GetUserConnection s userID)) /\
  (forall clientID conn c,
      GetConnection s clientID = Some conn ->
      heap s !! conn = Some c ->
      GetUserConnection s (UserID c) = Some conn).
Proof.
  intros Hs.
  pose proof (served_open s (served_apart_served s Hs)) as Hopen.
  destruct (served_apart_owned s Hs) as [Huser Hclient].
  unfold GetUserConnection, IsUserConnected, GetConnection. split_and!.
  - intros userID conn Hget.
    destruct (userConns s !! userID) as [k |] eqn:Hu; [| done].
    destruct (Huser _ _ Hu) as (conn' & c & Hk & Hc & Hown).
    assert (conn' = conn) as -> by congruence.
    destruct (Hopen _ _ Hk) as (c' & Hc' & Hid & Hstop & Hwrite).
    assert (c' = c) as -> by congruence.
    exists c. rewrite Hid. done.
  - intros userID. destruct (userConns s !! userID) as [k |] eqn:Hu.
    + destruct (Huser _ _ Hu) as (conn & c & -> & _). split; [eauto | done].
    + split; [done | by intros [? ?]].
  - intros clientID conn c Hk Hc. by rewrite (Hclient _ _ _ Hk Hc).
Qed.

(** X26. Client ids are not kept apart by the bridge itself.  When two
    different users, neither connected, register one after the other under
    the same client id and both INSERTs succeed, the second connection
    replaces the first in the map without the first being closed, and the
    first user stays filed under the shared client id: [GetUserConnection]
    for the first user answers the second user's connection. *)
Theorem shared_client_id_crosses_users
    (s : MCPBridgeService) (first second : string)
    (registration1 registration2 : MCPToolRegistration)
    (env1 env2 : Surroundings) :
  first <> second ->
  reg_ClientID registration1 = reg_ClientID registration2 ->
  IsUserConnected s first = false ->
  IsUserConnected s second = false ->
  insertError env1 = None ->
  insertError env2 = None ->
  exists conn1 s1 effects1 conn2 s2 effects2 c1 c2,
    RegisterClient s first registration1 env1
    = Returns (Ok conn1) s1 effects1 /\
    RegisterClient s1 second registration2 env2
    = Returns (Ok conn2) s2 effects2 /\
    conn1 <> conn2 /\
    heap s2 !! conn1 = Some c1 /\
    UserID c1 = first /\
    stopClosed c1 = false /\
    writeClosed c1 = false /\
    heap s2 !! conn2 = Some c2 /\
    UserID c2 = second /\
    GetUserConnection s2 first = Some conn2 /\
    GetUserConnection s2 second = Some conn2.
Proof.
  intros Hne Hid Hfirst Hsecond Hins1 Hins2.
  unfold IsUserConnected in Hfirst, Hsecond.
  destruct (userConns s !! first) eqn:Hu1; [discriminate |].
  destruct (userConns s !! second) eqn:Hu2; [discriminate |].
  eexists (length (heap s)), _, _, (S (length (heap s))), _, _, _, _.
  split_and!.
  - unfold RegisterClient, disconnectExisting. rewrite Hu1, Hins1.
    reflexivity.
  - unfold RegisterClient, disconnectExisting. cbn [userConns].
    rewrite lookup_insert_ne by done. rewrite Hu2, Hins2.
    cbn [heap]. rewrite length_app. cbn [length].
    replace (length (heap s) + 1)%nat with (S (length (heap s))) by lia.
    reflexivity.
  - lia.
  - cbn. rewrite <- app_assoc. by apply list_lookup_middle.
  - done.
  - done.
  - done.
  - cbn. apply list_lookup_middle. rewrite length_app. cbn. lia.
  - done.
  - unfold GetUserConnection. cbn.
    rewrite lookup_insert_ne by done. rewrite lookup_insert_eq.
    rewrite Hid. apply lookup_insert_eq.
  - unfold GetUserConnection. cbn. rewrite lookup_insert_eq.
    apply lookup_insert_eq.
Qed.

End BridgeFacts.

(** ** Concrete runs *)

Module Examples.

Import Samples.

(** Registering on the zero value [ExecutorRegistry{}] panics: no registry
    is left on which [Get] could return the executor. *)
Lemma zero_registry_takes_no_executor :
  Registry.Register Registry.zeroRegistry "custom" "custom-executor"
  = Registry.NilMapPanic /\
  ~ (exists r',
        Registry.Register Registry.zeroRegistry "custom" "custom-executor"
        = Registry.Registered r' /\
        Registry.Get r' "custom" = Ok "custom-executor").
Proof.
  split; [reflexivity |]. intros (r' & Hreg & _). discriminate.
Qed.

(** On the server's registry a new block type is registered and found, a
    built-in one is replaced, and the others stay. *)
Lemma custom_executor_is_found :
  Registry.allocated registry /\
  (exists r',
      Registry.Register registry "custom" "custom-executor"
      = Registry.Registered r' /\
      Registry.Get r' "custom" = Ok "custom-executor" /\
      Registry.Get r' "variable" = Ok "variable-executor" /\
      Registry.Get r' "unknown"
      = Err "no executor registered for block type: unknown") /\
  (exists r',
      Registry.Register registry "variable" "custom-executor"
      = Registry.Registered r' /\
      Registry.Get r' "variable" = Ok "custom-executor" /\
      Registry.Get r' "code_block" = Ok "tool-executor").
Proof.
  assert (Hr : Registry.allocated registry) by (by eexists).
  split; [exact Hr |]. split.
  - destruct (RegistryFacts.Register_then_Get
                "variable-executor" agentExecutor toolExecutor
                registry "custom" "custom-executor") as (Hstored & _).
    destruct (Hstored Hr) as (r' & Hreg & _ & Hget & Hother & _).
    exists r'. split_and!; [done | done | |];
      by rewrite Hother by discriminate.
  - destruct (RegistryFacts.Register_then_Get
                "variable-executor" agentExecutor toolExecutor
                registry "variable" "custom-executor") as (Hstored & _).
    destruct (Hstored Hr) as (r' & Hreg & _ & Hget & Hother & _).
    exists r'. split_and!; [done | done |].
    by rewrite Hother by discriminate.
Defined.

(** With a Redis that also counts yesterday and another user: three of
    five executions used by [user-1] today, two are left; the key read is
    the one of [user-1] and of today, and the other counters make no
    difference. *)
Lemma two_executions_left :
  Limiter.strings busyRedis !! "executions:user-1:2026-01-15"
  = Some (Limiter.RInt 3) /\
  Limiter.strings busyRedis !! "executions:user-1:2026-01-14"
  = Some (Limiter.RInt 4) /\
  Limiter.strings busyRedis !! "executions:user-2:2026-01-15"
  = Some (Limiter.RInt 5) /\
  Limiter.GetRemainingExecutions busyLimiter clock "user-1" = (2, None) /\
  Limiter.GetRemainingExecutions limiter clock "user-1" = (2, None) /\
  Limiter.GetRemainingExecutions busyLimiter clock "user-2" = (0, None) /\
  Limiter.GetRemainingExecutions busyLimiter clock "user-3" = (5, None).
Proof.
  do 3 (split; [vm_compute; reflexivity |]). split_and!.
  - destruct (LimiterFacts.GetRemainingExecutions_spec
                busyLimiter clock "user-1") as (_ & _ & Hredis & _).
    destruct (Hredis busyRedis eq_refl ltac:(discriminate))
      as (_ & _ & Hcount & _).
    rewrite (Hcount 3); [reflexivity | reflexivity | reflexivity |].
    vm_compute. intuition discriminate.
  - destruct (LimiterFacts.GetRemainingExecutions_spec
                busyLimiter clock "user-1") as (_ & _ & Hredis & _).
    destruct (Hredis busyRedis eq_refl ltac:(discriminate))
      as (_ & _ & Hcount & _ & Hsame).
    change (Limiter.GetRemainingExecutions
              (Limiter.mkLimiter (Limiter.GetLimits busyLimiter)
                                 (Some redisClient)) clock "user-1"
            = (2, None)).
    rewrite (Hsame redisClient); [| reflexivity | reflexivity].
    rewrite (Hcount 3); [reflexivity | reflexivity | reflexivity |].
    vm_compute. intuition discriminate.
  - destruct (LimiterFacts.GetRemainingExecutions_spec
                busyLimiter clock "user-2") as (_ & _ & Hredis & _).
    destruct (Hredis busyRedis eq_refl ltac:(discriminate))
      as (_ & _ & Hcount & _).
    rewrite (Hcount 5); [reflexivity | reflexivity | reflexivity |].
    vm_compute. intuition discriminate.
  - destruct (LimiterFacts.GetRemainingExecutions_spec
                busyLimiter clock "user-3") as (_ & _ & Hredis & _).
    destruct (Hredis busyRedis eq_refl ltac:(discriminate)) as (Habsent & _).
    rewrite Habsent; reflexivity.
Defined.

(** A tier limit of -2 and no execution counted today: -2 is returned, a
    negative number other than -1. *)
Lemma negative_limit_is_returned :
  Limiter.GetRemainingExecutions
    (Limiter.NewExecutionLimiter two_below (Some emptyRedis)) clock "user-1"
  = (-2, None) /\
  ~ (fst (Limiter.GetRemainingExecutions
            (Limiter.NewExecutionLimiter two_below (Some emptyRedis)) clock
            "user-1") = -1 \/
     0 <= fst (Limiter.GetRemainingExecutions
                 (Limiter.NewExecutionLimiter two_below (Some emptyRedis))
                 clock "user-1")).
Proof.
  split; [vm_compute; reflexivity |].
  vm_compute. intros [H | H]; [discriminate | by apply H].
Qed.

(** Discovery sorts the extractors by speed and tracks each of them. *)
Example discovered_pool :
  discovered
  = ModelPool.mkPool [fast; slow] [fast] 0 0
      {["fast-model" := ModelPool.newHealth;
        "slow-model" := ModelPool.newHealth]}.
Proof. vm_compute. reflexivity. Qed.

Lemma pool_reachable : ModelPool.reachable database noProviders pool.
Proof. repeat apply ModelPool.reach_failure. apply ModelPool.reach_new. Qed.

(** On the sample pool, which the program can reach, six minutes after the
    fast model's third failure: the fast model is returned, with no error,
    and its record, unhealthy with three consecutive failures before the
    call, is healthy with none after it; the slow model's record is as it
    was. *)
Lemma a_model_is_returned :
  ModelPool.extractors_ok pool /\
  ModelPool.healthTracker pool !! "fast-model"
  = Some (ModelPool.mkHealth 3 0 (now - ModelPool.Minute) 0 false 3) /\
  exists p',
    ModelPool.GetNextExtractor (fun _ => now + 5 * ModelPool.Minute) pool
    = (ModelPool.Selected "fast-model", p') /\
    ModelPool.healthTracker p' !! "fast-model"
    = Some (ModelPool.mkHealth 3 0 (now - ModelPool.Minute) 0 true 0) /\
    ModelPool.healthTracker p' !! "slow-model" = Some ModelPool.newHealth.
Proof.
  destruct (ModelPoolFacts.GetNextExtractor_selects
              (fun _ => now + 5 * ModelPool.Minute) pool)
    as (_ & _ & Hselect & Hreach).
  assert (Hok : ModelPool.extractors_ok pool).
  { apply (Hreach database noProviders pool_reachable).
    vm_compute. discriminate. }
  split; [exact Hok |]. split; [vm_compute; reflexivity |].
  set (r := ModelPool.GetNextExtractor
              (fun _ => now + 5 * ModelPool.Minute) pool) in *.
  assert (E : fst r = ModelPool.Selected "fast-model")
    by (vm_compute; reflexivity).
  exists (snd r). split; [by rewrite <- E; destruct r |].
  destruct (Hselect Hok)
    as [(k & c & h & _ & Hc & _ & _ & Heq & Hrecord & Hother)
       | (_ & c & _ & Heq)].
  - destruct Hrecord as (h' & Hlook & Hh & Hcf & Hf & Hs & Hlf & Hls).
    assert (Hid : ModelPool.ModelID c = "fast-model").
    { rewrite Heq in E. by injection E. }
    apply ModelPoolFacts.candidate_at_tracked in Hc.
    rewrite Hid in Hc, Hlook, Hother.
    assert (Hbefore : ModelPool.healthTracker pool !! "fast-model"
                      = Some (ModelPool.mkHealth
                                3 0 (now - ModelPool.Minute) 0 false 3))
      by (vm_compute; reflexivity).
    rewrite Hbefore in Hc. injection Hc as <-.
    split.
    + rewrite Hlook. destruct h'. cbn in Hh, Hcf, Hf, Hs, Hlf, Hls.
      by subst.
    + rewrite Hother by discriminate. vm_compute. reflexivity.
  - exfalso.
    assert (Hindex : ModelPool.extractorIndex (snd r) = 1)
      by (vm_compute; reflexivity).
    rewrite Heq in Hindex. vm_compute in Hindex. discriminate.
Defined.

(** The unhealthy fast model is passed over and the healthy slow one is
    returned; the index wraps around to 0. *)
Example slow_model_selected :
  ModelPool.GetNextExtractor (fun _ => now) pool
  = (ModelPool.Selected "slow-model", pool).
Proof. vm_compute. reflexivity. Qed.

(** Six minutes after its last failure the fast model is tried again and
    its record is reset. *)
Example fast_model_retried :
  ModelPool.GetNextExtractor (fun _ => now + 5 * ModelPool.Minute) pool
  = (ModelPool.Selected "fast-model",
     ModelPool.mkPool [fast; slow] [fast] 1 0
       (<["fast-model" :=
            ModelPool.mkHealth 3 0 (now - ModelPool.Minute) 0 true 0]>
          (ModelPool.healthTracker pool))).
Proof. vm_compute. reflexivity. Qed.

(** With both models unhealthy and cooling, the first of the list. *)
Example fastest_as_last_resort :
  fst (ModelPool.GetNextExtractor (fun _ => now)
         (ModelPool.MarkFailure now "slow-model"
            (ModelPool.MarkFailure now "slow-model"
               (ModelPool.MarkFailure now "slow-model" pool))))
  = ModelPool.Selected "fast-model".
Proof. vm_compute. reflexivity. Qed.

(** A model id the tracker does not know. *)
Lemma unknown_model_ignored :
  ModelPool.healthTracker pool !! "gpt-unknown" = None /\
  ModelPool.MarkSuccess now "gpt-unknown" pool = pool /\
  ModelPool.MarkFailure now "gpt-unknown" pool = pool.
Proof.
  assert (Hnone : ModelPool.healthTracker pool !! "gpt-unknown" = None).
  { vm_compute. reflexivity. }
  split; [exact Hnone |].
  exact (ModelPoolFacts.untracked_model_is_ignored now "gpt-unknown" pool
           Hnone).
Defined.

(** An agent lookup failure: the client is written one [error] message and
    no [execution_complete]. *)
Example lookup_failure_events :
  Transport.writes
    (fst (Transport.handleExecuteWorkflow version setAgentID
            (handlerOf noAgent (updates, completed) None) run tt "user-1"
            request))
  = [Transport.errorMessage "Agent not found: mongo: no documents in result"].
Proof. vm_compute. reflexivity. Qed.

(** C1, read to the letter, fails: after an agent lookup failure the
    handler writes a single [error] message; no [execution_complete] is
    written, and none reaches the client: whatever the execution, the wire
    has got that message and nothing else once the handler has returned. *)
Lemma lookup_failure_gets_no_execution_complete :
  let events :=
    fst (Transport.handleExecuteWorkflow version setAgentID
           (handlerOf noAgent (updates, completed) None) run tt "user-1"
           request) in
  Transport.writes events
  = [Transport.errorMessage "Agent not found: mongo: no documents in result"] /\
  (forall s,
      Transport.conn_steps (Transport.arrives events [] []) s ->
      Transport.returned s -> Transport.broken s = false ->
      Transport.wire s = Transport.writes events) /\
  ~ (exists m,
        In m (Transport.writes events) /\
        Transport.sm_Type m = "execution_complete").
Proof.
  cbv zeta. split_and!.
  - exact lookup_failure_events.
  - intros s Hsteps [Hprogram Hwriting] Hb.
    destruct (TransportFacts.quiet_connection_steps _ _ Hsteps
                ltac:(by constructor) ltac:(vm_compute; reflexivity))
      as (_ & _ & Heq).
    specialize (Heq Hb). rewrite Hprogram, Hwriting in Heq.
    cbn in Heq. rewrite !app_nil_r in Heq. exact Heq.
  - rewrite lookup_failure_events. intros (m & [<- | []] & Htype).
    discriminate.
Qed.

(** A run whose engine pushes no update, on a fresh connection: no write
    can overlap another, and there is an execution at whose end the wire
    has got [execution_started] and [execution_complete]. *)
Lemma quiet_run_is_closed :
  let events :=
    fst (Transport.handleExecuteWorkflow version setAgentID
           (handlerOf oneAgent ([], completed) None) run tt "user-1"
           request) in
  Transport.pushed events = [] /\
  exists s,
    Transport.conn_steps (Transport.arrives events [] []) s /\
    Transport.returned s /\ Transport.broken s = false /\
    ~ Transport.concurrent_write s /\
    map Transport.sm_Type (Transport.wire s)
    = ["execution_started"; "execution_complete"] /\
    Transport.closings (Transport.wire s) = 1%nat.
Proof.
  cbv zeta.
  assert (Hnone :
    Transport.pushed
      (fst (Transport.handleExecuteWorkflow version setAgentID
              (handlerOf oneAgent ([], completed) None) run tt "user-1"
              request)) = []) by (vm_compute; reflexivity).
  split; [exact Hnone |].
  destruct (TransportFacts.closing_message_sent version setAgentID
              (handlerOf oneAgent ([], completed) None) run tt "user-1"
              request)
    as (_ & _ & _ & Hexists & Hquiet).
  destruct (Hexists [] [] eq_refl) as (s & Hsteps & Hreturned & Hb & Hone).
  destruct (Hquiet [] [] s ltac:(by constructor) Hnone Hsteps)
    as [Hsafe Hwire].
  exists s. split_and!; [done | done | done | done | | done].
  rewrite (Hwire Hreturned Hb). vm_compute. reflexivity.
Defined.

(** An agent without workflow is answered with an [error] message too. *)
Example nil_workflow_events :
  Transport.writes
    (fst (Transport.handleExecuteWorkflow version setAgentID
            (handlerOf (fun _ _ => Ok (Transport.mkAgent "draft" None))
                       (updates, completed) None)
            run tt "user-1" request))
  = [Transport.errorMessage "Agent has no workflow defined"].
Proof. vm_compute. reflexivity. Qed.

(** A run that reaches the engine: started, then complete. *)
Example completed_run_events :
  map Transport.sm_Type
    (Transport.writes
       (fst (Transport.handleExecuteWorkflow version setAgentID
               (handlerOf oneAgent (updates, completed) None) run tt
               "user-1" request)))
  = ["execution_started"; "execution_complete"].
Proof. vm_compute. reflexivity. Qed.

(** An engine error is reported with [execution_complete], status failed. *)
Example failed_run_events :
  Transport.writes
    (fst (Transport.handleExecuteWorkflow version setAgentID
            (handlerOf oneAgent (updates, Err "cycle detected") None) run tt
            "user-1" request))
  = [Transport.startedMessage "0b1c2d3e";
     Transport.failedMessage "0b1c2d3e" 1250 "cycle detected"].
Proof. vm_compute. reflexivity. Qed.

(** The sample run reaches the engine and closes the channel once, after
    the two updates. *)
Lemma sample_run_closes_once :
  let events :=
    fst (Transport.handleExecuteWorkflow version setAgentID
           (handlerOf oneAgent (updates, completed) None) run tt "user-1"
           request) in
  Transport.reaches_engine events = true /\
  Transport.closes events = 1%nat /\
  Transport.chanOps events
  = [Transport.Send (Transport.mkUpdate "" "start" "running" None None "");
     Transport.Send (Transport.mkUpdate "" "start" "completed" None None "");
     Transport.Close].
Proof.
  cbv zeta.
  assert (Hreach :
    Transport.reaches_engine
      (fst (Transport.handleExecuteWorkflow version setAgentID
              (handlerOf oneAgent (updates, completed) None) run tt "user-1"
              request)) = true).
  { vm_compute. reflexivity. }
  split; [exact Hreach |].
  destruct (TransportFacts.statusChan_closed_once version setAgentID
              (handlerOf oneAgent (updates, completed) None) run tt "user-1"
              request Hreach)
    as (before & wf & input & opts & ups & outcome & execID & oid
        & _ & Hrun & _ & _ & Hcloses & Hops & _).
  split; [exact Hcloses |].
  rewrite Hops. cbn in Hrun. injection Hrun as <- _. reflexivity.
Defined.

(** With Redis unreachable the limiter returns an error: the error is
    logged, the engine is called with the agent's workflow, and the client
    is written [execution_started] and [execution_complete], as with no
    limiter, and not the limit message. *)
Lemma broken_redis_run_goes_on :
  let h := handlerOf oneAgent (updates, completed) (Some brokenLimiter) in
  let events :=
    fst (Transport.handleExecuteWorkflow version setAgentID h run tt
           "user-1" request) in
  Limiter.GetRemainingExecutions brokenLimiter clock "user-1"
  = (-1, Some (Limiter.OtherError "dial tcp: connection refused")) /\
  Transport.writes events
  = Transport.writes
      (fst (Transport.handleExecuteWorkflow version setAgentID
              (Transport.without_limiter h) run tt "user-1" request)) /\
  (exists rest,
      events
      = Transport.EvLog (Transport.LogReceived "agent-1" None)
        :: Transport.EvLog
             (Transport.LogLimitCheckFailed
                (Limiter.OtherError "dial tcp: connection refused"))
        :: rest) /\
  Transport.reaches_engine events = true /\
  (exists before opts after,
      events
      = before ++
        Transport.EvExecute tt 7
          {["__user_id__" := Transport.AString "user-1"]} opts :: after) /\
  map Transport.sm_Type (Transport.writes events)
  = ["execution_started"; "execution_complete"] /\
  ~ In (Transport.errorMessage Transport.limitExceededText)
       (Transport.writes events).
Proof.
  cbv zeta.
  assert (Herr :
    Limiter.GetRemainingExecutions brokenLimiter clock "user-1"
    = (-1, Some (Limiter.OtherError "dial tcp: connection refused"))).
  { vm_compute. reflexivity. }
  split; [exact Herr |].
  destruct (TransportFacts.limiter_errors_fail_open
              (Ctx := unit) (BlockStates := unit) (Artifacts := unit)
              (Files := unit) version setAgentID)
    as (_ & _ & Hopen & _).
  destruct (Hopen (handlerOf oneAgent (updates, completed)
                             (Some brokenLimiter))
                  run tt "user-1" request brokenLimiter (-1)
                  (Limiter.OtherError "dial tcp: connection refused")
                  eq_refl Herr)
    as (_ & Hsame & Hnot & Hlogged & _ & Hrun).
  destruct (Hrun (Transport.mkAgent "summarise the news" (Some 7)) 7
                 eq_refl eq_refl ltac:(discriminate))
    as (Hreach & (before & after & Hexec) & execID & final & Hwrites & Htype).
  split_and!.
  - exact Hsame.
  - exact Hlogged.
  - exact Hreach.
  - exists before. eexists. exists after. exact Hexec.
  - rewrite Hwrites. cbn. by rewrite Htype.
  - exact Hnot.
Defined.

End Examples.

(** ** More concrete runs *)

Module MoreExamples.

Import Samples.

(** *** The model pool *)

(** Six minutes after its third failure the only selector of the sample
    pool is taken again: it is returned, and its record, unhealthy with
    three consecutive failures before the call, is healthy with none after
    it; the slow model's record and the extractor index are as they
    were. *)
Lemma a_selector_is_returned :
  ModelPool.selectors_ok pool /\
  ModelPool.healthTracker pool !! "fast-model"
  = Some (ModelPool.mkHealth 3 0 (now - ModelPool.Minute) 0 false 3) /\
  exists p',
    ModelPool.GetNextSelector (fun _ => now + 5 * ModelPool.Minute) pool
    = (ModelPool.Selected "fast-model", p') /\
    ModelPool.healthTracker p' !! "fast-model"
    = Some (ModelPool.mkHealth 3 0 (now - ModelPool.Minute) 0 true 0) /\
    ModelPool.healthTracker p' !! "slow-model" = Some ModelPool.newHealth /\
    ModelPool.extractorIndex p' = ModelPool.extractorIndex pool.
Proof.
  destruct (ModelPoolMore.GetNextSelector_selects
              (fun _ => now + 5 * ModelPool.Minute) pool)
    as (_ & _ & Hselect & Hreach).
  assert (Hok : ModelPool.selectors_ok pool).
  { apply (Hreach database noProviders Examples.pool_reachable).
    vm_compute. discriminate. }
  split; [exact Hok |]. split; [vm_compute; reflexivity |].
  set (r := ModelPool.GetNextSelector
              (fun _ => now + 5 * ModelPool.Minute) pool) in *.
  assert (E : fst r = ModelPool.Selected "fast-model")
    by (vm_compute; reflexivity).
  exists (snd r). split; [by rewrite <- E; destruct r |].
  destruct (Hselect Hok)
    as [(k & c & h & _ & Hc & _ & _ & Heq & Hrecord & Hother)
       | (_ & c & _ & Heq)].
  - destruct Hrecord as (h' & Hlook & Hh & Hcf & Hf & Hs & Hlf & Hls).
    assert (Hid : ModelPool.ModelID c = "fast-model").
    { rewrite Heq in E. by injection E. }
    apply ModelPoolMore.selector_at_tracked in Hc.
    rewrite Hid in Hc, Hlook, Hother.
    assert (Hbefore : ModelPool.healthTracker pool !! "fast-model"
                      = Some (ModelPool.mkHealth
                                3 0 (now - ModelPool.Minute) 0 false 3))
      by (vm_compute; reflexivity).
    rewrite Hbefore in Hc. injection Hc as <-.
    split_and!.
    + rewrite Hlook. destruct h'. cbn in Hh, Hcf, Hf, Hs, Hlf, Hls.
      by subst.
    + rewrite Hother by discriminate. vm_compute. reflexivity.
    + by rewrite Heq.
  - exfalso.
    assert (Hlook : ModelPool.healthTracker (snd r) !! "fast-model"
                    = Some (ModelPool.mkHealth
                              3 0 (now - ModelPool.Minute) 0 true 0))
      by (vm_compute; reflexivity).
    rewrite Heq in Hlook. vm_compute in Hlook. discriminate.
Defined.

(** The two rows that scan fill the pool; [providers.json] is not looked
    at. *)
Lemma sample_rows_fill_the_pool :
  omap id rows <> [] /\
  ModelPool.extractorModels
    (ModelPool.NewMemoryModelPool (Some (Ok rows)) (Ok providersFile))
  = [fast; slow] /\
  ModelPool.selectorModels
    (ModelPool.NewMemoryModelPool (Some (Ok rows)) (Ok providersFile))
  = [fast].
Proof.
  assert (Hrows : omap id rows <> []) by (vm_compute; discriminate).
  destruct (ModelPoolMore.database_models_take_precedence rows
              (Ok providersFile) Hrows) as (He & Hs & _).
  cbv zeta in He, Hs.
  split; [exact Hrows |]. rewrite He, Hs. split; vm_compute; reflexivity.
Defined.

(** With no database the enabled provider's aliases fill the pool, and the
    disabled provider's fast model is not among them. *)
Lemma sample_providers_fill_the_pool :
  ModelPool.no_database_models None /\
  ModelPool.extractorModels
    (ModelPool.NewMemoryModelPool None (Ok providersFile))
  = [fast] /\
  ModelPool.selectorModels
    (ModelPool.NewMemoryModelPool None (Ok providersFile))
  = [ModelPool.mkCandidate "plain-model" "provider-a" 999999 "Plain"].
Proof.
  assert (Hnone : ModelPool.no_database_models None) by exact I.
  destruct (ModelPoolMore.providers_are_the_fallback None Hnone)
    as (Hfile & _).
  destruct (Hfile providersFile) as (He & Hs & _). cbv zeta in He, Hs.
  split; [exact Hnone |]. rewrite He, Hs. split; vm_compute; reflexivity.
Defined.

(** The sample pool: two extractors, one of them healthy; one selector,
    unhealthy. *)
Lemma sample_pool_statistics :
  ModelPool.reachable database noProviders pool /\
  ModelPool.GetStats pool = Some (ModelPool.mkStats 2 1 1 0).
Proof.
  split; [exact Examples.pool_reachable |].
  destruct (ModelPoolMore.GetStats_counts database noProviders pool
              Examples.pool_reachable) as [(s & Hs & _) _].
  rewrite Hs. vm_compute in Hs. injection Hs as <-. reflexivity.
Defined.

(** Three failures of the fast model of a new pool. *)
Lemma fast_model_struck_out :
  ModelPool.healthTracker discovered !! "fast-model"
  = Some ModelPool.newHealth /\
  exists h,
    ModelPool.healthTracker pool !! "fast-model" = Some h /\
    ModelPool.IsHealthy h = false /\
    ModelPool.ConsecutiveFails h = 3.
Proof.
  assert (Hh : ModelPool.healthTracker discovered !! "fast-model"
               = Some ModelPool.newHealth) by (vm_compute; reflexivity).
  split; [exact Hh |].
  destruct (ModelPoolMore.three_failures_mark_unhealthy
              (now - 3 * ModelPool.Minute) (now - 2 * ModelPool.Minute)
              (now - ModelPool.Minute) "fast-model" discovered
              ModelPool.newHealth Hh)
    as ((h & Hlookup & Hsick & Hfails & _) & _).
  - vm_compute. discriminate.
  - vm_compute. discriminate.
  - exists h. split; [exact Hlookup |]. split; [exact Hsick |].
    rewrite Hfails. reflexivity.
Defined.

(** A success between the failures keeps the fast model healthy. *)
Lemma fast_model_streak_broken :
  exists h,
    ModelPool.healthTracker
      (ModelPool.MarkFailure now "fast-model"
         (ModelPool.MarkFailure now "fast-model"
            (ModelPool.MarkSuccess now "fast-model"
               (ModelPool.MarkFailure now "fast-model"
                  (ModelPool.MarkFailure now "fast-model" discovered)))))
    !! "fast-model" = Some h /\
    ModelPool.IsHealthy h = true /\
    ModelPool.ConsecutiveFails h = 2.
Proof.
  destruct (ModelPoolMore.success_resets_failure_streak now now now
              "fast-model"
              (ModelPool.MarkFailure now "fast-model"
                 (ModelPool.MarkFailure now "fast-model" discovered))
              (ModelPool.mkHealth 2 0 now 0 true 2))
    as (h & Hlookup & Hhealthy & Hfails & _).
  - vm_compute. reflexivity.
  - reflexivity.
  - exists h. split; [exact Hlookup |]. split; [exact Hhealthy | exact Hfails].
Defined.

(** The fast model of the sample pool never succeeded: one success does not
    make it healthy, the second does. *)
Lemma fast_model_recovers :
  (exists h1,
      ModelPool.healthTracker (ModelPool.MarkSuccess now "fast-model" pool)
      !! "fast-model" = Some h1 /\
      ModelPool.IsHealthy h1 = false) /\
  (exists h2,
      ModelPool.healthTracker
        (ModelPool.MarkSuccess now "fast-model"
           (ModelPool.MarkSuccess now "fast-model" pool))
      !! "fast-model" = Some h2 /\
      ModelPool.IsHealthy h2 = true).
Proof.
  destruct (ModelPoolMore.success_restores_health now now "fast-model" pool
              (ModelPool.mkHealth 3 0 (now - ModelPool.Minute) 0 false 3))
    as [(h1 & Hlookup1 & Hhealth1 & _) (h2 & Hlookup2 & Hhealth2 & _)].
  - vm_compute. reflexivity.
  - reflexivity.
  - vm_compute. discriminate.
  - vm_compute. discriminate.
  - split; [exists h1 | exists h2]; split; assumption.
Defined.

(** Two calls on the new pool: the fast model, then the slow one, and the
    pool is as before. *)
Lemma sample_extractors_take_turns :
  ModelPool.extractors_ok discovered /\
  ModelPool.all_healthy discovered /\
  ModelPool.drawExtractors (fun _ => now) 2 discovered
  = ([ModelPool.Selected "fast-model"; ModelPool.Selected "slow-model"],
     discovered).
Proof.
  assert (Hok : ModelPool.extractors_ok discovered).
  { apply ModelPoolFacts.extractors_okb_spec. vm_compute. reflexivity. }
  assert (Hhealthy : ModelPool.all_healthy discovered).
  { intros c Hc. exists ModelPool.newHealth.
    apply list_elem_of_In in Hc. vm_compute in Hc.
    destruct Hc as [<- | [<- | []]]; split; vm_compute; reflexivity. }
  split; [exact Hok |]. split; [exact Hhealthy |].
  destruct (ModelPoolMore.healthy_extractors_take_turns (fun _ => now) 2
              discovered Hok Hhealthy) as (_ & _ & _ & Hround).
  destruct (Hround ltac:(vm_compute; reflexivity)) as [Hfst Hsnd].
  rewrite (surjective_pairing (ModelPool.drawExtractors _ _ _)).
  rewrite Hfst, Hsnd. vm_compute. reflexivity.
Defined.

(** *** The limiter *)

(** Three of five used: the middleware stores the key and goes on. *)
Lemma sample_user_not_limited :
  Limiter.CheckLimit limiter clock (Limiter.LocalString "user-1")
  = (Limiter.Next (Some key), []) /\
  exists remaining,
    0 < remaining /\
    Limiter.GetRemainingExecutions limiter clock "user-1" = (remaining, None).
Proof.
  assert (Hcheck :
    Limiter.CheckLimit limiter clock (Limiter.LocalString "user-1")
    = (Limiter.Next (Some key), [])) by (vm_compute; reflexivity).
  split; [exact Hcheck |].
  destruct (LimiterMore.CheckLimit_agrees_with_remaining limiter clock
              "user-1" redisClient) as (_ & Hnext & _).
  - reflexivity.
  - vm_compute. split; discriminate.
  - intros n Hn. vm_compute in Hn. injection Hn as <-. lia.
  - cbv zeta in Hnext. apply Hnext. rewrite Hcheck. reflexivity.
Defined.

(** The fourth run of the day leaves one. *)
Lemma sample_user_uses_one :
  Limiter.counts redisClient key 3 /\
  exists rc',
    fst (Limiter.IncrementCount limiter clock "user-1")
    = (None, Limiter.mkLimiter five_a_day (Some rc')) /\
    Limiter.GetRemainingExecutions
      (Limiter.mkLimiter five_a_day (Some rc')) clock "user-1"
    = (1, None).
Proof.
  assert (Hcounts : Limiter.counts redisClient key 3).
  { split; [reflexivity |]. left. vm_compute. reflexivity. }
  split; [exact Hcounts |].
  destruct (LimiterMore.IncrementCount_uses_one_execution limiter clock
              "user-1" redisClient 3)
    as (rc' & Heq & _ & _ & _ & _ & Hafter).
  - reflexivity.
  - exact Hcounts.
  - vm_compute. split; [discriminate | reflexivity].
  - vm_compute. split; discriminate.
  - exists rc'. rewrite Heq. split; [reflexivity | exact Hafter].
Defined.

(** Five runs from a fresh day use up a quota of five. *)
Lemma sample_quota_runs_out :
  Limiter.GetRemainingExecutions
    (Limiter.incrementTimes 5 freshLimiter clock "user-1") clock "user-1"
  = (0, None) /\
  Limiter.rate_limited
    (fst (Limiter.CheckLimit
            (Limiter.incrementTimes 5 freshLimiter clock "user-1") clock
            (Limiter.LocalString "user-1"))) = true.
Proof.
  destruct (LimiterMore.daily_quota_is_enforced freshLimiter clock "user-1"
              emptyRedis 5) as (Hleft & _ & Hblocked).
  - reflexivity.
  - reflexivity.
  - vm_compute. reflexivity.
  - vm_compute. split; discriminate.
  - vm_compute. discriminate.
  - cbv zeta in Hleft, Hblocked. split.
    + rewrite Hleft. reflexivity.
    + rewrite Hblocked; [reflexivity |]. vm_compute. discriminate.
Defined.

(** *** The transport *)

(** The sample run with a limiter: counted once, for [user-1]. *)
Lemma sample_run_is_counted :
  let h := handlerOf oneAgent (updates, completed) (Some limiter) in
  let events :=
    fst (Transport.handleExecuteWorkflow version setAgentID h run tt "user-1"
           request) in
  Transport.reaches_engine events = true /\
  Transport.increments events = ["user-1"] /\
  snd (Transport.handleExecuteWorkflow version setAgentID h run tt "user-1"
         request)
  = Transport.counted (Some limiter) run "user-1".
Proof.
  cbv zeta.
  assert (Hreach :
    Transport.reaches_engine
      (fst (Transport.handleExecuteWorkflow version setAgentID
              (handlerOf oneAgent (updates, completed) (Some limiter)) run tt
              "user-1" request)) = true) by (vm_compute; reflexivity).
  split; [exact Hreach |].
  destruct (TransportMore.started_runs_are_counted_once version setAgentID
              (handlerOf oneAgent (updates, completed) (Some limiter)) run tt
              "user-1" request) as (_ & Hrun).
  destruct (Hrun Hreach) as (Hincrements & Hlimiter & _).
  split; [exact Hincrements | exact Hlimiter].
Defined.

(** The sample run with an execution service: one record, completed with
    the result's status. *)
Lemma sample_run_is_recorded :
  let events :=
    fst (Transport.handleExecuteWorkflow version setAgentID
           (recordingHandler (updates, completed)) run tt "user-1" request) in
  Transport.reaches_engine events = true /\
  exists req,
    Transport.completes events = [(recordID, req)] /\
    Transport.cc_Status req = "completed".
Proof.
  cbv zeta.
  assert (Hreach :
    Transport.reaches_engine
      (fst (Transport.handleExecuteWorkflow version setAgentID
              (recordingHandler (updates, completed)) run tt "user-1"
              request)) = true) by (vm_compute; reflexivity).
  split; [exact Hreach |].
  destruct (TransportMore.execution_record_follows_the_run version setAgentID
              (recordingHandler (updates, completed)) run tt "user-1" request)
    as (Hservice & _).
  destruct (Hservice _ eq_refl) as (Hrun & _).
  destruct (Hrun Hreach)
    as (agent & wf & ups & outcome & id & req & final & _ & _ & Hexec
        & Hcreate & _ & Hcompletes & Hreports & _).
  cbn in Hexec, Hcreate. injection Hexec as <- <-. injection Hcreate as <-.
  exists req. split; [exact Hcompletes |].
  destruct Hreports as (Hstatus & _). exact Hstatus.
Defined.

(** The sample run, whose engine pushes two updates, on a fresh
    connection: there is an execution in which both updates are on the
    wire before [execution_complete], and one in which the connection's
    goroutine comes to write [execution_complete] while the forwarding
    goroutine is inside a write. *)
Lemma sample_run_on_the_wire :
  let events :=
    fst (Transport.handleExecuteWorkflow version setAgentID
           (handlerOf oneAgent (updates, completed) None) run tt "user-1"
           request) in
  Transport.reaches_engine events = true /\
  (exists s,
      Transport.conn_steps (Transport.arrives events [] []) s /\
      Transport.returned s /\ Transport.broken s = false /\
      map Transport.sm_Type (Transport.wire s)
      = ["execution_started"; "execution_update"; "execution_update";
         "execution_complete"] /\
      map Transport.sm_ExecutionID (Transport.wire s)
      = ["0b1c2d3e"; "0b1c2d3e"; "0b1c2d3e"; "0b1c2d3e"]) /\
  (exists s final,
      Transport.conn_steps (Transport.arrives events [] []) s /\
      Transport.concurrent_write s /\
      Transport.program s = [Transport.EvWrite final] /\
      Transport.sm_Type final = "execution_complete").
Proof.
  cbv zeta.
  assert (Hreach :
    Transport.reaches_engine
      (fst (Transport.handleExecuteWorkflow version setAgentID
              (handlerOf oneAgent (updates, completed) None) run tt "user-1"
              request)) = true) by (vm_compute; reflexivity).
  split; [exact Hreach |].
  destruct (TransportMore.started_run_on_the_wire version setAgentID
              (handlerOf oneAgent (updates, completed) None) run tt "user-1"
              request Hreach)
    as (execID & final & Htype & Hwrites & Hgood & _ & Hrace & _).
  vm_compute in Hwrites. injection Hwrites as <- <-.
  split.
  - destruct (Hgood [] [] eq_refl) as (s & Hsteps & Hreturned & Hb & Hwire).
    exists s. split_and!; [done | done | done | |];
      rewrite Hwire; vm_compute; reflexivity.
  - destruct (Hrace ltac:(vm_compute; discriminate) [] [] eq_refl)
      as (s & Hsteps & Hcw & Hprogram & _).
    eexists s, _. split_and!; [done | done | exact Hprogram |].
    vm_compute. reflexivity.
Defined.

(** On the sample connection, whose runs push updates: there is an
    execution at whose end the connection's goroutine has its six
    messages on the wire, [connected] first, three of them closing. *)
Lemma sample_connection_is_answered :
  exists s,
    Transport.conn_steps
      (Transport.arrives (Transport.conn_program trace) [] []) s /\
    Transport.settled s /\ Transport.broken s = false /\
    map Transport.sm_Type (List.filter Transport.own (Transport.wire s))
    = ["connected"; "execution_started"; "execution_complete"; "error";
       "execution_started"; "execution_complete"] /\
    head (Transport.wire s) = Some Transport.connectedMessage /\
    Transport.closings (Transport.wire s) = 3%nat.
Proof.
  destruct (TransportMore.connection_answers_each_request version setAgentID
              contexts (handlerOf oneAgent (updates, completed) None)
              "user-1" (fun _ => run) frames)
    as (_ & _ & _ & _ & _ & _ & Hwire & (s & Hsteps & Hsettled & Hb) & _).
  destruct (Hwire s Hsteps (proj1 Hsettled) Hb) as (Hown & Hhead & Hclosings).
  exists s. split_and!; [done | done | done | | done |].
  - rewrite Hown. vm_compute. reflexivity.
  - rewrite Hclosings. vm_compute. reflexivity.
Defined.

(** On the sample connection the second run starts under the context made
    after the cancel, which nothing has cancelled. *)
Lemma second_run_has_a_live_context :
  exists pre events post,
    trace = pre ++ Transport.ConnHandle 1 events :: post /\
    Transport.ConnContext 1 ∈ pre /\
    (Transport.ConnCancel 1 ∉ pre) /\
    last trace = Some (Transport.ConnCancel 0).
Proof.
  destruct (TransportMore.cancel_never_interrupts_a_run version setAgentID
              contexts (handlerOf oneAgent (updates, completed) None)
              "user-1" (fun _ => run) frames) as (Hlive & Hlast).
  exists (take 6 trace),
         (fst (Transport.handleExecuteWorkflow version setAgentID
                 (handlerOf oneAgent (updates, completed) None) run tt
                 "user-1" request)),
         (drop 7 trace).
  assert (Hsplit :
    trace
    = take 6 trace ++
      Transport.ConnHandle 1
        (fst (Transport.handleExecuteWorkflow version setAgentID
                (handlerOf oneAgent (updates, completed) None) run tt
                "user-1" request)) :: drop 7 trace)
    by (vm_compute; reflexivity).
  destruct (Hlive _ _ _ _ Hsplit) as (Hcontext & Hcancel & _).
  split; [exact Hsplit |]. split; [exact Hcontext |].
  split; [exact Hcancel | exact Hlast].
Defined.

(** *** The bridge *)

Lemma bridge_served : Bridge.served bridge.
Proof.
  apply (Bridge.served_register Bridge.NewMCPBridgeService "user-1"
           registration surroundings (Ok 0%nat) bridge
           [Bridge.DbInsertConnection "user-1" "client-1";
            Bridge.DbSelectConnectionID "client-1";
            Bridge.RegisterUserTool "user-1" "read_file";
            Bridge.DbStoreTool "user-1" 1 "read_file";
            Bridge.SendAck 0%nat 1%nat]).
  - apply Bridge.served_new.
  - vm_compute. reflexivity.
Qed.

(** With [client-1] registered no call crashes, and its connection is
    open. *)
Lemma sample_bridge_is_safe :
  Bridge.served bridge /\
  Bridge.open_connections bridge /\
  Bridge.DisconnectClient bridge "client-1" <> Bridge.Panics.
Proof.
  destruct (BridgeFacts.channels_are_closed_once bridge bridge_served)
    as (Hopen & _ & Hdisconnect & _).
  split; [exact bridge_served |]. split; [exact Hopen |].
  apply Hdisconnect.
Defined.

(** A second client of another user is found under its own ids. *)
Lemma sample_client_is_found :
  exists conn s',
    Bridge.RegisterClient bridge "user-2"
      (Bridge.mkRegistration "client-2" "1.0.0" "darwin" []) surroundings
    = Bridge.Returns (Ok conn) s'
        [Bridge.DbInsertConnection "user-2" "client-2";
         Bridge.DbSelectConnectionID "client-2"; Bridge.SendAck conn 0%nat] /\
    Bridge.GetUserConnection s' "user-2" = Some conn /\
    Bridge.GetUserConnection s' "user-1" = Some 0%nat.
Proof.
  destruct (BridgeFacts.registered_client_is_found bridge "user-2"
              (Bridge.mkRegistration "client-2" "1.0.0" "darwin" [])
              surroundings bridge_served) as (Hok & _).
  destruct (Hok eq_refl) as (conn & s' & effects & c & Heq & _ & Huser & _).
  exists conn, s'. vm_compute in Heq. injection Heq as <- <- <-.
  split; [vm_compute; reflexivity |].
  split; [exact Huser | vm_compute; reflexivity].
Defined.

(** Disconnecting [client-1] empties the bridge. *)
Lemma sample_client_is_gone :
  Bridge.GetConnection bridge "client-1" = Some 0%nat /\
  exists s',
    Bridge.DisconnectClient bridge "client-1"
    = Bridge.Returns None s'
        [Bridge.DbMarkInactive "client-1";
         Bridge.UnregisterAllUserTools "user-1";
         Bridge.CloseStopChan 0%nat; Bridge.CloseWriteChan 0%nat] /\
    Bridge.IsUserConnected s' "user-1" = false /\
    Bridge.GetConnectionCount s' = 0.
Proof.
  assert (Hk : Bridge.connections bridge !! "client-1" = Some 0%nat)
    by (vm_compute; reflexivity).
  split; [exact Hk |].
  destruct (BridgeFacts.disconnected_client_is_gone bridge "client-1"
              bridge_served) as (_ & Hknown).
  destruct (Hknown 0%nat Hk)
    as (c & s' & Hc & Heq & _ & _ & Huser & _ & _ & Hcount & _).
  vm_compute in Hc. injection Hc as <-.
  exists s'. split; [exact Heq |]. split; [exact Huser |].
  rewrite Hcount. vm_compute. reflexivity.
Defined.

Lemma bridge_served_apart : Bridge.served_apart bridge.
Proof.
  apply (Bridge.apart_register Bridge.NewMCPBridgeService "user-1"
           registration surroundings (Ok 0%nat) bridge
           [Bridge.DbInsertConnection "user-1" "client-1";
            Bridge.DbSelectConnectionID "client-1";
            Bridge.RegisterUserTool "user-1" "read_file";
            Bridge.DbStoreTool "user-1" 1 "read_file";
            Bridge.SendAck 0%nat 1%nat]).
  - apply Bridge.apart_new.
  - intros conn c Hk. vm_compute in Hk. discriminate.
  - vm_compute. reflexivity.
Qed.

(** [user-1] reaches the connection it registered. *)
Lemma sample_user_reaches_own_client :
  Bridge.served_apart bridge /\
  Bridge.GetUserConnection bridge "user-1" = Some 0%nat /\
  exists c,
    Bridge.heap bridge !! 0%nat = Some c /\
    Bridge.UserID c = "user-1".
Proof.
  assert (Hget : Bridge.GetUserConnection bridge "user-1" = Some 0%nat)
    by (vm_compute; reflexivity).
  destruct (BridgeFacts.users_reach_their_own_client bridge
              bridge_served_apart) as (Hown & _).
  destruct (Hown "user-1" 0%nat Hget) as (c & Hc & Huser & _).
  split; [exact bridge_served_apart |]. split; [exact Hget |].
  exists c. split; [exact Hc | exact Huser].
Defined.

(** Two users registering under [client-1]: the first is answered the
    second's connection. *)
Lemma sample_collision :
  exists conn2 s2 c2,
    Bridge.RegisterClient bridge "user-2" registration surroundings
    = Bridge.Returns (Ok conn2) s2
        [Bridge.DbInsertConnection "user-2" "client-1";
         Bridge.DbSelectConnectionID "client-1";
         Bridge.RegisterUserTool "user-2" "read_file";
         Bridge.DbStoreTool "user-2" 1 "read_file";
         Bridge.SendAck conn2 1%nat] /\
    Bridge.GetUserConnection s2 "user-1" = Some conn2 /\
    Bridge.heap s2 !! conn2 = Some c2 /\
    Bridge.UserID c2 = "user-2".
Proof.
  destruct (BridgeFacts.shared_client_id_crosses_users
              Bridge.NewMCPBridgeService "user-1" "user-2" registration
              registration surroundings surroundings)
    as (conn1 & s1 & effects1 & conn2 & s2 & effects2 & c1 & c2 & Hfirst
        & Hsecond & _ & _ & _ & _ & _ & Hc2 & Huser2 & Hget & _);
    try reflexivity.
  { discriminate. }
  vm_compute in Hfirst. injection Hfirst as <- <- <-.
  exists conn2, s2, c2. split; [| by split_and!].
  vm_compute in Hsecond. injection Hsecond as <- <- <-.
  vm_compute. reflexivity.
Defined.

End MoreExamples.
